(** * Pixel history of the Vulkan replay driver (vk_pixelhistory.cpp)

    A shallow embedding of the parts of
    [renderdoc/driver/vulkan/vk_pixelhistory.cpp] that decide which events
    enter a pixel's history, which occlusion queries the passes issue and how
    their results are read back, which pipelines the test-failure pass
    creates, where the colour and the per-fragment pass store the pixel in
    the read-back buffer, how the shader cache hands out side-effect free
    shader modules and how a scissor is narrowed to the target pixel.

    Machine integers are [Z] with the wrap-around of the C++ type written out,
    [std::map] is [gmap], [rdcarray] is [list], and the GPU (query results,
    read-back buffers) is an environment the definitions take as an argument. *)

From Stdlib Require Import ZArith List Lia Bool SpecFloat.
From stdpp Require Import base option list gmap strings sorting.

Set Default Proof Using "Type".
#[local] Set Warnings "-clear-no-such-hyp".

Local Open Scope Z_scope.

(** ** Machine integers *)

Definition u32 (z : Z) : Z := z mod 2 ^ 32.

(** conversion of a 32-bit pattern to [int32_t] *)
Definition i32 (z : Z) : Z :=
  let w := z mod 2 ^ 32 in if (w <? 2 ^ 31)%Z then w else (w - 2 ^ 32)%Z.

(** [if(flags & bit)] *)
Definition has_flag (flags bit : Z) : bool := negb (Z.land flags bit =? 0)%Z.

(** [if(cond) flags |= bit;] *)
Definition set_if (cond : bool) (bit flags : Z) : Z :=
  if cond then Z.lor flags bit else flags.

(** ** The event flags (anonymous enum at the top of the file) *)

Definition TestEnabled_Culling : Z := Z.shiftl 1 0.
Definition TestEnabled_Scissor : Z := Z.shiftl 1 1.
Definition TestEnabled_SampleMask : Z := Z.shiftl 1 2.
Definition TestEnabled_DepthBounds : Z := Z.shiftl 1 3.
Definition TestEnabled_StencilTesting : Z := Z.shiftl 1 4.
Definition TestEnabled_DepthTesting : Z := Z.shiftl 1 5.
Definition TestEnabled_FragmentDiscard : Z := Z.shiftl 1 6.
Definition Blending_Enabled : Z := Z.shiftl 1 7.
Definition UnboundFragmentShader : Z := Z.shiftl 1 8.
Definition TestMustFail_Culling : Z := Z.shiftl 1 9.
Definition TestMustFail_Scissor : Z := Z.shiftl 1 10.
Definition TestMustPass_Scissor : Z := Z.shiftl 1 11.
Definition TestMustFail_DepthTesting : Z := Z.shiftl 1 12.
Definition TestMustFail_StencilTesting : Z := Z.shiftl 1 13.
Definition TestMustFail_SampleMask : Z := Z.shiftl 1 14.

(** ** Vulkan enumerators used by the file (values of vulkan_core.h) *)

Definition VK_FORMAT_UNDEFINED : Z := 0.
Definition VK_CULL_MODE_NONE : Z := 0.
Definition VK_CULL_MODE_FRONT_BIT : Z := 1.
Definition VK_CULL_MODE_BACK_BIT : Z := 2.
Definition VK_CULL_MODE_FRONT_AND_BACK : Z := 3.
Definition VK_COMPARE_OP_NEVER : Z := 0.
Definition VK_COMPARE_OP_ALWAYS : Z := 7.
Definition VK_NULL_HANDLE : Z := 0.

(** ** Vulkan structures *)

(** [VkOffset2D]: two [int32_t]. *)
Record VkOffset2D := { off_x : Z; off_y : Z }.
(** [VkExtent2D]: two [uint32_t]. *)
Record VkExtent2D := { ext_width : Z; ext_height : Z }.
Record VkRect2D := { offset : VkOffset2D; extent : VkExtent2D }.

(** The fields of [VulkanCreationInfo::Pipeline] that the file reads.
    [fragmentModule] is [shaders[StageIndex(VK_SHADER_STAGE_FRAGMENT_BIT)].module],
    [dynamicScissor] is [dynamicStates[VkDynamicScissor]], and
    [blendEnables] lists [attachments[i].blendEnable]. *)
Record Pipeline := {
  cullMode : Z;
  depthBoundsEnable : bool;
  depthTestEnable : bool;
  depthCompareOp : Z;
  stencilTestEnable : bool;
  front_compareOp : Z;
  back_compareOp : Z;
  dynamicScissor : bool;
  scissors : list VkRect2D;
  blendEnables : list bool;
  fragmentModule : Z;
  sampleMask : Z
}.

(** The part of [VulkanRenderState] that [CalculateEventFlags] reads. *)
Record VulkanRenderState := { state_scissors : list VkRect2D }.

(** The fields of [PixelHistoryCallbackInfo] that take part in decisions. *)
Record PixelHistoryCallbackInfo := {
  targetImageFormat : Z;
  samples : Z;
  cb_x : Z;
  cb_y : Z;
  cb_sampleMask : Z
}.

(** The one field of [m_pDriver->GetDeviceFeatures()] the file reads. *)
Record VkPhysicalDeviceFeatures := { independentBlend : bool }.

(** A draw of the frame as the replay reaches it: its event id, the bound
    graphics pipeline and the render state. *)
Record Draw := {
  draw_eid : Z;
  draw_pipeline : Pipeline;
  draw_state : VulkanRenderState
}.

(** [rdcarray::contains] *)
Definition contains (l : list Z) (x : Z) : bool := bool_decide (x ∈ l).

(** ** Reads outside the program's data

    Where a lookup fails the source logs an error ([RDCERR], [RDCASSERT]) and
    goes on to read through the iterator or the index it has.  What such a
    read returns is not determined by the program; the model takes it from
    the environment: [end_second] is what is read behind [std::map::end()],
    [end_bool] the same for a map to [bool], and [wild i] the word found at
    index [i] outside an array. *)
Record Undefined := {
  end_second : Z;
  end_bool : bool;
  wild : Z -> Z
}.

(** [it->second] after [find]: the mapped value, or the read behind [end()]. *)
Definition find_second {K} `{Countable K} (u : Undefined) (m : gmap K Z) (k : K) : Z :=
  default (end_second u) (m !! k).

(** [array[i]] on an [rdcarray<uint64_t>] with no bounds check. *)
Definition read_at (u : Undefined) (l : list Z) (i : Z) : Z :=
  if (i <? 0) then wild u i else default (wild u i) (l !! Z.to_nat i).

(** ** TestsFailedCallback *)

Module TestsFailedCallback.

(** One redraw under an occlusion query, as [ReplayDraw] records it in the
    command buffer: [CmdBeginQuery(pool, index)], the draw, [CmdEndQuery]. *)
Record Redraw := {
  rd_event : Z;
  rd_test : Z;
  rd_pipeFlags : Z;
  rd_index : Z
}.

Record t := {
  m_Events : list Z;
  m_EventFlags : gmap Z Z;
  m_OcclusionQueries : gmap (Z * Z) Z;
  m_HasEarlyFragments : gmap Z bool;
  m_OcclusionResults : list Z;
  (** the redraws recorded so far, oldest first *)
  cmd : list Redraw
}.

Definition create (events : list Z) : t :=
  {| m_Events := events; m_EventFlags := ∅; m_OcclusionQueries := ∅;
     m_HasEarlyFragments := ∅; m_OcclusionResults := []; cmd := [] |}.

(** The test of the scissor loop of [CalculateEventFlags]:
    the comparisons are between [uint32_t] values. *)
Definition pixel_in_scissor (x y : Z) (r : VkRect2D) : bool :=
  (u32 (off_x (offset r)) <=? x)%Z && (u32 (off_y (offset r)) <=? y)%Z &&
  (x <? u32 (off_x (offset r) + ext_width (extent r)))%Z &&
  (y <? u32 (off_y (offset r) + ext_height (extent r)))%Z.

(** The scissor loop: [(inRegion, inAllRegions)] after the last rectangle. *)
Definition scissor_regions (x y : Z) (rects : list VkRect2D) : bool * bool :=
  fold_left
    (fun '(inRegion, inAllRegions) r =>
       if pixel_in_scissor x y r then (true, inAllRegions) else (inRegion, false))
    rects (false, true).

Definition CalculateEventFlags (features : VkPhysicalDeviceFeatures)
    (info : PixelHistoryCallbackInfo) (p : Pipeline) (pipestate : VulkanRenderState) : Z :=
  let flags := 0%Z in
  (* Culling *)
  let flags := set_if (negb (cullMode p =? VK_CULL_MODE_NONE)%Z) TestEnabled_Culling flags in
  let flags := set_if (cullMode p =? VK_CULL_MODE_FRONT_AND_BACK)%Z TestMustFail_Culling flags in
  (* Depth and Stencil tests. *)
  let flags := set_if (depthBoundsEnable p) TestEnabled_DepthBounds flags in
  let flags :=
    if depthTestEnable p then
      let flags := set_if (negb (depthCompareOp p =? VK_COMPARE_OP_ALWAYS)%Z)
                     TestEnabled_DepthTesting flags in
      set_if (depthCompareOp p =? VK_COMPARE_OP_NEVER)%Z TestMustFail_DepthTesting flags
    else flags in
  let flags :=
    if stencilTestEnable p then
      let flags :=
        set_if (negb (front_compareOp p =? VK_COMPARE_OP_ALWAYS)%Z ||
                negb (back_compareOp p =? VK_COMPARE_OP_ALWAYS)%Z)
          TestEnabled_StencilTesting flags in
      if (front_compareOp p =? VK_COMPARE_OP_NEVER)%Z && (back_compareOp p =? VK_COMPARE_OP_NEVER)%Z
      then Z.lor flags TestMustFail_StencilTesting
      else if (front_compareOp p =? VK_COMPARE_OP_NEVER)%Z && (cullMode p =? VK_CULL_MODE_BACK_BIT)%Z
      then Z.lor flags TestMustFail_StencilTesting
      else if (cullMode p =? VK_CULL_MODE_FRONT_BIT)%Z && (back_compareOp p =? VK_COMPARE_OP_NEVER)%Z
      then Z.lor flags TestMustFail_StencilTesting
      else flags
    else flags in
  (* Scissor *)
  let pScissors := if dynamicScissor p then state_scissors pipestate else scissors p in
  let '(inRegion, inAllRegions) := scissor_regions (cb_x info) (cb_y info) pScissors in
  let flags := set_if (negb inRegion) TestMustFail_Scissor flags in
  let flags := set_if inAllRegions TestMustPass_Scissor flags in
  (* Blending *)
  let flags :=
    if independentBlend features
    then set_if (existsb id (blendEnables p)) Blending_Enabled flags
    else set_if (match blendEnables p with b :: _ => b | [] => false end)
           Blending_Enabled flags in
  let flags := set_if (fragmentModule p =? 0)%Z UnboundFragmentShader flags in
  (* Samples *)
  let flags := Z.lor flags TestEnabled_SampleMask in
  let flags := set_if (Z.land (sampleMask p) (cb_sampleMask info) =? 0)%Z
                 TestMustFail_SampleMask flags in
  Z.lor flags TestEnabled_FragmentDiscard.

(** [PipelineCreationFlags_*] *)
Definition PipelineCreationFlags_DisableCulling : Z := Z.shiftl 1 0.
Definition PipelineCreationFlags_DisableDepthTest : Z := Z.shiftl 1 1.
Definition PipelineCreationFlags_DisableStencilTest : Z := Z.shiftl 1 2.
Definition PipelineCreationFlags_DisableDepthBoundsTest : Z := Z.shiftl 1 3.
Definition PipelineCreationFlags_FixedColorShader : Z := Z.shiftl 1 4.
Definition PipelineCreationFlags_IntersectOriginalScissor : Z := Z.shiftl 1 5.

Definition lor_all (bits : list Z) : Z := fold_right Z.lor 0%Z bits.

(** [ReplayDraw]: the query index is the number of queries known so far;
    [std::map::insert] keeps an entry that is already there. *)
Definition ReplayDraw (pipeFlags eventId test : Z) (st : t) : t :=
  let index := u32 (Z.of_nat (size (m_OcclusionQueries st))) in
  let queries :=
    match m_OcclusionQueries st !! (eventId, test) with
    | Some _ => m_OcclusionQueries st
    | None => <[(eventId, test) := index]> (m_OcclusionQueries st)
    end in
  {| m_Events := m_Events st;
     m_EventFlags := m_EventFlags st;
     m_OcclusionQueries := queries;
     m_HasEarlyFragments := m_HasEarlyFragments st;
     m_OcclusionResults := m_OcclusionResults st;
     cmd := cmd st ++ [ {| rd_event := eventId; rd_test := test;
                           rd_pipeFlags := pipeFlags; rd_index := index |} ] |}.

(** [ReplayDrawWithTests], reduced to what it records: which redraws it
    issues, in which order, with which pipeline creation flags.  Building the
    pipelines (shader replacement, scissor narrowing) does not touch the query
    bookkeeping. *)
Definition ReplayDrawWithTests (eid eventFlags : Z) (st : t) : t :=
  (* Backface culling *)
  if has_flag eventFlags TestMustFail_Culling then st else
  let st :=
    if has_flag eventFlags TestEnabled_Culling then
      ReplayDraw (lor_all [PipelineCreationFlags_DisableDepthTest;
                           PipelineCreationFlags_DisableDepthBoundsTest;
                           PipelineCreationFlags_DisableStencilTest;
                           PipelineCreationFlags_FixedColorShader])
        eid TestEnabled_Culling st
    else st in
  (* Scissor *)
  if has_flag eventFlags TestMustFail_Scissor then st else
  let st :=
    if (Z.land eventFlags (Z.lor TestEnabled_Scissor TestMustPass_Scissor)
          =? TestEnabled_Scissor)%Z then
      ReplayDraw (lor_all [PipelineCreationFlags_IntersectOriginalScissor;
                           PipelineCreationFlags_DisableDepthTest;
                           PipelineCreationFlags_DisableDepthBoundsTest;
                           PipelineCreationFlags_DisableStencilTest;
                           PipelineCreationFlags_FixedColorShader])
        eid TestEnabled_Scissor st
    else st in
  (* Sample mask *)
  if has_flag eventFlags TestMustFail_SampleMask then st else
  let st :=
    if has_flag eventFlags TestEnabled_SampleMask then
      ReplayDraw (lor_all [PipelineCreationFlags_DisableDepthBoundsTest;
                           PipelineCreationFlags_DisableStencilTest;
                           PipelineCreationFlags_DisableDepthTest;
                           PipelineCreationFlags_FixedColorShader])
        eid TestEnabled_SampleMask st
    else st in
  (* Depth bounds *)
  let st :=
    if has_flag eventFlags TestEnabled_DepthBounds then
      ReplayDraw (lor_all [PipelineCreationFlags_DisableStencilTest;
                           PipelineCreationFlags_DisableDepthTest;
                           PipelineCreationFlags_FixedColorShader])
        eid TestEnabled_DepthBounds st
    else st in
  (* Stencil test *)
  if has_flag eventFlags TestMustFail_StencilTesting then st else
  let st :=
    if has_flag eventFlags TestEnabled_StencilTesting then
      ReplayDraw (lor_all [PipelineCreationFlags_DisableDepthTest;
                           PipelineCreationFlags_FixedColorShader])
        eid TestEnabled_StencilTesting st
    else st in
  (* Depth test *)
  if has_flag eventFlags TestMustFail_DepthTesting then st else
  let st :=
    if has_flag eventFlags TestEnabled_DepthTesting then
      ReplayDraw (lor_all [PipelineCreationFlags_DisableStencilTest;
                           PipelineCreationFlags_FixedColorShader])
        eid TestEnabled_DepthTesting st
    else st in
  (* Shader discard *)
  if has_flag eventFlags TestEnabled_FragmentDiscard then
    ReplayDraw (lor_all [PipelineCreationFlags_DisableDepthBoundsTest;
                         PipelineCreationFlags_DisableStencilTest;
                         PipelineCreationFlags_DisableDepthTest])
      eid TestEnabled_FragmentDiscard st
  else st.

Definition PreDraw (features : VkPhysicalDeviceFeatures) (info : PixelHistoryCallbackInfo)
    (d : Draw) (st : t) : t :=
  let eid := draw_eid d in
  if negb (contains (m_Events st) eid) then st else
  let eventFlags := CalculateEventFlags features info (draw_pipeline d) (draw_state d) in
  let earlyFragmentTests := false in
  let st :=
    {| m_Events := m_Events st;
       m_EventFlags := <[eid := eventFlags]> (m_EventFlags st);
       m_OcclusionQueries := m_OcclusionQueries st;
       m_HasEarlyFragments := <[eid := earlyFragmentTests]> (m_HasEarlyFragments st);
       m_OcclusionResults := m_OcclusionResults st;
       cmd := cmd st |} in
  ReplayDrawWithTests eid eventFlags st.

(** The replay of a frame: the driver calls [PreDraw] once for every draw it
    replays, in frame order. *)
Definition replay (features : VkPhysicalDeviceFeatures) (info : PixelHistoryCallbackInfo)
    (frame : list Draw) (st : t) : t :=
  fold_left (fun st d => PreDraw features info d st) frame st.

(** [FetchOcclusionResults]: one 64-bit result per query of the pool, read
    from the device ([gpu] gives the result stored at each query index). *)
Definition FetchOcclusionResults (gpu : Z -> Z) (st : t) : t :=
  if bool_decide (m_OcclusionQueries st = ∅) then st else
  {| m_Events := m_Events st;
     m_EventFlags := m_EventFlags st;
     m_OcclusionQueries := m_OcclusionQueries st;
     m_HasEarlyFragments := m_HasEarlyFragments st;
     m_OcclusionResults :=
       map (fun i => gpu (Z.of_nat i)) (seq 0%nat (size (m_OcclusionQueries st)));
     cmd := cmd st |}.

Definition GetEventFlags (u : Undefined) (st : t) (eventId : Z) : Z :=
  find_second u (m_EventFlags st) eventId.

Definition GetOcclusionResult (u : Undefined) (st : t) (eventId test : Z) : Z :=
  read_at u (m_OcclusionResults st) (find_second u (m_OcclusionQueries st) (eventId, test)).

Definition HasEarlyFragments (u : Undefined) (st : t) (eventId : Z) : bool :=
  default (end_bool u) (m_HasEarlyFragments st !! eventId).

(** The whole pass on a fresh callback: replay, then fetch. *)
Definition run (features : VkPhysicalDeviceFeatures) (info : PixelHistoryCallbackInfo)
    (frame : list Draw) (gpu : Z -> Z) (events : list Z) : t :=
  FetchOcclusionResults gpu (replay features info frame (create events)).

End TestsFailedCallback.

(** ** The history entries (replay_data.h, as far as this file writes them) *)

(** [ModificationValue]: the colour union as its four 32-bit words, the
    depth as the bit pattern of the float, the stencil value. *)
Record ModificationValue := {
  col : list Z;
  depth : Z;
  stencil : Z
}.

Record PixelModification := {
  eventId : Z;
  directShaderWrite : bool;
  unboundPS : bool;
  fragIndex : Z;
  primitiveID : Z;
  preMod : ModificationValue;
  shaderOut : ModificationValue;
  postMod : ModificationValue;
  sampleMasked : bool;
  backfaceCulled : bool;
  depthClipped : bool;
  scissorClipped : bool;
  shaderDiscarded : bool;
  depthTestFailed : bool;
  stencilTestFailed : bool
}.

(** Field updates of a [PixelModification]. *)
Definition set_unboundPS (v : bool) (m : PixelModification) : PixelModification :=
  {| eventId := eventId m;
     directShaderWrite := directShaderWrite m;
     unboundPS := v;
     fragIndex := fragIndex m;
     primitiveID := primitiveID m;
     preMod := preMod m;
     shaderOut := shaderOut m;
     postMod := postMod m;
     sampleMasked := sampleMasked m;
     backfaceCulled := backfaceCulled m;
     depthClipped := depthClipped m;
     scissorClipped := scissorClipped m;
     shaderDiscarded := shaderDiscarded m;
     depthTestFailed := depthTestFailed m;
     stencilTestFailed := stencilTestFailed m |}.

Definition set_fragIndex (v : Z) (m : PixelModification) : PixelModification :=
  {| eventId := eventId m;
     directShaderWrite := directShaderWrite m;
     unboundPS := unboundPS m;
     fragIndex := v;
     primitiveID := primitiveID m;
     preMod := preMod m;
     shaderOut := shaderOut m;
     postMod := postMod m;
     sampleMasked := sampleMasked m;
     backfaceCulled := backfaceCulled m;
     depthClipped := depthClipped m;
     scissorClipped := scissorClipped m;
     shaderDiscarded := shaderDiscarded m;
     depthTestFailed := depthTestFailed m;
     stencilTestFailed := stencilTestFailed m |}.

Definition set_primitiveID (v : Z) (m : PixelModification) : PixelModification :=
  {| eventId := eventId m;
     directShaderWrite := directShaderWrite m;
     unboundPS := unboundPS m;
     fragIndex := fragIndex m;
     primitiveID := v;
     preMod := preMod m;
     shaderOut := shaderOut m;
     postMod := postMod m;
     sampleMasked := sampleMasked m;
     backfaceCulled := backfaceCulled m;
     depthClipped := depthClipped m;
     scissorClipped := scissorClipped m;
     shaderDiscarded := shaderDiscarded m;
     depthTestFailed := depthTestFailed m;
     stencilTestFailed := stencilTestFailed m |}.

Definition set_preMod (v : ModificationValue) (m : PixelModification) : PixelModification :=
  {| eventId := eventId m;
     directShaderWrite := directShaderWrite m;
     unboundPS := unboundPS m;
     fragIndex := fragIndex m;
     primitiveID := primitiveID m;
     preMod := v;
     shaderOut := shaderOut m;
     postMod := postMod m;
     sampleMasked := sampleMasked m;
     backfaceCulled := backfaceCulled m;
     depthClipped := depthClipped m;
     scissorClipped := scissorClipped m;
     shaderDiscarded := shaderDiscarded m;
     depthTestFailed := depthTestFailed m;
     stencilTestFailed := stencilTestFailed m |}.

Definition set_shaderOut (v : ModificationValue) (m : PixelModification) : PixelModification :=
  {| eventId := eventId m;
     directShaderWrite := directShaderWrite m;
     unboundPS := unboundPS m;
     fragIndex := fragIndex m;
     primitiveID := primitiveID m;
     preMod := preMod m;
     shaderOut := v;
     postMod := postMod m;
     sampleMasked := sampleMasked m;
     backfaceCulled := backfaceCulled m;
     depthClipped := depthClipped m;
     scissorClipped := scissorClipped m;
     shaderDiscarded := shaderDiscarded m;
     depthTestFailed := depthTestFailed m;
     stencilTestFailed := stencilTestFailed m |}.

Definition set_postMod (v : ModificationValue) (m : PixelModification) : PixelModification :=
  {| eventId := eventId m;
     directShaderWrite := directShaderWrite m;
     unboundPS := unboundPS m;
     fragIndex := fragIndex m;
     primitiveID := primitiveID m;
     preMod := preMod m;
     shaderOut := shaderOut m;
     postMod := v;
     sampleMasked := sampleMasked m;
     backfaceCulled := backfaceCulled m;
     depthClipped := depthClipped m;
     scissorClipped := scissorClipped m;
     shaderDiscarded := shaderDiscarded m;
     depthTestFailed := depthTestFailed m;
     stencilTestFailed := stencilTestFailed m |}.

Definition set_sampleMasked (v : bool) (m : PixelModification) : PixelModification :=
  {| eventId := eventId m;
     directShaderWrite := directShaderWrite m;
     unboundPS := unboundPS m;
     fragIndex := fragIndex m;
     primitiveID := primitiveID m;
     preMod := preMod m;
     shaderOut := shaderOut m;
     postMod := postMod m;
     sampleMasked := v;
     backfaceCulled := backfaceCulled m;
     depthClipped := depthClipped m;
     scissorClipped := scissorClipped m;
     shaderDiscarded := shaderDiscarded m;
     depthTestFailed := depthTestFailed m;
     stencilTestFailed := stencilTestFailed m |}.

Definition set_backfaceCulled (v : bool) (m : PixelModification) : PixelModification :=
  {| eventId := eventId m;
     directShaderWrite := directShaderWrite m;
     unboundPS := unboundPS m;
     fragIndex := fragIndex m;
     primitiveID := primitiveID m;
     preMod := preMod m;
     shaderOut := shaderOut m;
     postMod := postMod m;
     sampleMasked := sampleMasked m;
     backfaceCulled := v;
     depthClipped := depthClipped m;
     scissorClipped := scissorClipped m;
     shaderDiscarded := shaderDiscarded m;
     depthTestFailed := depthTestFailed m;
     stencilTestFailed := stencilTestFailed m |}.

Definition set_depthClipped (v : bool) (m : PixelModification) : PixelModification :=
  {| eventId := eventId m;
     directShaderWrite := directShaderWrite m;
     unboundPS := unboundPS m;
     fragIndex := fragIndex m;
     primitiveID := primitiveID m;
     preMod := preMod m;
     shaderOut := shaderOut m;
     postMod := postMod m;
     sampleMasked := sampleMasked m;
     backfaceCulled := backfaceCulled m;
     depthClipped := v;
     scissorClipped := scissorClipped m;
     shaderDiscarded := shaderDiscarded m;
     depthTestFailed := depthTestFailed m;
     stencilTestFailed := stencilTestFailed m |}.

Definition set_scissorClipped (v : bool) (m : PixelModification) : PixelModification :=
  {| eventId := eventId m;
     directShaderWrite := directShaderWrite m;
     unboundPS := unboundPS m;
     fragIndex := fragIndex m;
     primitiveID := primitiveID m;
     preMod := preMod m;
     shaderOut := shaderOut m;
     postMod := postMod m;
     sampleMasked := sampleMasked m;
     backfaceCulled := backfaceCulled m;
     depthClipped := depthClipped m;
     scissorClipped := v;
     shaderDiscarded := shaderDiscarded m;
     depthTestFailed := depthTestFailed m;
     stencilTestFailed := stencilTestFailed m |}.

Definition set_shaderDiscarded (v : bool) (m : PixelModification) : PixelModification :=
  {| eventId := eventId m;
     directShaderWrite := directShaderWrite m;
     unboundPS := unboundPS m;
     fragIndex := fragIndex m;
     primitiveID := primitiveID m;
     preMod := preMod m;
     shaderOut := shaderOut m;
     postMod := postMod m;
     sampleMasked := sampleMasked m;
     backfaceCulled := backfaceCulled m;
     depthClipped := depthClipped m;
     scissorClipped := scissorClipped m;
     shaderDiscarded := v;
     depthTestFailed := depthTestFailed m;
     stencilTestFailed := stencilTestFailed m |}.

Definition set_depthTestFailed (v : bool) (m : PixelModification) : PixelModification :=
  {| eventId := eventId m;
     directShaderWrite := directShaderWrite m;
     unboundPS := unboundPS m;
     fragIndex := fragIndex m;
     primitiveID := primitiveID m;
     preMod := preMod m;
     shaderOut := shaderOut m;
     postMod := postMod m;
     sampleMasked := sampleMasked m;
     backfaceCulled := backfaceCulled m;
     depthClipped := depthClipped m;
     scissorClipped := scissorClipped m;
     shaderDiscarded := shaderDiscarded m;
     depthTestFailed := v;
     stencilTestFailed := stencilTestFailed m |}.

Definition set_stencilTestFailed (v : bool) (m : PixelModification) : PixelModification :=
  {| eventId := eventId m;
     directShaderWrite := directShaderWrite m;
     unboundPS := unboundPS m;
     fragIndex := fragIndex m;
     primitiveID := primitiveID m;
     preMod := preMod m;
     shaderOut := shaderOut m;
     postMod := postMod m;
     sampleMasked := sampleMasked m;
     backfaceCulled := backfaceCulled m;
     depthClipped := depthClipped m;
     scissorClipped := scissorClipped m;
     shaderDiscarded := shaderDiscarded m;
     depthTestFailed := depthTestFailed m;
     stencilTestFailed := v |}.


(** [RDCEraseEl(mod)] *)
Definition zero_value : ModificationValue := {| col := [0; 0; 0; 0]; depth := 0; stencil := 0 |}.

Definition erased : PixelModification :=
  {| eventId := 0; directShaderWrite := false; unboundPS := false; fragIndex := 0;
     primitiveID := 0; preMod := zero_value; shaderOut := zero_value; postMod := zero_value;
     sampleMasked := false; backfaceCulled := false; depthClipped := false;
     scissorClipped := false; shaderDiscarded := false; depthTestFailed := false;
     stencilTestFailed := false |}.

(** ** UpdateTestsFailed

    The second component lists the tests whose occlusion result the function
    read, in the order of the reads. *)
Definition UpdateTestsFailed (u : Undefined) (tfCb : TestsFailedCallback.t)
    (eventId eventFlags : Z) (pm : PixelModification) : PixelModification * list Z :=
  let occl := TestsFailedCallback.GetOcclusionResult u tfCb eventId in
  let earlyFragmentTests := TestsFailedCallback.HasEarlyFragments u tfCb eventId in
  let read := @nil Z in
  let '(pm, read) :=
    if Z.land eventFlags (Z.lor TestEnabled_Culling TestMustFail_Culling) =? TestEnabled_Culling
    then (set_backfaceCulled (occl TestEnabled_Culling =? 0) pm, read ++ [TestEnabled_Culling])
    else (pm, read) in
  if backfaceCulled pm then (pm, read) else
  let '(pm, read) :=
    if Z.land eventFlags
         (Z.lor (Z.lor TestEnabled_Scissor TestMustPass_Scissor) TestMustFail_Scissor)
       =? TestEnabled_Scissor
    then (set_scissorClipped (occl TestEnabled_Scissor =? 0) pm, read ++ [TestEnabled_Scissor])
    else (pm, read) in
  if scissorClipped pm then (pm, read) else
  let '(pm, read) :=
    if Z.land eventFlags (Z.lor TestEnabled_SampleMask TestMustFail_SampleMask)
       =? TestEnabled_SampleMask
    then (set_sampleMasked (occl TestEnabled_SampleMask =? 0) pm,
          read ++ [TestEnabled_SampleMask])
    else (pm, read) in
  if sampleMasked pm then (pm, read) else
  (* Shader discard with default fragment tests order. *)
  let '(pm, read) :=
    if negb earlyFragmentTests
    then (set_shaderDiscarded (occl TestEnabled_FragmentDiscard =? 0) pm,
          read ++ [TestEnabled_FragmentDiscard])
    else (pm, read) in
  if negb earlyFragmentTests && shaderDiscarded pm then (pm, read) else
  let '(pm, read) :=
    if has_flag eventFlags TestEnabled_DepthBounds
    then (set_depthClipped (occl TestEnabled_DepthBounds =? 0) pm,
          read ++ [TestEnabled_DepthBounds])
    else (pm, read) in
  if depthClipped pm then (pm, read) else
  let '(pm, read) :=
    if Z.land eventFlags (Z.lor TestEnabled_StencilTesting TestMustFail_StencilTesting)
       =? TestEnabled_StencilTesting
    then (set_stencilTestFailed (occl TestEnabled_StencilTesting =? 0) pm,
          read ++ [TestEnabled_StencilTesting])
    else (pm, read) in
  if stencilTestFailed pm then (pm, read) else
  let '(pm, read) :=
    if Z.land eventFlags (Z.lor TestEnabled_DepthTesting TestMustFail_DepthTesting)
       =? TestEnabled_DepthTesting
    then (set_depthTestFailed (occl TestEnabled_DepthTesting =? 0) pm,
          read ++ [TestEnabled_DepthTesting])
    else (pm, read) in
  if depthTestFailed pm then (pm, read) else
  (* Shader discard with early fragment tests order. *)
  if earlyFragmentTests
  then (set_shaderDiscarded (occl TestEnabled_FragmentDiscard =? 0) pm,
        read ++ [TestEnabled_FragmentDiscard])
  else (pm, read).

(** ** The event list

    [EventUsage] (replay_data.h) and the enumerators of [ResourceUsage]
    (replay_enums.h) that the file names.  The enumeration is declared outside
    this file, so its numbering is a parameter of the model. *)

Module EventUsage.
Record t := {
  eventId : Z;
  usage : Z;
  view : Z
}.
End EventUsage.

Record ResourceUsageEnum := {
  VS_RWResource : Z;
  CS_RWResource : Z;
  CopyDst : Z;
  Copy : Z;
  Resolve : Z;
  ResolveDst : Z;
  GenMips : Z;
  Clear : Z
}.

Definition isDirectWrite (U : ResourceUsageEnum) (usage : Z) : bool :=
  ((VS_RWResource U <=? usage) && (usage <=? CS_RWResource U)) ||
  (usage =? CopyDst U) || (usage =? Copy U) ||
  (usage =? Resolve U) || (usage =? ResolveDst U) ||
  (usage =? GenMips U).

(** ** VulkanOcclusionCallback *)

Module VulkanOcclusionCallback.

Record t := {
  m_Events : list Z;
  m_OcclusionQueries : gmap Z Z;
  m_OcclusionResults : list Z;
  (** the queries begun so far: event id and query index *)
  cmd : list (Z * Z)
}.

Definition create (allEvents : list EventUsage.t) : t :=
  {| m_Events := map EventUsage.eventId allEvents; m_OcclusionQueries := ∅;
     m_OcclusionResults := []; cmd := [] |}.

Definition ReplayDrawWithQuery (eventId : Z) (st : t) : t :=
  let occlIndex := u32 (Z.of_nat (size (m_OcclusionQueries st))) in
  {| m_Events := m_Events st;
     m_OcclusionQueries :=
       match m_OcclusionQueries st !! eventId with
       | Some _ => m_OcclusionQueries st
       | None => <[eventId := occlIndex]> (m_OcclusionQueries st)
       end;
     m_OcclusionResults := m_OcclusionResults st;
     cmd := cmd st ++ [(eventId, occlIndex)] |}.

Definition PreDraw (eid : Z) (st : t) : t :=
  if negb (contains (m_Events st) eid) then st else ReplayDrawWithQuery eid st.

Definition replay (frame : list Draw) (st : t) : t :=
  fold_left (fun st d => PreDraw (draw_eid d) st) frame st.

Definition FetchOcclusionResults (gpu : Z -> Z) (st : t) : t :=
  if (size (m_OcclusionQueries st) =? 0)%nat then st else
  {| m_Events := m_Events st;
     m_OcclusionQueries := m_OcclusionQueries st;
     m_OcclusionResults :=
       map (fun i => gpu (Z.of_nat i)) (seq 0%nat (size (m_OcclusionQueries st)));
     cmd := cmd st |}.

Definition GetOcclusionResult (u : Undefined) (st : t) (eventId : Z) : Z :=
  match m_OcclusionQueries st !! eventId with
  | None => 0
  | Some second => read_at u (m_OcclusionResults st) second
  end.

Definition run (frame : list Draw) (gpu : Z -> Z) (allEvents : list EventUsage.t) : t :=
  FetchOcclusionResults gpu (replay frame (create allEvents)).

End VulkanOcclusionCallback.

(** ** The read-back records *)

(** [PixelHistoryValue]: the colour bytes, the depth union as its 32 bits,
    the stencil byte. *)
Record PixelHistoryValue := {
  color : list Z;
  depth_bits : Z;
  stencil8 : Z
}.

Record EventInfo := {
  premod : PixelHistoryValue;
  postmod : PixelHistoryValue;
  dsWithoutShaderDiscard : list Z;
  dsWithShaderDiscard : list Z
}.

Record PerFragmentInfo := {
  pf_primitiveID : Z;
  pf_shaderOut : PixelHistoryValue;
  pf_postMod : PixelHistoryValue
}.

(** element 0 of a [uint8_t[8]] *)
Definition byte0 (bytes : list Z) : Z := (nth 0 bytes 0) mod 256.

(** ** What the orchestrator reads from the other callbacks *)

Module VulkanColorAndStencilCallback.
Record t := { m_EventIndices : gmap Z Z }.

Definition GetEventIndex (st : t) (eventId : Z) : Z :=
  match m_EventIndices st !! eventId with
  | None => -1
  | Some second => i32 second
  end.
End VulkanColorAndStencilCallback.

Module VulkanPixelHistoryPerFragmentCallback.
Record t := { m_EventIndices : gmap Z Z }.

Definition GetEventOffset (u : Undefined) (st : t) (eid : Z) : Z :=
  find_second u (m_EventIndices st) eid.
End VulkanPixelHistoryPerFragmentCallback.

Module VulkanPixelHistoryDiscardedFragmentsCallback.
Record t := {
  m_OcclusionIndices : gmap (Z * Z) Z;
  m_OcclusionResults : list Z
}.

Definition PrimitiveDiscarded (u : Undefined) (st : t) (eid primId : Z) : bool :=
  match m_OcclusionIndices st !! (eid, primId) with
  | None => false
  | Some second => read_at u (m_OcclusionResults st) second =? 0
  end.
End VulkanPixelHistoryDiscardedFragmentsCallback.

(** ** The replay engine and the device, as [PixelHistory] sees them

    Every pass is [ReplayLog(0, endEventID)] with a callback installed,
    followed by a flush and a read-back.  [PixelHistory] only reads the
    callback (and the mapped buffer) afterwards; the environment gives that
    state for each pass as a function of what the callback was built from.
    [ConvertComponents] (maths/formatpacking.h) turns colour bytes into the
    four words of a [FloatVector], for the format [MakeResourceFormat] gives. *)
Record Replays := {
  undefined : Undefined;
  ConvertComponents : Z -> list Z -> list Z;
  occlusion_pass :
    PixelHistoryCallbackInfo -> list EventUsage.t -> Z -> VulkanOcclusionCallback.t;
  colour_pass :
    PixelHistoryCallbackInfo -> list Z -> Z ->
    VulkanColorAndStencilCallback.t * (Z -> EventInfo);
  tests_failed_pass :
    PixelHistoryCallbackInfo -> list Z -> Z -> TestsFailedCallback.t;
  per_fragment_pass :
    PixelHistoryCallbackInfo -> gmap Z Z -> Z ->
    VulkanPixelHistoryPerFragmentCallback.t * (Z -> PerFragmentInfo);
  discarded_pass :
    PixelHistoryCallbackInfo -> gmap Z (list Z) -> Z ->
    VulkanPixelHistoryDiscardedFragmentsCallback.t
}.

(** The device objects [PixelHistory] creates and releases, and the replays
    it asks for, in program order. *)
Inductive GpuCall :=
| CreateOcclusionPool (poolSize : Z)
| PixelHistorySetupResources (numEvents : Z)
| UpdatePixelHistoryDescriptor
| NewShaderCache
| ReplayLog (endEventID : Z)
| DestroyQueryPool
| PixelHistoryDestroyResources
| DeleteShaderCache.

(** [VulkanCreationInfo::Image] and [Subresource], as far as they are read. *)
Record ImageInfo := { format : Z; img_samples : Z }.
Record Subresource := { sample : Z }.

(** ** VulkanReplay::PixelHistory *)

(** The size of the occlusion pool of the test-failure pass:
    [(uint32_t)drawEvents.size() * 6]. *)
Definition tests_failed_pool_size (drawEvents : list Z) : Z :=
  u32 (u32 (Z.of_nat (length drawEvents)) * 6).

Module VulkanReplay.

Section Orchestrator.
Variable U : ResourceUsageEnum.
Variable env : Replays.

Definition FillInColor (fmt : Z) (value : PixelHistoryValue) (mv : ModificationValue)
    : ModificationValue :=
  {| col := ConvertComponents env fmt (color value); depth := depth mv; stencil := stencil mv |}.

Definition set_depth (d : Z) (mv : ModificationValue) : ModificationValue :=
  {| col := col mv; depth := d; stencil := stencil mv |}.

Definition set_stencil (s : Z) (mv : ModificationValue) : ModificationValue :=
  {| col := col mv; depth := depth mv; stencil := s |}.

Definition set_col (c : list Z) (mv : ModificationValue) : ModificationValue :=
  {| col := c; depth := depth mv; stencil := stencil mv |}.

(** The first loop over [events]: [(modEvents, drawEvents)].  The event id
    is a [uint32_t] already; the cast at the call is the identity. *)
Definition gather_step (occlCb : VulkanOcclusionCallback.t)
    (acc : list Z * list Z) (ev : EventUsage.t) : list Z * list Z :=
  let '(modEvents, drawEvents) := acc in
  let clear := EventUsage.usage ev =? Clear U in
  let directWrite := isDirectWrite U (EventUsage.usage ev) in
  if directWrite || clear then (modEvents ++ [EventUsage.eventId ev], drawEvents)
  else
    let occlData :=
      VulkanOcclusionCallback.GetOcclusionResult (undefined env) occlCb
        (EventUsage.eventId ev) in
    if 0 <? occlData
    then (modEvents ++ [EventUsage.eventId ev], drawEvents ++ [EventUsage.eventId ev])
    else (modEvents, drawEvents).

Definition gather_events (occlCb : VulkanOcclusionCallback.t) (events : list EventUsage.t)
    : list Z * list Z :=
  fold_left (gather_step occlCb) events ([], []).

(** The must-fail flags copied into a fresh entry, then [UpdateTestsFailed].
    [tfCb] is only built when there are draw events; the branch is reached
    for events of [drawEvents] alone. *)
Definition apply_tests (tfCb : option TestsFailedCallback.t) (eventId : Z)
    (pm : PixelModification) : PixelModification :=
  match tfCb with
  | None => pm
  | Some tfCb =>
    let flags := TestsFailedCallback.GetEventFlags (undefined env) tfCb eventId in
    let pm := if has_flag flags TestMustFail_Culling then set_backfaceCulled true pm else pm in
    let pm := if has_flag flags TestMustFail_DepthTesting then set_depthTestFailed true pm else pm in
    let pm := if has_flag flags TestMustFail_Scissor then set_scissorClipped true pm else pm in
    let pm := if has_flag flags TestMustFail_SampleMask then set_sampleMasked true pm else pm in
    let pm := if has_flag flags UnboundFragmentShader then set_unboundPS true pm else pm in
    fst (UpdateTestsFailed (undefined env) tfCb eventId flags pm)
  end.

(** The second loop over [events]: one entry per event that is kept. *)
Definition history_step (tfCb : option TestsFailedCallback.t) (drawEvents : list Z)
    (history : list PixelModification) (ev : EventUsage.t) : list PixelModification :=
  let eventId' := EventUsage.eventId ev in
  let clear := EventUsage.usage ev =? Clear U in
  let directWrite := isDirectWrite U (EventUsage.usage ev) in
  if contains drawEvents eventId' || clear || directWrite then
    let pm :=
      {| eventId := eventId'; directShaderWrite := directWrite; unboundPS := false;
         fragIndex := 0; primitiveID := 0;
         preMod := zero_value; shaderOut := zero_value; postMod := zero_value;
         sampleMasked := false; backfaceCulled := false; depthClipped := false;
         scissorClipped := false; shaderDiscarded := false; depthTestFailed := false;
         stencilTestFailed := false |} in
    let pm := if negb clear && negb directWrite then apply_tests tfCb eventId' pm else pm in
    history ++ [pm]
  else history.

Definition build_history (tfCb : option TestsFailedCallback.t) (drawEvents : list Z)
    (events : list EventUsage.t) : list PixelModification :=
  fold_left (history_step tfCb drawEvents) events [].

(** [history.insert(i, x)] *)
Definition insert_at {A} (i : nat) (x : A) (l : list A) : list A :=
  take i l ++ x :: drop i l.

(** What an entry takes from the [EventInfo] of its event. *)
Definition read_event_info (fmt : Z) (ei : EventInfo) (pm : PixelModification)
    : PixelModification :=
  let pm := set_preMod (FillInColor fmt (premod ei) (preMod pm)) pm in
  let pm := set_postMod (FillInColor fmt (postmod ei) (postMod pm)) pm in
  let pm := set_preMod (set_depth (depth_bits (premod ei)) (preMod pm)) pm in
  let pm := set_preMod (set_stencil (stencil8 (premod ei)) (preMod pm)) pm in
  let pm := set_postMod (set_depth (depth_bits (postmod ei)) (postMod pm)) pm in
  let pm := set_postMod (set_stencil (stencil8 (postmod ei)) (postMod pm)) pm in
  let frags := byte0 (dsWithoutShaderDiscard ei) in
  let fragsClipped := byte0 (dsWithShaderDiscard ei) in
  let pm := set_shaderOut (set_col (<[0%nat := frags]> (col (shaderOut pm))) (shaderOut pm)) pm in
  let pm :=
    set_shaderOut (set_col (<[1%nat := fragsClipped]> (col (shaderOut pm))) (shaderOut pm)) pm in
  let someFragsClipped := fragsClipped <? frags in
  set_primitiveID (if someFragsClipped then 1 else 0) pm.

(** One round of the loop that reads [eventsInfo] and expands an entry into
    one entry per fragment; the result is the next [h] with the new
    [(history, eventsWithFrags)]. *)
Definition expand_entry (cb : VulkanColorAndStencilCallback.t) (eventsInfo : Z -> EventInfo)
    (fmt : Z) (h : nat) (st : list PixelModification * gmap Z Z)
    : nat * (list PixelModification * gmap Z Z) :=
  let '(history, eventsWithFrags) := st in
  match history !! h with
  | None => (S h, st)
  | Some pm =>
    let eventIndex := VulkanColorAndStencilCallback.GetEventIndex cb (eventId pm) in
    if eventIndex =? -1 then (S h, st) else
    let ei := eventsInfo eventIndex in
    let pm := read_event_info fmt ei pm in
    let frags := byte0 (dsWithoutShaderDiscard ei) in
    let history := <[h := pm]> history in
    let eventsWithFrags :=
      if 0 <? frags then <[eventId pm := frags]> eventsWithFrags else eventsWithFrags in
    let history := Nat.iter (Z.to_nat (frags - 1)) (insert_at (S h) pm) history in
    let history :=
      fold_left (fun hist f => alter (set_fragIndex (Z.of_nat f)) (h + f)%nat hist)
        (seq 0%nat (Z.to_nat frags)) history in
    ((h + Z.to_nat (Z.max 1 frags))%nat, (history, eventsWithFrags))
  end.

(** [for(size_t h = 0; h < history.size();)]: the loop ends when [h] reaches
    the size; [None] when [fuel] rounds were not enough to get there. *)
Fixpoint expand_loop (cb : VulkanColorAndStencilCallback.t) (eventsInfo : Z -> EventInfo)
    (fmt : Z) (fuel : nat) (h : nat) (st : list PixelModification * gmap Z Z)
    : option (list PixelModification * gmap Z Z) :=
  if bool_decide (length (fst st) ≤ h)%nat then Some st
  else
    match fuel with
    | O => None
    | S fuel =>
      let '(h', st') := expand_entry cb eventsInfo fmt h st in
      expand_loop cb eventsInfo fmt fuel h' st'
    end.

(** The loop that fetches the primitive id of every fragment:
    [(history, discardedPrimsEvents, primitivesToCheck)]. *)
Definition primitive_step (perFragmentCB : VulkanPixelHistoryPerFragmentCallback.t)
    (bp : Z -> PerFragmentInfo) (eventsWithFrags : gmap Z Z)
    (st : list PixelModification * gmap Z (list Z) * Z) (h : nat)
    : list PixelModification * gmap Z (list Z) * Z :=
  let '(history, discardedPrimsEvents, primitivesToCheck) := st in
  match history !! h with
  | None => st
  | Some pm =>
    let eid := eventId pm in
    match eventsWithFrags !! eid with
    | None => st
    | Some _ =>
      let f := u32 (fragIndex pm) in
      let someFragsClipped := primitiveID pm =? 1 in
      let primId :=
        pf_primitiveID
          (bp (u32 (VulkanPixelHistoryPerFragmentCallback.GetEventOffset
                      (undefined env) perFragmentCB eid + f))) in
      let history := <[h := set_primitiveID primId pm]> history in
      if someFragsClipped
      then (history,
            <[eid := default [] (discardedPrimsEvents !! eid) ++ [primId]]> discardedPrimsEvents,
            u32 (primitivesToCheck + 1))
      else (history, discardedPrimsEvents, primitivesToCheck)
    end
  end.

(** [history[h].shaderDiscarded = discardedCb.PrimitiveDiscarded(...)], for every [h]. *)
Definition mark_discarded (discardedCb : VulkanPixelHistoryDiscardedFragmentsCallback.t)
    (history : list PixelModification) : list PixelModification :=
  map (fun pm =>
         set_shaderDiscarded
           (VulkanPixelHistoryDiscardedFragmentsCallback.PrimitiveDiscarded (undefined env)
              discardedCb (eventId pm) (u32 (primitiveID pm))) pm)
      history.

(** The last loop: shader output and post-modification value per fragment:
    [(history, discardOffset)]. *)
Definition fragment_step (perFragmentCB : VulkanPixelHistoryPerFragmentCallback.t)
    (bp : Z -> PerFragmentInfo) (eventsWithFrags : gmap Z Z)
    (resourceFmt shaderOutFormat : Z)
    (st : list PixelModification * Z) (h : nat) : list PixelModification * Z :=
  let '(history, discardOffset) := st in
  match history !! h with
  | None => st
  | Some pm =>
    let eid := eventId pm in
    let f := u32 (fragIndex pm) in
    let prev := if (0 <? h)%nat then history !! (h - 1)%nat else None in
    (* Reset discard offset if this is a new event. *)
    let discardOffset :=
      match prev with
      | Some before => if negb (eid =? eventId before) then 0 else discardOffset
      | None => discardOffset
      end in
    match eventsWithFrags !! eid with
    | None => (history, discardOffset)
    | Some _ =>
      if shaderDiscarded pm then
        let discardOffset := u32 (discardOffset + 1) in
        (* Copy previous post-mod value if its not the first event *)
        match prev with
        | Some before => (<[h := set_postMod (postMod before) pm]> history, discardOffset)
        | None => (history, discardOffset)
        end
      else
        let offset' :=
          u32 (VulkanPixelHistoryPerFragmentCallback.GetEventOffset
                 (undefined env) perFragmentCB eid + f - discardOffset) in
        let pm := set_shaderOut (FillInColor shaderOutFormat (pf_shaderOut (bp offset'))
                                  (shaderOut pm)) pm in
        let pm := set_shaderOut (set_depth (depth_bits (pf_shaderOut (bp offset')))
                                  (shaderOut pm)) pm in
        let pm :=
          match history !! S h with
          | Some next =>
            if eventId pm =? eventId next then
              (* Get post-modification value if this is not the last fragment for the event. *)
              let pm := set_postMod (FillInColor resourceFmt (pf_postMod (bp offset'))
                                       (postMod pm)) pm in
              set_postMod (set_depth (depth_bits (pf_postMod (bp offset'))) (postMod pm)) pm
            else pm
          | None => pm
          end in
        (<[h := pm]> history, discardOffset)
    end
  end.

(** [eventsWithFrags.rbegin()->first]: the largest key. *)
Definition last_key (m : gmap Z Z) : Z :=
  foldr Z.max 0 (map fst (map_to_list m)).

Definition VK_FORMAT_R32G32B32A32_SFLOAT : Z := 109.

(** [events.back().eventId] *)
Definition back_eventId (events : list EventUsage.t) : Z :=
  match last events with Some ev => EventUsage.eventId ev | None => 0 end.

(** The per-fragment part, entered when [eventsWithFrags] is not empty. *)
Definition per_fragment (callbackInfo : PixelHistoryCallbackInfo) (imgformat : Z)
    (history : list PixelModification) (eventsWithFrags : gmap Z Z)
    : list PixelModification * list GpuCall :=
  let '(perFragmentCB, bp) :=
    per_fragment_pass env callbackInfo eventsWithFrags (last_key eventsWithFrags) in
  let log := [ReplayLog (last_key eventsWithFrags)] in
  let '(history, discardedPrimsEvents, primitivesToCheck) :=
    fold_left (primitive_step perFragmentCB bp eventsWithFrags)
      (seq 0%nat (length history)) (history, ∅, 0) in
  let '(history, log) :=
    if 0 <? primitivesToCheck then
      let discardedCb :=
        discarded_pass env callbackInfo discardedPrimsEvents (last_key eventsWithFrags) in
      (mark_discarded discardedCb history,
       log ++ [CreateOcclusionPool primitivesToCheck; ReplayLog (last_key eventsWithFrags);
               DestroyQueryPool])
    else (history, log) in
  let '(history, _) :=
    fold_left (fragment_step perFragmentCB bp eventsWithFrags imgformat
                 VK_FORMAT_R32G32B32A32_SFLOAT)
      (seq 0%nat (length history)) (history, 0) in
  (history, log).

(** The locals of [PixelHistory], as functions of its arguments: [imginfo] is
    [GetDebugManager()->GetImageInfo(target)]. *)
Section Locals.
Variable imginfo : ImageInfo.
Variable events : list EventUsage.t.
Variables x y : Z.
Variable sub : Subresource.

Definition sampleMask : Z :=
  let sampleIdx := u32 (sample sub) in
  let sampleIdx := if u32 (img_samples imginfo) <? sampleIdx then 0 else sampleIdx in
  if sampleIdx <? 32 then u32 (Z.shiftl 1 sampleIdx) else u32 (-1).

Definition multisampled : bool := 1 <? img_samples imginfo.

Definition callbackInfo : PixelHistoryCallbackInfo :=
  {| targetImageFormat := format imginfo; samples := img_samples imginfo;
     cb_x := x; cb_y := y; cb_sampleMask := sampleMask |}.

(** [events.back().eventId], the end of every replay over [events] *)
Definition endEventID : Z := back_eventId events.

(** the occlusion callback after its replay and [FetchOcclusionResults] *)
Definition occlCb : VulkanOcclusionCallback.t :=
  occlusion_pass env callbackInfo events endEventID.

Definition modEvents : list Z := fst (gather_events occlCb events).
Definition drawEvents : list Z := snd (gather_events occlCb events).

(** the colour and stencil callback after its replay, and the mapped buffer *)
Definition cb : VulkanColorAndStencilCallback.t :=
  fst (colour_pass env callbackInfo modEvents endEventID).
Definition eventsInfo : Z -> EventInfo :=
  snd (colour_pass env callbackInfo modEvents endEventID).

Definition tfCb : option TestsFailedCallback.t :=
  if (0 <? length drawEvents)%nat
  then Some (tests_failed_pass env callbackInfo drawEvents endEventID)
  else None.

(** [PixelHistory]: the history and the device calls made on the way.
    [pixelHistory] is [GetAPIProperties().pixelHistory]. *)
Definition PixelHistory (pixelHistory : bool)
    : option (list PixelModification * list GpuCall) :=
  if negb pixelHistory then Some ([], []) else
  if bool_decide (events = []) then Some ([], []) else
  if format imginfo =? VK_FORMAT_UNDEFINED then Some ([], []) else
  let numEvents := u32 (Z.of_nat (length events)) in
  let log := [CreateOcclusionPool numEvents; PixelHistorySetupResources numEvents] in
  let log := if multisampled then log ++ [UpdatePixelHistoryDescriptor] else log in
  let log := log ++ [NewShaderCache] in
  let log := log ++ [ReplayLog endEventID] in
  let log := log ++ [ReplayLog endEventID] in
  let log :=
    if (0 <? length drawEvents)%nat then
      log ++ [CreateOcclusionPool (tests_failed_pool_size drawEvents);
              ReplayLog endEventID; DestroyQueryPool]
    else log in
  let history := build_history tfCb drawEvents events in
  match expand_loop cb eventsInfo (format imginfo) (length history) 0%nat (history, ∅) with
  | None => None
  | Some (history, eventsWithFrags) =>
    let '(history, log') :=
      if (0 <? size eventsWithFrags)%nat
      then per_fragment callbackInfo (format imginfo) history eventsWithFrags
      else (history, []) in
    Some (history,
          log ++ log' ++ [PixelHistoryDestroyResources; DestroyQueryPool; DeleteShaderCache])
  end.

End Locals.

End Orchestrator.

End VulkanReplay.

(** ** PixelHistoryShaderCache *)

Module rdcspv.

(** Modelled from the spec: [rdcspv::Editor] (spirv_editor.h) is outside this
    file.  The model keeps, for every function of the module, the
    instructions between [OpFunction] and [OpFunctionEnd], each reduced to
    what [StripShaderSideEffects] reads: the callee of a call, for the three
    store-like instructions the storage class of the type of the pointer
    operand (the source looks it up with [GetIDType] and [OpTypePointer]),
    and the operands of an atomic read-modify-write.  [Remove] leaves an
    [OpNop] in the place of the instruction, and [AddOperation] puts the new
    instruction there. *)
Inductive StoreOp := CopyMemory | AtomicStore | Store.

Inductive AtomicOp :=
| AtomicExchange | AtomicCompareExchange | AtomicCompareExchangeWeak
| AtomicIIncrement | AtomicIDecrement | AtomicIAdd | AtomicISub
| AtomicSMin | AtomicUMin | AtomicSMax | AtomicUMax
| AtomicAnd | AtomicOr | AtomicXor.

Inductive Instr :=
| OpFunctionCall (function : Z)
| OpStoreLike (op : StoreOp) (storageClass : Z)
| OpImageWrite
| OpAtomicRMW (op : AtomicOp) (resultType result pointer memory semantics : Z)
| OpAtomicLoad (resultType result pointer memory semantics : Z)
| OpNop
| OpOther (opcode : Z).

(** [spv::StorageClass] *)
Definition StorageClass_Uniform : Z := 2.
Definition StorageClass_StorageBuffer : Z := 12.

Record Function := { func_id : Z; body : list Instr }.

Record EntryPoint := { name : string; id : Z }.

(** The editor over a module: its entry points and its functions in the
    order of the module. *)
Record Editor := {
  entries : list EntryPoint;
  functions : list Function
}.

(** The body that [GetID(funcId)] leads to: the first function of that id. *)
Fixpoint GetID (fs : list Function) (funcId : Z) : option (list Instr) :=
  match fs with
  | [] => None
  | f :: fs => if func_id f =? funcId then Some (body f) else GetID fs funcId
  end.

(** Writing back the body of the first function of that id. *)
Fixpoint set_body (fs : list Function) (funcId : Z) (b : list Instr) : list Function :=
  match fs with
  | [] => []
  | f :: fs =>
    if func_id f =? funcId then {| func_id := funcId; body := b |} :: fs
    else f :: set_body fs funcId b
  end.

End rdcspv.

Module PixelHistoryShaderCache.
Import rdcspv.

(** The state of the inner loop of [StripShaderSideEffects]. *)
Record Patch := {
  modified : bool;
  functionPatchQueue : gset Z;
  patchedFunctions : gset Z
}.

(** One turn of the [switch(opcode)]: the instruction left in place and the
    new state. *)
Definition strip_instr (i : Instr) (st : Patch) : Instr * Patch :=
  match i with
  | OpFunctionCall function =>
    if bool_decide (function ∉ functionPatchQueue st) &&
       bool_decide (function ∉ patchedFunctions st)
    then (i, {| modified := modified st;
                functionPatchQueue := {[function]} ∪ functionPatchQueue st;
                patchedFunctions := patchedFunctions st |})
    else (i, st)
  | OpStoreLike _ storageClass =>
    if (storageClass =? StorageClass_Uniform) || (storageClass =? StorageClass_StorageBuffer)
    then (OpNop, {| modified := true; functionPatchQueue := functionPatchQueue st;
                    patchedFunctions := patchedFunctions st |})
    else (i, st)
  | OpImageWrite =>
    (OpNop, {| modified := true; functionPatchQueue := functionPatchQueue st;
               patchedFunctions := patchedFunctions st |})
  | OpAtomicRMW _ resultType result pointer memory semantics =>
    (OpAtomicLoad resultType result pointer memory semantics,
     {| modified := true; functionPatchQueue := functionPatchQueue st;
        patchedFunctions := patchedFunctions st |})
  | _ => (i, st)
  end.

(** The [for(; it; ++it)] loop over one function body. *)
Fixpoint strip_body (b : list Instr) (st : Patch) : list Instr * Patch :=
  match b with
  | [] => ([], st)
  | i :: b =>
    let '(i', st) := strip_instr i st in
    let '(b', st) := strip_body b st in
    (i' :: b', st)
  end.

(** [*functionPatchQueue.begin()]: the smallest id of the queue. *)
Definition queue_begin (q : gset Z) : option Z :=
  match elements q with
  | [] => None
  | x :: l => Some (foldr Z.min x l)
  end.

(** The [while(!functionPatchQueue.empty())] loop; [None] when [fuel] turns
    did not empty the queue. *)
Fixpoint strip_loop (fuel : nat) (fs : list Function) (st : Patch)
    : option (list Function * Patch) :=
  match queue_begin (functionPatchQueue st) with
  | None => Some (fs, st)
  | Some funcId =>
    match fuel with
    | O => None
    | S fuel =>
      let st := {| modified := modified st;
                   functionPatchQueue := functionPatchQueue st ∖ {[funcId]};
                   patchedFunctions := {[funcId]} ∪ patchedFunctions st |} in
      let '(b', st) := strip_body (default [] (GetID fs funcId)) st in
      strip_loop fuel (set_body fs funcId b') st
    end
  end.

(** Every id the traversal can meet: the entry and the callees named in the
    module. *)
Definition callees (b : list Instr) : gset Z :=
  list_to_set (omap (fun i => match i with OpFunctionCall f => Some f | _ => None end) b).

Definition call_universe (fs : list Function) (entryId : Z) : gset Z :=
  {[entryId]} ∪ ⋃ (map (fun f => callees (body f)) fs).

Definition StripShaderSideEffects (editor : Editor) (entryId : Z) : option (bool * Editor) :=
  match strip_loop (size (call_universe (functions editor) entryId)) (functions editor)
          {| modified := false; functionPatchQueue := {[entryId]}; patchedFunctions := ∅ |}
  with
  | None => None
  | Some (fs, st) => Some (modified st, {| entries := entries editor; functions := fs |})
  end.

(** The driver as the cache uses it: the SPIR-V of the recorded shader
    modules, the handles of the modules created so far, and whether the
    device can create another one. *)
Record Driver := {
  GetShaderInfo : Z -> Editor;
  created : list Z;
  device_ok : bool
}.

Definition VK_SUCCESS : Z := 0.
Definition VK_ERROR_OUT_OF_DEVICE_MEMORY : Z := -2.

(** [vkCreateShaderModule]: a handle no earlier module has, or an error and
    no module. *)
Definition vkCreateShaderModule (d : Driver) : Z * Z * Driver :=
  if device_ok d then
    let handle := 1 + foldr Z.max 0 (created d) in
    (VK_SUCCESS, handle,
     {| GetShaderInfo := GetShaderInfo d; created := created d ++ [handle];
        device_ok := device_ok d |})
  else (VK_ERROR_OUT_OF_DEVICE_MEMORY, VK_NULL_HANDLE, d).

(** The cache with its driver; [stripped] counts the runs of
    [StripShaderSideEffects]. *)
Record t := {
  m_pDriver : Driver;
  m_ShaderReplacements : gmap (Z * string) Z;
  stripped : nat
}.

(** The entry the [for] loop over [GetEntries()] stops at. *)
Definition find_entry (es : list EntryPoint) (entryName : string) : option EntryPoint :=
  List.find (fun e => bool_decide (name e = entryName)) es.

Definition CreateShaderReplacement (st : t) (shaderId : Z) (entryName : string)
    : option (Z * t) :=
  let editor := GetShaderInfo (m_pDriver st) shaderId in
  match find_entry (entries editor) entryName with
  | Some entry =>
    match StripShaderSideEffects editor (id entry) with
    | None => None
    | Some (modified, editor) =>
      if modified then
        let '(vkr, module, d) := vkCreateShaderModule (m_pDriver st) in
        Some (module, {| m_pDriver := d; m_ShaderReplacements := m_ShaderReplacements st;
                         stripped := S (stripped st) |})
      else
        Some (VK_NULL_HANDLE,
              {| m_pDriver := m_pDriver st; m_ShaderReplacements := m_ShaderReplacements st;
                 stripped := S (stripped st) |})
    end
  | None => Some (VK_NULL_HANDLE, st)
  end.

Definition GetShaderWithoutSideEffects (st : t) (shaderId : Z) (entryPoint : string)
    : option (Z * t) :=
  let shaderKey := (shaderId, entryPoint) in
  match m_ShaderReplacements st !! shaderKey with
  | Some second => Some (second, st)
  | None =>
    match CreateShaderReplacement st shaderId entryPoint with
    | None => None
    | Some (shaderModule, st) =>
      Some (shaderModule,
            {| m_pDriver := m_pDriver st;
               m_ShaderReplacements := <[shaderKey := shaderModule]> (m_ShaderReplacements st);
               stripped := stripped st |})
    end
  end.

End PixelHistoryShaderCache.

(** ** VulkanPixelHistoryCallback: narrowing a scissor to the pixel *)

Module VulkanPixelHistoryCallback.

(** [float] is IEEE 754 binary32: 24 bits of precision, largest exponent 128.
    Sums round to nearest, ties to even. *)
Definition float := spec_float.
Definition prec : Z := 24.
Definition emax : Z := 128.

(** [(float)u] for a [uint32_t] *)
Definition of_uint32 (u : Z) : float := binary_normalize prec emax (u32 u) 0 false.
Definition fadd (a b : float) : float := SFadd prec emax a b.
(** [a < b] and [a >= b]; both are false when an operand is a NaN *)
Definition flt (a b : float) : bool := SFltb a b.
Definition fge (a b : float) : bool := SFleb b a.
Definition fzero : float := S754_zero false.

(** [VkViewport], without the depth range *)
Record VkViewport := {
  vp_x : float;
  vp_y : float;
  vp_width : float;
  vp_height : float
}.

Definition empty_scissor : VkRect2D :=
  {| offset := {| off_x := 0; off_y := 0 |}; extent := {| ext_width := 0; ext_height := 0 |} |}.

Definition ScissorToPixel (info : PixelHistoryCallbackInfo) (view : VkViewport)
    (scissor : VkRect2D) : VkRect2D :=
  let fx := of_uint32 (cb_x info) in
  let fy := of_uint32 (cb_y info) in
  let y_start := vp_y view in
  let y_end := fadd (vp_y view) (vp_height view) in
  let '(y_start, y_end) :=
    if flt (vp_height view) fzero
    then (fadd (vp_y view) (vp_height view), vp_y view)
    else (y_start, y_end) in
  if flt fx (vp_x view) || flt fy y_start ||
     fge fx (fadd (vp_x view) (vp_width view)) || fge fy y_end
  then empty_scissor
  else {| offset := {| off_x := i32 (cb_x info); off_y := i32 (cb_y info) |};
          extent := {| ext_width := 1; ext_height := 1 |} |}.

End VulkanPixelHistoryCallback.

(** ** The pipelines of the test-failure pass *)

Module TestsFailedCallbackPipelines.
Import VulkanPixelHistoryCallback.

(** [IntersectScissors]: the offsets are compared as [int32_t]; in the sums
    the offset is converted and the sum is a [uint32_t]. *)
Definition IntersectScissors (originalScissor newScissor : VkRect2D) : VkRect2D :=
  if (off_x (offset newScissor) <? off_x (offset originalScissor)) ||
     (u32 (off_x (offset originalScissor) + ext_width (extent originalScissor)) <?
      u32 (off_x (offset newScissor) + ext_width (extent newScissor))) ||
     (off_y (offset newScissor) <? off_y (offset originalScissor)) ||
     (u32 (off_y (offset originalScissor) + ext_height (extent originalScissor)) <?
      u32 (off_y (offset newScissor) + ext_height (extent newScissor)))
  then empty_scissor
  else newScissor.

(** [VkPipelineShaderStageCreateInfo] *)
Record Stage := {
  stage : Z;
  module : Z;
  pName : string
}.

Definition VK_SHADER_STAGE_FRAGMENT_BIT : Z := 16.

(** [VkGraphicsPipelineCreateInfo] with the states it points to, as far as
    [CreatePipeline] writes them. *)
Record VkGraphicsPipelineCreateInfo := {
  rs_cullMode : Z;
  ds_depthTestEnable : bool;
  ds_depthWriteEnable : bool;
  ds_stencilTestEnable : bool;
  ds_depthBoundsTestEnable : bool;
  ms_pSampleMask : Z;
  pStages : list Stage;
  vs_pViewports : list VkViewport;
  vs_pScissors : list VkRect2D
}.

(** What is outside the file: the create info [MakeGraphicsPipelineInfo]
    fills in for a pipeline, [StageIndex], the module [PatchOutputLocation]
    makes from the fixed colour shader for a framebuffer index, whether
    [vkCreateGraphicsPipelines] succeeds, and what the variable [pipe] holds
    when it does not. *)
Record Device := {
  MakeGraphicsPipelineInfo : Z -> VkGraphicsPipelineCreateInfo;
  StageIndex : Z -> nat;
  PatchOutputLocation : Z -> Z;
  creates : bool;
  uninitialised : Z
}.

(** The pipeline cache of the callback, the fixed colour shaders of the
    shader cache, and the pipelines the device has created, oldest first. *)
Record t := {
  m_PipeCache : gmap (Z * Z) Z;
  m_FixedColFS : gmap Z Z;
  pipelines : list (Z * VkGraphicsPipelineCreateInfo)
}.

Definition GetFixedColShader (dev : Device) (framebufferIndex : Z) (st : t) : Z * t :=
  match m_FixedColFS st !! framebufferIndex with
  | Some second => (second, st)
  | None =>
    let sh := PatchOutputLocation dev framebufferIndex in
    (sh, {| m_PipeCache := m_PipeCache st;
            m_FixedColFS := <[framebufferIndex := sh]> (m_FixedColFS st);
            pipelines := pipelines st |})
  end.

(** The loop over the stages: [(stages, st)] after the last stage. *)
Definition replace_stage (dev : Device) (pipeCreateFlags : Z) (replacementShaders : nat -> Z)
    (framebufferIndex : Z) (acc : list Stage * t) (s : Stage) : list Stage * t :=
  let '(stages, st) := acc in
  if (stage s =? VK_SHADER_STAGE_FRAGMENT_BIT) &&
     has_flag pipeCreateFlags TestsFailedCallback.PipelineCreationFlags_FixedColorShader
  then
    let '(sh, st) := GetFixedColShader dev framebufferIndex st in
    (stages ++ [ {| stage := stage s; module := sh; pName := "main" |} ], st)
  else if negb (replacementShaders (StageIndex dev (stage s)) =? VK_NULL_HANDLE)
  then (stages ++ [ {| stage := stage s;
                       module := replacementShaders (StageIndex dev (stage s));
                       pName := pName s |} ], st)
  else (stages ++ [s], st).

(** The loop over the viewports of a pipeline with a static scissor.
    [pScissors] is [vs->pScissors] under a cast: the scissor that
    [IntersectScissors] takes as the original one is the scissor
    [ScissorToPixel] has just written.  A pipeline has a scissor for every
    viewport; the scissors past the last viewport stay as they are. *)
Fixpoint narrow_scissors (info : PixelHistoryCallbackInfo) (pipeCreateFlags : Z)
    (pViewports : list VkViewport) (pScissors : list VkRect2D) : list VkRect2D :=
  match pViewports, pScissors with
  | view :: pViewports, scissor :: pScissors =>
    let scissor := ScissorToPixel info view scissor in
    let scissor :=
      if has_flag pipeCreateFlags
           TestsFailedCallback.PipelineCreationFlags_IntersectOriginalScissor
      then IntersectScissors scissor scissor
      else scissor in
    scissor :: narrow_scissors info pipeCreateFlags pViewports pScissors
  | _, _ => pScissors
  end.

(** [vkCreateGraphicsPipelines]: a handle no earlier pipeline has. *)
Definition vkCreateGraphicsPipelines (dev : Device) (ci : VkGraphicsPipelineCreateInfo) (st : t)
    : Z * t :=
  if creates dev then
    let pipe := 1 + foldr Z.max 0 (map fst (pipelines st)) in
    (pipe, {| m_PipeCache := m_PipeCache st; m_FixedColFS := m_FixedColFS st;
              pipelines := pipelines st ++ [(pipe, ci)] |})
  else (uninitialised dev, st).

Definition CreatePipeline (dev : Device) (info : PixelHistoryCallbackInfo)
    (basePipeline pipeCreateFlags : Z) (dynamicScissor : bool)
    (replacementShaders : nat -> Z) (framebufferIndex : Z) (st : t) : Z * t :=
  let pipeKey := (basePipeline, pipeCreateFlags) in
  match m_PipeCache st !! pipeKey with
  | Some second => (second, st)
  | None =>
    let ci := MakeGraphicsPipelineInfo dev basePipeline in
    let on := has_flag pipeCreateFlags in
    let '(stages, st) :=
      fold_left (replace_stage dev pipeCreateFlags replacementShaders framebufferIndex)
        (pStages ci) ([], st) in
    let ci :=
      {| rs_cullMode :=
           if on TestsFailedCallback.PipelineCreationFlags_DisableCulling
           then VK_CULL_MODE_NONE else rs_cullMode ci;
         ds_depthTestEnable :=
           if on TestsFailedCallback.PipelineCreationFlags_DisableDepthTest
           then false else ds_depthTestEnable ci;
         ds_depthWriteEnable := false;
         ds_stencilTestEnable :=
           if on TestsFailedCallback.PipelineCreationFlags_DisableStencilTest
           then false else ds_stencilTestEnable ci;
         ds_depthBoundsTestEnable :=
           if on TestsFailedCallback.PipelineCreationFlags_DisableDepthBoundsTest
           then false else ds_depthBoundsTestEnable ci;
         ms_pSampleMask := cb_sampleMask info;
         pStages := stages;
         vs_pViewports := vs_pViewports ci;
         vs_pScissors :=
           if negb dynamicScissor
           then narrow_scissors info pipeCreateFlags (vs_pViewports ci) (vs_pScissors ci)
           else vs_pScissors ci |} in
    let '(pipe, st) := vkCreateGraphicsPipelines dev ci st in
    (pipe, {| m_PipeCache := <[pipeKey := pipe]> (m_PipeCache st);
              m_FixedColFS := m_FixedColFS st;
              pipelines := pipelines st |})
  end.

End TestsFailedCallbackPipelines.

(** ** Copying the pixel into the read-back buffer *)

Module PixelCopy.

Definition VK_SAMPLE_COUNT_1_BIT : Z := 1.
Definition VK_IMAGE_ASPECT_COLOR_BIT : Z := 1.
Definition VK_IMAGE_ASPECT_DEPTH_BIT : Z := 2.
Definition VK_IMAGE_ASPECT_STENCIL_BIT : Z := 4.
Definition VK_FORMAT_D32_SFLOAT_S8_UINT : Z := 130.

(** [size_t] is 64 bits wide. *)
Definition u64 (z : Z) : Z := z mod 2 ^ 64.

(** The layout of the records of the buffer.  [PixelHistoryValue] is 32
    bytes of colour, the 4 bytes of the depth union, the stencil byte and 3
    bytes of padding; [EventInfo] is two of them and two arrays of 8 bytes;
    [PerFragmentInfo] is the primitive id, 12 bytes of padding and two
    [PixelHistoryValue]. *)
Definition offsetof_depth : Z := 32.
Definition offsetof_stencil : Z := 36.
Definition sizeof_PixelHistoryValue : Z := 40.
Definition offsetof_postmod : Z := 40.
Definition offsetof_dsWithoutShaderDiscard : Z := 80.
Definition offsetof_dsWithShaderDiscard : Z := 88.
Definition sizeof_EventInfo : Z := 96.
Definition offsetof_shaderOut : Z := 16.
Definition offsetof_postMod : Z := 56.
Definition sizeof_PerFragmentInfo : Z := 96.

(** The images a copy can read: the target of the history, the image the
    per-fragment pass renders to, the stencil image of the passes, and the
    depth output of the draw. *)
Inductive Image := targetImage | subImage | stencilImage | depthImage.

Record CopyPixelParams := {
  srcImage : Image;
  srcImageFormat : Z;
  depthCopy : bool;
  stencilOnly : bool
}.

(** A region of [vkCmdCopyImageToBuffer]: one pixel of one aspect, written
    at [bufferOffset]. *)
Record VkBufferImageCopy := {
  bufferOffset : Z;
  aspectMask : Z
}.

(** What is outside the file: the tests on a format (vk_common.h). *)
Record Formats := {
  IsDepthOnlyFormat : Z -> bool;
  IsDepthAndStencilFormat : Z -> bool;
  IsStencilFormat : Z -> bool
}.

(** [CopyImagePixel]: the regions of the copy it records; none when it
    returns before recording one. *)
Definition CopyImagePixel (F : Formats) (info : PixelHistoryCallbackInfo)
    (p : CopyPixelParams) (offset : Z) : list VkBufferImageCopy :=
  if depthCopy p && negb (samples info =? VK_SAMPLE_COUNT_1_BIT) then []
  else if negb (depthCopy p)
  then [ {| bufferOffset := offset; aspectMask := VK_IMAGE_ASPECT_COLOR_BIT |} ]
  else if stencilOnly p
  then [ {| bufferOffset := offset; aspectMask := VK_IMAGE_ASPECT_STENCIL_BIT |} ]
  else
    (if IsDepthOnlyFormat F (srcImageFormat p) || IsDepthAndStencilFormat F (srcImageFormat p)
     then [ {| bufferOffset := offset; aspectMask := VK_IMAGE_ASPECT_DEPTH_BIT |} ]
     else []) ++
    (if IsStencilFormat F (srcImageFormat p)
     then [ {| bufferOffset := u64 (offset + 4); aspectMask := VK_IMAGE_ASPECT_STENCIL_BIT |} ]
     else []).

Definition colour_of (image : Image) (fmt : Z) : CopyPixelParams :=
  {| srcImage := image; srcImageFormat := fmt; depthCopy := false; stencilOnly := false |}.

Definition depth_of (image : Image) (fmt : Z) : CopyPixelParams :=
  {| srcImage := image; srcImageFormat := fmt; depthCopy := true; stencilOnly := false |}.

End PixelCopy.

(** ** The replay of the colour and stencil pass *)

Module ColorAndStencilReplay.
Import PixelCopy.

(** A call of [CopyImagePixel] as the callback makes it: the event it is
    made for, its parameters and its offset. *)
Record Copy := {
  c_event : Z;
  c_params : CopyPixelParams;
  c_offset : Z
}.

(** [callback] holds the map [GetEventIndex] reads; [copies] lists the
    calls of [CopyImagePixel] so far, oldest first. *)
Record t := {
  m_Events : list Z;
  callback : VulkanColorAndStencilCallback.t;
  copies : list Copy
}.

Definition create (events : list Z) : t :=
  {| m_Events := events;
     callback := {| VulkanColorAndStencilCallback.m_EventIndices := ∅ |};
     copies := [] |}.

Definition indices (st : t) : gmap Z Z :=
  VulkanColorAndStencilCallback.m_EventIndices (callback st).

(** [m_EventIndices.size() * sizeof(EventInfo)], a [size_t] *)
Definition next_offset (st : t) : Z := u64 (Z.of_nat (size (indices st)) * sizeof_EventInfo).

(** [CopyPixel]: the colour, and the depth when there is a depth image
    ([depthFormat] is its format). *)
Definition CopyPixel (info : PixelHistoryCallbackInfo) (depthFormat : option Z)
    (eid offset : Z) : list Copy :=
  [ {| c_event := eid; c_params := colour_of targetImage (targetImageFormat info);
       c_offset := offset |} ] ++
  match depthFormat with
  | Some fmt =>
    [ {| c_event := eid; c_params := depth_of depthImage fmt;
         c_offset := u64 (offset + offsetof_depth) |} ]
  | None => []
  end.

(** The parameters of the copies of the stencil counts. *)
Definition stencil_count : CopyPixelParams :=
  {| srcImage := stencilImage; srcImageFormat := VK_FORMAT_D32_SFLOAT_S8_UINT;
     depthCopy := true; stencilOnly := true |}.

Definition add_copies (new : list Copy) (st : t) : t :=
  {| m_Events := m_Events st; callback := callback st; copies := copies st ++ new |}.

(** [m_EventIndices.insert(std::make_pair(eid, m_EventIndices.size()))]:
    an event that has an index keeps it. *)
Definition insert_index (eid : Z) (st : t) : t :=
  match indices st !! eid with
  | Some _ => st
  | None =>
    {| m_Events := m_Events st;
       callback :=
         {| VulkanColorAndStencilCallback.m_EventIndices :=
              <[eid := Z.of_nat (size (indices st))]> (indices st) |};
       copies := copies st |}
  end.

(** [PreDraw]: [primary] is [IsCmdPrimary()], [depthOut eid] the format of
    the depth output of the draw when it has one. *)
Definition PreDraw (info : PixelHistoryCallbackInfo) (depthOut : Z -> option Z)
    (eid : Z) (primary : bool) (st : t) : t :=
  if negb (contains (m_Events st) eid) || negb primary then st else
  let storeOffset := next_offset st in
  add_copies
    (CopyPixel info (depthOut eid) eid storeOffset ++
     [ {| c_event := eid; c_params := stencil_count;
          c_offset := u64 (storeOffset + offsetof_dsWithoutShaderDiscard) |};
       {| c_event := eid; c_params := stencil_count;
          c_offset := u64 (storeOffset + offsetof_dsWithShaderDiscard) |} ]) st.

Definition PostDraw (info : PixelHistoryCallbackInfo) (depthOut : Z -> option Z)
    (eid : Z) (primary : bool) (st : t) : t :=
  if negb (contains (m_Events st) eid) || negb primary then st else
  let storeOffset := next_offset st in
  insert_index eid
    (add_copies (CopyPixel info (depthOut eid) eid (u64 (storeOffset + offsetof_postmod))) st).

Definition PreDispatch (info : PixelHistoryCallbackInfo) (eid : Z) (st : t) : t :=
  if negb (contains (m_Events st) eid) then st else
  add_copies (CopyPixel info None eid (next_offset st)) st.

Definition PostDispatch (info : PixelHistoryCallbackInfo) (eid : Z) (st : t) : t :=
  if negb (contains (m_Events st) eid) then st else
  insert_index eid
    (add_copies (CopyPixel info None eid (u64 (next_offset st + offsetof_postmod))) st).

Definition PreMisc (info : PixelHistoryCallbackInfo) (eid : Z) (st : t) : t :=
  PreDispatch info eid st.

Definition PostMisc (info : PixelHistoryCallbackInfo) (eid : Z) (st : t) : t :=
  if negb (contains (m_Events st) eid) then st else PostDispatch info eid st.

(** The first event of a list inside a range, 0 when there is none; the
    comparisons are between [uint32_t]. *)
Definition in_range (secondaryFirst secondaryLast eid : Z) : bool :=
  (secondaryFirst <=? eid) && (eid <=? secondaryLast).

Definition first_in_range (secondaryFirst secondaryLast : Z) (events : list Z) : Z :=
  default 0 (List.find (in_range secondaryFirst secondaryLast) events).

Definition PreCmdExecute (info : PixelHistoryCallbackInfo)
    (secondaryFirst secondaryLast : Z) (st : t) : t :=
  if (length (m_Events st) =? 0)%nat then st else
  let eventId := first_in_range secondaryFirst secondaryLast (m_Events st) in
  if eventId =? 0 then st else
  insert_index eventId (add_copies (CopyPixel info None eventId (next_offset st)) st).

(** The loop of [PostCmdExecute] runs from the last event down. *)
Definition PostCmdExecute (info : PixelHistoryCallbackInfo)
    (secondaryFirst secondaryLast : Z) (st : t) : t :=
  if (length (m_Events st) =? 0)%nat then st else
  let eventId := first_in_range secondaryFirst secondaryLast (rev (m_Events st)) in
  if eventId =? 0 then st else
  match indices st !! eventId with
  | Some second =>
    let storeOffset := u64 (second * sizeof_EventInfo) in
    add_copies (CopyPixel info None eventId (u64 (storeOffset + offsetof_postmod))) st
  | None =>
    let storeOffset := next_offset st in
    add_copies (CopyPixel info None eventId (u64 (storeOffset + offsetof_postmod)))
      (insert_index eventId st)
  end.

(** The calls the driver makes in a replay. *)
Inductive Call :=
| CallPreDraw (eid : Z) (primary : bool)
| CallPostDraw (eid : Z) (primary : bool)
| CallPreDispatch (eid : Z)
| CallPostDispatch (eid : Z)
| CallPreMisc (eid : Z)
| CallPostMisc (eid : Z)
| CallPreCmdExecute (secondaryFirst secondaryLast : Z)
| CallPostCmdExecute (secondaryFirst secondaryLast : Z).

Definition call (info : PixelHistoryCallbackInfo) (depthOut : Z -> option Z)
    (st : t) (c : Call) : t :=
  match c with
  | CallPreDraw eid primary => PreDraw info depthOut eid primary st
  | CallPostDraw eid primary => PostDraw info depthOut eid primary st
  | CallPreDispatch eid => PreDispatch info eid st
  | CallPostDispatch eid => PostDispatch info eid st
  | CallPreMisc eid => PreMisc info eid st
  | CallPostMisc eid => PostMisc info eid st
  | CallPreCmdExecute secondaryFirst secondaryLast =>
    PreCmdExecute info secondaryFirst secondaryLast st
  | CallPostCmdExecute secondaryFirst secondaryLast =>
    PostCmdExecute info secondaryFirst secondaryLast st
  end.

Definition replay (info : PixelHistoryCallbackInfo) (depthOut : Z -> option Z)
    (calls : list Call) (st : t) : t :=
  fold_left (call info depthOut) calls st.

(** An action of the primary command buffer: the driver calls the callback
    before and after it. *)
Inductive Action :=
| ActionDraw (eid : Z)
| ActionDispatch (eid : Z)
| ActionMisc (eid : Z).

Definition action_eid (a : Action) : Z :=
  match a with ActionDraw eid | ActionDispatch eid | ActionMisc eid => eid end.

Definition calls_of (a : Action) : list Call :=
  match a with
  | ActionDraw eid => [CallPreDraw eid true; CallPostDraw eid true]
  | ActionDispatch eid => [CallPreDispatch eid; CallPostDispatch eid]
  | ActionMisc eid => [CallPreMisc eid; CallPostMisc eid]
  end.

End ColorAndStencilReplay.

(** ** The replay of the per-fragment pass *)

Module PerFragmentReplay.
Import PixelCopy.

(** A call of [CopyImagePixel] as [PreDraw] makes it: the event and the
    fragment it is made for, its parameters and its offset. *)
Record Copy := {
  c_event : Z;
  c_fragment : Z;
  c_params : CopyPixelParams;
  c_offset : Z
}.

(** [callback] holds the map [GetEventOffset] reads; [copies] lists the
    calls of [CopyImagePixel] so far, oldest first. *)
Record t := {
  m_EventFragments : gmap Z Z;
  callback : VulkanPixelHistoryPerFragmentCallback.t;
  fragsProcessed : Z;
  copies : list Copy
}.

Definition create (eventFragments : gmap Z Z) : t :=
  {| m_EventFragments := eventFragments;
     callback := {| VulkanPixelHistoryPerFragmentCallback.m_EventIndices := ∅ |};
     fragsProcessed := 0;
     copies := [] |}.

(** The copies of the two draws of fragment [f]: the primitive id, then the
    depth of the shader output when the depth test is on, then its colour.
    [storeOffset] is a [uint32_t]. *)
Definition fragment_copies (depthEnabled : bool) (eid fragsProcessed f : Z) : list Copy :=
  let storeOffset := u32 (u32 (fragsProcessed + f) * sizeof_PerFragmentInfo) in
  let primitive :=
    {| c_event := eid; c_fragment := f;
       c_params := colour_of subImage VulkanReplay.VK_FORMAT_R32G32B32A32_SFLOAT;
       c_offset := storeOffset |} in
  let storeOffset := u32 (storeOffset + offsetof_shaderOut) in
  let depth :=
    if depthEnabled
    then [ {| c_event := eid; c_fragment := f;
              c_params := depth_of stencilImage VK_FORMAT_D32_SFLOAT_S8_UINT;
              c_offset := u64 (storeOffset + offsetof_depth) |} ]
    else [] in
  let colour :=
    {| c_event := eid; c_fragment := f;
       c_params := colour_of subImage VulkanReplay.VK_FORMAT_R32G32B32A32_SFLOAT;
       c_offset := storeOffset |} in
  [primitive] ++ depth ++ [colour].

(** The copies of the post-modification value of fragment [f]: the colour of
    the target, then the depth output of the draw when it has one
    ([depthFormat] is its format). *)
Definition postmod_copies (info : PixelHistoryCallbackInfo) (depthFormat : option Z)
    (eid fragsProcessed f : Z) : list Copy :=
  let offset :=
    u64 (u32 (fragsProcessed + f) * sizeof_PerFragmentInfo + offsetof_postMod) in
  [ {| c_event := eid; c_fragment := f;
       c_params := colour_of targetImage (targetImageFormat info);
       c_offset := offset |} ] ++
  match depthFormat with
  | Some fmt =>
    [ {| c_event := eid; c_fragment := f;
         c_params := depth_of depthImage fmt;
         c_offset := u64 (offset + offsetof_depth) |} ]
  | None => []
  end.

(** [PreDraw]: [depthOut eid] is the format of the depth output of draw
    [eid], when it has one.  The second loop runs to
    [numFragmentsInEvent - 1], a [uint32_t]. *)
Definition PreDraw (info : PixelHistoryCallbackInfo) (depthOut : Z -> option Z)
    (d : Draw) (st : t) : t :=
  let eid := draw_eid d in
  match m_EventFragments st !! eid with
  | None => st
  | Some numFragmentsInEvent =>
    let depthEnabled := depthTestEnable (draw_pipeline d) in
    let first :=
      flat_map (fun f => fragment_copies depthEnabled eid (fragsProcessed st) (Z.of_nat f))
        (seq 0%nat (Z.to_nat numFragmentsInEvent)) in
    let second :=
      flat_map (fun f => postmod_copies info (depthOut eid) eid (fragsProcessed st) (Z.of_nat f))
        (seq 0%nat (Z.to_nat (u32 (numFragmentsInEvent - 1)))) in
    {| m_EventFragments := m_EventFragments st;
       callback :=
         {| VulkanPixelHistoryPerFragmentCallback.m_EventIndices :=
              <[eid := fragsProcessed st]>
                (VulkanPixelHistoryPerFragmentCallback.m_EventIndices (callback st)) |};
       fragsProcessed := u32 (fragsProcessed st + numFragmentsInEvent);
       copies := copies st ++ first ++ second |}
  end.

(** The replay of a frame: the driver calls [PreDraw] once for every draw it
    replays, in frame order. *)
Definition replay (info : PixelHistoryCallbackInfo) (depthOut : Z -> option Z)
    (frame : list Draw) (st : t) : t :=
  fold_left (fun st d => PreDraw info depthOut d st) frame st.

End PerFragmentReplay.

(** ** The replay of the discarded-fragments pass *)

Module DiscardedFragmentsReplay.

(** One draw of a single primitive under an occlusion query, as [PreDraw]
    records it: [CmdBeginQuery(pool, queryId)], the draw of the primitive,
    [CmdEndQuery]. *)
Record Query := {
  q_event : Z;
  q_primId : Z;
  q_index : Z
}.

(** [m_Events] maps an event to its primitive ids ([int32_t]); [callback]
    holds the maps [PrimitiveDiscarded] reads; [cmd] lists the queries
    recorded so far, oldest first. *)
Record t := {
  m_Events : gmap Z (list Z);
  callback : VulkanPixelHistoryDiscardedFragmentsCallback.t;
  cmd : list Query
}.

Definition create (events : gmap Z (list Z)) : t :=
  {| m_Events := events;
     callback :=
       {| VulkanPixelHistoryDiscardedFragmentsCallback.m_OcclusionIndices := ∅;
          VulkanPixelHistoryDiscardedFragmentsCallback.m_OcclusionResults := [] |};
     cmd := [] |}.

(** One turn of the loop over [primIds]: the query index is the number of
    keys the map has, the primitive id is converted to [uint32_t], and
    [operator[]] overwrites the index of a key that is already there. *)
Definition query_primitive (eid : Z) (st : t) (primId : Z) : t :=
  let indices := VulkanPixelHistoryDiscardedFragmentsCallback.m_OcclusionIndices (callback st) in
  let queryId := u32 (Z.of_nat (size indices)) in
  let primId := u32 primId in
  {| m_Events := m_Events st;
     callback :=
       {| VulkanPixelHistoryDiscardedFragmentsCallback.m_OcclusionIndices :=
            <[(eid, primId) := queryId]> indices;
          VulkanPixelHistoryDiscardedFragmentsCallback.m_OcclusionResults :=
            VulkanPixelHistoryDiscardedFragmentsCallback.m_OcclusionResults (callback st) |};
     cmd := cmd st ++ [ {| q_event := eid; q_primId := primId; q_index := queryId |} ] |}.

Definition PreDraw (eid : Z) (st : t) : t :=
  match m_Events st !! eid with
  | None => st
  | Some primIds => fold_left (query_primitive eid) primIds st
  end.

(** The replay of a frame: the driver calls [PreDraw] once for every draw it
    replays, in frame order. *)
Definition replay (frame : list Draw) (st : t) : t :=
  fold_left (fun st d => PreDraw (draw_eid d) st) frame st.

(** [FetchOcclusionResults]: the results are resized to the number of keys
    and filled from the pool ([gpu] gives the result stored at each query
    index). *)
Definition FetchOcclusionResults (gpu : Z -> Z) (st : t) : t :=
  let indices := VulkanPixelHistoryDiscardedFragmentsCallback.m_OcclusionIndices (callback st) in
  {| m_Events := m_Events st;
     callback :=
       {| VulkanPixelHistoryDiscardedFragmentsCallback.m_OcclusionIndices := indices;
          VulkanPixelHistoryDiscardedFragmentsCallback.m_OcclusionResults :=
            map (fun i => gpu (Z.of_nat i)) (seq 0%nat (size indices)) |};
     cmd := cmd st |}.

(** The whole pass on a fresh callback: replay, then fetch. *)
Definition run (frame : list Draw) (gpu : Z -> Z) (events : gmap Z (list Z)) : t :=
  FetchOcclusionResults gpu (replay frame (create events)).

End DiscardedFragmentsReplay.

(** * Specification-side definitions *)

(** The redraws a step added to the command buffer. *)
Definition redraws_since (before after : TestsFailedCallback.t) : list TestsFailedCallback.Redraw :=
  drop (length (TestsFailedCallback.cmd before)) (TestsFailedCallback.cmd after).

(** [after] is [before] with the tests [ts] redrawn for event [eid], one
    after the other. *)
Inductive issued (eid : Z) (before : TestsFailedCallback.t)
    : TestsFailedCallback.t -> list Z -> Prop :=
| issued_none : issued eid before before []
| issued_more st ts pipeFlags test :
    issued eid before st ts ->
    issued eid before (TestsFailedCallback.ReplayDraw pipeFlags eid test st) (ts ++ [test]).

(** The tests [ReplayDrawWithTests] redraws for a set of event flags, in
    order. *)
Definition tests_issued (eventFlags : Z) : list Z :=
  if has_flag eventFlags TestMustFail_Culling then [] else
  (if has_flag eventFlags TestEnabled_Culling then [TestEnabled_Culling] else []) ++
  if has_flag eventFlags TestMustFail_Scissor then [] else
  (if Z.land eventFlags (Z.lor TestEnabled_Scissor TestMustPass_Scissor) =? TestEnabled_Scissor
   then [TestEnabled_Scissor] else []) ++
  if has_flag eventFlags TestMustFail_SampleMask then [] else
  (if has_flag eventFlags TestEnabled_SampleMask then [TestEnabled_SampleMask] else []) ++
  (if has_flag eventFlags TestEnabled_DepthBounds then [TestEnabled_DepthBounds] else []) ++
  if has_flag eventFlags TestMustFail_StencilTesting then [] else
  (if has_flag eventFlags TestEnabled_StencilTesting then [TestEnabled_StencilTesting] else []) ++
  if has_flag eventFlags TestMustFail_DepthTesting then [] else
  (if has_flag eventFlags TestEnabled_DepthTesting then [TestEnabled_DepthTesting] else []) ++
  (if has_flag eventFlags TestEnabled_FragmentDiscard then [TestEnabled_FragmentDiscard] else []).

(** The draws of a frame that belong to the pass. *)
Definition hits (drawEvents : list Z) (frame : list Draw) : list Draw :=
  filter (fun d => draw_eid d ∈ drawEvents) frame.

(** The invariant of the replay: after the draws [done], at most six
    queries per event of the pass are known, and every redraw has an index
    below six times the events met. *)
Definition pass_invariant (drawEvents : list Z) (done : list Draw)
    (st : TestsFailedCallback.t) : Prop :=
  TestsFailedCallback.m_Events st = drawEvents ∧
  (size (TestsFailedCallback.m_OcclusionQueries st) ≤ 6 * length (hits drawEvents done))%nat ∧
  Forall (fun r =>
            TestsFailedCallback.rd_test r ≠ TestEnabled_Scissor ∧
            0 <= TestsFailedCallback.rd_index r < 6 * Z.of_nat (length (hits drawEvents done)) ∧
            TestsFailedCallback.rd_event r ∈ map draw_eid done)
         (TestsFailedCallback.cmd st) ∧
  ∀ eid,
    (length (filter (fun r => TestsFailedCallback.rd_event r = eid)
               (TestsFailedCallback.cmd st)) ≤ 6)%nat.

(** The order the redraws are issued in: shader discard last. *)
Definition redraw_order : list Z :=
  [TestEnabled_Culling; TestEnabled_Scissor; TestEnabled_SampleMask; TestEnabled_DepthBounds;
   TestEnabled_StencilTesting; TestEnabled_DepthTesting; TestEnabled_FragmentDiscard].

(** The order [UpdateTestsFailed] reads the outcomes in when early fragment
    tests are off: shader discard right after the sample mask. *)
Definition default_read_order : list Z :=
  [TestEnabled_Culling; TestEnabled_Scissor; TestEnabled_SampleMask;
   TestEnabled_FragmentDiscard; TestEnabled_DepthBounds;
   TestEnabled_StencilTesting; TestEnabled_DepthTesting].

(** ** The history [PixelHistory] builds *)

Section OrchestratorSpec.
Variable U : ResourceUsageEnum.
Variable env : Replays.

(** The entries one entry of the first history becomes. *)
Definition expand_block (cb : VulkanColorAndStencilCallback.t) (eventsInfo : Z -> EventInfo)
    (fmt : Z) (pm : PixelModification) : list PixelModification :=
  let eventIndex := VulkanColorAndStencilCallback.GetEventIndex cb (eventId pm) in
  if eventIndex =? -1 then [pm] else
  let ei := eventsInfo eventIndex in
  let pm' := VulkanReplay.read_event_info env fmt ei pm in
  let frags := byte0 (dsWithoutShaderDiscard ei) in
  if frags =? 0 then [pm']
  else map (fun f => set_fragIndex (Z.of_nat f) pm') (seq 0%nat (Z.to_nat frags)).

(** The part of an entry the test flags leave alone. *)
Definition core (pm : PixelModification) :=
  (eventId pm, directShaderWrite pm, fragIndex pm, primitiveID pm,
   preMod pm, shaderOut pm, postMod pm).

(** An event is kept when it is a draw of [drawEvents], a clear or a direct
    write. *)
Definition kept (drawEvents : list Z) (ev : EventUsage.t) : bool :=
  contains drawEvents (EventUsage.eventId ev) ||
  (EventUsage.usage ev =? Clear U) || isDirectWrite U (EventUsage.usage ev).

(** The entry the second loop makes for an event it keeps. *)
Definition first_entry (tfCb : option TestsFailedCallback.t) (ev : EventUsage.t)
    : PixelModification :=
  let directWrite := isDirectWrite U (EventUsage.usage ev) in
  let clear := EventUsage.usage ev =? Clear U in
  let pm :=
    {| eventId := EventUsage.eventId ev; directShaderWrite := directWrite; unboundPS := false;
       fragIndex := 0; primitiveID := 0;
       preMod := zero_value; shaderOut := zero_value; postMod := zero_value;
       sampleMasked := false; backfaceCulled := false; depthClipped := false;
       scissorClipped := false; shaderDiscarded := false; depthTestFailed := false;
       stencilTestFailed := false |} in
  if negb clear && negb directWrite
  then VulkanReplay.apply_tests env tfCb (EventUsage.eventId ev) pm else pm.

(** What the loop over the primitive ids leaves alone. *)
Definition kept_by_primitives (pm : PixelModification) :=
  (eventId pm, fragIndex pm, preMod pm, postMod pm, shaderDiscarded pm).

(** What marking the discarded fragments leaves alone. *)
Definition kept_by_discard (pm : PixelModification) :=
  (eventId pm, fragIndex pm, preMod pm, postMod pm).

(** What the last loop leaves alone. *)
Definition kept_by_fragments (pm : PixelModification) :=
  (eventId pm, fragIndex pm, preMod pm, shaderDiscarded pm).

(** An entry is the last of its event when no entry of the same event
    follows it directly. *)
Definition last_of_event (history : list PixelModification) (h : nat) : Prop :=
  ∀ pm next, history !! h = Some pm -> history !! S h = Some next ->
             eventId next ≠ eventId pm.

Definition fragment_invariant (history : list PixelModification) (k : nat)
    (st : list PixelModification * Z) : Prop :=
  map kept_by_fragments (fst st) = map kept_by_fragments history ∧
  drop k (fst st) = drop k history ∧
  ∀ i pm0 pm, (i < k)%nat -> history !! i = Some pm0 -> fst st !! i = Some pm ->
              shaderDiscarded pm0 = false -> last_of_event history i ->
              postMod pm = postMod pm0.

(** What the per-fragment part leaves alone. *)
Definition anchor (pm : PixelModification) := (eventId pm, fragIndex pm, preMod pm).

(** A value of the read-back buffer as [PixelHistory] stores it. *)
Definition captured_value (fmt : Z) (v : PixelHistoryValue) : ModificationValue :=
  {| col := ConvertComponents env fmt (color v); depth := depth_bits v; stencil := stencil8 v |}.

(** The number of entries of an event: one per fragment, and one when it
    has no fragment or no record. *)
Definition fragment_entries (cb : VulkanColorAndStencilCallback.t) (eventsInfo : Z -> EventInfo)
    (eid : Z) : nat :=
  let eventIndex := VulkanColorAndStencilCallback.GetEventIndex cb eid in
  if eventIndex =? -1 then 1%nat
  else Z.to_nat (Z.max 1 (byte0 (dsWithoutShaderDiscard (eventsInfo eventIndex)))).

(** Event id and fragment index of an entry. *)
Definition place (pm : PixelModification) : Z * Z := (eventId pm, fragIndex pm).

Definition event_places (cb : VulkanColorAndStencilCallback.t) (eventsInfo : Z -> EventInfo)
    (eid : Z) : list (Z * Z) :=
  map (fun f => (eid, Z.of_nat f)) (seq 0%nat (fragment_entries cb eventsInfo eid)).

(** The events [PixelHistory] keeps, in the order of the list. *)
Definition kept_events (imginfo : ImageInfo) (events : list EventUsage.t) (x y : Z)
    (sub : Subresource) : list EventUsage.t :=
  filter (fun ev => kept (VulkanReplay.drawEvents U env imginfo events x y sub) ev = true) events.

(** What the history is when [PixelHistory] runs its passes. *)
Definition history_shape (imginfo : ImageInfo) (events : list EventUsage.t) (x y : Z)
    (sub : Subresource) (history : list PixelModification) : Prop :=
  let cb := VulkanReplay.cb U env imginfo events x y sub in
  let eventsInfo := VulkanReplay.eventsInfo U env imginfo events x y sub in
  map place history =
    flat_map (fun ev => event_places cb eventsInfo (EventUsage.eventId ev))
      (kept_events imginfo events x y sub) ∧
  ∀ h pm, history !! h = Some pm ->
    let eventIndex := VulkanColorAndStencilCallback.GetEventIndex cb (eventId pm) in
    eventIndex ≠ -1 ->
    preMod pm = captured_value (format imginfo) (premod (eventsInfo eventIndex)) ∧
    (shaderDiscarded pm = false -> last_of_event history h ->
     postMod pm = captured_value (format imginfo) (postmod (eventsInfo eventIndex))).

(** Every entry starts an event at fragment 0 or follows the entry of the
    fragment before it. *)
Definition fragments_counted (places : list (Z * Z)) : Prop :=
  ∀ h p, places !! h = Some p ->
    p.2 = 0 ∨
    ∃ q, (0 < h)%nat ∧ places !! (h - 1)%nat = Some q ∧ q.1 = p.1 ∧ p.2 = q.2 + 1.

End OrchestratorSpec.

(** ** Stripping side effects from a shader *)

Section ShaderCacheSpec.
Import rdcspv PixelHistoryShaderCache.

(** An instruction the stripper takes out: a store through a uniform or
    storage-buffer pointer, an image write, an atomic read-modify-write. *)
Definition side_effect (i : Instr) : bool :=
  match i with
  | OpStoreLike _ storageClass =>
    (storageClass =? StorageClass_Uniform) || (storageClass =? StorageClass_StorageBuffer)
  | OpImageWrite => true
  | OpAtomicRMW _ _ _ _ _ _ => true
  | _ => false
  end.

Definition side_effects (b : list Instr) : nat := length (filter (fun i => side_effect i = true) b).

Definition module_side_effects (fs : list Function) : nat :=
  foldr (fun f n => (side_effects (body f) + n)%nat) 0%nat fs.

(** What holds between the turns of the [while] loop: the queue and the
    patched set stay inside the ids of the module and apart from each other,
    and the flag tells whether the module still is the one the loop began
    with. *)
Definition loop_invariant (fs0 : list Function) (entryId : Z)
    (fs : list Function) (st : Patch) : Prop :=
  functionPatchQueue st ⊆ call_universe fs0 entryId ∧
  patchedFunctions st ⊆ call_universe fs0 entryId ∧
  functionPatchQueue st ∩ patchedFunctions st = ∅ ∧
  map (fun f => callees (body f)) fs = map (fun f => callees (body f)) fs0 ∧
  (modified st = false -> fs = fs0) ∧
  (modified st = true -> (module_side_effects fs < module_side_effects fs0)%nat) ∧
  (module_side_effects fs ≤ module_side_effects fs0)%nat.

(** At least one instruction of the shader was removed or replaced for the
    entry point: the stripped module is not the recorded one. *)
Definition instructions_removed (editor : Editor) (entryName : string) : Prop :=
  ∃ entry flag stripped,
    find_entry (entries editor) entryName = Some entry ∧
    StripShaderSideEffects editor (id entry) = Some (flag, stripped) ∧
    stripped ≠ editor.

End ShaderCacheSpec.

(** ** The queries of the occlusion pass *)

(** The queries the occlusion pass begins over a frame: one per draw of the
    frame that is among [events], numbered from 0 in the order of the
    frame. *)
Definition occlusion_queries (events : list Z) (frame : list Draw) : list (Z * Z) :=
  imap (fun i d => (draw_eid d, Z.of_nat i)) (hits events frame).

(** ** The queries of the test-failure pass *)

(** Event and test of a redraw: the key of its query. *)
Definition redraw_key (r : TestsFailedCallback.Redraw) : Z * Z :=
  (TestsFailedCallback.rd_event r, TestsFailedCallback.rd_test r).

(** The bookkeeping of the queries agrees with the redraws recorded: every
    redraw has its own key and its own index, the indices count from 0, and
    the map of the queries holds exactly the redraws. *)
Definition queries_recorded (st : TestsFailedCallback.t) : Prop :=
  NoDup (map redraw_key (TestsFailedCallback.cmd st)) ∧
  map TestsFailedCallback.rd_index (TestsFailedCallback.cmd st) =
    map Z.of_nat (seq 0%nat (length (TestsFailedCallback.cmd st))) ∧
  TestsFailedCallback.m_OcclusionQueries st =
    list_to_map (map (fun r => (redraw_key r, TestsFailedCallback.rd_index r))
                   (TestsFailedCallback.cmd st)) ∧
  size (TestsFailedCallback.m_OcclusionQueries st) = length (TestsFailedCallback.cmd st).

(** The redraws of one event, in the order they were recorded. *)
Definition redraws_of (eid : Z) (st : TestsFailedCallback.t) : list TestsFailedCallback.Redraw :=
  filter (fun r => TestsFailedCallback.rd_event r = eid) (TestsFailedCallback.cmd st).

(** The must-fail flags [PixelHistory] copies into a fresh entry before it
    calls [UpdateTestsFailed]. *)
Definition copy_must_fail (flags : Z) (pm : PixelModification) : PixelModification :=
  let pm := if has_flag flags TestMustFail_Culling then set_backfaceCulled true pm else pm in
  let pm := if has_flag flags TestMustFail_DepthTesting then set_depthTestFailed true pm else pm in
  let pm := if has_flag flags TestMustFail_Scissor then set_scissorClipped true pm else pm in
  let pm := if has_flag flags TestMustFail_SampleMask then set_sampleMasked true pm else pm in
  if has_flag flags UnboundFragmentShader then set_unboundPS true pm else pm.

(** What the replay of the draws [done] leaves in the callback: the
    bookkeeping of the queries, and for every draw of the pass its flags and
    the redraws of its tests. *)
Definition pass_recorded (features : VkPhysicalDeviceFeatures) (info : PixelHistoryCallbackInfo)
    (drawEvents : list Z) (done : list Draw) (st : TestsFailedCallback.t) : Prop :=
  queries_recorded st ∧
  (∀ d, d ∈ hits drawEvents done ->
     let flags :=
       TestsFailedCallback.CalculateEventFlags features info (draw_pipeline d) (draw_state d) in
     TestsFailedCallback.m_EventFlags st !! draw_eid d = Some flags ∧
     map TestsFailedCallback.rd_test (redraws_of (draw_eid d) st) = tests_issued flags) ∧
  (∀ eid, eid ∉ map draw_eid (hits drawEvents done) ->
     TestsFailedCallback.m_EventFlags st !! eid = None ∧ redraws_of eid st = []).

(** ** What stripping leaves of a module *)

Section StripSpec.
Import rdcspv PixelHistoryShaderCache.

(** The instruction the stripper leaves in the place of one it visits. *)
Definition stripped_instr (i : Instr) : Instr :=
  match i with
  | OpStoreLike _ storageClass =>
    if (storageClass =? StorageClass_Uniform) || (storageClass =? StorageClass_StorageBuffer)
    then OpNop else i
  | OpImageWrite => OpNop
  | OpAtomicRMW _ resultType result pointer memory semantics =>
    OpAtomicLoad resultType result pointer memory semantics
  | _ => i
  end.

(** The functions the entry point reaches through [OpFunctionCall]. *)
Inductive reachable (fs : list Function) (entryId : Z) : Z -> Prop :=
| reachable_entry : reachable fs entryId entryId
| reachable_call caller callee b :
    reachable fs entryId caller -> GetID fs caller = Some b -> callee ∈ callees b ->
    reachable fs entryId callee.

(** What holds between the turns of the [while] loop, function by function:
    a patched function has its body stripped, any other function its body
    of the beginning; what is patched or queued is reachable, and what a
    patched function calls is patched or queued. *)
Definition strip_invariant (fs0 : list Function) (entryId : Z)
    (fs : list Function) (st : Patch) : Prop :=
  (∀ f, f ∈ patchedFunctions st -> GetID fs f = map stripped_instr <$> GetID fs0 f) ∧
  (∀ f, f ∉ patchedFunctions st -> GetID fs f = GetID fs0 f) ∧
  (∀ f, f ∈ functionPatchQueue st ∪ patchedFunctions st -> reachable fs0 entryId f) ∧
  (∀ f b, f ∈ patchedFunctions st -> GetID fs0 f = Some b ->
          callees b ⊆ functionPatchQueue st ∪ patchedFunctions st) ∧
  entryId ∈ functionPatchQueue st ∪ patchedFunctions st.

End StripSpec.

(** ** The pipelines of the test-failure pass *)

(** Every scissor that has a viewport, narrowed to the pixel. *)
Fixpoint scissors_to_pixel (info : PixelHistoryCallbackInfo)
    (views : list VulkanPixelHistoryCallback.VkViewport) (scissors : list VkRect2D)
    : list VkRect2D :=
  match views, scissors with
  | view :: views, scissor :: scissors =>
    VulkanPixelHistoryCallback.ScissorToPixel info view scissor ::
    scissors_to_pixel info views scissors
  | _, _ => scissors
  end.

(** The tests a pipeline of the pass leaves on or off: culling, depth
    bounds, stencil and depth. *)
Definition pipeline_tests (ci : TestsFailedCallbackPipelines.VkGraphicsPipelineCreateInfo)
    : Z * bool * bool * bool :=
  (TestsFailedCallbackPipelines.rs_cullMode ci,
   TestsFailedCallbackPipelines.ds_depthBoundsTestEnable ci,
   TestsFailedCallbackPipelines.ds_stencilTestEnable ci,
   TestsFailedCallbackPipelines.ds_depthTestEnable ci).

(** The tests of the pipeline that a redraw for [test] is to run with, for a
    base pipeline with the tests [base]: culling as the base pipeline has it;
    the depth bounds test as the base pipeline has it for the redraws of the
    depth bounds, stencil and depth tests; the stencil test for the redraw of
    the stencil test and the depth test for the redraw of the depth test;
    every other test off. *)
Definition tests_kept (test : Z) (base : Z * bool * bool * bool) : Z * bool * bool * bool :=
  let '(cull, bounds, stencil, depth) := base in
  if test =? TestEnabled_DepthBounds then (cull, bounds, false, false)
  else if test =? TestEnabled_StencilTesting then (cull, bounds, stencil, false)
  else if test =? TestEnabled_DepthTesting then (cull, bounds, false, depth)
  else (cull, false, false, false).

(** The flags of a redraw turn off what [tests_kept] says and nothing
    else. *)
Definition keeps_test (r : TestsFailedCallback.Redraw) : bool :=
  let test := TestsFailedCallback.rd_test r in
  let on := has_flag (TestsFailedCallback.rd_pipeFlags r) in
  negb (on TestsFailedCallback.PipelineCreationFlags_DisableCulling) &&
  eqb (on TestsFailedCallback.PipelineCreationFlags_DisableDepthBoundsTest)
    (negb ((test =? TestEnabled_DepthBounds) || (test =? TestEnabled_StencilTesting) ||
           (test =? TestEnabled_DepthTesting))) &&
  eqb (on TestsFailedCallback.PipelineCreationFlags_DisableStencilTest)
    (negb (test =? TestEnabled_StencilTesting)) &&
  eqb (on TestsFailedCallback.PipelineCreationFlags_DisableDepthTest)
    (negb (test =? TestEnabled_DepthTesting)).

(** ** The device calls of [PixelHistory] *)

(** The calls of a log are in order: a query pool is destroyed after it was
    created, the resources are set up once and destroyed once, the shader
    cache likewise, a replay runs with all three at hand, and no query pool,
    resources or shader cache is at hand at the end.  [pools] counts the
    pools at hand, [resources] and [cache] tell whether the resources and
    the shader cache are.  The log holds these calls only: the callbacks are
    not in it, and the [TestsFailedCallback] that [PixelHistory] allocates
    with [new] is not deleted. *)
Fixpoint in_order (log : list GpuCall) (pools : nat) (resources cache : bool) : bool :=
  match log with
  | [] => (pools =? 0)%nat && negb resources && negb cache
  | CreateOcclusionPool _ :: log => in_order log (S pools) resources cache
  | DestroyQueryPool :: log =>
    match pools with
    | O => false
    | S pools => in_order log pools resources cache
    end
  | PixelHistorySetupResources _ :: log => negb resources && in_order log pools true cache
  | PixelHistoryDestroyResources :: log => resources && in_order log pools false cache
  | UpdatePixelHistoryDescriptor :: log => resources && in_order log pools resources cache
  | NewShaderCache :: log => negb cache && in_order log pools resources true
  | DeleteShaderCache :: log => cache && in_order log pools resources false
  | ReplayLog _ :: log =>
    (0 <? pools)%nat && resources && cache && in_order log pools resources cache
  end.

Definition is_replay (c : GpuCall) : bool :=
  match c with ReplayLog _ => true | _ => false end.

Definition replays (log : list GpuCall) : nat := length (filter (fun c => is_replay c = true) log).

(** ** The queries of the discarded-fragments pass *)

(** Event and primitive of a query: its key. *)
Definition query_key (q : DiscardedFragmentsReplay.Query) : Z * Z :=
  (DiscardedFragmentsReplay.q_event q, DiscardedFragmentsReplay.q_primId q).

(** The bookkeeping agrees with the queries recorded: every query has its
    own key and its own index, the indices count from 0, and the map holds
    exactly the queries. *)
Definition primitives_recorded (st : DiscardedFragmentsReplay.t) : Prop :=
  NoDup (map query_key (DiscardedFragmentsReplay.cmd st)) ∧
  map DiscardedFragmentsReplay.q_index (DiscardedFragmentsReplay.cmd st) =
    map Z.of_nat (seq 0%nat (length (DiscardedFragmentsReplay.cmd st))) ∧
  VulkanPixelHistoryDiscardedFragmentsCallback.m_OcclusionIndices
    (DiscardedFragmentsReplay.callback st) =
    list_to_map (map (fun q => (query_key q, DiscardedFragmentsReplay.q_index q))
                   (DiscardedFragmentsReplay.cmd st)).

(** The primitives of the draws of a frame that the pass has to check, with
    their events, in the order of the frame. *)
Definition primitives_of (events : gmap Z (list Z)) (frame : list Draw) : list (Z * Z) :=
  flat_map (fun d => map (fun primId => (draw_eid d, u32 primId))
                       (default [] (events !! draw_eid d))) frame.

(** The number of primitives of all events: what [primitivesToCheck] counts. *)
Definition total_primitives (events : gmap Z (list Z)) : nat :=
  sum_list (map (fun kv => length kv.2) (map_to_list events)).

(** ** The records of the per-fragment pass *)

(** The fragments of the draws of a frame that the pass has to look at. *)
Definition fragments_of (eventFragments : gmap Z Z) (frame : list Draw) : Z :=
  fold_right (fun d total => default 0 (eventFragments !! draw_eid d) + total) 0 frame.

(** Where the fields of the [PerFragmentInfo] of index [record] begin that
    the pass writes: the primitive id, the colour and the depth of the shader
    output, the colour and the depth of the post-modification value. *)
Definition fragment_fields (record : Z) : list Z :=
  let base := record * PixelCopy.sizeof_PerFragmentInfo in
  [ base;
    base + PixelCopy.offsetof_shaderOut;
    base + PixelCopy.offsetof_shaderOut + PixelCopy.offsetof_depth;
    base + PixelCopy.offsetof_postMod;
    base + PixelCopy.offsetof_postMod + PixelCopy.offsetof_depth ].

(** What the replay of the draws [done] leaves in the callback: the
    fragments counted, an offset for the events met and no other, the
    records of an event below the count, the records of two events apart,
    and every copy in a field of the record of its fragment. *)
Definition fragments_recorded (eventFragments : gmap Z Z) (done : list Draw)
    (st : PerFragmentReplay.t) : Prop :=
  let indices :=
    VulkanPixelHistoryPerFragmentCallback.m_EventIndices (PerFragmentReplay.callback st) in
  PerFragmentReplay.m_EventFragments st = eventFragments ∧
  PerFragmentReplay.fragsProcessed st = fragments_of eventFragments done ∧
  (∀ eid, indices !! eid ≠ None ↔
          eid ∈ map draw_eid done ∧ eventFragments !! eid ≠ None) ∧
  (∀ eid base n, indices !! eid = Some base -> eventFragments !! eid = Some n ->
                 0 <= base ∧ base + n <= PerFragmentReplay.fragsProcessed st) ∧
  (∀ eid eid' base base' n n',
     eid ≠ eid' ->
     indices !! eid = Some base -> eventFragments !! eid = Some n ->
     indices !! eid' = Some base' -> eventFragments !! eid' = Some n' ->
     base + n <= base' ∨ base' + n' <= base) ∧
  Forall (fun c =>
            ∃ base n,
              indices !! PerFragmentReplay.c_event c = Some base ∧
              eventFragments !! PerFragmentReplay.c_event c = Some n ∧
              0 <= PerFragmentReplay.c_fragment c < n ∧
              PerFragmentReplay.c_offset c ∈ fragment_fields (base + PerFragmentReplay.c_fragment c))
         (PerFragmentReplay.copies st).

(** ** The records of the colour and stencil pass *)

(** Where the fields of the [EventInfo] of index [record] begin that the
    pass writes: colour and depth of the value before the event, colour and
    depth of the value after it, and the two fragment counts. *)
Definition event_fields (record : Z) : list Z :=
  let base := record * PixelCopy.sizeof_EventInfo in
  [ base;
    base + PixelCopy.offsetof_depth;
    base + PixelCopy.offsetof_postmod;
    base + PixelCopy.offsetof_postmod + PixelCopy.offsetof_depth;
    base + PixelCopy.offsetof_dsWithoutShaderDiscard;
    base + PixelCopy.offsetof_dsWithShaderDiscard ].

(** Every index belongs to an event of the callback and lies below the
    number of indices, and no two events share one. *)
Definition indices_dense (st : ColorAndStencilReplay.t) : Prop :=
  (∀ eid k, ColorAndStencilReplay.indices st !! eid = Some k ->
            eid ∈ ColorAndStencilReplay.m_Events st ∧
            0 <= k < Z.of_nat (size (ColorAndStencilReplay.indices st))) ∧
  (∀ eid eid' k, ColorAndStencilReplay.indices st !! eid = Some k ->
                 ColorAndStencilReplay.indices st !! eid' = Some k -> eid = eid').

(** The aspects of the pixel that a record of index [record] can take, and
    where: colour, depth and stencil of the value before the event and of
    the value after it, and the stencil values that count the fragments. *)
Definition event_layout (record : Z) : list (Z * Z) :=
  let base := record * PixelCopy.sizeof_EventInfo in
  [ (base, PixelCopy.VK_IMAGE_ASPECT_COLOR_BIT);
    (base + PixelCopy.offsetof_depth, PixelCopy.VK_IMAGE_ASPECT_DEPTH_BIT);
    (base + PixelCopy.offsetof_stencil, PixelCopy.VK_IMAGE_ASPECT_STENCIL_BIT);
    (base + PixelCopy.offsetof_postmod, PixelCopy.VK_IMAGE_ASPECT_COLOR_BIT);
    (base + PixelCopy.offsetof_postmod + PixelCopy.offsetof_depth,
     PixelCopy.VK_IMAGE_ASPECT_DEPTH_BIT);
    (base + PixelCopy.offsetof_postmod + PixelCopy.offsetof_stencil,
     PixelCopy.VK_IMAGE_ASPECT_STENCIL_BIT);
    (base + PixelCopy.offsetof_dsWithoutShaderDiscard, PixelCopy.VK_IMAGE_ASPECT_STENCIL_BIT);
    (base + PixelCopy.offsetof_dsWithShaderDiscard, PixelCopy.VK_IMAGE_ASPECT_STENCIL_BIT) ].

(** A copy is made for the record of index [record]: a colour copy at one
    of its two values, a depth copy at the depth of one of them, or a copy
    of the stencil alone at one of its two counts. *)
Definition in_record (record : Z) (c : ColorAndStencilReplay.Copy) : Prop :=
  let base := record * PixelCopy.sizeof_EventInfo in
  let p := ColorAndStencilReplay.c_params c in
  let offset := ColorAndStencilReplay.c_offset c in
  (PixelCopy.depthCopy p = false ∧
   (offset = base ∨ offset = base + PixelCopy.offsetof_postmod)) ∨
  (PixelCopy.depthCopy p = true ∧ PixelCopy.stencilOnly p = false ∧
   (offset = base + PixelCopy.offsetof_depth ∨
    offset = base + PixelCopy.offsetof_postmod + PixelCopy.offsetof_depth)) ∨
  (PixelCopy.depthCopy p = true ∧ PixelCopy.stencilOnly p = true ∧
   (offset = base + PixelCopy.offsetof_dsWithoutShaderDiscard ∨
    offset = base + PixelCopy.offsetof_dsWithShaderDiscard)).

(** Every copy made so far is made for the record of its event. *)
Definition copies_in_records (st : ColorAndStencilReplay.t) : Prop :=
  Forall (fun c =>
            ∃ k, ColorAndStencilReplay.indices st !! ColorAndStencilReplay.c_event c = Some k ∧
                 in_record k c)
         (ColorAndStencilReplay.copies st).

(** The actions of a frame whose event is listed, and the index each of
    them gets: its place among them. *)
Definition listed (events : list Z) (frame : list ColorAndStencilReplay.Action)
    : list ColorAndStencilReplay.Action :=
  filter (fun a => ColorAndStencilReplay.action_eid a ∈ events) frame.

Definition numbered (events : list Z) (frame : list ColorAndStencilReplay.Action)
    : list (Z * Z) :=
  imap (fun i a => (ColorAndStencilReplay.action_eid a, Z.of_nat i)) (listed events frame).

(** ** The failure [UpdateTestsFailed] reports *)

(** The outcomes of an entry, in the order of the tests. *)
Definition failures (pm : PixelModification) : list bool :=
  [ backfaceCulled pm; scissorClipped pm; sampleMasked pm; shaderDiscarded pm;
    depthClipped pm; stencilTestFailed pm; depthTestFailed pm ].

(** The field of an entry that tells that [test] failed. *)
Definition reported (test : Z) (pm : PixelModification) : bool :=
  if test =? TestEnabled_Culling then backfaceCulled pm
  else if test =? TestEnabled_Scissor then scissorClipped pm
  else if test =? TestEnabled_SampleMask then sampleMasked pm
  else if test =? TestEnabled_DepthBounds then depthClipped pm
  else if test =? TestEnabled_StencilTesting then stencilTestFailed pm
  else if test =? TestEnabled_DepthTesting then depthTestFailed pm
  else if test =? TestEnabled_FragmentDiscard then shaderDiscarded pm
  else false.

(** ** The rectangle of a viewport *)

(** A finite binary32 number: a zero, or a mantissa and an exponent in
    canonical form. *)
Definition binary32 (f : VulkanPixelHistoryCallback.float) : bool :=
  match f with
  | S754_zero _ => true
  | S754_finite _ m e =>
    valid_binary VulkanPixelHistoryCallback.prec VulkanPixelHistoryCallback.emax f
  | _ => false
  end.

(** The exact value of a finite binary32 number, counted in units of
    [2 ^ -149], the least positive binary32 number: every finite binary32
    number is a whole number of them.  A pixel coordinate [x] is
    [x * 2 ^ 149] units. *)
Definition units (f : VulkanPixelHistoryCallback.float) : Z :=
  match f with
  | S754_finite s m e => (if s then -1 else 1) * Z.pos m * 2 ^ (e + 149)
  | _ => 0
  end.

Definition pixel_units (x : Z) : Z := x * 2 ^ 149.

(** The pixel is outside the rectangle of the viewport, in exact
    arithmetic: left of [x], at or right of [x + width], before the start of
    the Y range or at or after its end, the Y range of a negative height
    being [y + height .. y]. *)
Definition pixel_outside_viewport (x y : Z) (view : VulkanPixelHistoryCallback.VkViewport)
    : Prop :=
  let left := units (VulkanPixelHistoryCallback.vp_x view) in
  let top := units (VulkanPixelHistoryCallback.vp_y view) in
  let width := units (VulkanPixelHistoryCallback.vp_width view) in
  let height := units (VulkanPixelHistoryCallback.vp_height view) in
  let y_start := if height <? 0 then top + height else top in
  let y_end := if height <? 0 then top else top + height in
  pixel_units x < left ∨ left + width <= pixel_units x ∨
  pixel_units y < y_start ∨ y_end <= pixel_units y.

(** The float sum of two finite numbers is their sum: it is finite and
    nothing was rounded away. *)
Definition exact_sum (a b : VulkanPixelHistoryCallback.float) : Prop :=
  binary32 (VulkanPixelHistoryCallback.fadd a b) = true ∧
  units (VulkanPixelHistoryCallback.fadd a b) = units a + units b.

(** A viewport of finite numbers whose far edges [x + width] and
    [y + height] are computed without rounding. *)
Definition exact_viewport (view : VulkanPixelHistoryCallback.VkViewport) : Prop :=
  binary32 (VulkanPixelHistoryCallback.vp_x view) = true ∧
  binary32 (VulkanPixelHistoryCallback.vp_y view) = true ∧
  binary32 (VulkanPixelHistoryCallback.vp_width view) = true ∧
  binary32 (VulkanPixelHistoryCallback.vp_height view) = true ∧
  exact_sum (VulkanPixelHistoryCallback.vp_x view) (VulkanPixelHistoryCallback.vp_width view) ∧
  exact_sum (VulkanPixelHistoryCallback.vp_y view) (VulkanPixelHistoryCallback.vp_height view).

(** * Scenes

    Concrete frames, devices and read-back data on which the definitions
    above are run in the examples. *)

Module Scene.

(** A numbering of [ResourceUsage] in the order of its declaration. *)
Definition usages : ResourceUsageEnum :=
  {| VS_RWResource := 16; CS_RWResource := 21; CopyDst := 33; Copy := 31;
     Resolve := 28; ResolveDst := 30; GenMips := 27; Clear := 26 |}.
Definition ColorTarget : Z := 23.

(** Reads outside the data find zeroes. *)
Definition zeroes : Undefined := {| end_second := 0; end_bool := false; wild := fun _ => 0 |}.

Definition whole_target : VkRect2D :=
  {| offset := {| off_x := 0; off_y := 0 |};
     extent := {| ext_width := 1920; ext_height := 1080 |} |}.

(** A pipeline with every test off, and its variations. *)
Definition plain : Pipeline :=
  {| cullMode := VK_CULL_MODE_NONE; depthBoundsEnable := false; depthTestEnable := false;
     depthCompareOp := VK_COMPARE_OP_ALWAYS; stencilTestEnable := false;
     front_compareOp := VK_COMPARE_OP_ALWAYS; back_compareOp := VK_COMPARE_OP_ALWAYS;
     dynamicScissor := false; scissors := [whole_target]; blendEnables := [false];
     fragmentModule := 7; sampleMask := 1 |}.

Definition with_depth_bounds : Pipeline :=
  {| cullMode := VK_CULL_MODE_NONE; depthBoundsEnable := true; depthTestEnable := false;
     depthCompareOp := VK_COMPARE_OP_ALWAYS; stencilTestEnable := false;
     front_compareOp := VK_COMPARE_OP_ALWAYS; back_compareOp := VK_COMPARE_OP_ALWAYS;
     dynamicScissor := false; scissors := [whole_target]; blendEnables := [false];
     fragmentModule := 7; sampleMask := 1 |}.

Definition stencil_never : Pipeline :=
  {| cullMode := VK_CULL_MODE_NONE; depthBoundsEnable := false; depthTestEnable := false;
     depthCompareOp := VK_COMPARE_OP_ALWAYS; stencilTestEnable := true;
     front_compareOp := VK_COMPARE_OP_NEVER; back_compareOp := VK_COMPARE_OP_NEVER;
     dynamicScissor := false; scissors := [whole_target]; blendEnables := [false];
     fragmentModule := 7; sampleMask := 1 |}.

Definition draw (eid : Z) (p : Pipeline) : Draw :=
  {| draw_eid := eid; draw_pipeline := p; draw_state := {| state_scissors := [] |} |}.

Definition features : VkPhysicalDeviceFeatures := {| independentBlend := false |}.

(** A single-sampled image of format 37 ([VK_FORMAT_R8G8B8A8_UNORM]); the
    pixel looked at is (100, 200). *)
Definition image : ImageInfo := {| format := 37; img_samples := 1 |}.
Definition first_sample : Subresource := {| sample := 0 |}.
Definition info : PixelHistoryCallbackInfo := VulkanReplay.callbackInfo image 100 200 first_sample.

Definition value (r g b a : Z) : PixelHistoryValue :=
  {| color := [r; g; b; a]; depth_bits := 0; stencil8 := 0 |}.
Definition black : PixelHistoryValue := value 0 0 0 255.
Definition grey : PixelHistoryValue := value 128 128 128 255.
Definition red : PixelHistoryValue := value 255 0 0 255.
Definition blue : PixelHistoryValue := value 0 0 255 255.

(** The record of an event that wrote [frags] fragments to the pixel. *)
Definition record (before after : PixelHistoryValue) (frags : Z) : EventInfo :=
  {| premod := before; postmod := after;
     dsWithoutShaderDiscard := [frags]; dsWithShaderDiscard := [frags] |}.

Definition fragment (prim : Z) (out after : PixelHistoryValue) : PerFragmentInfo :=
  {| pf_primitiveID := prim; pf_shaderOut := out; pf_postMod := after |}.

(** The replay engine over a frame.  The occlusion pass and the test-failure
    pass run their callbacks over the frame, with the query results [occl]
    and [tests]; the colour pass numbers the events it modifies in order and
    leaves the records [infos]; the per-fragment pass leaves [frags] with the
    offsets [offsets]; colour bytes are kept as they are. *)
Definition engine (frame : list Draw) (occl tests : Z -> Z) (infos : Z -> EventInfo)
    (offsets : gmap Z Z) (frags : Z -> PerFragmentInfo) : Replays :=
  {| undefined := zeroes;
     ConvertComponents := fun _ bytes => bytes;
     occlusion_pass := fun _ events _ => VulkanOcclusionCallback.run frame occl events;
     colour_pass := fun _ modEvents _ =>
       ({| VulkanColorAndStencilCallback.m_EventIndices :=
             list_to_map (zip modEvents (map Z.of_nat (seq 0%nat (length modEvents)))) |},
        infos);
     tests_failed_pass := fun info drawEvents _ =>
       TestsFailedCallback.run features info frame tests drawEvents;
     per_fragment_pass := fun _ _ _ =>
       ({| VulkanPixelHistoryPerFragmentCallback.m_EventIndices := offsets |}, frags);
     discarded_pass := fun _ _ _ =>
       {| VulkanPixelHistoryDiscardedFragmentsCallback.m_OcclusionIndices := ∅;
          VulkanPixelHistoryDiscardedFragmentsCallback.m_OcclusionResults := [] |} |}.

(** A frame that clears the target (event 5), draws two fragments over the
    pixel (event 10), draws beside the pixel (event 12) and copies into the
    target (event 14). *)
Definition events : list EventUsage.t :=
  [ {| EventUsage.eventId := 5; EventUsage.usage := Clear usages; EventUsage.view := 0 |};
    {| EventUsage.eventId := 10; EventUsage.usage := ColorTarget; EventUsage.view := 0 |};
    {| EventUsage.eventId := 12; EventUsage.usage := ColorTarget; EventUsage.view := 0 |};
    {| EventUsage.eventId := 14; EventUsage.usage := CopyDst usages; EventUsage.view := 0 |} ].

Definition frame : list Draw := [draw 10 plain; draw 12 plain].

(** both draws, as the events of a test-failure pass *)
Definition pass_events : list Z := [10; 12].

(** query 0 (event 10) counted two samples, query 1 (event 12) none *)
Definition occlusion (query : Z) : Z := if query =? 0 then 2 else 0.

Definition all_pass (query : Z) : Z := 1.

(** The colour pass: the clear turns black into grey, the two fragments of
    the draw turn grey into red and then blue, the copy writes black. *)
Definition infos (index : Z) : EventInfo :=
  if index =? 0 then record black grey 0
  else if index =? 1 then record grey blue 2
  else record blue black 0.

Definition frags (offset' : Z) : PerFragmentInfo :=
  if offset' =? 0 then fragment 0 red red else fragment 1 blue blue.

Definition replays : Replays :=
  engine frame occlusion all_pass infos {[ 10 := 0 ]} frags.

(** Two events listed with the later one first, and the records the colour
    pass leaves for them. *)
Definition unsorted_events : list EventUsage.t :=
  [ {| EventUsage.eventId := 14; EventUsage.usage := CopyDst usages; EventUsage.view := 0 |};
    {| EventUsage.eventId := 5; EventUsage.usage := Clear usages; EventUsage.view := 0 |} ].

Definition unsorted_infos (index : Z) : EventInfo :=
  if index =? 0 then record grey black 0 else record black grey 0.

Definition unsorted_replays : Replays :=
  engine [] (fun _ => 0) all_pass unsorted_infos ∅ frags.

(** The test-failure pass over a draw with the depth bounds test on. *)
Definition depth_bounds_frame : list Draw := [draw 10 with_depth_bounds].

Definition depth_bounds_pass (results : Z -> Z) : TestsFailedCallback.t :=
  TestsFailedCallback.run features info depth_bounds_frame results [10].

(** query 0 (sample mask) passes, the depth bounds and the shader discard
    queries count no sample *)
Definition bounds_and_discard_fail (query : Z) : Z := if query =? 0 then 1 else 0.

(** A draw whose stencil test can only fail: both faces compare with
    [VK_COMPARE_OP_NEVER]. *)
Definition stencil_never_frame : list Draw := [draw 10 stencil_never].

Definition draw_events : list EventUsage.t :=
  [ {| EventUsage.eventId := 10; EventUsage.usage := ColorTarget; EventUsage.view := 0 |} ].

Definition stencil_never_pass : TestsFailedCallback.t :=
  TestsFailedCallback.run features info stencil_never_frame all_pass [10].

Definition stencil_never_replays : Replays :=
  engine stencil_never_frame (fun _ => 1) all_pass (fun _ => record grey grey 0) ∅ frags.

(** The viewport of the whole target, the same viewport flipped (negative
    height), and a pixel at the right edge. *)
Definition viewport : VulkanPixelHistoryCallback.VkViewport :=
  {| VulkanPixelHistoryCallback.vp_x := VulkanPixelHistoryCallback.fzero;
     VulkanPixelHistoryCallback.vp_y := VulkanPixelHistoryCallback.fzero;
     VulkanPixelHistoryCallback.vp_width := VulkanPixelHistoryCallback.of_uint32 1920;
     VulkanPixelHistoryCallback.vp_height := VulkanPixelHistoryCallback.of_uint32 1080 |}.

Definition flipped_viewport : VulkanPixelHistoryCallback.VkViewport :=
  {| VulkanPixelHistoryCallback.vp_x := VulkanPixelHistoryCallback.fzero;
     VulkanPixelHistoryCallback.vp_y := VulkanPixelHistoryCallback.of_uint32 1080;
     VulkanPixelHistoryCallback.vp_width := VulkanPixelHistoryCallback.of_uint32 1920;
     VulkanPixelHistoryCallback.vp_height := SFopp (VulkanPixelHistoryCallback.of_uint32 1080) |}.

Definition at_right_edge : PixelHistoryCallbackInfo :=
  VulkanReplay.callbackInfo image 1920 200 first_sample.

(** A shader whose entry point stores to a storage buffer and calls a
    function that writes an image, a shader without side effects, and a
    device that holds both. *)
Definition writing_shader : rdcspv.Editor :=
  {| rdcspv.entries := [ {| rdcspv.name := "main"%string; rdcspv.id := 4 |} ];
     rdcspv.functions :=
       [ {| rdcspv.func_id := 4;
            rdcspv.body :=
              [ rdcspv.OpOther 61; rdcspv.OpFunctionCall 9;
                rdcspv.OpStoreLike rdcspv.Store rdcspv.StorageClass_StorageBuffer ] |};
         {| rdcspv.func_id := 9;
            rdcspv.body := [ rdcspv.OpImageWrite; rdcspv.OpOther 253 ] |} ] |}.

Definition quiet_shader : rdcspv.Editor :=
  {| rdcspv.entries := [ {| rdcspv.name := "main"%string; rdcspv.id := 4 |} ];
     rdcspv.functions :=
       [ {| rdcspv.func_id := 4; rdcspv.body := [ rdcspv.OpOther 61; rdcspv.OpOther 253 ] |} ] |}.

Definition driver : PixelHistoryShaderCache.Driver :=
  {| PixelHistoryShaderCache.GetShaderInfo :=
       fun shaderId => if shaderId =? 1 then writing_shader else quiet_shader;
     PixelHistoryShaderCache.created := [];
     PixelHistoryShaderCache.device_ok := true |}.

Definition cache : PixelHistoryShaderCache.t :=
  {| PixelHistoryShaderCache.m_pDriver := driver;
     PixelHistoryShaderCache.m_ShaderReplacements := ∅;
     PixelHistoryShaderCache.stripped := 0 |}.

(** The events of the frame that the colour pass is given, the frame as
    the actions of a primary command buffer, and the same draws inside a
    secondary command buffer that spans the events 9 to 13. *)
Definition mod_events : list Z := [5; 10; 14].

Definition actions : list ColorAndStencilReplay.Action :=
  [ ColorAndStencilReplay.ActionMisc 5; ColorAndStencilReplay.ActionDraw 10;
    ColorAndStencilReplay.ActionDraw 12; ColorAndStencilReplay.ActionMisc 14 ].

Definition secondary_calls : list ColorAndStencilReplay.Call :=
  [ ColorAndStencilReplay.CallPreMisc 5; ColorAndStencilReplay.CallPostMisc 5;
    ColorAndStencilReplay.CallPreCmdExecute 9 13;
    ColorAndStencilReplay.CallPreDraw 10 false; ColorAndStencilReplay.CallPostDraw 10 false;
    ColorAndStencilReplay.CallPostCmdExecute 9 13;
    ColorAndStencilReplay.CallPreMisc 14; ColorAndStencilReplay.CallPostMisc 14 ].

(** Draw 10 has a depth output of format 130
    ([VK_FORMAT_D32_SFLOAT_S8_UINT]), the other events have none. *)
Definition depth_outputs (eid : Z) : option Z := if eid =? 10 then Some 130 else None.

(** The tests on a format for the depth and stencil formats of
    vulkan_core.h, 124 ([VK_FORMAT_D16_UNORM]) to 130. *)
Definition formats : PixelCopy.Formats :=
  {| PixelCopy.IsDepthOnlyFormat := fun f => (f =? 124) || (f =? 125) || (f =? 126);
     PixelCopy.IsDepthAndStencilFormat := fun f => (f =? 128) || (f =? 129) || (f =? 130);
     PixelCopy.IsStencilFormat := fun f => (127 <=? f) && (f <=? 130) |}.

(** Event 10 has two fragments; both were marked as possibly clipped, so
    the discarded-fragments pass checks the primitives 0 and 1 of the
    event. *)
Definition fragments : gmap Z Z := {[ 10 := 2 ]}.

Definition clipped : gmap Z (list Z) := {[ 10 := [0; 1] ]}.

Definition fragment_offsets : VulkanPixelHistoryPerFragmentCallback.t :=
  {| VulkanPixelHistoryPerFragmentCallback.m_EventIndices := {[ 10 := 0 ]} |}.

Definition clipped_entry (frag : Z) : PixelModification :=
  {| eventId := 10; directShaderWrite := false; unboundPS := false; fragIndex := frag;
     primitiveID := 1; preMod := zero_value; shaderOut := zero_value; postMod := zero_value;
     sampleMasked := false; backfaceCulled := false; depthClipped := false;
     scissorClipped := false; shaderDiscarded := false; depthTestFailed := false;
     stencilTestFailed := false |}.

Definition clipped_history : list PixelModification := [clipped_entry 0; clipped_entry 1].

(** A device whose pipelines all have back-face culling and the depth,
    stencil and depth bounds tests on, a vertex and a fragment stage, and
    one viewport with the whole target as its scissor. *)
Definition base_pipeline : TestsFailedCallbackPipelines.VkGraphicsPipelineCreateInfo :=
  {| TestsFailedCallbackPipelines.rs_cullMode := VK_CULL_MODE_BACK_BIT;
     TestsFailedCallbackPipelines.ds_depthTestEnable := true;
     TestsFailedCallbackPipelines.ds_depthWriteEnable := true;
     TestsFailedCallbackPipelines.ds_stencilTestEnable := true;
     TestsFailedCallbackPipelines.ds_depthBoundsTestEnable := true;
     TestsFailedCallbackPipelines.ms_pSampleMask := 4294967295;
     TestsFailedCallbackPipelines.pStages :=
       [ {| TestsFailedCallbackPipelines.stage := 1;
            TestsFailedCallbackPipelines.module := 3;
            TestsFailedCallbackPipelines.pName := "main"%string |};
         {| TestsFailedCallbackPipelines.stage := 16;
            TestsFailedCallbackPipelines.module := 7;
            TestsFailedCallbackPipelines.pName := "main"%string |} ];
     TestsFailedCallbackPipelines.vs_pViewports := [viewport];
     TestsFailedCallbackPipelines.vs_pScissors := [whole_target] |}.

Definition device : TestsFailedCallbackPipelines.Device :=
  {| TestsFailedCallbackPipelines.MakeGraphicsPipelineInfo := fun _ => base_pipeline;
     TestsFailedCallbackPipelines.StageIndex := fun stage => Z.to_nat (Z.log2 stage);
     TestsFailedCallbackPipelines.PatchOutputLocation := fun framebufferIndex => 100 + framebufferIndex;
     TestsFailedCallbackPipelines.creates := true;
     TestsFailedCallbackPipelines.uninitialised := 0 |}.

Definition no_pipelines : TestsFailedCallbackPipelines.t :=
  {| TestsFailedCallbackPipelines.m_PipeCache := ∅;
     TestsFailedCallbackPipelines.m_FixedColFS := ∅;
     TestsFailedCallbackPipelines.pipelines := [] |}.

Definition no_replacements (stage : nat) : Z := VK_NULL_HANDLE.

(** The flags of a draw with every test of the pass on but the scissor, and
    the redraw for its depth bounds test: with the fixed colour shader and
    without the stencil and depth tests. *)
Definition every_test : Z :=
  Z.lor TestEnabled_Culling
    (Z.lor TestEnabled_DepthBounds
       (Z.lor TestEnabled_StencilTesting
          (Z.lor TestEnabled_DepthTesting TestEnabled_FragmentDiscard))).

Definition depth_bounds_redraw : TestsFailedCallback.Redraw :=
  {| TestsFailedCallback.rd_event := 10;
     TestsFailedCallback.rd_test := TestEnabled_DepthBounds;
     TestsFailedCallback.rd_pipeFlags :=
       Z.lor TestsFailedCallback.PipelineCreationFlags_DisableDepthTest
         (Z.lor TestsFailedCallback.PipelineCreationFlags_DisableStencilTest
            TestsFailedCallback.PipelineCreationFlags_FixedColorShader);
     TestsFailedCallback.rd_index := 1 |}.

(** A pixel whose X coordinate binary32 cannot hold, 16777219 (it is
    rounded to 16777220), and a viewport that is 16777220 wide. *)
Definition far_pixel : PixelHistoryCallbackInfo :=
  VulkanReplay.callbackInfo image 16777219 200 first_sample.

Definition wide_viewport : VulkanPixelHistoryCallback.VkViewport :=
  {| VulkanPixelHistoryCallback.vp_x := VulkanPixelHistoryCallback.fzero;
     VulkanPixelHistoryCallback.vp_y := VulkanPixelHistoryCallback.fzero;
     VulkanPixelHistoryCallback.vp_width := VulkanPixelHistoryCallback.of_uint32 16777220;
     VulkanPixelHistoryCallback.vp_height := VulkanPixelHistoryCallback.of_uint32 1080 |}.

(** The draw of two fragments (event 10) listed twice, as an event list
    holds an event once for each of its usages of the target. *)
Definition repeated_events : list EventUsage.t :=
  [ {| EventUsage.eventId := 10; EventUsage.usage := ColorTarget; EventUsage.view := 0 |};
    {| EventUsage.eventId := 10; EventUsage.usage := ColorTarget; EventUsage.view := 0 |} ].

Definition repeated_replays : Replays :=
  engine frame occlusion all_pass (fun _ => record grey blue 2) {[ 10 := 0 ]} frags.

End Scene.

(** * Proofs *)

(** ** Flags as bits *)

Lemma has_flag_testbit (flags k : Z) :
  0 <= k -> has_flag flags (Z.shiftl 1 k) = Z.testbit flags k.
Proof.
  intros Hk. unfold has_flag. rewrite Z.shiftl_1_l.
  destruct (Z.testbit flags k) eqn:Hb.
  - apply negb_true_iff, Z.eqb_neq. intros H0.
    assert (Hc : Z.testbit (Z.land flags (2 ^ k)) k = true).
    { rewrite Z.land_spec, Hb, Z.pow2_bits_true; auto. }
    rewrite H0, Z.bits_0 in Hc. discriminate.
  - apply negb_false_iff, Z.eqb_eq, Z.bits_inj'. intros n Hn.
    rewrite Z.land_spec, Z.bits_0.
    destruct (Z.eq_dec k n) as [->|Hne].
    + rewrite Hb. reflexivity.
    + rewrite Z.pow2_bits_false by auto. apply andb_false_r.
Qed.

Lemma testbit_set_if (c : bool) (k n flags : Z) :
  0 <= k ->
  Z.testbit (set_if c (Z.shiftl 1 k) flags) n = Z.testbit flags n || (c && (k =? n)).
Proof.
  intros Hk. unfold set_if. destruct c; simpl.
  - rewrite Z.lor_spec, Z.shiftl_1_l, Z.pow2_bits_eqb by auto. reflexivity.
  - rewrite orb_false_r. reflexivity.
Qed.

Lemma testbit_lor_bit (k n flags : Z) :
  0 <= k -> Z.testbit (Z.lor flags (Z.shiftl 1 k)) n = Z.testbit flags n || (k =? n).
Proof. intros Hk. apply (testbit_set_if true k n flags Hk). Qed.

(** ** CalculateEventFlags *)

Ltac unfold_flags :=
  unfold TestEnabled_Culling, TestEnabled_Scissor, TestEnabled_SampleMask,
    TestEnabled_DepthBounds, TestEnabled_StencilTesting, TestEnabled_DepthTesting,
    TestEnabled_FragmentDiscard, Blending_Enabled, UnboundFragmentShader,
    TestMustFail_Culling, TestMustFail_Scissor, TestMustPass_Scissor,
    TestMustFail_DepthTesting, TestMustFail_StencilTesting, TestMustFail_SampleMask in *.

(** The bit [n] of the computed flags, by rewriting through every [|=]. *)
Ltac flag_bits :=
  unfold TestsFailedCallback.CalculateEventFlags; unfold_flags;
  repeat match goal with
         | |- context [let '(_, _) := ?e in _] => destruct e
         | |- context [if ?c then _ else _] =>
           lazymatch c with
           | context [Z.testbit] => fail
           | _ => destruct c
           end
         end;
  repeat first [ rewrite testbit_lor_bit by lia | rewrite testbit_set_if by lia ];
  rewrite ?Z.bits_0;
  simpl; rewrite ?andb_false_r, ?orb_false_r, ?orb_true_r; try reflexivity.

Lemma CalculateEventFlags_no_scissor features info p pipestate :
  has_flag (TestsFailedCallback.CalculateEventFlags features info p pipestate)
    TestEnabled_Scissor = false.
Proof.
  unfold TestEnabled_Scissor at 1. rewrite has_flag_testbit by lia. flag_bits.
Qed.


Lemma CalculateEventFlags_fragment_discard features info p pipestate :
  has_flag (TestsFailedCallback.CalculateEventFlags features info p pipestate)
    TestEnabled_FragmentDiscard = true.
Proof.
  unfold TestEnabled_FragmentDiscard at 1. rewrite has_flag_testbit by lia. flag_bits.
Qed.

(** ** The redraws of the test-failure pass *)

Lemma u32_small (z : Z) : 0 <= z -> 0 <= u32 z <= z.
Proof.
  intros Hz. unfold u32. split.
  - apply Z.mod_pos_bound. lia.
  - apply Z.mod_le; lia.
Qed.

Lemma u32_id (z : Z) : 0 <= z < 2 ^ 32 -> u32 z = z.
Proof. intros Hz. unfold u32. apply Z.mod_small. exact Hz. Qed.

Lemma ReplayDraw_queries_size pipeFlags eid test st :
  (size (TestsFailedCallback.m_OcclusionQueries st) ≤
   size (TestsFailedCallback.m_OcclusionQueries
           (TestsFailedCallback.ReplayDraw pipeFlags eid test st)) ≤
   S (size (TestsFailedCallback.m_OcclusionQueries st)))%nat.
Proof.
  unfold TestsFailedCallback.ReplayDraw. simpl.
  destruct (TestsFailedCallback.m_OcclusionQueries st !! (eid, test)) eqn:Hq.
  - lia.
  - rewrite map_size_insert_None by exact Hq. lia.
Qed.

(** What a run of redraws leaves behind. *)
Lemma issued_spec eid st st' ts :
  issued eid st st' ts ->
  ∃ new,
    TestsFailedCallback.cmd st' = TestsFailedCallback.cmd st ++ new ∧
    map TestsFailedCallback.rd_test new = ts ∧
    Forall (fun r =>
              TestsFailedCallback.rd_event r = eid ∧
              0 <= TestsFailedCallback.rd_index r <
                Z.of_nat (size (TestsFailedCallback.m_OcclusionQueries st)) +
                Z.of_nat (length ts)) new ∧
    (size (TestsFailedCallback.m_OcclusionQueries st) ≤
     size (TestsFailedCallback.m_OcclusionQueries st') ≤
     size (TestsFailedCallback.m_OcclusionQueries st) + length ts)%nat ∧
    TestsFailedCallback.m_Events st' = TestsFailedCallback.m_Events st ∧
    TestsFailedCallback.m_EventFlags st' = TestsFailedCallback.m_EventFlags st ∧
    TestsFailedCallback.m_HasEarlyFragments st' = TestsFailedCallback.m_HasEarlyFragments st ∧
    TestsFailedCallback.m_OcclusionResults st' = TestsFailedCallback.m_OcclusionResults st.
Proof.
  induction 1 as [|st' ts pipeFlags test Hrun IH].
  - exists []. rewrite app_nil_r. simpl. repeat split; auto; lia.
  - destruct IH as (new & Hcmd & Htests & Hall & Hsize & He & Hf & Hh & Hr).
    pose proof (ReplayDraw_queries_size pipeFlags eid test st') as Hstep.
    exists (new ++ [ {| TestsFailedCallback.rd_event := eid;
                        TestsFailedCallback.rd_test := test;
                        TestsFailedCallback.rd_pipeFlags := pipeFlags;
                        TestsFailedCallback.rd_index :=
                          u32 (Z.of_nat (size (TestsFailedCallback.m_OcclusionQueries st'))) |} ]).
    rewrite length_app. simpl length.
    split; [|split; [|split; [|split]]].
    + unfold TestsFailedCallback.ReplayDraw. simpl. rewrite Hcmd, <- app_assoc. reflexivity.
    + rewrite map_app, Htests. reflexivity.
    + apply Forall_app. split.
      * eapply Forall_impl; [exact Hall|]. simpl. intros r [Hev Hidx]. split; [exact Hev|lia].
      * constructor; [|constructor]. simpl. split; [reflexivity|].
        pose proof (u32_small (Z.of_nat (size (TestsFailedCallback.m_OcclusionQueries st')))) as Hu.
        lia.
    + lia.
    + unfold TestsFailedCallback.ReplayDraw. simpl. auto.
Qed.

Lemma issued_more_eq eid before st ts ts' pipeFlags test :
  issued eid before st ts -> ts' = ts ++ [test] ->
  issued eid before (TestsFailedCallback.ReplayDraw pipeFlags eid test st) ts'.
Proof. intros Hrun ->. apply issued_more. exact Hrun. Qed.

Ltac solve_issued :=
  first [ apply issued_none
        | eapply issued_more_eq; [ solve_issued | reflexivity ] ].

(** [ReplayDrawWithTests] redraws exactly [tests_issued], in that order. *)
Lemma ReplayDrawWithTests_issued eid eventFlags st :
  issued eid st (TestsFailedCallback.ReplayDrawWithTests eid eventFlags st)
    (tests_issued eventFlags).
Proof.
  unfold TestsFailedCallback.ReplayDrawWithTests, tests_issued.
  repeat match goal with
         | |- context [if ?c then _ else _] => destruct c
         end; simpl; solve_issued.
Qed.

(** ** Which tests are redrawn *)

Lemma scissor_query_needs_flag eventFlags :
  has_flag eventFlags TestEnabled_Scissor = false ->
  (Z.land eventFlags (Z.lor TestEnabled_Scissor TestMustPass_Scissor)
     =? TestEnabled_Scissor) = false.
Proof.
  unfold TestEnabled_Scissor at 1. rewrite has_flag_testbit by lia. intros Hbit.
  apply Z.eqb_neq. intros Heq.
  assert (Hc : Z.testbit (Z.land eventFlags (Z.lor TestEnabled_Scissor TestMustPass_Scissor)) 1
               = true).
  { rewrite Heq. reflexivity. }
  rewrite Z.land_spec, Hbit in Hc. discriminate.
Qed.

(** Membership in a list of closed flag values. *)
Ltac flag_elems :=
  unfold_flags; simpl;
  rewrite ?elem_of_cons, ?elem_of_nil;
  intuition (try discriminate; try lia).

Ltac case_flags :=
  repeat match goal with
         | |- context [if ?c then _ else _] => destruct c; simpl
         end.

Lemma tests_issued_length eventFlags :
  has_flag eventFlags TestEnabled_Scissor = false ->
  (length (tests_issued eventFlags) ≤ 6)%nat.
Proof.
  intros Hno. pose proof (scissor_query_needs_flag eventFlags Hno) as Hq.
  unfold tests_issued. rewrite Hq. clear Hq Hno.
  case_flags; simpl; lia.
Qed.

Lemma tests_issued_no_scissor eventFlags :
  has_flag eventFlags TestEnabled_Scissor = false ->
  TestEnabled_Scissor ∉ tests_issued eventFlags.
Proof.
  intros Hno. pose proof (scissor_query_needs_flag eventFlags Hno) as Hq.
  unfold tests_issued. rewrite Hq. clear Hq Hno.
  case_flags; flag_elems.
Qed.



(** ** The pass as a whole *)

(** What [PreDraw] does to an event of the pass: the flags are recorded,
    early fragment tests are recorded as off, and the tests of the flags
    are redrawn. *)
Lemma PreDraw_hit features info d st :
  draw_eid d ∈ TestsFailedCallback.m_Events st ->
  let eventFlags :=
    TestsFailedCallback.CalculateEventFlags features info (draw_pipeline d) (draw_state d) in
  let st' := TestsFailedCallback.PreDraw features info d st in
  ∃ mid,
    issued (draw_eid d) mid st' (tests_issued eventFlags) ∧
    TestsFailedCallback.cmd mid = TestsFailedCallback.cmd st ∧
    TestsFailedCallback.m_OcclusionQueries mid = TestsFailedCallback.m_OcclusionQueries st ∧
    TestsFailedCallback.m_Events mid = TestsFailedCallback.m_Events st ∧
    TestsFailedCallback.m_EventFlags mid =
      <[draw_eid d := eventFlags]> (TestsFailedCallback.m_EventFlags st) ∧
    TestsFailedCallback.m_HasEarlyFragments mid =
      <[draw_eid d := false]> (TestsFailedCallback.m_HasEarlyFragments st).
Proof.
  intros Hin eventFlags st'. subst st'. unfold TestsFailedCallback.PreDraw.
  unfold contains. rewrite bool_decide_eq_true_2 by exact Hin. simpl negb. cbv iota.
  eexists. split; [apply ReplayDrawWithTests_issued|]. simpl. auto.
Qed.

Lemma PreDraw_miss features info d st :
  draw_eid d ∉ TestsFailedCallback.m_Events st ->
  TestsFailedCallback.PreDraw features info d st = st.
Proof.
  intros Hout. unfold TestsFailedCallback.PreDraw, contains.
  rewrite bool_decide_eq_false_2 by exact Hout. reflexivity.
Qed.

Lemma replay_snoc features info frame d st :
  TestsFailedCallback.replay features info (frame ++ [d]) st =
  TestsFailedCallback.PreDraw features info d (TestsFailedCallback.replay features info frame st).
Proof. unfold TestsFailedCallback.replay. rewrite fold_left_app. reflexivity. Qed.

Lemma hits_length drawEvents frame :
  NoDup (map draw_eid frame) ->
  (length (hits drawEvents frame) ≤ length drawEvents)%nat.
Proof.
  intros Hnd.
  assert (Hnd' : NoDup (map draw_eid (hits drawEvents frame))).
  { unfold hits. induction frame as [|d frame IH]; [constructor|].
    simpl in Hnd. apply NoDup_cons in Hnd as [Hd Hnd].
    rewrite filter_cons. destruct (decide (draw_eid d ∈ drawEvents)).
    - simpl. apply NoDup_cons. split; [|auto].
      intros Hin. apply Hd. apply list_elem_of_fmap in Hin as (d' & -> & Hd').
      apply list_elem_of_filter in Hd' as [_ Hd']. apply list_elem_of_fmap. eauto.
    - auto. }
  rewrite <- (length_map draw_eid (hits drawEvents frame)).
  apply submseteq_length, NoDup_submseteq; [exact Hnd'|].
  intros x Hx. apply list_elem_of_fmap in Hx as (d & -> & Hd).
  unfold hits in Hd. apply list_elem_of_filter in Hd as [Hd _]. exact Hd.
Qed.

Lemma filter_none {A} (P : A -> Prop) `{∀ x, Decision (P x)} (l : list A) :
  Forall (fun x => ¬ P x) l -> filter P l = [].
Proof.
  induction 1 as [|x l Hx _ IH]; [reflexivity|].
  rewrite filter_cons, decide_False by exact Hx. exact IH.
Qed.

Lemma pass_invariant_step features info drawEvents done d st :
  draw_eid d ∉ map draw_eid done ->
  pass_invariant drawEvents done st ->
  pass_invariant drawEvents (done ++ [d]) (TestsFailedCallback.PreDraw features info d st).
Proof.
  intros Hfresh (Hev & Hsize & Hall & Hcount).
  destruct (decide (draw_eid d ∈ drawEvents)) as [Hin|Hout].
  - (* an event of the pass *)
    assert (Hin' : draw_eid d ∈ TestsFailedCallback.m_Events st) by (rewrite Hev; exact Hin).
    destruct (PreDraw_hit features info d st Hin') as (mid & Hrun & Hcmd & Hq & Hme & _ & _).
    set (eventFlags := TestsFailedCallback.CalculateEventFlags features info
                         (draw_pipeline d) (draw_state d)) in *.
    pose proof (CalculateEventFlags_no_scissor features info (draw_pipeline d) (draw_state d))
      as Hno. fold eventFlags in Hno.
    pose proof (tests_issued_length eventFlags Hno) as Hlen.
    pose proof (tests_issued_no_scissor eventFlags Hno) as Hns.
    apply issued_spec in Hrun as (new & Hnew & Htests & Hnewall & Hsz & He' & _).
    assert (Hhits : hits drawEvents (done ++ [d]) = hits drawEvents done ++ [d]).
    { unfold hits. rewrite filter_app, filter_cons, decide_True by exact Hin. reflexivity. }
    unfold pass_invariant. rewrite Hhits, length_app. simpl length.
    rewrite Hnew, Hcmd, Hq in *. clear Hnew Hcmd Hq.
    split; [congruence|]. split; [lia|]. split.
    + apply Forall_app. split.
      * eapply Forall_impl; [exact Hall|]. simpl. intros r (Ht & Hi & Hm).
        split; [exact Ht|]. split; [lia|]. rewrite map_app. apply elem_of_app. auto.
      * apply Forall_forall. intros r Hr.
        rewrite Forall_forall in Hnewall. destruct (Hnewall r Hr) as [Hre Hri].
        split; [|split].
        -- intros Heq. apply Hns. rewrite <- Htests, <- Heq.
           apply list_elem_of_fmap. eauto.
        -- lia.
        -- rewrite Hre, map_app. apply elem_of_app. right. simpl. apply list_elem_of_here.
    + intros eid. rewrite filter_app, length_app.
      destruct (decide (eid = draw_eid d)) as [->|Hne].
      * rewrite (filter_none _ (TestsFailedCallback.cmd st)).
        -- simpl. etrans; [apply length_filter|].
           rewrite <- (length_map TestsFailedCallback.rd_test), Htests. exact Hlen.
        -- eapply Forall_impl; [exact Hall|]. simpl. intros r (_ & _ & Hm) Heq.
           apply Hfresh. rewrite <- Heq. exact Hm.
      * rewrite (filter_none _ new).
        -- simpl. rewrite Nat.add_0_r. apply Hcount.
        -- eapply Forall_impl; [exact Hnewall|]. simpl. intros r [Hre _] Heq. congruence.
  - (* not an event of the pass: nothing happens *)
    rewrite PreDraw_miss by (rewrite Hev; exact Hout).
    assert (Hhits : hits drawEvents (done ++ [d]) = hits drawEvents done).
    { unfold hits. rewrite filter_app, filter_cons, decide_False by exact Hout.
      rewrite filter_nil. apply app_nil_r. }
    unfold pass_invariant. rewrite Hhits.
    split; [exact Hev|]. split; [exact Hsize|]. split; [|exact Hcount].
    eapply Forall_impl; [exact Hall|]. simpl. intros r (Ht & Hi & Hm).
    split; [exact Ht|]. split; [exact Hi|]. rewrite map_app. apply elem_of_app. auto.
Qed.

Lemma pass_invariant_replay features info drawEvents frame :
  NoDup (map draw_eid frame) ->
  pass_invariant drawEvents frame
    (TestsFailedCallback.replay features info frame (TestsFailedCallback.create drawEvents)).
Proof.
  induction frame as [|d frame IH] using rev_ind; intros Hnd.
  - unfold pass_invariant. simpl. rewrite map_size_empty.
    split; [reflexivity|]. split; [lia|]. split; [constructor|]. intros. simpl. lia.
  - rewrite replay_snoc. rewrite map_app in Hnd. apply NoDup_app in Hnd as (Hnd & Hdis & _).
    apply pass_invariant_step; [|apply IH; exact Hnd].
    intros Hin. apply (Hdis _ Hin). simpl. apply list_elem_of_here.
Qed.

Lemma redraws_since_issued eid st st' ts :
  issued eid st st' ts ->
  map TestsFailedCallback.rd_test (redraws_since st st') = ts.
Proof.
  intros Hrun. apply issued_spec in Hrun as (new & Hcmd & Htests & _).
  unfold redraws_since. rewrite Hcmd, drop_app_length. exact Htests.
Qed.

(** C8: with every draw replayed once, an event of the test-failure pass
    gets at most six redraws under a query, none of them for the scissor
    test, and every query index is below the size of the pass's occlusion
    pool, six times the number of draw events. *)
Theorem tests_failed_queries_fit_pool features info frame drawEvents :
  NoDup (map draw_eid frame) ->
  6 * Z.of_nat (length drawEvents) < 2 ^ 32 ->
  let st := TestsFailedCallback.replay features info frame
              (TestsFailedCallback.create drawEvents) in
  (∀ eid,
     (length (filter (fun r => TestsFailedCallback.rd_event r = eid)
                (TestsFailedCallback.cmd st)) ≤ 6)%nat) ∧
  Forall (fun r =>
            TestsFailedCallback.rd_test r ≠ TestEnabled_Scissor ∧
            0 <= TestsFailedCallback.rd_index r < tests_failed_pool_size drawEvents)
         (TestsFailedCallback.cmd st).
Proof.
  intros Hnd Hfit st.
  destruct (pass_invariant_replay features info drawEvents frame Hnd)
    as (_ & _ & Hall & Hcount).
  fold st in Hall, Hcount. split; [exact Hcount|].
  pose proof (hits_length drawEvents frame Hnd) as Hhits.
  assert (Hpool : tests_failed_pool_size drawEvents = 6 * Z.of_nat (length drawEvents)).
  { unfold tests_failed_pool_size. rewrite (u32_id (Z.of_nat _)) by lia.
    rewrite u32_id by lia. lia. }
  rewrite Hpool. eapply Forall_impl; [exact Hall|]. simpl.
  intros r (Ht & Hi & _). split; [exact Ht|lia].
Qed.


(** ** The order in which outcomes are read *)

Ltac solve_sublist :=
  repeat first [ apply sublist_nil | apply sublist_skip | apply sublist_cons ].

Lemma tests_issued_order eventFlags : tests_issued eventFlags `sublist_of` redraw_order.
Proof.
  unfold tests_issued, redraw_order. case_flags; solve_sublist.
Qed.

Ltac case_reads :=
  repeat match goal with
         | |- context [if ?c then _ else _] => destruct c eqn:?; simpl
         | |- context [let '(_, _) := ?e in _] => destruct e eqn:?; simpl
         end.

Lemma UpdateTestsFailed_default_order u tfCb eventId eventFlags pm :
  TestsFailedCallback.HasEarlyFragments u tfCb eventId = false ->
  snd (UpdateTestsFailed u tfCb eventId eventFlags pm) `sublist_of` default_read_order.
Proof.
  intros Hearly. unfold UpdateTestsFailed, default_read_order. rewrite Hearly. simpl.
  case_reads; solve_sublist.
Qed.

Lemma PreDraw_fields features info d st :
  let st' := TestsFailedCallback.PreDraw features info d st in
  TestsFailedCallback.m_Events st' = TestsFailedCallback.m_Events st ∧
  (draw_eid d ∈ TestsFailedCallback.m_Events st ->
   TestsFailedCallback.m_HasEarlyFragments st' =
     <[draw_eid d := false]> (TestsFailedCallback.m_HasEarlyFragments st)) ∧
  (draw_eid d ∉ TestsFailedCallback.m_Events st ->
   TestsFailedCallback.m_HasEarlyFragments st' = TestsFailedCallback.m_HasEarlyFragments st).
Proof.
  intros st'. subst st'.
  destruct (decide (draw_eid d ∈ TestsFailedCallback.m_Events st)) as [Hin|Hout].
  - destruct (PreDraw_hit features info d st Hin) as (mid & Hrun & _ & _ & Hme & _ & Hearly).
    apply issued_spec in Hrun as (new & _ & _ & _ & _ & He & _ & Hh & _).
    split; [congruence|]. split; [intros _; congruence|]. intros Hout. contradiction.
  - rewrite PreDraw_miss by exact Hout. split; [reflexivity|]. split; [|reflexivity].
    intros Hin. contradiction.
Qed.

(** After the replay, early fragment tests are recorded as off for every
    event of the pass that the frame draws, and as on for none. *)
Lemma replay_early_fragments features info frame events :
  let st := TestsFailedCallback.replay features info frame (TestsFailedCallback.create events) in
  TestsFailedCallback.m_Events st = events ∧
  (∀ eid b, TestsFailedCallback.m_HasEarlyFragments st !! eid = Some b -> b = false) ∧
  (∀ eid, eid ∈ events -> eid ∈ map draw_eid frame ->
          TestsFailedCallback.m_HasEarlyFragments st !! eid = Some false).
Proof.
  induction frame as [|d frame IH] using rev_ind.
  - simpl. split; [reflexivity|]. split.
    + intros eid b Hb. rewrite lookup_empty in Hb. discriminate.
    + intros eid _ Hin. simpl in Hin. apply elem_of_nil in Hin. contradiction.
  - rewrite replay_snoc. cbv zeta in *. destruct IH as (Hev & Hfalse & Hsome).
    set (st := TestsFailedCallback.replay features info frame
                 (TestsFailedCallback.create events)) in *.
    destruct (PreDraw_fields features info d st) as (He & Hhit & Hmiss).
    split; [congruence|].
    destruct (decide (draw_eid d ∈ TestsFailedCallback.m_Events st)) as [Hin|Hout].
    + rewrite (Hhit Hin). split.
      * intros eid b Hb. apply lookup_insert_Some in Hb as [[_ <-]|[_ Hb]]; eauto.
      * intros eid Hin1 Hin2. destruct (decide (draw_eid d = eid)) as [->|Hne].
        -- apply lookup_insert_eq.
        -- rewrite lookup_insert_ne by exact Hne. apply Hsome; [exact Hin1|].
           rewrite map_app in Hin2. apply elem_of_app in Hin2 as [Hin2|Hin2]; [exact Hin2|].
           simpl in Hin2. apply list_elem_of_singleton in Hin2. congruence.
    + rewrite (Hmiss Hout). split; [exact Hfalse|].
      intros eid Hin1 Hin2. apply Hsome; [exact Hin1|].
      rewrite map_app in Hin2. apply elem_of_app in Hin2 as [Hin2|Hin2]; [exact Hin2|].
      simpl in Hin2. apply list_elem_of_singleton in Hin2. subst eid.
      rewrite Hev in Hout. contradiction.
Qed.

Lemma run_early_fragments features info frame gpu events eid u :
  eid ∈ events -> eid ∈ map draw_eid frame ->
  TestsFailedCallback.HasEarlyFragments u
    (TestsFailedCallback.run features info frame gpu events) eid = false.
Proof.
  intros Hin1 Hin2.
  destruct (replay_early_fragments features info frame events) as (_ & _ & Hsome).
  unfold TestsFailedCallback.HasEarlyFragments, TestsFailedCallback.run,
    TestsFailedCallback.FetchOcclusionResults.
  case_bool_decide; simpl; rewrite (Hsome eid Hin1 Hin2); reflexivity.
Qed.

(** C4, as the code has it: early fragment tests are recorded as off for
    every draw of the pass; [ReplayDrawWithTests] issues the shader-discard
    redraw last, after depth bounds, stencil and depth, but
    [UpdateTestsFailed] reads the shader-discard outcome right after the
    sample mask, before the outcomes of depth bounds, stencil and depth. *)
Theorem shader_discard_read_in_default_order features info frame gpu drawEvents u
    eventId eventFlags pm st :
  eventId ∈ drawEvents -> eventId ∈ map draw_eid frame ->
  let tfCb := TestsFailedCallback.run features info frame gpu drawEvents in
  TestsFailedCallback.m_HasEarlyFragments tfCb !! eventId = Some false ∧
  (map TestsFailedCallback.rd_test
     (redraws_since st (TestsFailedCallback.ReplayDrawWithTests eventId eventFlags st))
     `sublist_of` redraw_order) ∧
  (snd (UpdateTestsFailed u tfCb eventId eventFlags pm) `sublist_of` default_read_order).
Proof.
  intros Hin1 Hin2 tfCb. split; [|split].
  - destruct (replay_early_fragments features info frame drawEvents) as (_ & _ & Hsome).
    subst tfCb. unfold TestsFailedCallback.run, TestsFailedCallback.FetchOcclusionResults.
    case_bool_decide; simpl; apply Hsome; assumption.
  - rewrite (redraws_since_issued eventId st _ (tests_issued eventFlags))
      by apply ReplayDrawWithTests_issued.
    apply tests_issued_order.
  - apply UpdateTestsFailed_default_order. apply run_early_fragments; assumption.
Qed.

(** ** Must-fail flags and the entry of the history *)

(** A comparison of masked flags fails when a bit of the mask that the flags
    have is not a bit of the value compared with. *)
Lemma masked_flags_differ (flags mask en k : Z) :
  Z.testbit flags k = true -> Z.testbit mask k = true -> Z.testbit en k = false ->
  (Z.land flags mask =? en) = false.
Proof.
  intros Hf Hm He. apply Z.eqb_neq. intros Heq.
  assert (Hc : Z.testbit (Z.land flags mask) k = true).
  { rewrite Z.land_spec, Hf, Hm. reflexivity. }
  rewrite Heq, He in Hc. discriminate.
Qed.

Ltac must_fail_mask k :=
  match goal with
  | H : has_flag ?flags _ = true |- _ =>
    unfold_flags; rewrite has_flag_testbit in H by lia;
    apply (masked_flags_differ flags _ _ k H); reflexivity
  end.

Lemma culling_not_read flags :
  has_flag flags TestMustFail_Culling = true ->
  (Z.land flags (Z.lor TestEnabled_Culling TestMustFail_Culling) =? TestEnabled_Culling) = false.
Proof. intros H. must_fail_mask 9. Qed.

Lemma scissor_not_read flags :
  has_flag flags TestMustFail_Scissor = true ->
  (Z.land flags (Z.lor (Z.lor TestEnabled_Scissor TestMustPass_Scissor) TestMustFail_Scissor)
     =? TestEnabled_Scissor) = false.
Proof. intros H. must_fail_mask 10. Qed.

Lemma sample_mask_not_read flags :
  has_flag flags TestMustFail_SampleMask = true ->
  (Z.land flags (Z.lor TestEnabled_SampleMask TestMustFail_SampleMask)
     =? TestEnabled_SampleMask) = false.
Proof. intros H. must_fail_mask 14. Qed.

Lemma stencil_not_read flags :
  has_flag flags TestMustFail_StencilTesting = true ->
  (Z.land flags (Z.lor TestEnabled_StencilTesting TestMustFail_StencilTesting)
     =? TestEnabled_StencilTesting) = false.
Proof. intros H. must_fail_mask 13. Qed.

Lemma depth_not_read flags :
  has_flag flags TestMustFail_DepthTesting = true ->
  (Z.land flags (Z.lor TestEnabled_DepthTesting TestMustFail_DepthTesting)
     =? TestEnabled_DepthTesting) = false.
Proof. intros H. must_fail_mask 12. Qed.

Ltac case_update :=
  unfold UpdateTestsFailed;
  repeat match goal with
         | |- context [if ?c then _ else _] => destruct c eqn:?; cbn in *
         end;
  try reflexivity; try congruence.

(** What [UpdateTestsFailed] leaves alone when a must-fail flag is set. *)
Lemma UpdateTestsFailed_culling u tfCb eventId flags pm :
  has_flag flags TestMustFail_Culling = true -> backfaceCulled pm = true ->
  backfaceCulled (fst (UpdateTestsFailed u tfCb eventId flags pm)) = true.
Proof.
  intros Hflag Hpm. apply culling_not_read in Hflag.
  unfold UpdateTestsFailed. rewrite Hflag, Hpm. exact Hpm.
Qed.

Lemma UpdateTestsFailed_scissor u tfCb eventId flags pm :
  has_flag flags TestMustFail_Scissor = true -> scissorClipped pm = true ->
  scissorClipped (fst (UpdateTestsFailed u tfCb eventId flags pm)) = true.
Proof.
  intros Hflag Hpm. apply scissor_not_read in Hflag.
  unfold UpdateTestsFailed. rewrite Hflag.
  destruct (Z.land flags (Z.lor TestEnabled_Culling TestMustFail_Culling) =? TestEnabled_Culling);
    case_update.
Qed.

Lemma UpdateTestsFailed_sample_mask u tfCb eventId flags pm :
  has_flag flags TestMustFail_SampleMask = true -> sampleMasked pm = true ->
  sampleMasked (fst (UpdateTestsFailed u tfCb eventId flags pm)) = true.
Proof.
  intros Hflag Hpm. apply sample_mask_not_read in Hflag.
  unfold UpdateTestsFailed. rewrite Hflag. case_update.
Qed.

Lemma UpdateTestsFailed_depth u tfCb eventId flags pm :
  has_flag flags TestMustFail_DepthTesting = true -> depthTestFailed pm = true ->
  depthTestFailed (fst (UpdateTestsFailed u tfCb eventId flags pm)) = true.
Proof.
  intros Hflag Hpm. apply depth_not_read in Hflag.
  unfold UpdateTestsFailed. rewrite Hflag. case_update.
Qed.

Lemma UpdateTestsFailed_stencil u tfCb eventId flags pm :
  has_flag flags TestMustFail_StencilTesting = true ->
  stencilTestFailed (fst (UpdateTestsFailed u tfCb eventId flags pm)) = stencilTestFailed pm.
Proof.
  intros Hflag. apply stencil_not_read in Hflag.
  unfold UpdateTestsFailed. rewrite Hflag. case_update.
Qed.

(** The tests redrawn when a must-fail flag is set: those before the test
    of the flag. *)
Lemma tests_issued_must_fail flags :
  (has_flag flags TestMustFail_Culling = true -> tests_issued flags = []) ∧
  (has_flag flags TestMustFail_Scissor = true ->
   tests_issued flags `sublist_of` [TestEnabled_Culling]) ∧
  (has_flag flags TestMustFail_SampleMask = true ->
   tests_issued flags `sublist_of` [TestEnabled_Culling; TestEnabled_Scissor]) ∧
  (has_flag flags TestMustFail_StencilTesting = true ->
   tests_issued flags `sublist_of`
     [TestEnabled_Culling; TestEnabled_Scissor; TestEnabled_SampleMask;
      TestEnabled_DepthBounds]) ∧
  (has_flag flags TestMustFail_DepthTesting = true ->
   tests_issued flags `sublist_of`
     [TestEnabled_Culling; TestEnabled_Scissor; TestEnabled_SampleMask;
      TestEnabled_DepthBounds; TestEnabled_StencilTesting]).
Proof.
  repeat split; intros Hflag; unfold tests_issued; rewrite ?Hflag;
    case_flags; first [reflexivity | solve_sublist].
Qed.

Lemma tests_issued_stencil_must_fail flags :
  has_flag flags TestMustFail_StencilTesting = true ->
  (TestEnabled_StencilTesting ∉ tests_issued flags) ∧
  (TestEnabled_DepthTesting ∉ tests_issued flags) ∧
  (TestEnabled_FragmentDiscard ∉ tests_issued flags).
Proof.
  intros Hflag. unfold tests_issued. rewrite Hflag. case_flags; flag_elems.
Qed.

(** The must-fail flags that [PixelHistory] copies into the entry stay set:
    culling, scissor, sample mask and depth. *)
Theorem must_fail_flags_reported env tfCb eid pm :
  let flags := TestsFailedCallback.GetEventFlags (undefined env) tfCb eid in
  let out := VulkanReplay.apply_tests env (Some tfCb) eid pm in
  (has_flag flags TestMustFail_Culling = true -> backfaceCulled out = true) ∧
  (has_flag flags TestMustFail_Scissor = true -> scissorClipped out = true) ∧
  (has_flag flags TestMustFail_SampleMask = true -> sampleMasked out = true) ∧
  (has_flag flags TestMustFail_DepthTesting = true -> depthTestFailed out = true).
Proof.
  intros flags out. subst out. unfold VulkanReplay.apply_tests. fold flags.
  repeat split; intros Hflag.
  - apply UpdateTestsFailed_culling; [exact Hflag|].
    rewrite Hflag. repeat (destruct (has_flag flags _); cbn); reflexivity.
  - apply UpdateTestsFailed_scissor; [exact Hflag|].
    rewrite Hflag. repeat (destruct (has_flag flags _); cbn); reflexivity.
  - apply UpdateTestsFailed_sample_mask; [exact Hflag|].
    rewrite Hflag. repeat (destruct (has_flag flags _); cbn); reflexivity.
  - apply UpdateTestsFailed_depth; [exact Hflag|].
    rewrite Hflag. repeat (destruct (has_flag flags _); cbn); reflexivity.
Qed.

(** A must-fail flag stops the redraws of its test and of the tests after
    it. *)
Theorem must_fail_stops_redraws eid flags st :
  let redrawn :=
    map TestsFailedCallback.rd_test
      (redraws_since st (TestsFailedCallback.ReplayDrawWithTests eid flags st)) in
  (has_flag flags TestMustFail_Culling = true -> redrawn = []) ∧
  (has_flag flags TestMustFail_Scissor = true ->
   redrawn `sublist_of` [TestEnabled_Culling]) ∧
  (has_flag flags TestMustFail_SampleMask = true ->
   redrawn `sublist_of` [TestEnabled_Culling; TestEnabled_Scissor]) ∧
  (has_flag flags TestMustFail_StencilTesting = true ->
   redrawn `sublist_of`
     [TestEnabled_Culling; TestEnabled_Scissor; TestEnabled_SampleMask;
      TestEnabled_DepthBounds]) ∧
  (has_flag flags TestMustFail_DepthTesting = true ->
   redrawn `sublist_of`
     [TestEnabled_Culling; TestEnabled_Scissor; TestEnabled_SampleMask;
      TestEnabled_DepthBounds; TestEnabled_StencilTesting]).
Proof.
  intros redrawn.
  assert (Hred : redrawn = tests_issued flags).
  { apply (redraws_since_issued eid). apply ReplayDrawWithTests_issued. }
  rewrite Hred. apply tests_issued_must_fail.
Qed.

(** With [TestMustFail_StencilTesting] among the flags of an event, no redraw
    is issued for the stencil test, the depth test or the shader discard, and
    the entry of the event leaves [PixelHistory] with the [stencilTestFailed]
    it came with: the flag is not copied into the entry. *)
Theorem must_fail_stencil_not_reported env tfCb eid pm :
  let flags := TestsFailedCallback.GetEventFlags (undefined env) tfCb eid in
  has_flag flags TestMustFail_StencilTesting = true ->
  (∀ st,
     let redrawn :=
       map TestsFailedCallback.rd_test
         (redraws_since st (TestsFailedCallback.ReplayDrawWithTests eid flags st)) in
     (TestEnabled_StencilTesting ∉ redrawn) ∧
     (TestEnabled_DepthTesting ∉ redrawn) ∧
     (TestEnabled_FragmentDiscard ∉ redrawn)) ∧
  stencilTestFailed (VulkanReplay.apply_tests env (Some tfCb) eid pm) = stencilTestFailed pm.
Proof.
  intros flags Hflag. split.
  - intros st redrawn.
    assert (Hred : redrawn = tests_issued flags).
    { apply (redraws_since_issued eid). apply ReplayDrawWithTests_issued. }
    rewrite Hred. apply tests_issued_stencil_must_fail. exact Hflag.
  - unfold VulkanReplay.apply_tests. fold flags.
    rewrite UpdateTestsFailed_stencil by exact Hflag.
    repeat (destruct (has_flag flags _); cbn); reflexivity.
Qed.

(** ** Loops over the indices of an array *)

Lemma fold_indices_invariant {S} (step : S -> nat -> S) (P : nat -> S -> Prop) (n : nat) (s : S) :
  P 0%nat s ->
  (∀ k s, (k < n)%nat -> P k s -> P (Datatypes.S k) (step s k)) ->
  P n (fold_left step (seq 0%nat n) s).
Proof.
  intros H0 Hstep.
  assert (Hgen : ∀ m, (m ≤ n)%nat -> P m (fold_left step (seq 0%nat m) s)).
  { induction m as [|m IH]; intros Hm; [exact H0|].
    rewrite seq_S, fold_left_app. simpl. apply Hstep; [lia|]. apply IH. lia. }
  apply Hgen. lia.
Qed.

(** ** The expansion of an entry into its fragments *)

Lemma insert_at_middle {A} (front rest : list A) (x : A) :
  VulkanReplay.insert_at (length front) x (front ++ rest) = front ++ x :: rest.
Proof.
  unfold VulkanReplay.insert_at. rewrite take_app_length, drop_app_length. reflexivity.
Qed.

Lemma iter_insert_at {A} (done rest : list A) (x y : A) (n : nat) :
  Nat.iter n (VulkanReplay.insert_at (S (length done)) x) (done ++ y :: rest) =
  done ++ y :: replicate n x ++ rest.
Proof.
  induction n as [|n IH]; [reflexivity|].
  simpl. rewrite IH.
  pose proof (insert_at_middle (done ++ [y]) (replicate n x ++ rest) x) as Hmid.
  rewrite length_app, <- !app_assoc in Hmid. simpl in Hmid.
  rewrite Nat.add_1_r in Hmid. exact Hmid.
Qed.

Lemma alter_run {A} (g : nat -> A -> A) (done rest : list A) (x : A) (n : nat) :
  fold_left (fun hist f => alter (g f) (length done + f)%nat hist) (seq 0%nat n)
    (done ++ replicate n x ++ rest) =
  done ++ map (fun f => g f x) (seq 0%nat n) ++ rest.
Proof.
  revert rest. induction n as [|n IH]; intros rest; [reflexivity|].
  rewrite replicate_S_end, seq_S, fold_left_app, map_app.
  rewrite <- (app_assoc (replicate n x) [x] rest).
  change ([x] ++ rest) with (x :: rest).
  rewrite (IH (x :: rest)). cbn [fold_left map Nat.add].
  rewrite <- (app_assoc _ [g n x] rest). change ([g n x] ++ rest) with (g n x :: rest).
  rewrite !app_assoc.
  replace (length done + n)%nat
    with (length (done ++ map (fun f => g f x) (seq 0%nat n)) + 0)%nat
    by (rewrite length_app, length_map, length_seq; lia).
  rewrite alter_app_r. reflexivity.
Qed.

(** ** The orchestrator *)

Section OrchestratorProofs.
Variable U : ResourceUsageEnum.
Variable env : Replays.

Lemma byte0_range bytes : 0 <= byte0 bytes < 256.
Proof. unfold byte0. apply Z.mod_pos_bound. lia. Qed.

Lemma expand_entry_spec cb eventsInfo fmt done pm rest ewf :
  ∃ ewf',
    VulkanReplay.expand_entry env cb eventsInfo fmt (length done) (done ++ pm :: rest, ewf) =
    (length (done ++ expand_block env cb eventsInfo fmt pm),
     ((done ++ expand_block env cb eventsInfo fmt pm) ++ rest, ewf')).
Proof.
  unfold VulkanReplay.expand_entry, expand_block.
  rewrite list_lookup_middle by reflexivity.
  destruct (VulkanColorAndStencilCallback.GetEventIndex cb (eventId pm) =? -1) eqn:Hidx.
  - exists ewf. rewrite length_app, <- app_assoc. simpl. f_equal. lia.
  - set (ei := eventsInfo (VulkanColorAndStencilCallback.GetEventIndex cb (eventId pm))).
    set (pm' := VulkanReplay.read_event_info env fmt ei pm).
    set (frags := byte0 (dsWithoutShaderDiscard ei)).
    pose proof (byte0_range (dsWithoutShaderDiscard ei)) as Hrange. fold frags in Hrange.
    exists (if 0 <? frags then <[eventId pm' := frags]> ewf else ewf).
    assert (Hput : <[length done := pm']> (done ++ pm :: rest) = done ++ pm' :: rest).
    { rewrite <- (Nat.add_0_r (length done)), insert_app_r. reflexivity. }
    rewrite Hput, iter_insert_at.
    destruct (frags =? 0) eqn:Hzero.
    + apply Z.eqb_eq in Hzero. rewrite Hzero. simpl.
      rewrite length_app, <- app_assoc. simpl. f_equal.
    + apply Z.eqb_neq in Hzero.
      assert (Hn : Z.to_nat frags = S (Z.to_nat (frags - 1))) by lia.
      change (pm' :: replicate (Z.to_nat (frags - 1)) pm' ++ rest)
        with (replicate (S (Z.to_nat (frags - 1))) pm' ++ rest).
      rewrite <- Hn.
      rewrite (alter_run (fun f => set_fragIndex (Z.of_nat f)) done rest pm' (Z.to_nat frags)).
      rewrite length_app, length_map, length_seq, <- app_assoc.
      f_equal. lia.
Qed.

Lemma expand_loop_unfold cb eventsInfo fmt fuel h st :
  VulkanReplay.expand_loop env cb eventsInfo fmt (S fuel) h st =
  if bool_decide (length (fst st) ≤ h)%nat then Some st
  else
    let '(h', st') := VulkanReplay.expand_entry env cb eventsInfo fmt h st in
    VulkanReplay.expand_loop env cb eventsInfo fmt fuel h' st'.
Proof. reflexivity. Qed.

Lemma expand_loop_spec cb eventsInfo fmt rest :
  ∀ fuel done ewf, (length rest ≤ fuel)%nat ->
  ∃ ewf',
    VulkanReplay.expand_loop env cb eventsInfo fmt fuel (length done) (done ++ rest, ewf) =
    Some (done ++ flat_map (expand_block env cb eventsInfo fmt) rest, ewf').
Proof.
  induction rest as [|pm rest IH]; intros fuel done ewf Hfuel.
  - exists ewf. rewrite !app_nil_r.
    destruct fuel; [cbn [VulkanReplay.expand_loop]|rewrite expand_loop_unfold]; cbn [fst];
      rewrite bool_decide_eq_true_2 by lia; reflexivity.
  - destruct fuel as [|fuel]; [simpl in Hfuel; lia|].
    rewrite expand_loop_unfold. cbn [fst].
    rewrite bool_decide_eq_false_2 by (rewrite length_app; simpl; lia).
    destruct (expand_entry_spec cb eventsInfo fmt done pm rest ewf) as [ewf1 Hentry].
    rewrite Hentry.
    destruct (IH fuel (done ++ expand_block env cb eventsInfo fmt pm) ewf1) as [ewf2 Hloop];
      [simpl in Hfuel; lia|].
    exists ewf2. rewrite Hloop. cbn [flat_map]. rewrite <- app_assoc. reflexivity.
Qed.

(** *** The first history *)

Lemma UpdateTestsFailed_core u tfCb eventId' eventFlags pm :
  core (fst (UpdateTestsFailed u tfCb eventId' eventFlags pm)) = core pm.
Proof.
  unfold UpdateTestsFailed.
  repeat match goal with
         | |- context [if ?c then _ else _] => destruct c; simpl
         end; reflexivity.
Qed.

Lemma apply_tests_core tfCb eventId' pm :
  core (VulkanReplay.apply_tests env tfCb eventId' pm) = core pm.
Proof.
  unfold VulkanReplay.apply_tests. destruct tfCb as [tfCb|]; [|reflexivity].
  rewrite UpdateTestsFailed_core.
  repeat match goal with
         | |- context [if ?c then _ else _] => destruct c; simpl
         end; reflexivity.
Qed.

Lemma history_step_unfold tfCb drawEvents history ev :
  VulkanReplay.history_step U env tfCb drawEvents history ev =
  if kept U drawEvents ev then history ++ [first_entry U env tfCb ev] else history.
Proof. reflexivity. Qed.

Lemma build_history_spec tfCb drawEvents events :
  VulkanReplay.build_history U env tfCb drawEvents events =
  map (first_entry U env tfCb) (filter (fun ev => kept U drawEvents ev = true) events).
Proof.
  unfold VulkanReplay.build_history.
  assert (Hgen : ∀ acc,
    fold_left (VulkanReplay.history_step U env tfCb drawEvents) events acc =
    acc ++ map (first_entry U env tfCb) (filter (fun ev => kept U drawEvents ev = true) events)).
  { induction events as [|ev events IH]; intros acc.
    - simpl. rewrite app_nil_r. reflexivity.
    - cbn [fold_left]. rewrite IH, history_step_unfold, filter_cons.
      destruct (kept U drawEvents ev) eqn:Hk.
      + rewrite decide_True by reflexivity. rewrite <- app_assoc. reflexivity.
      + rewrite decide_False by discriminate. reflexivity. }
  apply (Hgen []).
Qed.

Lemma first_entry_core tfCb ev :
  core (first_entry U env tfCb ev) =
  (EventUsage.eventId ev, isDirectWrite U (EventUsage.usage ev), 0, 0,
   zero_value, zero_value, zero_value).
Proof.
  unfold first_entry.
  destruct (negb (EventUsage.usage ev =? Clear U) &&
            negb (isDirectWrite U (EventUsage.usage ev))); [|reflexivity].
  rewrite apply_tests_core. reflexivity.
Qed.

(** *** The per-fragment loops *)

Lemma map_insert_same {A B} (f : A -> B) (l : list A) (i : nat) (x y : A) :
  l !! i = Some x -> f y = f x -> map f (<[i := y]> l) = map f l.
Proof.
  intros Hl Hf. change (map f) with (fmap (M := list) f).
  rewrite list_fmap_insert. apply list_insert_id.
  rewrite list_lookup_fmap, Hl, Hf. reflexivity.
Qed.

Lemma primitive_loop_spec perFragmentCB bp eventsWithFrags history acc :
  map kept_by_primitives
    (fst (fst (fold_left (VulkanReplay.primitive_step env perFragmentCB bp eventsWithFrags)
                 (seq 0%nat (length history)) (history, acc.1, acc.2)))) =
  map kept_by_primitives history.
Proof.
  apply (fold_indices_invariant
           (VulkanReplay.primitive_step env perFragmentCB bp eventsWithFrags)
           (fun _ st => map kept_by_primitives (fst (fst st)) = map kept_by_primitives history)).
  - reflexivity.
  - intros k [[hist d] n] _ Hinv. simpl in Hinv.
    unfold VulkanReplay.primitive_step.
    destruct (hist !! k) as [pm|] eqn:Hk; [|exact Hinv].
    destruct (eventsWithFrags !! eventId pm); [|exact Hinv].
    destruct (primitiveID pm =? 1); simpl; rewrite <- Hinv;
      apply (map_insert_same _ _ _ pm); auto.
Qed.

Lemma mark_discarded_spec discardedCb history :
  map kept_by_discard (VulkanReplay.mark_discarded env discardedCb history) =
  map kept_by_discard history.
Proof.
  unfold VulkanReplay.mark_discarded. rewrite map_map. apply map_ext. reflexivity.
Qed.

Lemma lookup_drop_head {A} (l1 l2 : list A) (k i : nat) :
  drop k l1 = drop k l2 -> (k ≤ i)%nat -> l1 !! i = l2 !! i.
Proof.
  intros Hdrop Hle. replace i with (k + (i - k))%nat by lia.
  rewrite <- !lookup_drop, Hdrop. reflexivity.
Qed.

Lemma fragment_step_invariant perFragmentCB bp eventsWithFrags resourceFmt shaderOutFormat
    history k st :
  fragment_invariant history k st ->
  fragment_invariant history (S k)
    (VulkanReplay.fragment_step env perFragmentCB bp eventsWithFrags
       resourceFmt shaderOutFormat st k).
Proof.
  destruct st as [hist off]. intros (Hmap & Hdrop & Hpost). simpl in Hmap, Hdrop, Hpost.
  assert (Hk : hist !! k = history !! k) by (apply (lookup_drop_head _ _ k); auto).
  assert (HSk : hist !! S k = history !! S k) by (apply (lookup_drop_head _ _ k); auto).
  assert (Hdrop' : drop (S k) hist = drop (S k) history).
  { replace (S k) with (k + 1)%nat by lia. rewrite <- !drop_drop, Hdrop. reflexivity. }
  (* every outcome of the step is either the same array or a write at [k] *)
  assert (Hsame :
    ∀ off', fragment_invariant history (S k) (hist, off')).
  { intros off'. split; [exact Hmap|]. split; [exact Hdrop'|]. simpl.
    intros i pm0 pm Hi H0 H1 Hdisc Hlast.
    destruct (decide (i = k)) as [->|Hne].
    - rewrite Hk in H1. congruence.
    - apply (Hpost i pm0 pm); auto. lia. }
  assert (Hwrite :
    ∀ pm pm' off', hist !! k = Some pm ->
      kept_by_fragments pm' = kept_by_fragments pm ->
      (shaderDiscarded pm = false -> last_of_event history k -> postMod pm' = postMod pm) ->
      fragment_invariant history (S k) (<[k := pm']> hist, off')).
  { intros pm pm' off' Hpm Hkept Hlast. split; [|split]; simpl.
    - rewrite <- Hmap. apply (map_insert_same _ _ _ pm); auto.
    - rewrite drop_insert_lt by lia. exact Hdrop'.
    - intros i pm0 pm1 Hi H0 H1 Hdisc Hl.
      destruct (decide (i = k)) as [->|Hne].
      + rewrite list_lookup_insert_eq in H1 by (apply lookup_lt_Some in Hpm; exact Hpm).
        injection H1 as <-. rewrite Hk in Hpm. rewrite Hpm in H0. injection H0 as <-.
        apply Hlast; auto.
      + rewrite list_lookup_insert_ne in H1 by auto.
        apply (Hpost i pm0 pm1); auto. lia. }
  unfold VulkanReplay.fragment_step.
  destruct (hist !! k) as [pm|] eqn:Hpm; [|apply Hsame].
  destruct (eventsWithFrags !! eventId pm); [|apply Hsame].
  destruct (shaderDiscarded pm) eqn:Hdisc.
  - destruct (if (0 <? k)%nat then hist !! (k - 1)%nat else None) as [before|];
      [|apply Hsame].
    apply (Hwrite pm); [reflexivity|reflexivity|]. intros Hd. congruence.
  - apply (Hwrite pm); [reflexivity| |].
    + destruct (hist !! S k) as [next|]; [|reflexivity].
      destruct (eventId _ =? eventId next); reflexivity.
    + intros _ Hlast. rewrite HSk.
      destruct (history !! S k) as [next|] eqn:Hnext; [|reflexivity].
      simpl. destruct (eventId pm =? eventId next) eqn:Heq; [|reflexivity].
      apply Z.eqb_eq in Heq. exfalso. apply (Hlast pm next); congruence.
Qed.

Lemma fragment_loop_spec perFragmentCB bp eventsWithFrags resourceFmt shaderOutFormat history :
  fragment_invariant history (length history)
    (fold_left (VulkanReplay.fragment_step env perFragmentCB bp eventsWithFrags
                  resourceFmt shaderOutFormat)
       (seq 0%nat (length history)) (history, 0)).
Proof.
  apply (fold_indices_invariant _ (fragment_invariant history)).
  - split; [reflexivity|]. split; [reflexivity|]. intros i pm0 pm Hi. lia.
  - intros k st _ Hinv. apply fragment_step_invariant. exact Hinv.
Qed.

(** *** The per-fragment part as a whole *)

Lemma map_through {A B C} (f : A -> B) (g : A -> C) (p : B -> C) (l l' : list A) :
  (∀ x, g x = p (f x)) -> map f l = map f l' -> map g l = map g l'.
Proof.
  intros Hp Hmap.
  rewrite (map_ext g (fun x => p (f x)) Hp l), (map_ext g (fun x => p (f x)) Hp l').
  rewrite <- !(map_map f p), Hmap. reflexivity.
Qed.

Lemma lookup_through {A B} (f : A -> B) (l l' : list A) (i : nat) (x x' : A) :
  map f l = map f l' -> l !! i = Some x -> l' !! i = Some x' -> f x = f x'.
Proof.
  intros Hmap Hl Hl'.
  assert (Hi : map f l !! i = map f l' !! i) by (rewrite Hmap; reflexivity).
  change (map f) with (fmap (M := list) f) in Hi.
  rewrite !list_lookup_fmap, Hl, Hl' in Hi. simpl in Hi. congruence.
Qed.

Lemma lookup_same_length {A B} (f : A -> B) (l l' : list A) (i : nat) (x' : A) :
  map f l = map f l' -> l' !! i = Some x' -> ∃ x, l !! i = Some x.
Proof.
  intros Hmap Hl'. apply lookup_lt_is_Some.
  rewrite <- (length_map f l), Hmap, length_map. apply lookup_lt_Some in Hl'. exact Hl'.
Qed.

Lemma last_of_event_through (l l' : list PixelModification) (i : nat) :
  map eventId l = map eventId l' -> last_of_event l i -> last_of_event l' i.
Proof.
  intros Hmap Hlast pm next Hpm Hnext.
  destruct (lookup_same_length eventId l l' i pm Hmap Hpm) as [pm0 Hpm0].
  destruct (lookup_same_length eventId l l' (S i) next Hmap Hnext) as [next0 Hnext0].
  rewrite <- (lookup_through eventId l l' i pm0 pm Hmap Hpm0 Hpm).
  rewrite <- (lookup_through eventId l l' (S i) next0 next Hmap Hnext0 Hnext).
  apply (Hlast pm0 next0); assumption.
Qed.

Lemma per_fragment_spec callbackInfo fmt history eventsWithFrags :
  let history' := fst (VulkanReplay.per_fragment env callbackInfo fmt history eventsWithFrags) in
  map anchor history' = map anchor history ∧
  ∀ i pm0 pm, history !! i = Some pm0 -> history' !! i = Some pm ->
              shaderDiscarded pm = false -> last_of_event history' i ->
              postMod pm = postMod pm0.
Proof.
  unfold VulkanReplay.per_fragment.
  destruct (per_fragment_pass env callbackInfo eventsWithFrags
              (VulkanReplay.last_key eventsWithFrags)) as [perFragmentCB bp].
  pose proof (primitive_loop_spec perFragmentCB bp eventsWithFrags history (∅, 0)) as H1.
  simpl in H1.
  destruct (fold_left (VulkanReplay.primitive_step env perFragmentCB bp eventsWithFrags)
              (seq 0%nat (length history)) (history, ∅, 0)) as [[h1 d1] n1].
  simpl in H1.
  set (h2 := if 0 <? n1
             then VulkanReplay.mark_discarded env
                    (discarded_pass env callbackInfo d1 (VulkanReplay.last_key eventsWithFrags)) h1
             else h1).
  assert (H2 : map kept_by_discard h2 = map kept_by_discard history).
  { subst h2. destruct (0 <? n1).
    - rewrite mark_discarded_spec.
      apply (map_through kept_by_primitives _ (fun t => (t.1.1.1.1, t.1.1.1.2, t.1.1.2, t.1.2)));
        [reflexivity|exact H1].
    - apply (map_through kept_by_primitives _ (fun t => (t.1.1.1.1, t.1.1.1.2, t.1.1.2, t.1.2)));
        [reflexivity|exact H1]. }
  assert (Hshape : ∀ log,
    (let '(history0, log0) :=
       if 0 <? n1
       then (VulkanReplay.mark_discarded env
               (discarded_pass env callbackInfo d1 (VulkanReplay.last_key eventsWithFrags)) h1,
             log)
       else (h1, [ReplayLog (VulkanReplay.last_key eventsWithFrags)]) in
     let '(history1, _) :=
       fold_left
         (VulkanReplay.fragment_step env perFragmentCB bp eventsWithFrags fmt
            VulkanReplay.VK_FORMAT_R32G32B32A32_SFLOAT)
         (seq 0%nat (length history0)) (history0, 0) in
     (history1, log0)).1 =
    (fold_left
       (VulkanReplay.fragment_step env perFragmentCB bp eventsWithFrags fmt
          VulkanReplay.VK_FORMAT_R32G32B32A32_SFLOAT)
       (seq 0%nat (length h2)) (h2, 0)).1).
  { intros log. subst h2. destruct (0 <? n1);
      match goal with |- context [fold_left ?f ?l ?a] => destruct (fold_left f l a) end;
      reflexivity. }
  cbv zeta. rewrite Hshape. clear Hshape.
  pose proof (fragment_loop_spec perFragmentCB bp eventsWithFrags fmt
                VulkanReplay.VK_FORMAT_R32G32B32A32_SFLOAT h2) as (H3 & _ & Hpost).
  set (h3 := (fold_left _ _ (h2, 0)).1) in *.
  split.
  - transitivity (map anchor h2).
    + apply (map_through kept_by_fragments _ (fun t => (t.1.1.1, t.1.1.2, t.1.2)));
        [reflexivity|exact H3].
    + apply (map_through kept_by_discard _ (fun t => (t.1.1.1, t.1.1.2, t.1.2)));
        [reflexivity|exact H2].
  - intros i pm0 pm Hpm0 Hpm Hdisc Hlast.
    destruct (lookup_same_length kept_by_discard h2 history i pm0 H2 Hpm0) as [pm2 Hpm2].
    pose proof (lookup_through kept_by_discard h2 history i pm2 pm0 H2 Hpm2 Hpm0) as E2.
    pose proof (lookup_through kept_by_fragments h3 h2 i pm pm2 H3 Hpm Hpm2) as E3.
    unfold kept_by_discard in E2. unfold kept_by_fragments in E3.
    injection E2 as _ _ _ Epost. injection E3 as _ _ _ Edisc.
    rewrite <- Epost. apply (Hpost i pm2 pm); auto.
    + apply lookup_lt_Some in Hpm2. exact Hpm2.
    + congruence.
    + apply (last_of_event_through h3 h2); [|exact Hlast].
      apply (map_through kept_by_fragments _ (fun t => t.1.1.1)); [reflexivity|exact H3].
Qed.

(** *** The history as a whole *)

Lemma expand_block_places cb eventsInfo fmt pm :
  fragIndex pm = 0 ->
  map place (expand_block env cb eventsInfo fmt pm) = event_places cb eventsInfo (eventId pm).
Proof.
  intros Hzero. unfold expand_block, event_places, fragment_entries.
  destruct (VulkanColorAndStencilCallback.GetEventIndex cb (eventId pm) =? -1).
  - simpl. unfold place. rewrite Hzero. reflexivity.
  - set (ei := eventsInfo _).
    pose proof (byte0_range (dsWithoutShaderDiscard ei)) as Hrange.
    destruct (byte0 (dsWithoutShaderDiscard ei) =? 0) eqn:Hfrags.
    + apply Z.eqb_eq in Hfrags. rewrite Hfrags. simpl. unfold place. simpl.
      rewrite Hzero. reflexivity.
    + apply Z.eqb_neq in Hfrags. rewrite Z.max_r by lia.
      rewrite map_map. apply map_ext. reflexivity.
Qed.

Lemma expand_block_values cb eventsInfo fmt pm :
  Forall (fun pm' =>
            eventId pm' = eventId pm ∧
            (VulkanColorAndStencilCallback.GetEventIndex cb (eventId pm) ≠ -1 ->
             preMod pm' =
               captured_value env fmt
                 (premod (eventsInfo (VulkanColorAndStencilCallback.GetEventIndex cb (eventId pm)))) ∧
             postMod pm' =
               captured_value env fmt
                 (postmod (eventsInfo (VulkanColorAndStencilCallback.GetEventIndex cb (eventId pm))))))
         (expand_block env cb eventsInfo fmt pm).
Proof.
  unfold expand_block.
  destruct (VulkanColorAndStencilCallback.GetEventIndex cb (eventId pm) =? -1) eqn:Hidx.
  - constructor; [|constructor]. split; [reflexivity|]. intros Hne.
    apply Z.eqb_eq in Hidx. contradiction.
  - destruct (byte0 _ =? 0).
    + constructor; [|constructor]. repeat split; reflexivity.
    + apply Forall_forall. intros pm' Hin.
      change (map ?f ?l) with (fmap (M := list) f l) in Hin.
      apply list_elem_of_fmap in Hin as (f & -> & _).
      repeat split; reflexivity.
Qed.

Lemma flat_map_places cb eventsInfo fmt base :
  Forall (fun pm => fragIndex pm = 0) base ->
  map place (flat_map (expand_block env cb eventsInfo fmt) base) =
  flat_map (fun pm => event_places cb eventsInfo (eventId pm)) base.
Proof.
  induction 1 as [|pm base Hpm _ IH]; [reflexivity|].
  simpl. rewrite map_app, IH, expand_block_places by exact Hpm. reflexivity.
Qed.

Lemma flat_map_values {A B} (f : A -> list B) (P : B -> Prop) (l : list A) :
  (∀ x, x ∈ l -> Forall P (f x)) -> Forall P (flat_map f l).
Proof.
  intros Hall. induction l as [|x l IH]; [constructor|].
  simpl. apply Forall_app. split.
  - apply Hall. apply list_elem_of_here.
  - apply IH. intros y Hy. apply Hall. apply list_elem_of_further. exact Hy.
Qed.

Lemma PixelHistory_run pixelHistory imginfo events x y sub :
  (VulkanReplay.PixelHistory U env imginfo events x y sub pixelHistory = Some ([], []) ∧
   (pixelHistory = false ∨ events = [] ∨ format imginfo = VK_FORMAT_UNDEFINED)) ∨
  (pixelHistory = true ∧ events ≠ [] ∧ format imginfo ≠ VK_FORMAT_UNDEFINED ∧
   ∃ history log,
     VulkanReplay.PixelHistory U env imginfo events x y sub pixelHistory = Some (history, log) ∧
     history_shape U env imginfo events x y sub history).
Proof.
  unfold VulkanReplay.PixelHistory.
  destruct pixelHistory; [|left; auto]. simpl negb. cbv iota.
  case_bool_decide as Hevents; [left; auto|].
  destruct (format imginfo =? VK_FORMAT_UNDEFINED) eqn:Hformat;
    [left; apply Z.eqb_eq in Hformat; auto|].
  apply Z.eqb_neq in Hformat. right. split; [reflexivity|]. split; [exact Hevents|].
  split; [exact Hformat|].
  set (cb := VulkanReplay.cb U env imginfo events x y sub).
  set (eventsInfo := VulkanReplay.eventsInfo U env imginfo events x y sub).
  set (base := VulkanReplay.build_history U env
                 (VulkanReplay.tfCb U env imginfo events x y sub)
                 (VulkanReplay.drawEvents U env imginfo events x y sub) events).
  destruct (expand_loop_spec cb eventsInfo (format imginfo) base (length base) [] ∅)
    as [ewf Hloop]; [lia|].
  simpl in Hloop. cbv zeta. rewrite Hloop. clear Hloop.
  set (expanded := flat_map (expand_block env cb eventsInfo (format imginfo)) base).
  assert (Hbase : base = map (first_entry U env (VulkanReplay.tfCb U env imginfo events x y sub))
                           (kept_events U env imginfo events x y sub)).
  { apply build_history_spec. }
  assert (Hplaces : map place expanded =
                    flat_map (fun ev => event_places cb eventsInfo (EventUsage.eventId ev))
                      (kept_events U env imginfo events x y sub)).
  { subst expanded. rewrite flat_map_places.
    - rewrite Hbase. generalize (kept_events U env imginfo events x y sub). intros l.
      induction l as [|ev l IH]; [reflexivity|]. simpl. rewrite IH. f_equal.
      pose proof (first_entry_core (VulkanReplay.tfCb U env imginfo events x y sub) ev) as Hc.
      unfold core in Hc. injection Hc as -> _ _ _ _ _ _. reflexivity.
    - rewrite Hbase. apply Forall_forall. intros pm Hin.
      change (map ?f ?l) with (fmap (M := list) f l) in Hin.
      apply list_elem_of_fmap in Hin as (ev & -> & _).
      pose proof (first_entry_core (VulkanReplay.tfCb U env imginfo events x y sub) ev) as Hc.
      unfold core in Hc. injection Hc as _ _ -> _ _ _ _. reflexivity. }
  assert (Hvalues :
    Forall (fun pm' =>
              VulkanColorAndStencilCallback.GetEventIndex cb (eventId pm') ≠ -1 ->
              preMod pm' =
                captured_value env (format imginfo)
                  (premod (eventsInfo (VulkanColorAndStencilCallback.GetEventIndex cb (eventId pm')))) ∧
              postMod pm' =
                captured_value env (format imginfo)
                  (postmod (eventsInfo (VulkanColorAndStencilCallback.GetEventIndex cb (eventId pm')))))
           expanded).
  { subst expanded. apply flat_map_values. intros pm _.
    eapply Forall_impl; [apply expand_block_values|]. simpl.
    intros pm' [-> Hv]. exact Hv. }
  assert (Hfinal : ∃ history log',
    (if (0 <? size ewf)%nat
     then VulkanReplay.per_fragment env
            (VulkanReplay.callbackInfo imginfo x y sub) (format imginfo) expanded ewf
     else (expanded, [])) = (history, log') ∧
    map anchor history = map anchor expanded ∧
    ∀ i pm0 pm, expanded !! i = Some pm0 -> history !! i = Some pm ->
                shaderDiscarded pm = false -> last_of_event history i ->
                postMod pm = postMod pm0).
  { destruct (0 <? size ewf)%nat.
    - pose proof (per_fragment_spec (VulkanReplay.callbackInfo imginfo x y sub)
                    (format imginfo) expanded ewf) as Hspec.
      destruct (VulkanReplay.per_fragment env _ _ expanded ewf) as [history log'].
      exists history, log'. split; [reflexivity|]. exact Hspec.
    - exists expanded, []. split; [reflexivity|]. split; [reflexivity|].
      intros i pm0 pm H0 H1. congruence. }
  destruct Hfinal as (history & log' & -> & Hanchor & Hpost).
  eexists history, _. split; [reflexivity|].
  unfold history_shape. cbv zeta. fold cb eventsInfo.
  split.
  - rewrite <- Hplaces.
    apply (map_through anchor _ (fun t => (t.1.1, t.1.2))); [reflexivity|exact Hanchor].
  - intros h pm Hpm Hidx.
    destruct (lookup_same_length anchor expanded history h pm (eq_sym Hanchor) Hpm)
      as [pm0 Hpm0].
    pose proof (lookup_through anchor expanded history h pm0 pm (eq_sym Hanchor) Hpm0 Hpm)
      as Heq.
    unfold anchor in Heq. injection Heq as Heid _ Hpre.
    rewrite Forall_forall in Hvalues.
    assert (Hin : pm0 ∈ expanded) by (apply list_elem_of_lookup; eauto).
    rewrite <- Heid in *.
    destruct (Hvalues pm0 Hin Hidx) as [Hv1 Hv2].
    split; [congruence|].
    intros Hdisc Hlast. rewrite <- Hv2. apply (Hpost h pm0 pm); auto.
Qed.

(** *** Which events have entries *)

Lemma gather_draw_events occlCb events eid :
  eid ∈ snd (VulkanReplay.gather_events U env occlCb events) ->
  0 < VulkanOcclusionCallback.GetOcclusionResult (undefined env) occlCb eid.
Proof.
  unfold VulkanReplay.gather_events.
  assert (Hgen : ∀ acc,
    Forall (fun e => 0 < VulkanOcclusionCallback.GetOcclusionResult (undefined env) occlCb e)
      (snd acc) ->
    Forall (fun e => 0 < VulkanOcclusionCallback.GetOcclusionResult (undefined env) occlCb e)
      (snd (fold_left (VulkanReplay.gather_step U env occlCb) events acc))).
  { induction events as [|ev events IH]; intros acc Hacc; [exact Hacc|].
    cbn [fold_left]. apply IH. destruct acc as [modEvents drawEvents].
    unfold VulkanReplay.gather_step.
    destruct (isDirectWrite U (EventUsage.usage ev) || (EventUsage.usage ev =? Clear U));
      [exact Hacc|].
    destruct (0 <? VulkanOcclusionCallback.GetOcclusionResult (undefined env) occlCb
                     (EventUsage.eventId ev)) eqn:Hocc; [|exact Hacc].
    simpl. apply Forall_app. split; [exact Hacc|].
    constructor; [|constructor]. apply Z.ltb_lt. exact Hocc. }
  intros Hin. specialize (Hgen ([], []) (List.Forall_nil _)).
  rewrite Forall_forall in Hgen. apply Hgen. exact Hin.
Qed.

Lemma fragment_entries_pos cb eventsInfo eid : (0 < fragment_entries cb eventsInfo eid)%nat.
Proof. unfold fragment_entries. destruct (_ =? -1); lia. Qed.

Lemma event_places_elem cb eventsInfo eid p :
  p ∈ event_places cb eventsInfo eid -> p.1 = eid.
Proof.
  unfold event_places. intros Hin.
  change (map ?f ?l) with (fmap (M := list) f l) in Hin.
  apply list_elem_of_fmap in Hin as (f & -> & _). reflexivity.
Qed.

Lemma event_places_first cb eventsInfo eid : (eid, 0) ∈ event_places cb eventsInfo eid.
Proof.
  unfold event_places. pose proof (fragment_entries_pos cb eventsInfo eid) as Hpos.
  destruct (fragment_entries cb eventsInfo eid) as [|n]; [lia|].
  simpl. apply list_elem_of_here.
Qed.

(** An event id has an entry exactly when an event of that id is kept. *)
Lemma history_shape_events imginfo events x y sub history eid :
  history_shape U env imginfo events x y sub history ->
  (∃ pm, pm ∈ history ∧ eventId pm = eid) ↔
  (∃ ev, ev ∈ events ∧ EventUsage.eventId ev = eid ∧
         kept U (VulkanReplay.drawEvents U env imginfo events x y sub) ev = true).
Proof.
  intros [Hplaces _]. split.
  - intros (pm & Hin & Heid).
    assert (Hp : place pm ∈ map place history).
    { change (map ?f ?l) with (fmap (M := list) f l). apply list_elem_of_fmap. eauto. }
    rewrite Hplaces in Hp. apply list_elem_of_In, in_flat_map in Hp as (ev & Hev & Hp).
    apply list_elem_of_In in Hev, Hp.
    unfold kept_events in Hev. apply list_elem_of_filter in Hev as [Hkept Hev].
    apply event_places_elem in Hp. simpl in Hp.
    exists ev. split; [exact Hev|]. split; [congruence|exact Hkept].
  - intros (ev & Hev & Heid & Hkept).
    assert (Hp : (eid, 0) ∈ map place history).
    { rewrite Hplaces. apply list_elem_of_In, in_flat_map. exists ev. split.
      - apply list_elem_of_In. unfold kept_events. apply list_elem_of_filter. auto.
      - apply list_elem_of_In. rewrite Heid. apply event_places_first. }
    change (map ?f ?l) with (fmap (M := list) f l) in Hp.
    apply list_elem_of_fmap in Hp as (pm & Hpm & Hin).
    exists pm. split; [exact Hin|]. unfold place in Hpm. congruence.
Qed.

(** *** Order of the entries *)

Lemma fragments_counted_app l1 l2 :
  fragments_counted l1 -> fragments_counted l2 -> fragments_counted (l1 ++ l2).
Proof.
  intros H1 H2 h p Hp. apply lookup_app_Some in Hp as [Hp|[Hlen Hp]].
  - destruct (H1 h p Hp) as [Hz|(q & Hh & Hq & Hrest)]; [left; exact Hz|].
    right. exists q. split; [exact Hh|]. split; [|exact Hrest].
    apply lookup_app_l_Some. exact Hq.
  - destruct (H2 _ p Hp) as [Hz|(q & Hh & Hq & Hrest)]; [left; exact Hz|].
    right. exists q. split; [lia|]. split; [|exact Hrest].
    rewrite lookup_app_r by lia.
    replace (h - 1 - length l1)%nat with (h - length l1 - 1)%nat by lia. exact Hq.
Qed.

Lemma fragments_counted_event cb eventsInfo eid :
  fragments_counted (event_places cb eventsInfo eid).
Proof.
  unfold event_places. intros h p Hp.
  change (map ?f ?l) with (fmap (M := list) f l) in Hp.
  rewrite list_lookup_fmap in Hp.
  destruct (seq 0%nat (fragment_entries cb eventsInfo eid) !! h) as [f|] eqn:Hf;
    [|discriminate].
  apply lookup_seq in Hf as [-> Hlt]. simpl in Hp. injection Hp as <-.
  destruct h as [|h]; [left; reflexivity|].
  right. exists (eid, Z.of_nat h). split; [lia|]. split; [|simpl; split; [reflexivity|lia]].
  change (map ?f ?l) with (fmap (M := list) f l).
  rewrite list_lookup_fmap.
  replace (S h - 1)%nat with h by lia.
  rewrite (lookup_seq_lt 0 _ h) by lia. reflexivity.
Qed.

Lemma fragments_counted_history imginfo events x y sub history :
  history_shape U env imginfo events x y sub history ->
  fragments_counted (map place history).
Proof.
  intros [-> _]. generalize (kept_events U env imginfo events x y sub). intros l.
  induction l as [|ev l IH]; [intros h p Hp; discriminate|].
  simpl. apply fragments_counted_app; [apply fragments_counted_event|exact IH].
Qed.

Lemma sorted_event_ids imginfo events x y sub history :
  history_shape U env imginfo events x y sub history ->
  Sorted Z.le (map EventUsage.eventId events) ->
  Sorted Z.le (map eventId history).
Proof.
  intros [Hplaces _] Hsorted.
  assert (Hids : map eventId history = map fst (map place history)).
  { rewrite map_map. reflexivity. }
  rewrite Hids, Hplaces. clear Hids Hplaces.
  apply Sorted_StronglySorted in Hsorted; [|intros a b c; apply Z.le_trans].
  apply StronglySorted_Sorted.
  unfold kept_events.
  generalize (VulkanReplay.drawEvents U env imginfo events x y sub). intros drawEvents.
  set (cb := VulkanReplay.cb U env imginfo events x y sub).
  set (eventsInfo := VulkanReplay.eventsInfo U env imginfo events x y sub).
  clearbody cb eventsInfo.
  induction events as [|ev events IH]; [constructor|].
  simpl in Hsorted. apply StronglySorted_cons in Hsorted as [Hall Hsorted].
  rewrite filter_cons. destruct (decide (kept U drawEvents ev = true)); [|apply IH; exact Hsorted].
  simpl. rewrite map_app. apply StronglySorted_app_2; [| |apply IH; exact Hsorted].
  - intros a b Ha Hb.
    change (map ?f ?l) with (fmap (M := list) f l) in Ha, Hb.
    apply list_elem_of_fmap in Ha as (p & -> & Hp).
    apply event_places_elem in Hp. rewrite Hp.
    apply list_elem_of_fmap in Hb as (q & -> & Hq).
    apply list_elem_of_In, in_flat_map in Hq as (ev' & Hev' & Hq).
    apply list_elem_of_In in Hev', Hq. apply event_places_elem in Hq. rewrite Hq.
    apply list_elem_of_filter in Hev' as [_ Hev'].
    rewrite Forall_forall in Hall. apply Hall.
    change (map ?f ?l) with (fmap (M := list) f l). apply list_elem_of_fmap. eauto.
  - unfold event_places. rewrite map_map. simpl.
    generalize (seq 0%nat (fragment_entries cb eventsInfo (EventUsage.eventId ev))).
    intros l. induction l as [|f l IHl]; [constructor|].
    simpl. constructor; [exact IHl|].
    apply Forall_forall. intros a Ha.
    change (map ?f ?l) with (fmap (M := list) f l) in Ha.
    apply list_elem_of_fmap in Ha as (f' & -> & _). lia.
Qed.

(** *** The history that is returned *)

(** C10: an empty event list or an image of undefined format ends
    [PixelHistory] with an empty history before any device object is
    created. *)
Theorem PixelHistory_returns_early pixelHistory imginfo events x y sub :
  events = [] ∨ format imginfo = VK_FORMAT_UNDEFINED ->
  VulkanReplay.PixelHistory U env imginfo events x y sub pixelHistory = Some ([], []).
Proof.
  intros Hguard. unfold VulkanReplay.PixelHistory.
  destruct pixelHistory; [|reflexivity]. simpl negb. cbv iota.
  case_bool_decide as Hevents; [reflexivity|].
  destruct Hguard as [Hnil|Hformat]; [contradiction|].
  rewrite Hformat. reflexivity.
Qed.

(** C1: when the passes run, every clear or direct-write event of the list
    has an entry in the returned history, whatever its occlusion result, and
    an event id that only draws use and whose occlusion result is 0 has no
    entry. *)
Theorem clears_and_direct_writes_kept imginfo events x y sub :
  format imginfo ≠ VK_FORMAT_UNDEFINED ->
  ∃ history log,
    VulkanReplay.PixelHistory U env imginfo events x y sub true = Some (history, log) ∧
    (∀ ev, ev ∈ events ->
       EventUsage.usage ev = Clear U ∨ isDirectWrite U (EventUsage.usage ev) = true ->
       ∃ pm, pm ∈ history ∧ eventId pm = EventUsage.eventId ev) ∧
    (∀ eid,
       (∀ ev, ev ∈ events -> EventUsage.eventId ev = eid ->
              EventUsage.usage ev ≠ Clear U ∧ isDirectWrite U (EventUsage.usage ev) = false) ->
       VulkanOcclusionCallback.GetOcclusionResult (undefined env)
         (VulkanReplay.occlCb env imginfo events x y sub) eid = 0 ->
       ∀ pm, pm ∈ history -> eventId pm ≠ eid).
Proof.
  intros Hformat.
  destruct (PixelHistory_run true imginfo events x y sub)
    as [[Hempty [Hoff|[Hnil|Hundef]]]|(_ & Hevents & _ & history & log & Hrun & Hshape)].
  - discriminate.
  - exists [], []. split; [exact Hempty|]. split.
    + intros ev Hin. rewrite Hnil in Hin. apply elem_of_nil in Hin. contradiction.
    + intros eid _ _ pm Hin. apply elem_of_nil in Hin. contradiction.
  - contradiction.
  - exists history, log. split; [exact Hrun|]. split.
    + intros ev Hin Hwrite.
      apply (history_shape_events imginfo events x y sub history (EventUsage.eventId ev) Hshape).
      exists ev. split; [exact Hin|]. split; [reflexivity|].
      unfold kept. destruct Hwrite as [Hclear|Hdirect].
      * rewrite Hclear, Z.eqb_refl. apply orb_true_iff. left. apply orb_true_r.
      * rewrite Hdirect. apply orb_true_r.
    + intros eid Hdraw Hoccl pm Hin Heid.
      destruct (proj1 (history_shape_events imginfo events x y sub history eid Hshape))
        as (ev & Hev & Hid & Hkept); [eauto|].
      destruct (Hdraw ev Hev Hid) as [Hnc Hnd].
      unfold kept in Hkept. rewrite Hnd, orb_false_r in Hkept.
      apply Z.eqb_neq in Hnc. rewrite Hnc, orb_false_r in Hkept.
      unfold contains in Hkept. apply bool_decide_eq_true in Hkept.
      rewrite Hid in Hkept. unfold VulkanReplay.drawEvents in Hkept.
      apply gather_draw_events in Hkept. rewrite Hoccl in Hkept. lia.
Qed.

(** C2, as the code has it: every entry of an event with a record has the
    pre-modification value the modification-capture pass read for the event
    (the fragments of an event share it, no post value is chained into it),
    and the last entry of an event has the event's captured
    post-modification value unless it is flagged as discarded by the shader. *)
Theorem fragments_carry_event_values pixelHistory imginfo events x y sub :
  ∃ history log,
    VulkanReplay.PixelHistory U env imginfo events x y sub pixelHistory = Some (history, log) ∧
    ∀ h pm, history !! h = Some pm ->
      let cb := VulkanReplay.cb U env imginfo events x y sub in
      let eventsInfo := VulkanReplay.eventsInfo U env imginfo events x y sub in
      let eventIndex := VulkanColorAndStencilCallback.GetEventIndex cb (eventId pm) in
      eventIndex ≠ -1 ->
      preMod pm = captured_value env (format imginfo) (premod (eventsInfo eventIndex)) ∧
      (shaderDiscarded pm = false -> last_of_event history h ->
       postMod pm = captured_value env (format imginfo) (postmod (eventsInfo eventIndex))).
Proof.
  destruct (PixelHistory_run pixelHistory imginfo events x y sub)
    as [[Hempty _]|(_ & _ & _ & history & log & Hrun & Hshape)].
  - exists [], []. split; [exact Hempty|]. intros h pm Hpm. discriminate.
  - exists history, log. split; [exact Hrun|]. exact (proj2 Hshape).
Qed.

(** [PixelHistory] returns for every input: the loop that expands the
    entries ends within as many rounds as the first history has entries. *)
Theorem PixelHistory_returns pixelHistory imginfo events x y sub :
  ∃ history log,
    VulkanReplay.PixelHistory U env imginfo events x y sub pixelHistory = Some (history, log).
Proof.
  destruct (PixelHistory_run pixelHistory imginfo events x y sub)
    as [[Hempty _]|(_ & _ & _ & history & log & Hrun & _)]; eauto.
Qed.

(** When the passes run, the history lists the kept events in the order of
    the event list, and for each of them one entry per fragment, numbered
    from 0 (a single entry 0 for an event without fragments or without a
    record). *)
Theorem history_lists_fragments_per_event imginfo events x y sub :
  events ≠ [] -> format imginfo ≠ VK_FORMAT_UNDEFINED ->
  ∃ history log,
    VulkanReplay.PixelHistory U env imginfo events x y sub true = Some (history, log) ∧
    map place history =
      flat_map
        (fun ev =>
           event_places (VulkanReplay.cb U env imginfo events x y sub)
             (VulkanReplay.eventsInfo U env imginfo events x y sub) (EventUsage.eventId ev))
        (kept_events U env imginfo events x y sub).
Proof.
  intros Hevents Hformat.
  destruct (PixelHistory_run true imginfo events x y sub)
    as [[_ [Hoff|[Hnil|Hundef]]]|(_ & _ & _ & history & log & Hrun & Hshape)];
    [discriminate|contradiction|contradiction|].
  exists history, log. split; [exact Hrun|]. exact (proj1 Hshape).
Qed.

End OrchestratorProofs.

(** *** The order of the history *)

(** The entries of one event among the blocks of events that are all
    different: the block of the event, when it is there. *)
Lemma event_places_of_event cb eventsInfo eid (evs : list EventUsage.t) :
  NoDup (map EventUsage.eventId evs) ->
  ∃ n, map snd (filter (fun p : Z * Z => p.1 = eid)
                  (flat_map (fun ev => event_places cb eventsInfo (EventUsage.eventId ev)) evs)) =
       map Z.of_nat (seq 0%nat n).
Proof.
  assert (Hblock : ∀ e, filter (fun p : Z * Z => p.1 = eid) (event_places cb eventsInfo e) =
                        if decide (e = eid) then event_places cb eventsInfo e else []).
  { intros e. unfold event_places.
    induction (seq 0%nat (fragment_entries cb eventsInfo e)) as [|f fs IH]; simpl.
    - destruct (decide (e = eid)); reflexivity.
    - rewrite filter_cons. simpl. rewrite IH.
      destruct (decide (e = eid)); reflexivity. }
  assert (Hnone : ∀ l : list EventUsage.t, eid ∉ map EventUsage.eventId l ->
            filter (fun p : Z * Z => p.1 = eid)
              (flat_map (fun ev => event_places cb eventsInfo (EventUsage.eventId ev)) l) = []).
  { induction l as [|ev l IH]; intros Hnot; [reflexivity|].
    simpl in *. rewrite filter_app, Hblock.
    rewrite not_elem_of_cons in Hnot. destruct Hnot as [Hne Hnot].
    rewrite decide_False by congruence. apply IH. exact Hnot. }
  induction evs as [|ev evs IH]; intros Hnd.
  - exists 0%nat. reflexivity.
  - simpl in *. apply NoDup_cons in Hnd as [Hnot Hnd].
    rewrite filter_app, Hblock.
    destruct (decide (EventUsage.eventId ev = eid)) as [He|Hne].
    + rewrite Hnone by (rewrite <- He; exact Hnot). rewrite app_nil_r.
      exists (fragment_entries cb eventsInfo (EventUsage.eventId ev)).
      unfold event_places. rewrite map_map. reflexivity.
    + simpl. apply IH. exact Hnd.
Qed.

Lemma filter_places (eid : Z) (history : list PixelModification) :
  map snd (filter (fun p : Z * Z => p.1 = eid) (map place history)) =
  map fragIndex (filter (fun pm => eventId pm = eid) history).
Proof.
  induction history as [|pm history IH]; [reflexivity|].
  simpl. rewrite !filter_cons. unfold place at 1. simpl.
  destruct (decide (eventId pm = eid)); simpl; rewrite IH; reflexivity.
Qed.

(** C7, as the code has it: the history keeps the order of the event list,
    so for a list sorted by event id the history is sorted by event id, and
    every entry either starts at fragment 0 or follows the entry of the same
    event with the fragment index before it.  When no event is listed
    twice, the entries of an event carry the fragment indices 0 to N-1 in
    this order, N being their number. *)
Theorem history_keeps_event_order U env pixelHistory imginfo events x y sub :
  Sorted Z.le (map EventUsage.eventId events) ->
  ∃ history log,
    VulkanReplay.PixelHistory U env imginfo events x y sub pixelHistory = Some (history, log) ∧
    Sorted Z.le (map eventId history) ∧
    (∀ h pm, history !! h = Some pm ->
       fragIndex pm = 0 ∨
       ∃ before, (0 < h)%nat ∧ history !! (h - 1)%nat = Some before ∧
                 eventId before = eventId pm ∧ fragIndex pm = fragIndex before + 1) ∧
    (NoDup (map EventUsage.eventId events) ->
     ∀ eid,
       let entries := filter (fun pm => eventId pm = eid) history in
       map fragIndex entries = map Z.of_nat (seq 0%nat (length entries))).
Proof.
  intros Hsorted.
  destruct (PixelHistory_run U env pixelHistory imginfo events x y sub)
    as [[Hempty _]|(_ & _ & _ & history & log & Hrun & Hshape)].
  - exists [], []. split; [exact Hempty|]. split; [constructor|]. split.
    + intros h pm Hpm. discriminate.
    + intros _ eid. reflexivity.
  - exists history, log. split; [exact Hrun|]. split; [|split].
    + apply (sorted_event_ids U env imginfo events x y sub); assumption.
    + intros h pm Hpm.
      pose proof (fragments_counted_history U env imginfo events x y sub history Hshape)
        as Hcount.
      assert (Hp : map place history !! h = Some (place pm)).
      { change (map ?f ?l) with (fmap (M := list) f l).
        rewrite list_lookup_fmap, Hpm. reflexivity. }
      destruct (Hcount h (place pm) Hp) as [Hz|(q & Hh & Hq & Hid & Hidx)];
        [left; exact Hz|].
      right. change (map ?f ?l) with (fmap (M := list) f l) in Hq.
      rewrite list_lookup_fmap in Hq.
      destruct (history !! (h - 1)%nat) as [before|]; [|discriminate].
      simpl in Hq. injection Hq as <-. exists before. auto.
    + intros Hnd eid. cbv zeta.
      destruct Hshape as [Hplaces _].
      assert (Hkept : NoDup (map EventUsage.eventId (kept_events U env imginfo events x y sub))).
      { unfold kept_events. apply (sublist_NoDup _ _ Hnd).
        change (map ?f ?l) with (fmap (M := list) f l). apply fmap_sublist, sublist_filter. }
      destruct (event_places_of_event (VulkanReplay.cb U env imginfo events x y sub)
                  (VulkanReplay.eventsInfo U env imginfo events x y sub) eid _ Hkept)
        as [n Hn].
      rewrite <- Hplaces, filter_places in Hn.
      assert (Hlen : length (filter (fun pm => eventId pm = eid) history) = n).
      { rewrite <- (length_map fragIndex), Hn, length_map, length_seq. reflexivity. }
      rewrite Hlen. exact Hn.
Qed.

(** ** The shader cache *)

Section ShaderCacheProofs.
Import rdcspv PixelHistoryShaderCache.

Lemma strip_instr_spec i st :
  let '(i', st') := strip_instr i st in
  modified st' = modified st || side_effect i ∧
  patchedFunctions st' = patchedFunctions st ∧
  functionPatchQueue st ⊆ functionPatchQueue st' ∧
  functionPatchQueue st' ⊆ functionPatchQueue st ∪ (callees [i] ∖ patchedFunctions st) ∧
  callees [i'] = callees [i] ∧
  (side_effect i = false -> i' = i) ∧
  side_effect i' = false.
Proof.
  destruct i as [f|op sc| |op rt r p m s|rt r p m s| |opc]; simpl;
    rewrite ?orb_false_r, ?orb_true_r.
  - destruct (bool_decide (f ∉ functionPatchQueue st)) eqn:Hq;
      destruct (bool_decide (f ∉ patchedFunctions st)) eqn:Hp; simpl;
      rewrite ?orb_false_r; unfold callees; simpl;
      try apply bool_decide_eq_true in Hq; try apply bool_decide_eq_false in Hq;
      try apply bool_decide_eq_true in Hp; try apply bool_decide_eq_false in Hp;
      repeat split; auto; set_solver.
  - destruct ((sc =? StorageClass_Uniform) || (sc =? StorageClass_StorageBuffer)) eqn:Hsc;
      simpl; rewrite ?orb_false_r, ?orb_true_r, ?Hsc; unfold callees; simpl;
      repeat split; auto; try set_solver; try discriminate.
  - unfold callees; simpl. repeat split; auto; try set_solver; try discriminate.
  - unfold callees; simpl. repeat split; auto; try set_solver; try discriminate.
  - unfold callees; simpl. repeat split; auto; set_solver.
  - unfold callees; simpl. repeat split; auto; set_solver.
  - unfold callees; simpl. repeat split; auto; set_solver.
Qed.

Lemma callees_cons i b : callees (i :: b) = callees [i] ∪ callees b.
Proof.
  unfold callees. destruct i; simpl; set_solver.
Qed.

Lemma strip_body_spec b : ∀ st,
  let '(b', st') := strip_body b st in
  modified st' = modified st || existsb side_effect b ∧
  patchedFunctions st' = patchedFunctions st ∧
  functionPatchQueue st ⊆ functionPatchQueue st' ∧
  functionPatchQueue st' ⊆ functionPatchQueue st ∪ (callees b ∖ patchedFunctions st) ∧
  callees b' = callees b ∧
  (existsb side_effect b = false -> b' = b) ∧
  side_effects b' = 0%nat.
Proof.
  induction b as [|i b IH]; intros st.
  - simpl. rewrite orb_false_r. repeat split; auto; set_solver.
  - cbn [strip_body].
    pose proof (strip_instr_spec i st) as Hi.
    destruct (strip_instr i st) as [i' st1].
    destruct Hi as (Hm1 & Hp1 & Hq1 & Hq1' & Hc1 & Hsame1 & Hclean1).
    specialize (IH st1). destruct (strip_body b st1) as [b' st2].
    destruct IH as (Hm2 & Hp2 & Hq2 & Hq2' & Hc2 & Hsame2 & Hclean2).
    split; [|split; [|split; [|split; [|split; [|split]]]]].
    + rewrite Hm2, Hm1. simpl. rewrite orb_assoc. reflexivity.
    + congruence.
    + clear -Hq1 Hq2. set_solver.
    + rewrite (callees_cons i b). rewrite Hp1 in Hq2'. clear -Hq1' Hq2'. set_solver.
    + rewrite (callees_cons i' b'), (callees_cons i b), Hc1, Hc2. reflexivity.
    + simpl. intros Hnone. apply orb_false_iff in Hnone as [Hn1 Hn2].
      rewrite (Hsame1 Hn1), (Hsame2 Hn2). reflexivity.
    + unfold side_effects in *. rewrite filter_cons.
      rewrite decide_False by (rewrite Hclean1; discriminate). exact Hclean2.
Qed.

Lemma side_effects_exists b : existsb side_effect b = true -> (0 < side_effects b)%nat.
Proof.
  unfold side_effects. induction b as [|i b IH]; [discriminate|].
  simpl. rewrite filter_cons. destruct (side_effect i) eqn:Hi.
  - rewrite decide_True by reflexivity. simpl. lia.
  - rewrite decide_False by discriminate. simpl. exact IH.
Qed.

(** *** Writing a body back *)

Lemma set_body_same fs funcId b :
  GetID fs funcId = Some b -> set_body fs funcId b = fs.
Proof.
  induction fs as [|f fs IH]; [discriminate|].
  simpl. destruct (func_id f =? funcId) eqn:Hid.
  - intros [= <-]. apply Z.eqb_eq in Hid. destruct f. simpl in *. congruence.
  - intros Hget. rewrite (IH Hget). reflexivity.
Qed.

Lemma set_body_missing fs funcId b :
  GetID fs funcId = None -> set_body fs funcId b = fs.
Proof.
  induction fs as [|f fs IH]; [reflexivity|].
  simpl. destruct (func_id f =? funcId); [discriminate|].
  intros Hget. rewrite (IH Hget). reflexivity.
Qed.

Lemma set_body_side_effects fs funcId b b' :
  GetID fs funcId = Some b ->
  (module_side_effects (set_body fs funcId b') + side_effects b =
   module_side_effects fs + side_effects b')%nat.
Proof.
  induction fs as [|f fs IH]; [discriminate|].
  simpl. destruct (func_id f =? funcId) eqn:Hid.
  - intros [= <-]. simpl. lia.
  - intros Hget. specialize (IH Hget). simpl. lia.
Qed.

Lemma set_body_callees fs funcId b b' :
  GetID fs funcId = Some b -> callees b' = callees b ->
  map (fun f => callees (body f)) (set_body fs funcId b') =
  map (fun f => callees (body f)) fs.
Proof.
  induction fs as [|f fs IH]; [discriminate|].
  simpl. destruct (func_id f =? funcId) eqn:Hid.
  - intros [= <-] Hc. simpl. rewrite Hc. reflexivity.
  - intros Hget Hc. simpl. rewrite (IH Hget Hc). reflexivity.
Qed.

Lemma GetID_callees fs funcId b :
  GetID fs funcId = Some b -> callees b ⊆ ⋃ (map (fun f => callees (body f)) fs).
Proof.
  induction fs as [|f fs IH]; [discriminate|].
  simpl. destruct (func_id f =? funcId).
  - intros [= <-]. set_solver.
  - intros Hget. specialize (IH Hget). set_solver.
Qed.

(** *** The queue *)

Lemma queue_begin_spec q :
  match queue_begin q with
  | Some x => x ∈ q
  | None => q = ∅
  end.
Proof.
  unfold queue_begin. destruct (elements q) as [|x l] eqn:Hel.
  - apply elements_empty_inv in Hel. apply leibniz_equiv. exact Hel.
  - assert (Hin : foldr Z.min x l ∈ x :: l).
    { clear Hel. induction l as [|y l IH]; simpl; [apply list_elem_of_here|].
      destruct (Z.min_spec y (foldr Z.min x l)) as [[_ ->]|[_ ->]].
      - apply list_elem_of_further, list_elem_of_here.
      - apply elem_of_cons in IH as [->|IH]; [apply list_elem_of_here|].
        do 2 apply list_elem_of_further. exact IH. }
    rewrite <- Hel in Hin. apply elem_of_elements in Hin. exact Hin.
Qed.

(** *** The traversal *)

Lemma strip_turn fs0 entryId fs st funcId :
  loop_invariant fs0 entryId fs st ->
  funcId ∈ functionPatchQueue st ->
  let st1 := {| modified := modified st;
                functionPatchQueue := functionPatchQueue st ∖ {[funcId]};
                patchedFunctions := {[funcId]} ∪ patchedFunctions st |} in
  let '(b', st2) := strip_body (default [] (GetID fs funcId)) st1 in
  loop_invariant fs0 entryId (set_body fs funcId b') st2 ∧
  patchedFunctions st2 = {[funcId]} ∪ patchedFunctions st.
Proof.
  intros (Hq & Hp & Hdis & Hcal & Hsame & Hless & Hle) Hin st1.
  pose proof (strip_body_spec (default [] (GetID fs funcId)) st1) as Hbody.
  destruct (strip_body (default [] (GetID fs funcId)) st1) as [b' st2].
  destruct Hbody as (Hm & Hp2 & Hq2 & Hq2' & Hc & Hsameb & Hclean).
  subst st1. simpl in Hm, Hp2, Hq2, Hq2'.
  split; [|exact Hp2].
  assert (Hsub : callees (default [] (GetID fs funcId)) ⊆ call_universe fs0 entryId).
  { unfold call_universe. rewrite <- Hcal.
    destruct (GetID fs funcId) as [b|] eqn:Hget; simpl.
    - pose proof (GetID_callees fs funcId b Hget). set_solver.
    - unfold callees. simpl. set_solver. }
  unfold loop_invariant. rewrite Hp2.
  split; [set_solver|]. split; [set_solver|]. split; [set_solver|].
  destruct (GetID fs funcId) as [b|] eqn:Hget; simpl in *.
  - split; [rewrite (set_body_callees fs funcId b b' Hget Hc); exact Hcal|].
    pose proof (set_body_side_effects fs funcId b b' Hget) as Hcount.
    rewrite Hclean in Hcount.
    split; [|split].
    + intros Hmod. rewrite Hm in Hmod. apply orb_false_iff in Hmod as [Hmod Hnone].
      rewrite (Hsameb Hnone), (set_body_same fs funcId b Hget). auto.
    + intros Hmod. rewrite Hm in Hmod. apply orb_true_iff in Hmod as [Hmod|Hsome].
      * specialize (Hless Hmod). lia.
      * apply side_effects_exists in Hsome. lia.
    + lia.
  - rewrite (set_body_missing fs funcId b' Hget). split; [exact Hcal|].
    rewrite orb_false_r in Hm. rewrite Hm. auto.
Qed.

Lemma strip_loop_unfold fuel fs st :
  strip_loop (S fuel) fs st =
  match queue_begin (functionPatchQueue st) with
  | None => Some (fs, st)
  | Some funcId =>
    let st := {| modified := modified st;
                 functionPatchQueue := functionPatchQueue st ∖ {[funcId]};
                 patchedFunctions := {[funcId]} ∪ patchedFunctions st |} in
    let '(b', st) := strip_body (default [] (GetID fs funcId)) st in
    strip_loop fuel (set_body fs funcId b') st
  end.
Proof. reflexivity. Qed.

(** The loop ends within the fuel it is given, with the invariant. *)
Lemma strip_loop_spec fs0 entryId : ∀ fuel fs st,
  loop_invariant fs0 entryId fs st ->
  (size (call_universe fs0 entryId ∖ patchedFunctions st) ≤ fuel)%nat ->
  ∃ fs' st', strip_loop fuel fs st = Some (fs', st') ∧ loop_invariant fs0 entryId fs' st'.
Proof.
  induction fuel as [|fuel IH]; intros fs st Hinv Hfuel.
  - (* no fuel: the queue must be empty *)
    pose proof (queue_begin_spec (functionPatchQueue st)) as Hbegin.
    simpl. destruct (queue_begin (functionPatchQueue st)) as [funcId|].
    + exfalso. destruct Hinv as (Hq & _ & Hdis & _).
      assert (Hmem : funcId ∈ call_universe fs0 entryId ∖ patchedFunctions st) by set_solver.
      assert (Hempty : call_universe fs0 entryId ∖ patchedFunctions st = ∅).
      { apply leibniz_equiv, size_empty_inv. lia. }
      rewrite Hempty in Hmem. set_solver.
    + eauto.
  - rewrite strip_loop_unfold.
    pose proof (queue_begin_spec (functionPatchQueue st)) as Hbegin.
    destruct (queue_begin (functionPatchQueue st)) as [funcId|]; [|eauto].
    pose proof (strip_turn fs0 entryId fs st funcId Hinv Hbegin) as Hturn.
    cbv zeta in Hturn |- *.
    destruct (strip_body _ _) as [b' st2]. destruct Hturn as [Hinv2 Hp2].
    apply IH; [exact Hinv2|].
    destruct Hinv as (Hq & _ & Hdis & _).
    assert (Hlt : (size (call_universe fs0 entryId ∖ patchedFunctions st2) <
                   size (call_universe fs0 entryId ∖ patchedFunctions st))%nat).
    { apply subset_size. rewrite Hp2. set_solver. }
    lia.
Qed.

(** [StripShaderSideEffects] returns, and its flag is set exactly when the
    module it leaves is not the module it was given. *)
Lemma StripShaderSideEffects_spec editor entryId :
  ∃ flag stripped,
    StripShaderSideEffects editor entryId = Some (flag, stripped) ∧
    (flag = true ↔ stripped ≠ editor).
Proof.
  unfold StripShaderSideEffects.
  destruct (strip_loop_spec (functions editor) entryId
              (size (call_universe (functions editor) entryId)) (functions editor)
              {| modified := false; functionPatchQueue := {[entryId]}; patchedFunctions := ∅ |})
    as (fs' & st' & Hloop & Hinv).
  - unfold loop_invariant, call_universe. simpl.
    split; [set_solver|]. split; [set_solver|]. split; [set_solver|].
    split; [reflexivity|]. split; [reflexivity|]. split; [discriminate|lia].
  - simpl. apply subseteq_size. set_solver.
  - rewrite Hloop. eexists _, _. split; [reflexivity|].
    destruct Hinv as (_ & _ & _ & _ & Hsame & Hless & _).
    destruct (modified st') eqn:Hmod.
    + split; [|reflexivity]. intros _ Heq. specialize (Hless eq_refl).
      assert (Hfs : fs' = functions editor) by (rewrite <- Heq; reflexivity).
      rewrite Hfs in Hless. lia.
    + split; [discriminate|]. intros Hne. exfalso. apply Hne.
      rewrite (Hsame eq_refl). destruct editor. reflexivity.
Qed.

(** *** The cache *)

Lemma fresh_handle (handles : list Z) :
  let handle := 1 + foldr Z.max 0 handles in
  handle ≠ VK_NULL_HANDLE ∧ handle ∉ handles.
Proof.
  assert (Hmax : 0 <= foldr Z.max 0 handles ∧ Forall (fun h => h <= foldr Z.max 0 handles) handles).
  { induction handles as [|h handles [IH0 IH]]; simpl; [split; [lia|constructor]|].
    split; [lia|]. constructor; [lia|].
    eapply Forall_impl; [exact IH|]. simpl. intros; lia. }
  destruct Hmax as [H0 Hall]. simpl. split.
  - unfold VK_NULL_HANDLE. lia.
  - intros Hin. rewrite Forall_forall in Hall. specialize (Hall _ Hin). lia.
Qed.

(** C5: on a pair that is not cached yet, and with a device that can
    create modules, [GetShaderWithoutSideEffects] returns a module built by
    this call exactly when stripping removed an instruction, and the null
    handle otherwise; asked again for the same pair it returns the same handle
    and leaves the cache, the device and the count of stripping runs as they
    are. *)
Theorem shader_without_side_effects_cached st shaderId entryPoint :
  m_ShaderReplacements st !! (shaderId, entryPoint) = None ->
  device_ok (m_pDriver st) = true ->
  ∃ handle st',
    GetShaderWithoutSideEffects st shaderId entryPoint = Some (handle, st') ∧
    (handle ≠ VK_NULL_HANDLE ↔
     instructions_removed (GetShaderInfo (m_pDriver st) shaderId) entryPoint) ∧
    (handle ≠ VK_NULL_HANDLE ->
     (handle ∉ created (m_pDriver st)) ∧
     created (m_pDriver st') = created (m_pDriver st) ++ [handle]) ∧
    (handle = VK_NULL_HANDLE -> created (m_pDriver st') = created (m_pDriver st)) ∧
    GetShaderWithoutSideEffects st' shaderId entryPoint = Some (handle, st').
Proof.
  intros Hmiss Hok.
  unfold GetShaderWithoutSideEffects at 1. rewrite Hmiss.
  unfold CreateShaderReplacement, instructions_removed.
  set (editor := GetShaderInfo (m_pDriver st) shaderId).
  destruct (find_entry (entries editor) entryPoint) as [entry|] eqn:Hentry.
  - destruct (StripShaderSideEffects_spec editor (id entry))
      as (flag & stripped & Hstrip & Hflag).
    rewrite Hstrip. destruct flag.
    + unfold vkCreateShaderModule. rewrite Hok.
      destruct (fresh_handle (created (m_pDriver st))) as [Hnz Hfresh].
      eexists _, _. split; [reflexivity|]. simpl.
      split; [|split; [|split]].
      * split; [intros _|intros _; exact Hnz].
        exists entry, true, stripped. split; [reflexivity|]. split; [exact Hstrip|].
        apply Hflag. reflexivity.
      * intros _. split; [exact Hfresh|reflexivity].
      * intros Hz. contradiction.
      * unfold GetShaderWithoutSideEffects. simpl. rewrite lookup_insert_eq. reflexivity.
    + eexists _, _. split; [reflexivity|]. simpl.
      split; [|split; [|split]].
      * split; [intros Hne; contradiction|].
        intros (entry' & flag' & stripped' & He & Hs & Hne).
        injection He as <-. rewrite Hstrip in Hs. injection Hs as <- <-.
        apply Hflag in Hne. discriminate.
      * intros Hne. contradiction.
      * reflexivity.
      * unfold GetShaderWithoutSideEffects. simpl. rewrite lookup_insert_eq. reflexivity.
  - eexists _, _. split; [reflexivity|]. simpl.
    split; [|split; [|split]].
    + split; [intros Hne; contradiction|].
      intros (entry' & _ & _ & He & _). discriminate.
    + intros Hne. contradiction.
    + reflexivity.
    + unfold GetShaderWithoutSideEffects. simpl. rewrite lookup_insert_eq. reflexivity.
Qed.

End ShaderCacheProofs.

(** ** Narrowing a scissor to the pixel *)

Lemma i32_small (z : Z) : 0 <= z < 2 ^ 31 -> i32 z = z.
Proof.
  intros Hz. unfold i32. rewrite Z.mod_small by lia.
  destruct (z <? 2 ^ 31) eqn:Hlt; [reflexivity|]. apply Z.ltb_ge in Hlt. lia.
Qed.

(** *** Binary32 numbers and their exact values *)

Lemma digits2_pos_bounds (p : positive) :
  2 ^ (Z.pos (digits2_pos p) - 1) <= Z.pos p < 2 ^ Z.pos (digits2_pos p).
Proof.
  induction p as [p IH|p IH|]; cbn [digits2_pos].
  - rewrite Pos2Z.inj_succ.
    replace (Z.succ (Z.pos (digits2_pos p)) - 1) with (Z.succ (Z.pos (digits2_pos p) - 1)) by lia.
    rewrite !Z.pow_succ_r by lia. lia.
  - rewrite Pos2Z.inj_succ.
    replace (Z.succ (Z.pos (digits2_pos p)) - 1) with (Z.succ (Z.pos (digits2_pos p) - 1)) by lia.
    rewrite !Z.pow_succ_r by lia. lia.
  - simpl. lia.
Qed.

Lemma iter_xO_digits (p n : positive) :
  digits2_pos (Pos.iter xO p n) = (digits2_pos p + n)%positive.
Proof.
  induction n as [|n IH] using Pos.peano_ind.
  - simpl. lia.
  - rewrite Pos.iter_succ. cbn [digits2_pos]. rewrite IH. lia.
Qed.

Lemma iter_xO_value (p n : positive) :
  Z.pos (Pos.iter xO p n) = Z.pos p * 2 ^ Z.pos n.
Proof.
  induction n as [|n IH] using Pos.peano_ind.
  - simpl. lia.
  - rewrite Pos.iter_succ, Pos2Z.inj_xO, IH, Pos2Z.inj_succ, Z.pow_succ_r by lia. lia.
Qed.

(** The exponent and the width of the mantissa of a finite binary32 number. *)
Lemma canonical_binary32 s m e :
  binary32 (S754_finite s m e) = true ->
  -149 <= e ∧ Z.pos (digits2_pos m) <= 24 ∧ (-149 < e -> Z.pos (digits2_pos m) = 24).
Proof.
  unfold binary32, valid_binary, bounded, canonical_mantissa, fexp, emin,
    VulkanPixelHistoryCallback.prec, VulkanPixelHistoryCallback.emax.
  intros H. apply andb_true_iff in H as [H _]. apply Z.eqb_eq in H. lia.
Qed.

Lemma units_positive m e : 0 <= e + 149 -> 0 < Z.pos m * 2 ^ (e + 149).
Proof. intros He. pose proof (Z.pow_pos_nonneg 2 (e + 149)). lia. Qed.

(** A positive number with the smaller exponent is the smaller number. *)
Lemma units_exponent m1 e1 m2 e2 :
  binary32 (S754_finite false m1 e1) = true ->
  binary32 (S754_finite false m2 e2) = true ->
  e1 < e2 ->
  Z.pos m1 * 2 ^ (e1 + 149) < Z.pos m2 * 2 ^ (e2 + 149).
Proof.
  intros H1 H2 Hlt.
  apply canonical_binary32 in H1 as (He1 & Hd1 & _).
  apply canonical_binary32 in H2 as (He2 & _ & Hd2).
  specialize (Hd2 ltac:(lia)).
  pose proof (digits2_pos_bounds m1) as [_ Hm1].
  pose proof (digits2_pos_bounds m2) as [Hm2 _].
  rewrite Hd2 in Hm2.
  assert (Hm1' : Z.pos m1 < 2 ^ 24).
  { eapply Z.lt_le_trans; [exact Hm1|]. apply Z.pow_le_mono_r; lia. }
  replace (e2 + 149) with ((e1 + 149) + (e2 - e1)) by lia.
  rewrite (Z.pow_add_r 2 (e1 + 149) (e2 - e1)) by lia.
  assert (HA : 0 < 2 ^ (e1 + 149)) by (apply Z.pow_pos_nonneg; lia).
  assert (HB : 2 ^ 1 <= 2 ^ (e2 - e1)) by (apply Z.pow_le_mono_r; lia).
  change (2 ^ (24 - 1)) with 8388608 in Hm2. change (2 ^ 24) with 16777216 in Hm1'.
  change (2 ^ 1) with 2 in HB.
  generalize dependent (2 ^ (e1 + 149)). generalize dependent (2 ^ (e2 - e1)).
  intros B HB A HA.
  assert (Z.pos m1 * A < 16777216 * A) by (apply Z.mul_lt_mono_pos_r; lia).
  assert (0 <= A * B) by nia.
  assert (8388608 * (A * B) <= Z.pos m2 * (A * B)) by (apply Z.mul_le_mono_nonneg_r; lia).
  assert (16777216 * A <= 8388608 * (A * B)) by nia.
  lia.
Qed.

Lemma compare_scaled (a b k : Z) : 0 < k -> (a * k ?= b * k) = (a ?= b).
Proof.
  intros Hk. destruct (Z.compare_spec a b) as [->|Hlt|Hgt].
  - apply Z.compare_refl.
  - apply Z.compare_lt_iff. nia.
  - apply Z.compare_gt_iff. nia.
Qed.

(** The comparison of two finite binary32 numbers is the comparison of
    their exact values. *)
Lemma SFcompare_units a b :
  binary32 a = true -> binary32 b = true ->
  SFcompare a b = Some (units a ?= units b).
Proof.
  intros Ha Hb.
  destruct a as [sa|sa| |sa ma ea]; try discriminate;
    destruct b as [sb|sb| |sb mb eb]; try discriminate.
  - reflexivity.
  - apply canonical_binary32 in Hb as (He & _).
    pose proof (units_positive mb eb ltac:(lia)).
    cbn [SFcompare units]. f_equal. symmetry.
    destruct sb; [apply Z.compare_gt_iff|apply Z.compare_lt_iff]; lia.
  - apply canonical_binary32 in Ha as (He & _).
    pose proof (units_positive ma ea ltac:(lia)).
    cbn [SFcompare units]. f_equal. symmetry.
    destruct sa; [apply Z.compare_lt_iff|apply Z.compare_gt_iff]; lia.
  - pose proof (canonical_binary32 _ _ _ Ha) as (Hea & _).
    pose proof (canonical_binary32 _ _ _ Hb) as (Heb & _).
    pose proof (units_positive ma ea ltac:(lia)) as Hpa.
    pose proof (units_positive mb eb ltac:(lia)) as Hpb.
    assert (Ha' : binary32 (S754_finite false ma ea) = true) by exact Ha.
    assert (Hb' : binary32 (S754_finite false mb eb) = true) by exact Hb.
    cbn [SFcompare units]. f_equal. symmetry.
    change (Pos.compare_cont Eq ma mb) with (ma ?= mb)%positive.
    destruct sa, sb.
    + destruct (ea ?= eb) eqn:Hc.
      * apply Z.compare_eq in Hc. subst eb.
        replace (-1 * Z.pos ma * 2 ^ (ea + 149)) with (- Z.pos ma * 2 ^ (ea + 149)) by lia.
        replace (-1 * Z.pos mb * 2 ^ (ea + 149)) with (- Z.pos mb * 2 ^ (ea + 149)) by lia.
        rewrite compare_scaled by (apply Z.pow_pos_nonneg; lia).
        rewrite Z.compare_opp, <- Pos2Z.inj_compare. apply Pos.compare_antisym.
      * apply Z.compare_lt_iff in Hc. apply Z.compare_gt_iff.
        pose proof (units_exponent _ _ _ _ Ha' Hb' Hc). lia.
      * apply Z.compare_gt_iff in Hc. apply Z.compare_lt_iff.
        pose proof (units_exponent _ _ _ _ Hb' Ha' Hc). lia.
    + apply Z.compare_lt_iff. lia.
    + apply Z.compare_gt_iff. lia.
    + destruct (ea ?= eb) eqn:Hc.
      * apply Z.compare_eq in Hc. subst eb.
        replace (1 * Z.pos ma * 2 ^ (ea + 149)) with (Z.pos ma * 2 ^ (ea + 149)) by lia.
        replace (1 * Z.pos mb * 2 ^ (ea + 149)) with (Z.pos mb * 2 ^ (ea + 149)) by lia.
        rewrite compare_scaled by (apply Z.pow_pos_nonneg; lia).
        symmetry. apply Pos2Z.inj_compare.
      * apply Z.compare_lt_iff in Hc. apply Z.compare_lt_iff.
        pose proof (units_exponent _ _ _ _ Ha' Hb' Hc). lia.
      * apply Z.compare_gt_iff in Hc. apply Z.compare_gt_iff.
        pose proof (units_exponent _ _ _ _ Hb' Ha' Hc). lia.
Qed.

Lemma flt_units a b :
  binary32 a = true -> binary32 b = true ->
  VulkanPixelHistoryCallback.flt a b = (units a <? units b).
Proof.
  intros Ha Hb. unfold VulkanPixelHistoryCallback.flt, SFltb.
  rewrite (SFcompare_units a b Ha Hb). unfold Z.ltb.
  destruct (units a ?= units b); reflexivity.
Qed.

Lemma fge_units a b :
  binary32 a = true -> binary32 b = true ->
  VulkanPixelHistoryCallback.fge a b = (units b <=? units a).
Proof.
  intros Ha Hb. unfold VulkanPixelHistoryCallback.fge, SFleb.
  rewrite (SFcompare_units b a Hb Ha). unfold Z.leb.
  destruct (units b ?= units a); reflexivity.
Qed.

(** A pixel coordinate below [2 ^ 24] is converted to float without
    rounding. *)
Lemma of_uint32_exact (x : Z) :
  0 <= x < 2 ^ 24 ->
  binary32 (VulkanPixelHistoryCallback.of_uint32 x) = true ∧
  units (VulkanPixelHistoryCallback.of_uint32 x) = pixel_units x.
Proof.
  intros Hx. unfold VulkanPixelHistoryCallback.of_uint32.
  rewrite (u32_id x) by lia.
  destruct x as [|p|p]; [split; reflexivity| |lia].
  pose proof (digits2_pos_bounds p) as [Hlow _].
  assert (Hd : Z.pos (digits2_pos p) <= 24).
  { destruct (Z.le_gt_cases (Z.pos (digits2_pos p)) 24) as [|Hgt]; [assumption|].
    assert (2 ^ 24 <= 2 ^ (Z.pos (digits2_pos p) - 1)) by (apply Z.pow_le_mono_r; lia).
    lia. }
  unfold binary_normalize, binary_round, shl_align, fexp, emin,
    VulkanPixelHistoryCallback.prec, VulkanPixelHistoryCallback.emax.
  replace (Z.max (Z.pos (digits2_pos p) + 0 - 24) (3 - 128 - 24))
    with (Z.pos (digits2_pos p) - 24) by lia.
  assert (Haux : ∀ m e, Z.pos (digits2_pos m) = 24 -> -23 <= e <= 0 ->
            binary_round_aux 24 128 false (Z.pos m) e loc_Exact = S754_finite false m e).
  { intros m e Hm He.
    unfold binary_round_aux, shr_fexp, fexp, emin. cbn [Zdigits2 shr_record_of_loc].
    rewrite Hm. replace (Z.max (24 + e - 24) (3 - 128 - 24) - e) with 0 by lia.
    cbn [shr shr_m loc_of_shr_record round_nearest_even Zdigits2 shr_record_of_loc].
    rewrite Hm. replace (Z.max (24 + e - 24) (3 - 128 - 24) - e) with 0 by lia.
    cbn [shr shr_m]. destruct (e <=? 128 - 24) eqn:Hle; [reflexivity|].
    apply Z.leb_gt in Hle. lia. }
  destruct (Z.pos (digits2_pos p) - 24 - 0) as [|d|d] eqn:Hshift; [|lia|].
  - rewrite Haux by lia. split.
    + unfold binary32, valid_binary, bounded, canonical_mantissa, fexp, emin,
        VulkanPixelHistoryCallback.prec, VulkanPixelHistoryCallback.emax.
      replace (Z.pos (digits2_pos p)) with 24 by lia. reflexivity.
    + unfold units, pixel_units. lia.
  - assert (Hdd : Z.pos (digits2_pos (Pos.iter xO p d)) = 24).
    { rewrite iter_xO_digits. lia. }
    rewrite Haux by lia. split.
    + unfold binary32, valid_binary, bounded, canonical_mantissa, fexp, emin,
        VulkanPixelHistoryCallback.prec, VulkanPixelHistoryCallback.emax.
      rewrite Hdd. apply andb_true_iff. split; [apply Z.eqb_eq|apply Z.leb_le]; lia.
    + unfold units, pixel_units. rewrite iter_xO_value.
      assert (Hpow : 2 ^ 149 = 2 ^ Z.pos d * 2 ^ (Z.pos (digits2_pos p) - 24 + 149)).
      { rewrite <- Z.pow_add_r by lia. f_equal. lia. }
      rewrite Hpow. ring.
Qed.

(** C6, as the code has it: the test is made in binary32.  For a pixel
    whose coordinates are below [2 ^ 24] and a viewport of finite numbers
    whose far edges are computed without rounding, [ScissorToPixel] gives
    the empty scissor exactly when the pixel is outside the viewport's
    rectangle (the Y range of a negative height being [y + height .. y]),
    and otherwise the 1x1 scissor at the pixel. *)
Theorem ScissorToPixel_narrows info view scissor :
  0 <= cb_x info < 2 ^ 24 -> 0 <= cb_y info < 2 ^ 24 ->
  exact_viewport view ->
  (VulkanPixelHistoryCallback.ScissorToPixel info view scissor =
     VulkanPixelHistoryCallback.empty_scissor ↔
   pixel_outside_viewport (cb_x info) (cb_y info) view) ∧
  (¬ pixel_outside_viewport (cb_x info) (cb_y info) view ->
   VulkanPixelHistoryCallback.ScissorToPixel info view scissor =
     {| offset := {| off_x := cb_x info; off_y := cb_y info |};
        extent := {| ext_width := 1; ext_height := 1 |} |}).
Proof.
  intros Hx Hy (Hvx & Hvy & Hvw & Hvh & [Hsx Hex] & [Hsy Hey]).
  destruct (of_uint32_exact _ Hx) as [Hfx Hux].
  destruct (of_uint32_exact _ Hy) as [Hfy Huy].
  unfold VulkanPixelHistoryCallback.ScissorToPixel, pixel_outside_viewport.
  rewrite (i32_small (cb_x info)), (i32_small (cb_y info)) by lia.
  rewrite (flt_units (VulkanPixelHistoryCallback.vp_height view)
             VulkanPixelHistoryCallback.fzero Hvh eq_refl).
  change (units VulkanPixelHistoryCallback.fzero) with 0.
  destruct (units (VulkanPixelHistoryCallback.vp_height view) <? 0) eqn:Hneg;
    rewrite !flt_units, !fge_units by assumption;
    rewrite ?Hex, ?Hey, Hux, Huy;
    repeat match goal with
           | |- context [?a <? ?b] => destruct (Z.ltb_spec a b)
           | |- context [?a <=? ?b] => destruct (Z.leb_spec a b)
           end;
    cbn [orb]; (split; [split|]); intros; try reflexivity; try discriminate;
    try lia; try (exfalso; intuition lia).
Qed.

(** ** The draws of a pass *)

Lemma hits_snoc drawEvents frame d :
  hits drawEvents (frame ++ [d]) =
  hits drawEvents frame ++ (if decide (draw_eid d ∈ drawEvents) then [d] else []).
Proof.
  unfold hits. rewrite filter_app, filter_cons, filter_nil. reflexivity.
Qed.

Lemma hits_elem drawEvents frame d :
  d ∈ hits drawEvents frame ↔ draw_eid d ∈ drawEvents ∧ d ∈ frame.
Proof. unfold hits. rewrite list_elem_of_filter. tauto. Qed.

Lemma filter_all {A} (P : A -> Prop) `{∀ x, Decision (P x)} (l : list A) :
  Forall P l -> filter P l = l.
Proof.
  induction 1 as [|x l Hx _ IH]; [reflexivity|].
  rewrite filter_cons, decide_True by exact Hx. rewrite IH. reflexivity.
Qed.

(** ** The occlusion pass *)

Lemma occlusion_queries_events events frame :
  map fst (occlusion_queries events frame) = map draw_eid (hits events frame).
Proof.
  unfold occlusion_queries. change (map ?f ?l) with (fmap (M := list) f l).
  rewrite fmap_imap. simpl.
  induction (hits events frame) as [|d l IH] using rev_ind; [reflexivity|].
  rewrite imap_app, fmap_app, IH. reflexivity.
Qed.

Lemma occlusion_replay_snoc frame d st :
  VulkanOcclusionCallback.replay (frame ++ [d]) st =
  VulkanOcclusionCallback.PreDraw (draw_eid d) (VulkanOcclusionCallback.replay frame st).
Proof. unfold VulkanOcclusionCallback.replay. rewrite fold_left_app. reflexivity. Qed.

(** What the replay of a frame leaves in the callback. *)
Lemma occlusion_replay_spec frame allEvents :
  NoDup (map draw_eid frame) ->
  Z.of_nat (length allEvents) < 2 ^ 32 ->
  let events := map EventUsage.eventId allEvents in
  let st := VulkanOcclusionCallback.replay frame (VulkanOcclusionCallback.create allEvents) in
  VulkanOcclusionCallback.m_Events st = events ∧
  VulkanOcclusionCallback.cmd st = occlusion_queries events frame ∧
  VulkanOcclusionCallback.m_OcclusionQueries st = list_to_map (occlusion_queries events frame) ∧
  size (VulkanOcclusionCallback.m_OcclusionQueries st) = length (hits events frame) ∧
  VulkanOcclusionCallback.m_OcclusionResults st = [].
Proof.
  intros Hnd Hfit events.
  induction frame as [|d frame IH] using rev_ind.
  - simpl. rewrite map_size_empty. auto.
  - rewrite map_app in Hnd. apply NoDup_app in Hnd as (Hnd & Hfresh & _).
    specialize (IH Hnd). cbv zeta in IH. destruct IH as (Hev & Hcmd & Hq & Hsize & Hres).
    cbv zeta. rewrite occlusion_replay_snoc.
    set (st := VulkanOcclusionCallback.replay frame (VulkanOcclusionCallback.create allEvents)) in *.
    unfold VulkanOcclusionCallback.PreDraw, contains. rewrite Hev.
    unfold occlusion_queries. rewrite hits_snoc.
    destruct (decide (draw_eid d ∈ events)) as [Hin|Hout].
    + rewrite bool_decide_eq_true_2 by exact Hin. simpl negb. cbv iota.
      assert (Hnone : VulkanOcclusionCallback.m_OcclusionQueries st !! draw_eid d = None).
      { rewrite Hq. apply not_elem_of_list_to_map_1.
        change (fmap fst ?l) with (map fst l). rewrite occlusion_queries_events.
        intros Hd. apply list_elem_of_fmap in Hd as (d' & Heq & Hd').
        apply hits_elem in Hd' as [_ Hd'].
        apply (Hfresh (draw_eid d)); [rewrite Heq; apply list_elem_of_fmap; eauto|].
        simpl. apply list_elem_of_here. }
      assert (Hidx : u32 (Z.of_nat (size (VulkanOcclusionCallback.m_OcclusionQueries st))) =
                     Z.of_nat (length (hits events frame))).
      { rewrite Hsize. apply u32_id.
        pose proof (hits_length events frame Hnd) as Hle.
        unfold events in Hle at 2. rewrite length_map in Hle. lia. }
      unfold VulkanOcclusionCallback.ReplayDrawWithQuery. rewrite Hnone, Hidx. simpl.
      rewrite imap_app. simpl. rewrite Nat.add_0_r.
      split; [exact Hev|]. split; [rewrite Hcmd; reflexivity|]. split; [|split].
      * rewrite list_to_map_snoc.
        -- rewrite Hq. reflexivity.
        -- change (fmap fst ?l) with (map fst l).
           pose proof (occlusion_queries_events events frame) as Hfst.
           unfold occlusion_queries in Hfst. rewrite Hfst.
           intros Hd. apply list_elem_of_fmap in Hd as (d' & Heq & Hd').
           apply hits_elem in Hd' as [_ Hd'].
           apply (Hfresh (draw_eid d)); [rewrite Heq; apply list_elem_of_fmap; eauto|].
           simpl. apply list_elem_of_here.
      * rewrite map_size_insert_None by exact Hnone. rewrite Hsize, length_app. simpl. lia.
      * exact Hres.
    + rewrite bool_decide_eq_false_2 by exact Hout. simpl negb. cbv iota.
      rewrite app_nil_r. auto.
Qed.

Lemma occlusion_queries_index events frame eid idx :
  (eid, idx) ∈ occlusion_queries events frame ->
  0 <= idx < Z.of_nat (length (hits events frame)).
Proof.
  unfold occlusion_queries. intros Hin.
  apply elem_of_lookup_imap_1 in Hin as (i & d & Heq & Hd).
  injection Heq as -> ->. apply lookup_lt_Some in Hd. lia.
Qed.

Lemma occlusion_queries_indices events frame :
  map snd (occlusion_queries events frame) =
  map Z.of_nat (seq 0%nat (length (hits events frame))).
Proof.
  unfold occlusion_queries.
  change (map snd ?l) with (fmap (M := list) snd l).
  change (map Z.of_nat ?l) with (fmap (M := list) Z.of_nat l).
  rewrite fmap_imap. simpl.
  induction (hits events frame) as [|d l IH] using rev_ind; [reflexivity|].
  rewrite imap_app, IH, length_app, seq_app, fmap_app. simpl.
  rewrite Nat.add_0_r. reflexivity.
Qed.

Lemma occlusion_queries_NoDup events frame :
  NoDup (map draw_eid frame) -> NoDup (map fst (occlusion_queries events frame)).
Proof.
  intros Hnd. rewrite occlusion_queries_events. unfold hits.
  induction frame as [|d frame IH]; [constructor|].
  simpl in Hnd. apply NoDup_cons in Hnd as [Hd Hnd].
  rewrite filter_cons. destruct (decide (draw_eid d ∈ events)); [|auto].
  simpl. apply NoDup_cons. split; [|auto].
  intros Hin. apply Hd. apply list_elem_of_fmap in Hin as (d' & -> & Hd').
  apply list_elem_of_filter in Hd' as [_ Hd']. apply list_elem_of_fmap. eauto.
Qed.

(** The occlusion pass begins one query per listed draw of the frame,
    numbered 0, 1, 2, ... in frame order, each index once and each below the
    size of the pool, the number of events. *)
Theorem occlusion_queries_fit_pool frame allEvents :
  NoDup (map draw_eid frame) ->
  Z.of_nat (length allEvents) < 2 ^ 32 ->
  let st := VulkanOcclusionCallback.replay frame (VulkanOcclusionCallback.create allEvents) in
  VulkanOcclusionCallback.cmd st =
    occlusion_queries (map EventUsage.eventId allEvents) frame ∧
  Forall (fun q => q.1 ∈ map EventUsage.eventId allEvents ∧
                   0 <= q.2 < u32 (Z.of_nat (length allEvents)))
         (VulkanOcclusionCallback.cmd st) ∧
  NoDup (map snd (VulkanOcclusionCallback.cmd st)).
Proof.
  intros Hnd Hfit st.
  destruct (occlusion_replay_spec frame allEvents Hnd Hfit) as (_ & Hcmd & _).
  fold st in Hcmd. rewrite Hcmd. split; [reflexivity|]. split.
  - apply Forall_forall. intros [eid idx] Hin. simpl.
    pose proof (occlusion_queries_index _ _ _ _ Hin) as Hidx.
    pose proof (hits_length (map EventUsage.eventId allEvents) frame Hnd) as Hle.
    rewrite length_map in Hle. rewrite u32_id by lia. split; [|lia].
    assert (Hfst : eid ∈ map fst (occlusion_queries (map EventUsage.eventId allEvents) frame)).
    { apply list_elem_of_fmap. exists (eid, idx). auto. }
    rewrite occlusion_queries_events in Hfst.
    apply list_elem_of_fmap in Hfst as (d & -> & Hd). apply hits_elem in Hd as [Hd _]. exact Hd.
  - rewrite occlusion_queries_indices. apply NoDup_fmap; [intros a b; lia|apply NoDup_seq].
Qed.

Lemma read_at_fetched (u : Undefined) (gpu : Z -> Z) (n : nat) (idx : Z) :
  0 <= idx < Z.of_nat n ->
  read_at u (map (fun i => gpu (Z.of_nat i)) (seq 0%nat n)) idx = gpu idx.
Proof.
  intros Hidx. unfold read_at.
  destruct (idx <? 0) eqn:Hneg; [apply Z.ltb_lt in Hneg; lia|].
  change (map ?f ?l) with (fmap (M := list) f l).
  rewrite list_lookup_fmap, lookup_seq_lt by lia. simpl. f_equal. lia.
Qed.

(** After the pass, [GetOcclusionResult] gives for an event with a query
    the result the device stored for that query, and 0 for an event without
    one: an event that is not listed or that the frame does not draw. *)
Theorem occlusion_result_is_own_query frame gpu allEvents u :
  NoDup (map draw_eid frame) ->
  Z.of_nat (length allEvents) < 2 ^ 32 ->
  let st := VulkanOcclusionCallback.run frame gpu allEvents in
  (∀ eid idx, (eid, idx) ∈ VulkanOcclusionCallback.cmd st ->
     VulkanOcclusionCallback.GetOcclusionResult u st eid = gpu idx) ∧
  (∀ eid, eid ∈ map fst (VulkanOcclusionCallback.cmd st) ↔
          eid ∈ map EventUsage.eventId allEvents ∧ eid ∈ map draw_eid frame) ∧
  (∀ eid, eid ∉ map fst (VulkanOcclusionCallback.cmd st) ->
     VulkanOcclusionCallback.GetOcclusionResult u st eid = 0).
Proof.
  intros Hnd Hfit st.
  destruct (occlusion_replay_spec frame allEvents Hnd Hfit) as (_ & Hcmd & Hq & Hsize & Hres).
  set (events := map EventUsage.eventId allEvents) in *.
  set (st0 := VulkanOcclusionCallback.replay frame (VulkanOcclusionCallback.create allEvents)) in *.
  assert (Hst : VulkanOcclusionCallback.cmd st = occlusion_queries events frame ∧
                VulkanOcclusionCallback.m_OcclusionQueries st =
                  list_to_map (occlusion_queries events frame) ∧
                ((length (hits events frame) = 0)%nat ∨
                 VulkanOcclusionCallback.m_OcclusionResults st =
                   map (fun i => gpu (Z.of_nat i)) (seq 0%nat (length (hits events frame))))).
  { subst st. unfold VulkanOcclusionCallback.run. fold st0.
    unfold VulkanOcclusionCallback.FetchOcclusionResults. rewrite Hsize.
    destruct (length (hits events frame) =? 0)%nat eqn:Hz.
    - apply Nat.eqb_eq in Hz. auto.
    - simpl. auto. }
  destruct Hst as (Hcmd' & Hq' & Hres'). rewrite Hcmd'. split; [|split].
  - intros eid idx Hin.
    pose proof (occlusion_queries_index _ _ _ _ Hin) as Hidx.
    unfold VulkanOcclusionCallback.GetOcclusionResult. rewrite Hq'.
    rewrite (elem_of_list_to_map_1 _ eid idx);
      [|apply occlusion_queries_NoDup; exact Hnd|exact Hin].
    destruct Hres' as [Hz|Hres']; [lia|]. rewrite Hres'. apply read_at_fetched. exact Hidx.
  - intros eid. rewrite occlusion_queries_events. split.
    + intros Hin. apply list_elem_of_fmap in Hin as (d & -> & Hd).
      apply hits_elem in Hd as [Hd1 Hd2]. split; [exact Hd1|]. apply list_elem_of_fmap. eauto.
    + intros [Hin1 Hin2]. apply list_elem_of_fmap in Hin2 as (d & -> & Hd).
      apply list_elem_of_fmap. exists d. split; [reflexivity|]. apply hits_elem. auto.
  - intros eid Hout. unfold VulkanOcclusionCallback.GetOcclusionResult. rewrite Hq'.
    rewrite (not_elem_of_list_to_map_1 _ eid); [reflexivity|]. exact Hout.
Qed.

(** ** The queries of the test-failure pass *)

Lemma tests_issued_NoDup eventFlags : NoDup (tests_issued eventFlags).
Proof.
  apply (sublist_NoDup _ redraw_order); [|apply tests_issued_order].
  apply (bool_decide_unpack (NoDup redraw_order)). vm_compute. exact I.
Qed.

Lemma queries_recorded_create events : queries_recorded (TestsFailedCallback.create events).
Proof.
  unfold queries_recorded. simpl. rewrite map_size_empty.
  split; [constructor|]. auto.
Qed.

(** One redraw with a fresh key keeps the bookkeeping. *)
Lemma queries_recorded_ReplayDraw pipeFlags eid test st :
  queries_recorded st ->
  (eid, test) ∉ map redraw_key (TestsFailedCallback.cmd st) ->
  Z.of_nat (length (TestsFailedCallback.cmd st)) < 2 ^ 32 ->
  queries_recorded (TestsFailedCallback.ReplayDraw pipeFlags eid test st).
Proof.
  intros (Hnd & Hidx & Hq & Hsize) Hfresh Hfit.
  assert (Hnone : TestsFailedCallback.m_OcclusionQueries st !! (eid, test) = None).
  { rewrite Hq. apply not_elem_of_list_to_map_1.
    change (fmap fst ?l) with (map fst l). rewrite map_map. exact Hfresh. }
  unfold queries_recorded, TestsFailedCallback.ReplayDraw. rewrite Hnone. simpl.
  rewrite Hsize, u32_id by lia. rewrite !map_app, length_app. simpl.
  split; [|split; [|split]].
  - apply NoDup_app. split; [exact Hnd|]. split; [|apply NoDup_singleton].
    intros k Hk Hk'. apply list_elem_of_singleton in Hk'. subst k. contradiction.
  - rewrite Hidx, Nat.add_1_r, seq_S, map_app. reflexivity.
  - change (map ?f ?l ++ [?x]) with (fmap (M := list) f l ++ [x]).
    rewrite list_to_map_snoc.
    + rewrite Hq. reflexivity.
    + change (fmap fst (fmap ?f ?l)) with (map fst (map f l)). rewrite map_map. exact Hfresh.
  - rewrite map_size_insert_None by exact Hnone. lia.
Qed.

(** A run of redraws for an event that has none yet keeps the bookkeeping. *)
Lemma issued_queries eid st st' ts :
  issued eid st st' ts ->
  NoDup ts ->
  eid ∉ map TestsFailedCallback.rd_event (TestsFailedCallback.cmd st) ->
  Z.of_nat (length (TestsFailedCallback.cmd st) + length ts) < 2 ^ 32 ->
  queries_recorded st -> queries_recorded st'.
Proof.
  induction 1 as [|st' ts pipeFlags test Hrun IH]; intros Hnd Hfresh Hfit Hrec; [exact Hrec|].
  apply NoDup_app in Hnd as (Hnd & Hdis & _).
  rewrite length_app in Hfit. simpl in Hfit.
  destruct (issued_spec _ _ _ _ Hrun) as (new & Hcmd & Htests & Hall & _).
  assert (Hlen : length new = length ts) by (rewrite <- Htests, length_map; reflexivity).
  apply queries_recorded_ReplayDraw.
  - apply IH; [exact Hnd|exact Hfresh|lia|exact Hrec].
  - rewrite Hcmd, map_app. intros Hin. apply elem_of_app in Hin as [Hin|Hin].
    + apply Hfresh. apply list_elem_of_fmap in Hin as (r & Heq & Hr).
      injection Heq as Heq _. rewrite Heq. apply list_elem_of_fmap. eauto.
    + apply list_elem_of_fmap in Hin as (r & Heq & Hr). injection Heq as _ Heq.
      apply (Hdis test); [|apply list_elem_of_here].
      rewrite <- Htests, Heq. apply list_elem_of_fmap. eauto.
  - rewrite Hcmd, length_app. lia.
Qed.

Lemma redraws_of_none eid st :
  redraws_of eid st = [] ->
  eid ∉ map TestsFailedCallback.rd_event (TestsFailedCallback.cmd st).
Proof.
  unfold redraws_of. intros Hnil Hin. apply list_elem_of_fmap in Hin as (r & Heq & Hr).
  assert (Hr' : r ∈ filter (fun r => TestsFailedCallback.rd_event r = eid)
                  (TestsFailedCallback.cmd st)).
  { apply list_elem_of_filter. auto. }
  rewrite Hnil in Hr'. apply elem_of_nil in Hr'. contradiction.
Qed.

Lemma pass_recorded_step features info drawEvents done d st :
  draw_eid d ∉ map draw_eid done ->
  6 * Z.of_nat (length (hits drawEvents (done ++ [d]))) < 2 ^ 32 ->
  pass_invariant drawEvents done st ->
  pass_recorded features info drawEvents done st ->
  pass_recorded features info drawEvents (done ++ [d])
    (TestsFailedCallback.PreDraw features info d st).
Proof.
  intros Hfresh Hfit (Hev & Hsize & _ & _) (Hrec & Hhit & Hmiss).
  rewrite hits_snoc in Hfit. unfold pass_recorded. rewrite hits_snoc.
  destruct (decide (draw_eid d ∈ drawEvents)) as [Hin|Hout].
  - assert (Hin' : draw_eid d ∈ TestsFailedCallback.m_Events st) by (rewrite Hev; exact Hin).
    destruct (PreDraw_hit features info d st Hin') as (mid & Hrun & Hcmd & Hq & _ & Hflags & _).
    set (flags := TestsFailedCallback.CalculateEventFlags features info
                    (draw_pipeline d) (draw_state d)) in *.
    set (st' := TestsFailedCallback.PreDraw features info d st) in *.
    assert (Hnew : draw_eid d ∉ map draw_eid (hits drawEvents done)).
    { intros Hd. apply Hfresh. apply list_elem_of_fmap in Hd as (d' & Heq & Hd').
      apply hits_elem in Hd' as [_ Hd']. rewrite Heq. apply list_elem_of_fmap. eauto. }
    destruct (Hmiss _ Hnew) as [_ Hnone].
    assert (Hrec_mid : queries_recorded mid).
    { unfold queries_recorded. rewrite Hcmd, Hq. exact Hrec. }
    assert (Hlen : length (TestsFailedCallback.cmd st) =
                   size (TestsFailedCallback.m_OcclusionQueries st)).
    { destruct Hrec as (_ & _ & _ & Hs). symmetry. exact Hs. }
    pose proof (tests_issued_length flags
                  (CalculateEventFlags_no_scissor features info (draw_pipeline d) (draw_state d)))
      as Hts.
    rewrite length_app in Hfit. simpl in Hfit.
    assert (Hrec' : queries_recorded st').
    { apply (issued_queries _ _ _ _ Hrun); [apply tests_issued_NoDup| | |exact Hrec_mid].
      - rewrite Hcmd. apply redraws_of_none. exact Hnone.
      - rewrite Hcmd, Hlen. lia. }
    apply issued_spec in Hrun as (new & Hcmd' & Htests & Hall & _ & _ & Hf' & _).
    rewrite Hcmd in Hcmd'.
    assert (Hnew_ev : Forall (fun r => TestsFailedCallback.rd_event r = draw_eid d) new).
    { eapply Forall_impl; [exact Hall|]. simpl. tauto. }
    split; [exact Hrec'|]. split.
    + intros d' Hd'. apply elem_of_app in Hd' as [Hd'|Hd'].
      * destruct (Hhit d' Hd') as [Hfl Hred].
        assert (Hne : draw_eid d ≠ draw_eid d').
        { intros Heq. apply Hnew. rewrite Heq. apply list_elem_of_fmap. eauto. }
        split.
        -- rewrite Hf', Hflags, lookup_insert_ne by exact Hne. exact Hfl.
        -- unfold redraws_of in *. rewrite Hcmd', filter_app.
           rewrite (filter_none _ new), app_nil_r; [exact Hred|].
           eapply Forall_impl; [exact Hnew_ev|]. simpl. congruence.
      * apply list_elem_of_singleton in Hd'. subst d'. split.
        -- rewrite Hf', Hflags. apply lookup_insert_eq.
        -- unfold redraws_of in *. rewrite Hcmd', filter_app, Hnone. simpl.
           rewrite (filter_all _ new) by exact Hnew_ev. exact Htests.
    + intros eid Heid. rewrite map_app in Heid.
      assert (Hne : draw_eid d ≠ eid).
      { intros Heq. apply Heid. apply elem_of_app. right. simpl. rewrite Heq.
        apply list_elem_of_here. }
      destruct (Hmiss eid) as [Hfl Hred].
      { intros Hold. apply Heid. apply elem_of_app. auto. }
      split.
      * rewrite Hf', Hflags, lookup_insert_ne by exact Hne. exact Hfl.
      * unfold redraws_of in *. rewrite Hcmd', filter_app, Hred. simpl.
        apply filter_none. eapply Forall_impl; [exact Hnew_ev|]. simpl. congruence.
  - rewrite PreDraw_miss by (rewrite Hev; exact Hout). rewrite app_nil_r.
    split; [exact Hrec|]. split; [exact Hhit|exact Hmiss].
Qed.

Lemma pass_recorded_replay features info drawEvents frame :
  NoDup (map draw_eid frame) ->
  6 * Z.of_nat (length drawEvents) < 2 ^ 32 ->
  pass_recorded features info drawEvents frame
    (TestsFailedCallback.replay features info frame (TestsFailedCallback.create drawEvents)).
Proof.
  intros Hnd Hfit.
  induction frame as [|d frame IH] using rev_ind.
  - split; [apply queries_recorded_create|]. split.
    + intros d Hd. apply elem_of_nil in Hd. contradiction.
    + intros eid _. split; [apply lookup_empty|reflexivity].
  - rewrite replay_snoc.
    pose proof (hits_length drawEvents (frame ++ [d]) Hnd) as Hhits.
    rewrite map_app in Hnd. apply NoDup_app in Hnd as (Hnd & Hdis & _).
    apply pass_recorded_step.
    + intros Hin. apply (Hdis _ Hin). simpl. apply list_elem_of_here.
    + lia.
    + apply pass_invariant_replay. exact Hnd.
    + apply IH. exact Hnd.
Qed.

(** What fetching the results adds. *)
Lemma run_recorded features info frame gpu drawEvents :
  NoDup (map draw_eid frame) ->
  6 * Z.of_nat (length drawEvents) < 2 ^ 32 ->
  let tfCb := TestsFailedCallback.run features info frame gpu drawEvents in
  pass_recorded features info drawEvents frame tfCb ∧
  (TestsFailedCallback.cmd tfCb = [] ∨
   TestsFailedCallback.m_OcclusionResults tfCb =
     map (fun i => gpu (Z.of_nat i)) (seq 0%nat (length (TestsFailedCallback.cmd tfCb)))).
Proof.
  intros Hnd Hfit tfCb.
  pose proof (pass_recorded_replay features info drawEvents frame Hnd Hfit) as Hrec.
  subst tfCb. unfold TestsFailedCallback.run.
  set (st := TestsFailedCallback.replay features info frame
               (TestsFailedCallback.create drawEvents)) in *.
  assert (Hsize : size (TestsFailedCallback.m_OcclusionQueries st) =
                  length (TestsFailedCallback.cmd st)).
  { destruct Hrec as ((_ & _ & _ & Hs) & _). exact Hs. }
  unfold TestsFailedCallback.FetchOcclusionResults. case_bool_decide as Hempty.
  - split; [exact Hrec|]. left. rewrite Hempty, map_size_empty in Hsize.
    destruct (TestsFailedCallback.cmd st); [reflexivity|discriminate].
  - split; [exact Hrec|]. right. simpl. rewrite Hsize. reflexivity.
Qed.

Lemma queries_recorded_read u gpu st r :
  queries_recorded st ->
  TestsFailedCallback.m_OcclusionResults st =
    map (fun i => gpu (Z.of_nat i)) (seq 0%nat (length (TestsFailedCallback.cmd st))) ->
  r ∈ TestsFailedCallback.cmd st ->
  TestsFailedCallback.GetOcclusionResult u st
    (TestsFailedCallback.rd_event r) (TestsFailedCallback.rd_test r) =
  gpu (TestsFailedCallback.rd_index r).
Proof.
  intros (Hnd & Hidx & Hq & _) Hres Hr.
  unfold TestsFailedCallback.GetOcclusionResult, find_second. rewrite Hq.
  rewrite (elem_of_list_to_map_1 _ (redraw_key r) (TestsFailedCallback.rd_index r)).
  - simpl. rewrite Hres. apply read_at_fetched.
    assert (Hin : TestsFailedCallback.rd_index r ∈
                  map TestsFailedCallback.rd_index (TestsFailedCallback.cmd st)).
    { apply list_elem_of_fmap. eauto. }
    rewrite Hidx in Hin. apply list_elem_of_fmap in Hin as (i & -> & Hi).
    apply elem_of_seq in Hi. lia.
  - change (fmap fst (map ?f ?l)) with (map fst (map f l)). rewrite map_map. exact Hnd.
  - apply list_elem_of_fmap. exists r. auto.
Qed.

(** After the test-failure pass, the flags of every draw of the pass are
    the flags [CalculateEventFlags] gave for its pipeline, its redraws are
    the tests of these flags in order, and the outcome read for a redraw is
    the result the device stored at the index of that redraw's query. *)
Theorem tests_failed_result_is_own_query features info frame gpu drawEvents u :
  NoDup (map draw_eid frame) ->
  6 * Z.of_nat (length drawEvents) < 2 ^ 32 ->
  let tfCb := TestsFailedCallback.run features info frame gpu drawEvents in
  (∀ d, d ∈ frame -> draw_eid d ∈ drawEvents ->
     let flags :=
       TestsFailedCallback.CalculateEventFlags features info (draw_pipeline d) (draw_state d) in
     TestsFailedCallback.GetEventFlags u tfCb (draw_eid d) = flags ∧
     map TestsFailedCallback.rd_test (redraws_of (draw_eid d) tfCb) = tests_issued flags) ∧
  (∀ r, r ∈ TestsFailedCallback.cmd tfCb ->
     TestsFailedCallback.GetOcclusionResult u tfCb
       (TestsFailedCallback.rd_event r) (TestsFailedCallback.rd_test r) =
     gpu (TestsFailedCallback.rd_index r)) ∧
  map TestsFailedCallback.rd_index (TestsFailedCallback.cmd tfCb) =
    map Z.of_nat (seq 0%nat (length (TestsFailedCallback.cmd tfCb))).
Proof.
  intros Hnd Hfit tfCb.
  destruct (run_recorded features info frame gpu drawEvents Hnd Hfit)
    as ((Hrec & Hhit & _) & Hres).
  fold tfCb in Hrec, Hhit, Hres. split; [|split].
  - intros d Hd Hin flags.
    destruct (Hhit d) as [Hfl Hred]; [apply hits_elem; auto|].
    split; [|exact Hred].
    unfold TestsFailedCallback.GetEventFlags, find_second. rewrite Hfl. reflexivity.
  - intros r Hr. destruct Hres as [Hnil|Hres].
    + rewrite Hnil in Hr. apply elem_of_nil in Hr. contradiction.
    + apply queries_recorded_read; assumption.
  - destruct Hrec as (_ & Hidx & _). exact Hidx.
Qed.

(** ** What [UpdateTestsFailed] reads *)

Lemma land_bit (flags k : Z) :
  0 <= k -> Z.land flags (Z.shiftl 1 k) = if Z.testbit flags k then Z.shiftl 1 k else 0.
Proof.
  intros Hk. apply Z.bits_inj'. intros n Hn. rewrite Z.land_spec, Z.shiftl_1_l.
  destruct (Z.eq_dec k n) as [->|Hne].
  - rewrite Z.pow2_bits_true by lia. rewrite andb_true_r.
    destruct (Z.testbit flags n); [rewrite Z.pow2_bits_true by lia|rewrite Z.bits_0]; reflexivity.
  - rewrite Z.pow2_bits_false by lia. rewrite andb_false_r.
    destruct (Z.testbit flags k); [rewrite Z.pow2_bits_false by lia|rewrite Z.bits_0]; reflexivity.
Qed.

(** A comparison of masked flags, as the flags it looks at. *)
Ltac masked_flags :=
  unfold_flags; rewrite ?has_flag_testbit by lia;
  rewrite ?Z.land_lor_distr_r, ?land_bit by lia;
  repeat match goal with |- context [Z.testbit ?f ?k] => destruct (Z.testbit f k) end;
  reflexivity.

Lemma culling_read flags :
  (Z.land flags (Z.lor TestEnabled_Culling TestMustFail_Culling) =? TestEnabled_Culling) =
  has_flag flags TestEnabled_Culling && negb (has_flag flags TestMustFail_Culling).
Proof. masked_flags. Qed.

Lemma scissor_read flags :
  (Z.land flags (Z.lor (Z.lor TestEnabled_Scissor TestMustPass_Scissor) TestMustFail_Scissor)
     =? TestEnabled_Scissor) =
  has_flag flags TestEnabled_Scissor && negb (has_flag flags TestMustPass_Scissor) &&
  negb (has_flag flags TestMustFail_Scissor).
Proof. masked_flags. Qed.

Lemma scissor_redrawn flags :
  (Z.land flags (Z.lor TestEnabled_Scissor TestMustPass_Scissor) =? TestEnabled_Scissor) =
  has_flag flags TestEnabled_Scissor && negb (has_flag flags TestMustPass_Scissor).
Proof. masked_flags. Qed.

Lemma sample_mask_read flags :
  (Z.land flags (Z.lor TestEnabled_SampleMask TestMustFail_SampleMask)
     =? TestEnabled_SampleMask) =
  has_flag flags TestEnabled_SampleMask && negb (has_flag flags TestMustFail_SampleMask).
Proof. masked_flags. Qed.

Lemma stencil_read flags :
  (Z.land flags (Z.lor TestEnabled_StencilTesting TestMustFail_StencilTesting)
     =? TestEnabled_StencilTesting) =
  has_flag flags TestEnabled_StencilTesting && negb (has_flag flags TestMustFail_StencilTesting).
Proof. masked_flags. Qed.

Lemma depth_read flags :
  (Z.land flags (Z.lor TestEnabled_DepthTesting TestMustFail_DepthTesting)
     =? TestEnabled_DepthTesting) =
  has_flag flags TestEnabled_DepthTesting && negb (has_flag flags TestMustFail_DepthTesting).
Proof. masked_flags. Qed.

(** Every outcome [UpdateTestsFailed] reads is behind the condition of its
    test, and behind the stages before it: a stage lets the function go on
    only when its flag in the entry is off afterwards, so it either read the
    query or found the flag off. *)
Lemma UpdateTestsFailed_reads u tfCb eventId flags pm test :
  TestsFailedCallback.HasEarlyFragments u tfCb eventId = false ->
  test ∈ snd (UpdateTestsFailed u tfCb eventId flags pm) ->
  let culling :=
    Z.land flags (Z.lor TestEnabled_Culling TestMustFail_Culling) =? TestEnabled_Culling in
  let scissor :=
    Z.land flags (Z.lor (Z.lor TestEnabled_Scissor TestMustPass_Scissor) TestMustFail_Scissor)
      =? TestEnabled_Scissor in
  let sample :=
    Z.land flags (Z.lor TestEnabled_SampleMask TestMustFail_SampleMask)
      =? TestEnabled_SampleMask in
  let stencil :=
    Z.land flags (Z.lor TestEnabled_StencilTesting TestMustFail_StencilTesting)
      =? TestEnabled_StencilTesting in
  let depth :=
    Z.land flags (Z.lor TestEnabled_DepthTesting TestMustFail_DepthTesting)
      =? TestEnabled_DepthTesting in
  let past_culling := culling = true ∨ backfaceCulled pm = false in
  let past_scissor := scissor = true ∨ scissorClipped pm = false in
  let past_sample := sample = true ∨ sampleMasked pm = false in
  (test = TestEnabled_Culling ∧ culling = true) ∨
  (test = TestEnabled_Scissor ∧ scissor = true ∧ past_culling) ∨
  (test = TestEnabled_SampleMask ∧ sample = true ∧ past_culling ∧ past_scissor) ∨
  (past_culling ∧ past_scissor ∧ past_sample ∧
   (test = TestEnabled_FragmentDiscard ∨
    (test = TestEnabled_DepthBounds ∧ has_flag flags TestEnabled_DepthBounds = true) ∨
    (test = TestEnabled_StencilTesting ∧ stencil = true) ∨
    (test = TestEnabled_DepthTesting ∧ depth = true))).
Proof.
  intros Hearly Hin. cbv zeta. unfold UpdateTestsFailed in Hin. rewrite Hearly in Hin.
  set (culling := Z.land flags (Z.lor TestEnabled_Culling TestMustFail_Culling)
                    =? TestEnabled_Culling) in *.
  set (scissor := Z.land flags (Z.lor (Z.lor TestEnabled_Scissor TestMustPass_Scissor)
                                  TestMustFail_Scissor) =? TestEnabled_Scissor) in *.
  set (sample := Z.land flags (Z.lor TestEnabled_SampleMask TestMustFail_SampleMask)
                   =? TestEnabled_SampleMask) in *.
  set (stencil := Z.land flags (Z.lor TestEnabled_StencilTesting TestMustFail_StencilTesting)
                    =? TestEnabled_StencilTesting) in *.
  set (depth := Z.land flags (Z.lor TestEnabled_DepthTesting TestMustFail_DepthTesting)
                  =? TestEnabled_DepthTesting) in *.
  clearbody culling scissor sample stencil depth.
  revert Hin. cbn [negb andb].
  generalize (has_flag flags TestEnabled_DepthBounds). intros bounds.
  repeat match goal with
         | |- context [if ?c then _ else _] => destruct c eqn:?; cbn
         end;
    rewrite ?elem_of_cons, ?elem_of_nil; intros Hin;
    repeat match goal with
           | H : _ ∨ _ |- _ => destruct H
           | H : False |- _ => destruct H
           end; subst;
    first [ solve [auto 10] | solve [do 3 right; repeat split; auto 10] ].
Qed.

(** ** The outcomes [UpdateTestsFailed] reads *)

Lemma copy_must_fail_fields flags pm :
  backfaceCulled (copy_must_fail flags pm) =
    has_flag flags TestMustFail_Culling || backfaceCulled pm ∧
  scissorClipped (copy_must_fail flags pm) =
    has_flag flags TestMustFail_Scissor || scissorClipped pm ∧
  sampleMasked (copy_must_fail flags pm) =
    has_flag flags TestMustFail_SampleMask || sampleMasked pm.
Proof.
  unfold copy_must_fail.
  destruct (has_flag flags TestMustFail_Culling), (has_flag flags TestMustFail_DepthTesting),
    (has_flag flags TestMustFail_Scissor), (has_flag flags TestMustFail_SampleMask),
    (has_flag flags UnboundFragmentShader), pm; repeat split.
Qed.

Lemma apply_tests_copy env tfCb eventId pm :
  VulkanReplay.apply_tests env (Some tfCb) eventId pm =
  let flags := TestsFailedCallback.GetEventFlags (undefined env) tfCb eventId in
  fst (UpdateTestsFailed (undefined env) tfCb eventId flags (copy_must_fail flags pm)).
Proof. reflexivity. Qed.

(** When each test of a set of flags is among the tests redrawn. *)
Lemma tests_issued_elem flags :
  let on f := has_flag flags f in
  let past_culling := on TestMustFail_Culling = false in
  let past_scissor := past_culling ∧ on TestMustFail_Scissor = false in
  let past_sample := past_scissor ∧ on TestMustFail_SampleMask = false in
  let past_stencil := past_sample ∧ on TestMustFail_StencilTesting = false in
  let past_depth := past_stencil ∧ on TestMustFail_DepthTesting = false in
  (past_culling -> on TestEnabled_Culling = true ->
     TestEnabled_Culling ∈ tests_issued flags) ∧
  (past_scissor ->
     (Z.land flags (Z.lor TestEnabled_Scissor TestMustPass_Scissor) =? TestEnabled_Scissor) = true ->
     TestEnabled_Scissor ∈ tests_issued flags) ∧
  (past_sample -> on TestEnabled_SampleMask = true ->
     TestEnabled_SampleMask ∈ tests_issued flags) ∧
  (past_sample -> on TestEnabled_DepthBounds = true ->
     TestEnabled_DepthBounds ∈ tests_issued flags) ∧
  (past_stencil -> on TestEnabled_StencilTesting = true ->
     TestEnabled_StencilTesting ∈ tests_issued flags) ∧
  (past_depth -> on TestEnabled_DepthTesting = true ->
     TestEnabled_DepthTesting ∈ tests_issued flags) ∧
  (past_depth -> on TestEnabled_FragmentDiscard = true ->
     TestEnabled_FragmentDiscard ∈ tests_issued flags).
Proof.
  cbv zeta. unfold tests_issued.
  repeat split; intros; repeat match goal with H : _ ∧ _ |- _ => destruct H end;
    repeat match goal with H : _ = _ |- _ => rewrite H end;
    rewrite ?elem_of_app, ?elem_of_cons; auto 10;
    repeat match goal with
           | |- context [if ?c then _ else _] => destruct c
           end;
    rewrite ?elem_of_app, ?elem_of_cons; auto 12.
Qed.

Lemma andb_negb_true (a b : bool) : a && negb b = true -> a = true ∧ b = false.
Proof. destruct a, b; simpl; auto; discriminate. Qed.

Lemma orb_false_l_inv (a b : bool) : a || b = false -> a = false.
Proof. destruct a; simpl; auto. Qed.

(** Without a stencil or depth test that must fail, every outcome
    [UpdateTestsFailed] reads is the outcome of a test that was redrawn. *)
Lemma reads_are_issued u tfCb eventId flags pm test :
  TestsFailedCallback.HasEarlyFragments u tfCb eventId = false ->
  has_flag flags TestMustFail_StencilTesting = false ->
  has_flag flags TestMustFail_DepthTesting = false ->
  has_flag flags TestEnabled_FragmentDiscard = true ->
  test ∈ snd (UpdateTestsFailed u tfCb eventId flags (copy_must_fail flags pm)) ->
  test ∈ tests_issued flags.
Proof.
  intros Hearly Hst Hd Hfd Hin.
  pose proof (UpdateTestsFailed_reads u tfCb eventId flags _ test Hearly Hin) as Hread.
  cbv zeta in Hread.
  destruct (copy_must_fail_fields flags pm) as (Hbf & Hsc & Hsm).
  rewrite Hbf, Hsc, Hsm in Hread. clear Hbf Hsc Hsm Hin.
  rewrite culling_read, scissor_read, sample_mask_read, stencil_read, depth_read in Hread.
  pose proof (tests_issued_elem flags) as Helem. cbv zeta in Helem.
  rewrite scissor_redrawn in Helem.
  destruct Helem as (Hc & Hs & Hm & Hb & Ht & Hz & Hf).
  assert (Hpc : has_flag flags TestEnabled_Culling && negb (has_flag flags TestMustFail_Culling)
                  = true ∨ has_flag flags TestMustFail_Culling || backfaceCulled pm = false ->
                has_flag flags TestMustFail_Culling = false).
  { intros [H|H]; [apply andb_negb_true in H; tauto|eapply orb_false_l_inv; eauto]. }
  assert (Hps : has_flag flags TestEnabled_Scissor && negb (has_flag flags TestMustPass_Scissor)
                  && negb (has_flag flags TestMustFail_Scissor) = true ∨
                has_flag flags TestMustFail_Scissor || scissorClipped pm = false ->
                has_flag flags TestMustFail_Scissor = false).
  { intros [H|H]; [apply andb_negb_true in H; tauto|eapply orb_false_l_inv; eauto]. }
  assert (Hpm : has_flag flags TestEnabled_SampleMask &&
                  negb (has_flag flags TestMustFail_SampleMask) = true ∨
                has_flag flags TestMustFail_SampleMask || sampleMasked pm = false ->
                has_flag flags TestMustFail_SampleMask = false).
  { intros [H|H]; [apply andb_negb_true in H; tauto|eapply orb_false_l_inv; eauto]. }
  destruct Hread as [(-> & H)|[(-> & H & H1)|[(-> & H & H1 & H2)|(H1 & H2 & H3 & H)]]].
  - apply andb_negb_true in H as (H & H'). auto.
  - apply andb_negb_true in H as (H & H'). apply Hs; auto.
  - apply andb_negb_true in H as (H & H'). apply Hm; auto.
  - specialize (Hpc H1). specialize (Hps H2). specialize (Hpm H3).
    destruct H as [->|[(-> & H)|[(-> & H)|(-> & H)]]].
    + apply Hf; auto.
    + apply Hb; auto.
    + apply andb_negb_true in H as (H & H'). apply Ht; auto.
    + apply andb_negb_true in H as (H & H'). apply Hz; auto.
Qed.

Lemma redraw_of_test eid st test :
  test ∈ map TestsFailedCallback.rd_test (redraws_of eid st) ->
  ∃ r, r ∈ TestsFailedCallback.cmd st ∧ redraw_key r = (eid, test).
Proof.
  intros Hin. apply list_elem_of_fmap in Hin as (r & -> & Hr).
  unfold redraws_of in Hr. rewrite list_elem_of_filter in Hr. destruct Hr as [He Hr].
  exists r. split; [exact Hr|]. unfold redraw_key. rewrite He. reflexivity.
Qed.

(** For a draw of the test-failure pass whose stencil and depth tests are
    not known to fail, every outcome that filling in the entry of the draw
    reads, in [UpdateTestsFailed], belongs to a redraw of that draw for that
    test, and is the result the device stored for the query of the redraw:
    no query is read that was not issued. *)
Theorem tests_failed_reads_are_issued features info frame gpu drawEvents env d pm test :
  NoDup (map draw_eid frame) ->
  6 * Z.of_nat (length drawEvents) < 2 ^ 32 ->
  d ∈ frame -> draw_eid d ∈ drawEvents ->
  let tfCb := TestsFailedCallback.run features info frame gpu drawEvents in
  let flags := TestsFailedCallback.GetEventFlags (undefined env) tfCb (draw_eid d) in
  has_flag flags TestMustFail_StencilTesting = false ->
  has_flag flags TestMustFail_DepthTesting = false ->
  VulkanReplay.apply_tests env (Some tfCb) (draw_eid d) pm =
    fst (UpdateTestsFailed (undefined env) tfCb (draw_eid d) flags (copy_must_fail flags pm)) ∧
  (test ∈ snd (UpdateTestsFailed (undefined env) tfCb (draw_eid d) flags
                 (copy_must_fail flags pm)) ->
   ∃ r, r ∈ TestsFailedCallback.cmd tfCb ∧
        TestsFailedCallback.rd_event r = draw_eid d ∧
        TestsFailedCallback.rd_test r = test ∧
        TestsFailedCallback.GetOcclusionResult (undefined env) tfCb (draw_eid d) test =
          gpu (TestsFailedCallback.rd_index r)).
Proof.
  intros Hnd Hfit Hd Hin tfCb flags Hst Hdt. split; [reflexivity|]. intros Hread.
  destruct (run_recorded features info frame gpu drawEvents Hnd Hfit)
    as ((Hrec & Hhit & _) & Hres).
  fold tfCb in Hrec, Hhit, Hres.
  destruct (Hhit d) as [Hfl Hred]; [apply hits_elem; auto|].
  assert (Hflags : flags = TestsFailedCallback.CalculateEventFlags features info
                             (draw_pipeline d) (draw_state d)).
  { unfold flags, TestsFailedCallback.GetEventFlags, find_second. rewrite Hfl. reflexivity. }
  assert (Hissued : test ∈ tests_issued flags).
  { apply (reads_are_issued (undefined env) tfCb (draw_eid d) flags pm); auto.
    - apply run_early_fragments; [exact Hin|]. apply list_elem_of_fmap. eauto.
    - rewrite Hflags. apply CalculateEventFlags_fragment_discard. }
  rewrite Hflags, <- Hred in Hissued.
  apply redraw_of_test in Hissued as (r & Hr & Hkey).
  injection Hkey as He Ht. exists r. repeat split; auto.
  rewrite <- He, <- Ht. destruct Hres as [Hnil|Hres].
  - rewrite Hnil in Hr. apply elem_of_nil in Hr. contradiction.
  - apply queries_recorded_read; assumption.
Qed.

(** ** The failure [UpdateTestsFailed] reports *)

Lemma reported_cases test pm :
  reported test pm = true ->
  (test = TestEnabled_Culling ∧ backfaceCulled pm = true) ∨
  (test = TestEnabled_Scissor ∧ scissorClipped pm = true) ∨
  (test = TestEnabled_SampleMask ∧ sampleMasked pm = true) ∨
  (test = TestEnabled_DepthBounds ∧ depthClipped pm = true) ∨
  (test = TestEnabled_StencilTesting ∧ stencilTestFailed pm = true) ∨
  (test = TestEnabled_DepthTesting ∧ depthTestFailed pm = true) ∨
  (test = TestEnabled_FragmentDiscard ∧ shaderDiscarded pm = true).
Proof.
  unfold reported.
  repeat match goal with
         | |- context [?a =? ?b] => destruct (Z.eqb_spec a b)
         end; intros H; try discriminate; tauto.
Qed.

(** An entry without a failure, flag by flag. *)
Lemma no_failure_fields pm :
  failures pm = repeat false 7 ->
  backfaceCulled pm = false ∧ scissorClipped pm = false ∧ sampleMasked pm = false ∧
  shaderDiscarded pm = false ∧ depthClipped pm = false ∧ stencilTestFailed pm = false ∧
  depthTestFailed pm = false.
Proof. unfold failures. simpl. intros H. injection H as -> -> -> -> -> -> ->. tauto. Qed.

Ltac entry_fields :=
  cbn [fst snd app negb andb
       eventId directShaderWrite unboundPS fragIndex primitiveID preMod shaderOut postMod
       sampleMasked backfaceCulled depthClipped scissorClipped shaderDiscarded
       depthTestFailed stencilTestFailed
       set_backfaceCulled set_scissorClipped set_sampleMasked set_shaderDiscarded
       set_depthClipped set_stencilTestFailed set_depthTestFailed] in *.

(** One stage of [UpdateTestsFailed]: the condition [b] of the stage, then
    the outcome [z] of its query. *)
Ltac stage b z :=
  lazymatch goal with
  | |- context [if b then _ else _] =>
    destruct b; entry_fields;
    lazymatch goal with
    | |- context [if z then _ else _] => destruct z eqn:?; entry_fields
    | _ => idtac
    end
  | _ => idtac
  end.

(** The stage of the shader discard, wherever it comes. *)
Ltac discard_stage occl :=
  lazymatch goal with
  | |- context [occl TestEnabled_FragmentDiscard =? 0] =>
    destruct (occl TestEnabled_FragmentDiscard =? 0) eqn:?; entry_fields
  | _ => idtac
  end.

(** On an entry without a failure, [UpdateTestsFailed] stops at the first
    test whose query counted no sample: the entry it returns has at most one
    failure; a test is reported as failed exactly when it is the last one
    read and its query counted no sample; and the query of every test read
    before the last one counted a sample. *)
Theorem UpdateTestsFailed_stops_at_first_failure u tfCb eventId flags pm :
  failures pm = repeat false 7 ->
  let out := UpdateTestsFailed u tfCb eventId flags pm in
  let occl := TestsFailedCallback.GetOcclusionResult u tfCb eventId in
  (length (filter (fun b => b = true) (failures out.1)) ≤ 1)%nat ∧
  (∀ test, reported test out.1 = true ↔ last out.2 = Some test ∧ occl test = 0) ∧
  (∀ test, test ∈ removelast out.2 -> occl test ≠ 0).
Proof.
  intros Hnone. apply no_failure_fields in Hnone.
  destruct Hnone as (H1 & H2 & H3 & H4 & H5 & H6 & H7).
  cbv zeta.
  pattern (UpdateTestsFailed u tfCb eventId flags pm).
  match goal with |- ?P _ => set (Q := P) end.
  unfold UpdateTestsFailed. cbv zeta.
  revert Q.
  generalize (TestsFailedCallback.GetOcclusionResult u tfCb eventId) as occl.
  generalize (TestsFailedCallback.HasEarlyFragments u tfCb eventId) as early.
  generalize (Z.land flags (Z.lor TestEnabled_Culling TestMustFail_Culling)
                =? TestEnabled_Culling) as culling.
  generalize (Z.land flags
                (Z.lor (Z.lor TestEnabled_Scissor TestMustPass_Scissor) TestMustFail_Scissor)
                =? TestEnabled_Scissor) as scissor.
  generalize (Z.land flags (Z.lor TestEnabled_SampleMask TestMustFail_SampleMask)
                =? TestEnabled_SampleMask) as sample.
  generalize (has_flag flags TestEnabled_DepthBounds) as bounds.
  generalize (Z.land flags (Z.lor TestEnabled_StencilTesting TestMustFail_StencilTesting)
                =? TestEnabled_StencilTesting) as stencil.
  generalize (Z.land flags (Z.lor TestEnabled_DepthTesting TestMustFail_DepthTesting)
                =? TestEnabled_DepthTesting) as depth.
  intros depth stencil bounds sample scissor culling early occl Q.
  destruct pm; cbn in H1, H2, H3, H4, H5, H6, H7; subst.
  destruct early; entry_fields;
    stage culling (occl TestEnabled_Culling =? 0);
    stage scissor (occl TestEnabled_Scissor =? 0);
    stage sample (occl TestEnabled_SampleMask =? 0);
    discard_stage occl;
    stage bounds (occl TestEnabled_DepthBounds =? 0);
    stage stencil (occl TestEnabled_StencilTesting =? 0);
    stage depth (occl TestEnabled_DepthTesting =? 0);
    discard_stage occl.
  all: subst Q; cbv beta.
  all: split; [vm_compute; lia|].
  all: split.
  all: try (intros test Hin; cbn [removelast app snd] in Hin;
            repeat match goal with
                   | H : _ ∈ _ :: _ |- _ => apply elem_of_cons in H as [->|H]
                   | H : _ ∈ [] |- _ => apply elem_of_nil in H; destruct H
                   end;
            apply Z.eqb_neq; assumption).
  all: intros test; split;
       [ intros Hrep; apply reported_cases in Hrep; entry_fields;
         repeat match goal with
                | H : _ ∨ _ |- _ => destruct H
                | H : _ ∧ _ |- _ => destruct H
                end; try discriminate; subst test;
         (split; [reflexivity|]); apply Z.eqb_eq; assumption
       | intros [Hlast Hzero]; cbn in Hlast; try discriminate;
         injection Hlast as <-;
         first [ vm_compute; reflexivity
               | exfalso;
                 match goal with
                 | H : (_ =? 0) = false |- _ =>
                   apply Z.eqb_neq in H; apply H; exact Hzero
                 end ] ].
Qed.

(** ** What stripping leaves of a module *)

Section StripProofs.
Import rdcspv PixelHistoryShaderCache.

Lemma strip_instr_stripped i st : fst (strip_instr i st) = stripped_instr i.
Proof.
  destruct i; simpl; try reflexivity.
  - destruct (_ && _); reflexivity.
  - destruct (_ || _); reflexivity.
Qed.

Lemma strip_body_stripped b : ∀ st, fst (strip_body b st) = map stripped_instr b.
Proof.
  induction b as [|i b IH]; intros st; [reflexivity|].
  cbn [strip_body]. pose proof (strip_instr_stripped i st) as Hi.
  destruct (strip_instr i st) as [i' st1]. specialize (IH st1).
  destruct (strip_body b st1) as [b' st2]. simpl in *. congruence.
Qed.

Lemma stripped_instr_clean i : side_effect (stripped_instr i) = false.
Proof.
  destruct i; simpl; try reflexivity.
  destruct (_ || _) eqn:Hsc; simpl; [reflexivity|exact Hsc].
Qed.

Lemma stripped_instr_callees b : callees (map stripped_instr b) = callees b.
Proof.
  induction b as [|i b IH]; [reflexivity|].
  cbn [map]. rewrite (callees_cons (stripped_instr i)), (callees_cons i), IH.
  f_equal. destruct i; try reflexivity. simpl. destruct (_ || _); reflexivity.
Qed.

(** Every call of a body that was visited names a function that is queued
    or patched afterwards. *)
Lemma strip_body_calls b : ∀ st,
  callees b ⊆ functionPatchQueue (snd (strip_body b st)) ∪
              patchedFunctions (snd (strip_body b st)).
Proof.
  induction b as [|i b IH]; intros st.
  - unfold callees. simpl. set_solver.
  - cbn [strip_body].
    pose proof (strip_instr_spec i st) as Hi.
    assert (Hcall : callees [i] ⊆ functionPatchQueue (snd (strip_instr i st)) ∪
                                   patchedFunctions (snd (strip_instr i st))).
    { destruct i; unfold callees; simpl; try set_solver.
      destruct (bool_decide (function ∉ functionPatchQueue st)) eqn:Hq;
        destruct (bool_decide (function ∉ patchedFunctions st)) eqn:Hp; simpl;
        try apply bool_decide_eq_false in Hq; try apply bool_decide_eq_false in Hp;
        try (apply dec_stable in Hq); try (apply dec_stable in Hp); set_solver. }
    destruct (strip_instr i st) as [i' st1].
    destruct Hi as (_ & Hp1 & _).
    specialize (IH st1). pose proof (strip_body_spec b st1) as Hb.
    destruct (strip_body b st1) as [b' st2].
    destruct Hb as (_ & Hp2 & Hq2 & _). simpl in *.
    rewrite (callees_cons i b). rewrite Hp2. rewrite Hp2 in IH. set_solver.
Qed.

Lemma GetID_set_body fs funcId b g :
  GetID (set_body fs funcId b) g =
  if g =? funcId then (fun _ => b) <$> GetID fs funcId else GetID fs g.
Proof.
  induction fs as [|f fs IH]; simpl.
  - destruct (g =? funcId); reflexivity.
  - destruct (Z.eqb_spec (func_id f) funcId) as [Hf|Hf]; simpl.
    + destruct (Z.eqb_spec g funcId) as [Hg|Hg].
      * rewrite (proj2 (Z.eqb_eq funcId g)) by congruence. reflexivity.
      * rewrite (proj2 (Z.eqb_neq funcId g)) by congruence.
        rewrite (proj2 (Z.eqb_neq (func_id f) g)) by congruence. reflexivity.
    + rewrite IH. destruct (Z.eqb_spec g funcId) as [Hg|Hg].
      * rewrite (proj2 (Z.eqb_neq (func_id f) g)) by congruence. reflexivity.
      * reflexivity.
Qed.

Lemma strip_invariant_turn fs0 entryId fs st funcId :
  strip_invariant fs0 entryId fs st ->
  funcId ∈ functionPatchQueue st ->
  functionPatchQueue st ∩ patchedFunctions st = ∅ ->
  let st1 := {| modified := modified st;
                functionPatchQueue := functionPatchQueue st ∖ {[funcId]};
                patchedFunctions := {[funcId]} ∪ patchedFunctions st |} in
  let '(b', st2) := strip_body (default [] (GetID fs funcId)) st1 in
  strip_invariant fs0 entryId (set_body fs funcId b') st2.
Proof.
  intros (Hdone & Hrest & Hreach & Hcalls & Hentry) Hin Hdis st1.
  pose proof (strip_body_spec (default [] (GetID fs funcId)) st1) as Hbody.
  pose proof (strip_body_stripped (default [] (GetID fs funcId)) st1) as Hstripped.
  pose proof (strip_body_calls (default [] (GetID fs funcId)) st1) as Hcalled.
  destruct (strip_body (default [] (GetID fs funcId)) st1) as [b' st2].
  destruct Hbody as (_ & Hp2 & Hq2 & Hq2' & _).
  subst st1. simpl in Hp2, Hq2, Hq2', Hstripped, Hcalled.
  assert (Hfresh : funcId ∉ patchedFunctions st) by (clear -Hin Hdis; set_solver).
  assert (Hsame : GetID fs funcId = GetID fs0 funcId) by (apply Hrest; exact Hfresh).
  unfold strip_invariant. rewrite Hp2. rewrite Hp2 in Hcalled.
  split; [|split; [|split; [|split]]].
  - intros f Hf. rewrite GetID_set_body. destruct (Z.eqb_spec f funcId) as [->|Hne].
    + rewrite <- Hsame, Hstripped. destruct (GetID fs funcId); reflexivity.
    + apply Hdone. clear -Hf Hne. set_solver.
  - intros f Hf. rewrite GetID_set_body. destruct (Z.eqb_spec f funcId) as [->|Hne].
    + exfalso. clear -Hf. set_solver.
    + apply Hrest. clear -Hf. set_solver.
  - intros f Hf.
    destruct (decide (f ∈ functionPatchQueue st ∪ patchedFunctions st)) as [Hold|Hnew];
      [apply Hreach; exact Hold|].
    assert (Hcallee : f ∈ callees (default [] (GetID fs funcId))).
    { clear -Hf Hnew Hq2' Hin. set_solver. }
    destruct (GetID fs funcId) as [b|] eqn:Hget; simpl in Hcallee.
    + apply (reachable_call fs0 entryId funcId f b); [| |exact Hcallee].
      * apply Hreach. clear -Hin. set_solver.
      * rewrite <- Hsame. reflexivity.
    + unfold callees in Hcallee. simpl in Hcallee. clear -Hcallee. set_solver.
  - intros f b Hf Hget.
    destruct (decide (f = funcId)) as [->|Hne].
    + rewrite Hsame, Hget in Hcalled. simpl in Hcalled. exact Hcalled.
    + assert (Hold : f ∈ patchedFunctions st) by (clear -Hf Hne; set_solver).
      specialize (Hcalls f b Hold Hget). clear -Hcalls Hq2.
      intros x Hx. destruct (decide (x = funcId)); set_solver.
  - clear -Hentry Hq2. destruct (decide (entryId = funcId)); set_solver.
Qed.

Lemma strip_loop_invariant fs0 entryId : ∀ fuel fs st fs' st',
  loop_invariant fs0 entryId fs st ->
  strip_invariant fs0 entryId fs st ->
  strip_loop fuel fs st = Some (fs', st') ->
  strip_invariant fs0 entryId fs' st' ∧ functionPatchQueue st' = ∅.
Proof.
  induction fuel as [|fuel IH]; intros fs st fs' st' Hloop Hinv Hrun.
  - simpl in Hrun. pose proof (queue_begin_spec (functionPatchQueue st)) as Hbegin.
    destruct (queue_begin (functionPatchQueue st)); [discriminate|].
    injection Hrun as <- <-. auto.
  - rewrite strip_loop_unfold in Hrun.
    pose proof (queue_begin_spec (functionPatchQueue st)) as Hbegin.
    destruct (queue_begin (functionPatchQueue st)) as [funcId|];
      [|injection Hrun as <- <-; auto].
    pose proof (strip_turn fs0 entryId fs st funcId Hloop Hbegin) as Hturn.
    assert (Hdis : functionPatchQueue st ∩ patchedFunctions st = ∅).
    { destruct Hloop as (_ & _ & Hdis & _). exact Hdis. }
    pose proof (strip_invariant_turn fs0 entryId fs st funcId Hinv Hbegin Hdis) as Hturn'.
    cbv zeta in Hturn, Hturn', Hrun.
    destruct (strip_body _ _) as [b' st2]. destruct Hturn as [Hloop2 _].
    exact (IH _ _ _ _ Hloop2 Hturn' Hrun).
Qed.

(** [StripShaderSideEffects] returns, and leaves a module in which every
    function the entry point reaches through calls has each store through a
    uniform or storage-buffer pointer and each image write replaced by
    [OpNop] and each atomic read-modify-write by an atomic load, so that no
    side effect is left in it, and in which every other function is as it
    was. *)
Theorem StripShaderSideEffects_strips_reachable editor entryId :
  ∃ flag stripped,
    StripShaderSideEffects editor entryId = Some (flag, stripped) ∧
    entries stripped = entries editor ∧
    (∀ f, reachable (functions editor) entryId f ->
          GetID (functions stripped) f = map stripped_instr <$> GetID (functions editor) f) ∧
    (∀ f, ¬ reachable (functions editor) entryId f ->
          GetID (functions stripped) f = GetID (functions editor) f) ∧
    (∀ f b, reachable (functions editor) entryId f ->
            GetID (functions stripped) f = Some b -> side_effects b = 0%nat).
Proof.
  unfold StripShaderSideEffects.
  set (st0 := {| modified := false; functionPatchQueue := {[entryId]}; patchedFunctions := ∅ |}).
  assert (Hloop0 : loop_invariant (functions editor) entryId (functions editor) st0).
  { unfold loop_invariant, call_universe. simpl.
    split; [set_solver|]. split; [set_solver|]. split; [set_solver|].
    split; [reflexivity|]. split; [reflexivity|]. split; [discriminate|lia]. }
  assert (Hinv0 : strip_invariant (functions editor) entryId (functions editor) st0).
  { unfold strip_invariant. simpl. split; [set_solver|]. split; [reflexivity|].
    split; [|split; [set_solver|set_solver]].
    intros f Hf. assert (f = entryId) as -> by set_solver. constructor. }
  destruct (strip_loop_spec (functions editor) entryId
              (size (call_universe (functions editor) entryId)) (functions editor) st0 Hloop0)
    as (fs' & st' & Hrun & _).
  { simpl. apply subseteq_size. set_solver. }
  destruct (strip_loop_invariant _ _ _ _ _ _ _ Hloop0 Hinv0 Hrun)
    as ((Hdone & Hrest & Hreach & Hcalls & Hentry) & Hempty).
  rewrite Hrun. exists (modified st'), {| entries := entries editor; functions := fs' |}.
  rewrite Hempty in *. simpl.
  assert (Hall : ∀ f, reachable (functions editor) entryId f -> f ∈ patchedFunctions st').
  { intros f Hf. induction Hf as [|caller callee b _ IH Hget Hcallee]; [set_solver|].
    specialize (Hcalls caller b IH Hget). set_solver. }
  split; [reflexivity|]. split; [reflexivity|]. split; [|split].
  - intros f Hf. apply Hdone, Hall, Hf.
  - intros f Hf. apply Hrest. intros Hp. apply Hf, Hreach. set_solver.
  - intros f b Hf Hget. rewrite (Hdone f (Hall f Hf)) in Hget.
    destruct (GetID (functions editor) f) as [b0|]; [|discriminate].
    injection Hget as <-. unfold side_effects.
    induction b0 as [|i b0 IH]; [reflexivity|].
    cbn [map]. rewrite filter_cons, decide_False; [exact IH|].
    rewrite stripped_instr_clean. discriminate.
Qed.

End StripProofs.

(** ** The flags of a draw, from its pipeline *)

Lemma scissor_regions_spec x y rects :
  TestsFailedCallback.scissor_regions x y rects =
  (existsb (TestsFailedCallback.pixel_in_scissor x y) rects,
   forallb (TestsFailedCallback.pixel_in_scissor x y) rects).
Proof.
  unfold TestsFailedCallback.scissor_regions.
  assert (Hgen : ∀ inRegion inAllRegions,
    fold_left
      (fun '(inRegion, inAllRegions) r =>
         if TestsFailedCallback.pixel_in_scissor x y r
         then (true, inAllRegions) else (inRegion, false))
      rects (inRegion, inAllRegions) =
    (inRegion || existsb (TestsFailedCallback.pixel_in_scissor x y) rects,
     inAllRegions && forallb (TestsFailedCallback.pixel_in_scissor x y) rects)).
  { induction rects as [|r rects IH]; intros a b; simpl.
    - rewrite orb_false_r, andb_true_r. reflexivity.
    - destruct (TestsFailedCallback.pixel_in_scissor x y r); rewrite IH; simpl.
      + rewrite orb_true_r. reflexivity.
      + rewrite andb_false_r. reflexivity. }
  apply Hgen.
Qed.

(** The scissor flags of a draw say where the pixel lies: the draw must fail
    the scissor test when no scissor rectangle in use (the dynamic ones when
    the pipeline has a dynamic scissor, else the pipeline's own) holds the
    pixel, and must pass it when all of them do; with no rectangle at all it
    gets both flags.  The flag that would ask for a redraw with the scissor
    test is never set. *)
Theorem CalculateEventFlags_scissor features info p pipestate :
  let flags := TestsFailedCallback.CalculateEventFlags features info p pipestate in
  let rects := if dynamicScissor p then state_scissors pipestate else scissors p in
  has_flag flags TestMustFail_Scissor =
    negb (existsb (TestsFailedCallback.pixel_in_scissor (cb_x info) (cb_y info)) rects) ∧
  has_flag flags TestMustPass_Scissor =
    forallb (TestsFailedCallback.pixel_in_scissor (cb_x info) (cb_y info)) rects ∧
  has_flag flags TestEnabled_Scissor = false ∧
  (rects = [] ->
   has_flag flags TestMustFail_Scissor = true ∧ has_flag flags TestMustPass_Scissor = true).
Proof.
  cbv zeta.
  assert (Hfail : has_flag (TestsFailedCallback.CalculateEventFlags features info p pipestate)
                    TestMustFail_Scissor =
                  negb (existsb (TestsFailedCallback.pixel_in_scissor (cb_x info) (cb_y info))
                          (if dynamicScissor p then state_scissors pipestate else scissors p))).
  { unfold TestMustFail_Scissor at 1. rewrite has_flag_testbit by lia.
    unfold TestsFailedCallback.CalculateEventFlags. rewrite scissor_regions_spec.
    unfold_flags.
    repeat match goal with
           | |- context [if ?c then _ else _] =>
             lazymatch c with
             | dynamicScissor p => fail
             | _ => destruct c
             end
           end;
    repeat first [ rewrite testbit_lor_bit by lia | rewrite testbit_set_if by lia ];
    rewrite ?Z.bits_0; simpl; rewrite ?andb_false_r, ?orb_false_r, ?andb_true_r; reflexivity. }
  assert (Hpass : has_flag (TestsFailedCallback.CalculateEventFlags features info p pipestate)
                    TestMustPass_Scissor =
                  forallb (TestsFailedCallback.pixel_in_scissor (cb_x info) (cb_y info))
                          (if dynamicScissor p then state_scissors pipestate else scissors p)).
  { unfold TestMustPass_Scissor at 1. rewrite has_flag_testbit by lia.
    unfold TestsFailedCallback.CalculateEventFlags. rewrite scissor_regions_spec.
    unfold_flags.
    repeat match goal with
           | |- context [if ?c then _ else _] =>
             lazymatch c with
             | dynamicScissor p => fail
             | _ => destruct c
             end
           end;
    repeat first [ rewrite testbit_lor_bit by lia | rewrite testbit_set_if by lia ];
    rewrite ?Z.bits_0; simpl; rewrite ?andb_false_r, ?orb_false_r, ?andb_true_r; reflexivity. }
  split; [exact Hfail|]. split; [exact Hpass|].
  split; [apply CalculateEventFlags_no_scissor|].
  intros Hnone. rewrite Hfail, Hpass, Hnone. split; reflexivity.
Qed.

Lemma land_pow2_testbit (m k : Z) : 0 <= k -> (Z.land m (2 ^ k) =? 0) = negb (Z.testbit m k).
Proof.
  intros Hk. pose proof (has_flag_testbit m k Hk) as Hflag.
  unfold has_flag in Hflag. rewrite Z.shiftl_1_l in Hflag.
  rewrite <- Hflag, negb_involutive. reflexivity.
Qed.

(** The sample [PixelHistory] looks at is the sample asked for, or sample 0
    when that index is above the sample count of the image; a draw gets
    [TestMustFail_SampleMask] exactly when the sample mask of its pipeline
    leaves that sample out. *)
Theorem sample_mask_must_fail features imginfo x y sub p pipestate :
  let asked := u32 (sample sub) in
  let looked_at := if u32 (img_samples imginfo) <? asked then 0 else asked in
  looked_at < 32 ->
  VulkanReplay.sampleMask imginfo sub = 2 ^ looked_at ∧
  has_flag
    (TestsFailedCallback.CalculateEventFlags features
       (VulkanReplay.callbackInfo imginfo x y sub) p pipestate)
    TestMustFail_SampleMask = negb (Z.testbit (sampleMask p) looked_at).
Proof.
  intros asked looked_at Hlt.
  assert (Hpos : 0 <= looked_at).
  { subst looked_at asked. destruct (_ <? _); [lia|]. unfold u32. apply Z.mod_pos_bound. lia. }
  assert (Hmask : VulkanReplay.sampleMask imginfo sub = 2 ^ looked_at).
  { unfold VulkanReplay.sampleMask. fold asked. fold looked_at.
    rewrite (proj2 (Z.ltb_lt looked_at 32)) by exact Hlt.
    rewrite Z.shiftl_1_l. apply u32_id. split; [lia|].
    apply Z.pow_lt_mono_r; lia. }
  split; [exact Hmask|].
  unfold TestMustFail_SampleMask at 1. rewrite has_flag_testbit by lia.
  unfold TestsFailedCallback.CalculateEventFlags. unfold_flags.
  change (cb_sampleMask (VulkanReplay.callbackInfo imginfo x y sub))
    with (VulkanReplay.sampleMask imginfo sub).
  rewrite Hmask, land_pow2_testbit by exact Hpos.
  repeat match goal with
         | |- context [let '(_, _) := ?e in _] => destruct e
         | |- context [if ?c then _ else _] =>
           lazymatch c with
           | context [Z.testbit] => fail
           | _ => destruct c
           end
         end;
  repeat first [ rewrite testbit_lor_bit by lia | rewrite testbit_set_if by lia ];
  rewrite ?Z.bits_0; simpl; rewrite ?andb_false_r, ?orb_false_r, ?andb_true_r; reflexivity.
Qed.

(** ** The pipelines of the test-failure pass *)

Section PipelineProofs.
Import VulkanPixelHistoryCallback TestsFailedCallbackPipelines.

Lemma IntersectScissors_same scissor : IntersectScissors scissor scissor = scissor.
Proof.
  unfold IntersectScissors. rewrite !Z.ltb_irrefl. reflexivity.
Qed.

Lemma narrow_scissors_spec info pipeCreateFlags views : ∀ scissors,
  narrow_scissors info pipeCreateFlags views scissors = scissors_to_pixel info views scissors.
Proof.
  induction views as [|view views IH]; intros [|scissor scissors]; try reflexivity.
  cbn [narrow_scissors scissors_to_pixel]. rewrite IH, IntersectScissors_same.
  destruct (has_flag _ _); reflexivity.
Qed.

Lemma ScissorToPixel_cases info view scissor :
  ScissorToPixel info view scissor = empty_scissor ∨
  ScissorToPixel info view scissor =
    {| offset := {| off_x := i32 (cb_x info); off_y := i32 (cb_y info) |};
       extent := {| ext_width := 1; ext_height := 1 |} |}.
Proof.
  unfold ScissorToPixel. destruct (flt (vp_height view) fzero);
    match goal with |- context [if ?c then _ else _] => destruct c end; auto.
Qed.

(** For a pipeline with a dynamic scissor, the scissor of the redraw for the
    scissor test is the scissor narrowed to the pixel when the scissor of
    the draw holds the pixel, the test [CalculateEventFlags] makes, and the
    empty scissor when it does not. *)
Theorem IntersectScissors_keeps_pixel info view scissor original :
  0 <= cb_x info < 2 ^ 31 -> 0 <= cb_y info < 2 ^ 31 ->
  0 <= off_x (offset original) -> 0 <= off_y (offset original) ->
  0 <= ext_width (extent original) -> 0 <= ext_height (extent original) ->
  off_x (offset original) + ext_width (extent original) < 2 ^ 32 ->
  off_y (offset original) + ext_height (extent original) < 2 ^ 32 ->
  IntersectScissors original (ScissorToPixel info view scissor) =
    if TestsFailedCallback.pixel_in_scissor (cb_x info) (cb_y info) original
    then ScissorToPixel info view scissor
    else empty_scissor.
Proof.
  intros Hx Hy Hox Hoy Hw Hh Hxw Hyh.
  unfold TestsFailedCallback.pixel_in_scissor.
  rewrite !u32_id by lia.
  destruct (ScissorToPixel_cases info view scissor) as [-> | ->].
  - unfold IntersectScissors, empty_scissor. cbn [offset extent off_x off_y ext_width ext_height].
    destruct (_ || _); destruct (_ && _); reflexivity.
  - rewrite (i32_small _ Hx), (i32_small _ Hy).
    unfold IntersectScissors. cbn [offset extent off_x off_y ext_width ext_height].
    rewrite !u32_id by lia.
    destruct (Z.ltb_spec (cb_x info) (off_x (offset original)));
      destruct (Z.ltb_spec (off_x (offset original) + ext_width (extent original)) (cb_x info + 1));
      destruct (Z.ltb_spec (cb_y info) (off_y (offset original)));
      destruct (Z.ltb_spec (off_y (offset original) + ext_height (extent original)) (cb_y info + 1));
      destruct (Z.leb_spec (off_x (offset original)) (cb_x info));
      destruct (Z.leb_spec (off_y (offset original)) (cb_y info));
      destruct (Z.ltb_spec (cb_x info) (off_x (offset original) + ext_width (extent original)));
      destruct (Z.ltb_spec (cb_y info) (off_y (offset original) + ext_height (extent original)));
      simpl; try reflexivity; lia.
Qed.

Lemma GetFixedColShader_fields dev framebufferIndex st :
  m_PipeCache (snd (GetFixedColShader dev framebufferIndex st)) = m_PipeCache st ∧
  pipelines (snd (GetFixedColShader dev framebufferIndex st)) = pipelines st.
Proof.
  unfold GetFixedColShader. destruct (m_FixedColFS st !! framebufferIndex); auto.
Qed.

Lemma replace_stages_fields dev pipeCreateFlags replacementShaders framebufferIndex stages :
  ∀ acc,
  let out := fold_left (replace_stage dev pipeCreateFlags replacementShaders framebufferIndex)
               stages acc in
  m_PipeCache (snd out) = m_PipeCache (snd acc) ∧ pipelines (snd out) = pipelines (snd acc).
Proof.
  induction stages as [|s stages IH]; intros acc; [split; reflexivity|].
  cbn [fold_left]. cbv zeta in IH.
  destruct (IH (replace_stage dev pipeCreateFlags replacementShaders framebufferIndex acc s))
    as [Hc Hp].
  cbv zeta. rewrite Hc, Hp. clear IH Hc Hp.
  destruct acc as [done st]. unfold replace_stage.
  destruct (_ && _).
  - pose proof (GetFixedColShader_fields dev framebufferIndex st) as Hf.
    destruct (GetFixedColShader dev framebufferIndex st) as [sh st1]. exact Hf.
  - destruct (negb _); split; reflexivity.
Qed.

(** [CreatePipeline] on a key the cache does not hold. *)
Lemma CreatePipeline_miss dev info basePipeline pipeCreateFlags dynamicScissor
    replacementShaders framebufferIndex st :
  m_PipeCache st !! (basePipeline, pipeCreateFlags) = None ->
  let base := MakeGraphicsPipelineInfo dev basePipeline in
  let on := has_flag pipeCreateFlags in
  ∃ stages st1 pipe st2,
    fold_left (replace_stage dev pipeCreateFlags replacementShaders framebufferIndex)
      (pStages base) ([], st) = (stages, st1) ∧
    vkCreateGraphicsPipelines dev
      {| rs_cullMode :=
           if on TestsFailedCallback.PipelineCreationFlags_DisableCulling
           then VK_CULL_MODE_NONE else rs_cullMode base;
         ds_depthTestEnable :=
           if on TestsFailedCallback.PipelineCreationFlags_DisableDepthTest
           then false else ds_depthTestEnable base;
         ds_depthWriteEnable := false;
         ds_stencilTestEnable :=
           if on TestsFailedCallback.PipelineCreationFlags_DisableStencilTest
           then false else ds_stencilTestEnable base;
         ds_depthBoundsTestEnable :=
           if on TestsFailedCallback.PipelineCreationFlags_DisableDepthBoundsTest
           then false else ds_depthBoundsTestEnable base;
         ms_pSampleMask := cb_sampleMask info;
         pStages := stages;
         vs_pViewports := vs_pViewports base;
         vs_pScissors :=
           if negb dynamicScissor
           then narrow_scissors info pipeCreateFlags (vs_pViewports base) (vs_pScissors base)
           else vs_pScissors base |} st1 = (pipe, st2) ∧
    m_PipeCache st1 = m_PipeCache st ∧ pipelines st1 = pipelines st ∧
    CreatePipeline dev info basePipeline pipeCreateFlags dynamicScissor
      replacementShaders framebufferIndex st =
    (pipe, {| m_PipeCache := <[(basePipeline, pipeCreateFlags) := pipe]> (m_PipeCache st2);
              m_FixedColFS := m_FixedColFS st2;
              pipelines := pipelines st2 |}).
Proof.
  intros Hmiss base on. unfold CreatePipeline. rewrite Hmiss. fold base. fold on.
  pose proof (replace_stages_fields dev pipeCreateFlags replacementShaders framebufferIndex
                (pStages base) ([], st)) as Hf.
  cbv zeta in Hf.
  destruct (fold_left _ (pStages base) ([], st)) as [stages st1]. cbn [snd] in Hf.
  destruct Hf as [Hc Hp].
  destruct (vkCreateGraphicsPipelines dev _ st1) as [pipe st2] eqn:Hcreate.
  exists stages, st1, pipe, st2. repeat split; auto.
Qed.

Lemma vkCreateGraphicsPipelines_fields dev ci st :
  let out := vkCreateGraphicsPipelines dev ci st in
  m_PipeCache (snd out) = m_PipeCache st ∧
  (creates dev = true ->
   pipelines (snd out) = pipelines st ++ [(fst out, ci)] ∧
   (fst out ∉ map fst (pipelines st))) ∧
  (creates dev = false -> pipelines (snd out) = pipelines st).
Proof.
  unfold vkCreateGraphicsPipelines. destruct (creates dev); cbn [fst snd].
  - split; [reflexivity|]. split; [|discriminate]. intros _. split; [reflexivity|].
    apply fresh_handle.
  - split; [reflexivity|]. split; [discriminate|]. reflexivity.
Qed.

Ltac created_fields Hcreate Hdev :=
  match type of Hcreate with
  | vkCreateGraphicsPipelines ?dev ?ci ?st = _ =>
    pose proof (vkCreateGraphicsPipelines_fields dev ci st) as Hdev;
    rewrite Hcreate in Hdev
  end.

(** A second request for the same base pipeline and the same flags gets the
    pipeline of the first, whatever its other arguments are, and leaves the
    cache and the device as they are; the first request leaves the other
    keys of the cache alone and creates at most one pipeline. *)
Theorem CreatePipeline_cached dev info basePipeline pipeCreateFlags
    dynamicScissor replacementShaders framebufferIndex
    dynamicScissor' replacementShaders' framebufferIndex' st :
  let first := CreatePipeline dev info basePipeline pipeCreateFlags dynamicScissor
                 replacementShaders framebufferIndex st in
  CreatePipeline dev info basePipeline pipeCreateFlags dynamicScissor'
    replacementShaders' framebufferIndex' (snd first) = first ∧
  m_PipeCache (snd first) !! (basePipeline, pipeCreateFlags) = Some (fst first) ∧
  (∀ key, key ≠ (basePipeline, pipeCreateFlags) ->
          m_PipeCache (snd first) !! key = m_PipeCache st !! key) ∧
  (length (pipelines (snd first)) ≤ S (length (pipelines st)))%nat.
Proof.
  intros first.
  destruct (m_PipeCache st !! (basePipeline, pipeCreateFlags)) as [pipe|] eqn:Hhit.
  - assert (Hfirst : first = (pipe, st)).
    { subst first. unfold CreatePipeline. rewrite Hhit. reflexivity. }
    rewrite Hfirst. cbn [fst snd]. unfold CreatePipeline. rewrite Hhit. repeat split; auto.
  - destruct (CreatePipeline_miss dev info basePipeline pipeCreateFlags dynamicScissor
                replacementShaders framebufferIndex st Hhit)
      as (stages & st1 & pipe & st2 & _ & Hcreate & Hc & Hp & Hfirst).
    fold first in Hfirst. rewrite Hfirst. cbn [fst snd m_PipeCache pipelines].
    created_fields Hcreate Hdev. cbn [fst snd] in Hdev. destruct Hdev as (Hc2 & Hok & Hfail).
    split; [|split; [|split]].
    + unfold CreatePipeline. cbn [m_PipeCache]. rewrite lookup_insert_eq. reflexivity.
    + apply lookup_insert_eq.
    + intros key Hkey. rewrite lookup_insert_ne by congruence. congruence.
    + destruct (creates dev).
      * destruct (Hok eq_refl) as [-> _]. rewrite length_app, Hp. simpl. lia.
      * rewrite (Hfail eq_refl), Hp. lia.
Qed.

(** The pipeline built for a pipeline with a static scissor has every
    scissor narrowed to the pixel by its viewport and nothing else: with
    [PipelineCreationFlags_IntersectOriginalScissor] the original scissor
    is not taken into account.  Whatever the flags, the pipeline writes no
    depth and has the sample mask of the sample looked at. *)
Theorem static_scissor_not_intersected dev info basePipeline pipeCreateFlags
    replacementShaders framebufferIndex st :
  m_PipeCache st !! (basePipeline, pipeCreateFlags) = None ->
  creates dev = true ->
  let base := MakeGraphicsPipelineInfo dev basePipeline in
  let out := CreatePipeline dev info basePipeline pipeCreateFlags false
               replacementShaders framebufferIndex st in
  ∃ ci,
    pipelines (snd out) = pipelines st ++ [(fst out, ci)] ∧
    (fst out ∉ map fst (pipelines st)) ∧
    vs_pScissors ci = scissors_to_pixel info (vs_pViewports base) (vs_pScissors base) ∧
    vs_pViewports ci = vs_pViewports base ∧
    ds_depthWriteEnable ci = false ∧
    ms_pSampleMask ci = cb_sampleMask info.
Proof.
  intros Hmiss Hok base out.
  destruct (CreatePipeline_miss dev info basePipeline pipeCreateFlags false
              replacementShaders framebufferIndex st Hmiss)
    as (stages & st1 & pipe & st2 & _ & Hcreate & Hc & Hp & Hout).
  fold out in Hout. rewrite Hout. cbn [fst snd pipelines].
  created_fields Hcreate Hdev. cbn [fst snd] in Hdev. destruct Hdev as (_ & Hdev & _).
  destruct (Hdev Hok) as [Hnew Hfresh]. rewrite Hp in Hnew, Hfresh.
  eexists. split; [exact Hnew|]. split; [exact Hfresh|].
  cbn [vs_pScissors vs_pViewports ds_depthWriteEnable ms_pSampleMask negb].
  rewrite narrow_scissors_spec. repeat split; reflexivity.
Qed.

Lemma redraws_keep_tests eid eventFlags tf :
  Forall (fun r => keeps_test r = true)
    (redraws_since tf (TestsFailedCallback.ReplayDrawWithTests eid eventFlags tf)).
Proof.
  unfold TestsFailedCallback.ReplayDrawWithTests, redraws_since.
  repeat match goal with
         | |- context [if ?c then _ else _] => destruct c
         end;
    cbn [TestsFailedCallback.cmd TestsFailedCallback.ReplayDraw];
    rewrite <- ?app_assoc; rewrite ?drop_app_length, ?drop_all;
    repeat constructor.
Qed.

(** The pipeline created for a redraw has the test the redraw is for as
    the pipeline of the draw has it; culling is never turned off; the depth
    bounds test stays for the redraws of the stencil and depth tests; the
    stencil and depth tests are off in every redraw but their own; depth is
    never written, and the sample mask is the one of the sample looked
    at. *)
Theorem redraw_pipeline_keeps_test dev info eid eventFlags tf basePipeline dynamicScissor
    replacementShaders framebufferIndex st r :
  r ∈ redraws_since tf (TestsFailedCallback.ReplayDrawWithTests eid eventFlags tf) ->
  m_PipeCache st !! (basePipeline, TestsFailedCallback.rd_pipeFlags r) = None ->
  creates dev = true ->
  let out := CreatePipeline dev info basePipeline (TestsFailedCallback.rd_pipeFlags r)
               dynamicScissor replacementShaders framebufferIndex st in
  ∃ ci,
    pipelines (snd out) = pipelines st ++ [(fst out, ci)] ∧
    pipeline_tests ci =
      tests_kept (TestsFailedCallback.rd_test r)
        (pipeline_tests (MakeGraphicsPipelineInfo dev basePipeline)) ∧
    ds_depthWriteEnable ci = false ∧
    ms_pSampleMask ci = cb_sampleMask info.
Proof.
  intros Hr Hmiss Hok out.
  pose proof (redraws_keep_tests eid eventFlags tf) as Hkeep.
  rewrite Forall_forall in Hkeep. specialize (Hkeep r Hr).
  destruct (CreatePipeline_miss dev info basePipeline (TestsFailedCallback.rd_pipeFlags r)
              dynamicScissor replacementShaders framebufferIndex st Hmiss)
    as (stages & st1 & pipe & st2 & _ & Hcreate & Hc & Hp & Hout).
  fold out in Hout. rewrite Hout. cbn [fst snd pipelines].
  created_fields Hcreate Hdev. cbn [fst snd] in Hdev. destruct Hdev as (_ & Hdev & _).
  destruct (Hdev Hok) as [Hnew _]. rewrite Hp in Hnew.
  eexists. split; [exact Hnew|].
  split; [|split; reflexivity].
  unfold pipeline_tests, tests_kept.
  cbn [rs_cullMode ds_depthTestEnable ds_stencilTestEnable ds_depthBoundsTestEnable].
  unfold keeps_test in Hkeep.
  repeat (apply andb_true_iff in Hkeep as [Hkeep ?]).
  repeat match goal with
         | H : negb _ = true |- _ => apply negb_true_iff in H
         | H : eqb _ _ = true |- _ => apply eqb_prop in H
         end.
  rewrite Hkeep.
  repeat match goal with H : has_flag _ _ = _ |- _ => rewrite H; clear H end.
  destruct (Z.eqb_spec (TestsFailedCallback.rd_test r) TestEnabled_DepthBounds) as [Hb|Hb];
    destruct (Z.eqb_spec (TestsFailedCallback.rd_test r) TestEnabled_StencilTesting) as [Hs|Hs];
    destruct (Z.eqb_spec (TestsFailedCallback.rd_test r) TestEnabled_DepthTesting) as [Hd|Hd];
    try reflexivity; exfalso; clear -Hb Hs Hd; unfold_flags;
    change (Z.shiftl 1 3) with 8 in *; change (Z.shiftl 1 4) with 16 in *;
    change (Z.shiftl 1 5) with 32 in *; congruence.
Qed.

End PipelineProofs.

(** ** The events of the passes and the device calls *)

Section PassesProofs.
Variable U : ResourceUsageEnum.
Variable env : Replays.

Lemma gather_events_fold occlCb events : ∀ acc,
  let direct ev :=
    isDirectWrite U (EventUsage.usage ev) || (EventUsage.usage ev =? Clear U) in
  let drawn ev :=
    negb (direct ev) &&
    (0 <? VulkanOcclusionCallback.GetOcclusionResult (undefined env) occlCb
            (EventUsage.eventId ev)) in
  fold_left (VulkanReplay.gather_step U env occlCb) events acc =
  (acc.1 ++ map EventUsage.eventId (filter (fun ev => direct ev || drawn ev = true) events),
   acc.2 ++ map EventUsage.eventId (filter (fun ev => drawn ev = true) events)).
Proof.
  induction events as [|ev events IH]; intros [modEvents drawEvents] direct drawn.
  - simpl. rewrite !app_nil_r. reflexivity.
  - cbn [fold_left]. rewrite IH. fold direct drawn. cbn [fst snd].
    rewrite !filter_cons. unfold VulkanReplay.gather_step.
    subst drawn. cbv beta. fold (direct ev).
    destruct (direct ev) eqn:Hdirect; cbn [negb andb orb].
    + rewrite decide_True by reflexivity. rewrite decide_False by discriminate.
      cbn [fst snd map]. rewrite <- app_assoc. reflexivity.
    + destruct (0 <? _) eqn:Hocc.
      * rewrite !decide_True by reflexivity. cbn [fst snd map].
        rewrite <- !app_assoc. reflexivity.
      * rewrite !decide_False by discriminate. reflexivity.
Qed.

(** The colour pass gets every clear and direct write of the list and every
    other event whose occlusion result is above 0, the test-failure pass
    the latter alone, both in the order of the list; so every event of the
    test-failure pass is an event of the colour pass, and neither pass has
    more events than the list. *)
Theorem gather_events_filters occlCb events :
  let direct ev :=
    isDirectWrite U (EventUsage.usage ev) || (EventUsage.usage ev =? Clear U) in
  let drawn ev :=
    negb (direct ev) &&
    (0 <? VulkanOcclusionCallback.GetOcclusionResult (undefined env) occlCb
            (EventUsage.eventId ev)) in
  let modEvents := fst (VulkanReplay.gather_events U env occlCb events) in
  let drawEvents := snd (VulkanReplay.gather_events U env occlCb events) in
  modEvents =
    map EventUsage.eventId (filter (fun ev => direct ev || drawn ev = true) events) ∧
  drawEvents = map EventUsage.eventId (filter (fun ev => drawn ev = true) events) ∧
  drawEvents `sublist_of` modEvents ∧
  modEvents `sublist_of` map EventUsage.eventId events.
Proof.
  intros direct drawn modEvents drawEvents.
  pose proof (gather_events_fold occlCb events ([], [])) as Hfold.
  cbv zeta in Hfold. fold direct drawn in Hfold. cbn [fst snd app] in Hfold.
  assert (Hmod : modEvents =
            map EventUsage.eventId (filter (fun ev => direct ev || drawn ev = true) events)).
  { subst modEvents. unfold VulkanReplay.gather_events. rewrite Hfold. reflexivity. }
  assert (Hdraw : drawEvents =
            map EventUsage.eventId (filter (fun ev => drawn ev = true) events)).
  { subst drawEvents. unfold VulkanReplay.gather_events. rewrite Hfold. reflexivity. }
  split; [exact Hmod|]. split; [exact Hdraw|]. rewrite Hmod, Hdraw. split.
  - change (map ?f ?l) with (fmap (M := list) f l). apply fmap_sublist.
    clear. induction events as [|ev events IH]; [constructor|].
    rewrite !filter_cons. destruct (drawn ev) eqn:Hd.
    + rewrite decide_True by reflexivity.
      rewrite decide_True by (rewrite orb_true_r; reflexivity).
      apply sublist_skip. exact IH.
    + rewrite decide_False by discriminate.
      destruct (decide (direct ev || false = true)); [apply sublist_cons|]; exact IH.
  - change (map ?f ?l) with (fmap (M := list) f l). apply fmap_sublist, sublist_filter.
Qed.

(** Whatever [PixelHistory] returns, its calls for query pools, resources
    and the shader cache are in order: every query pool it creates it
    destroys, the resources and the shader cache are set up first and
    released last, each once, every replay runs with a pool, the resources
    and the shader cache at hand; when the passes run there are between two
    and five replays.  The callback objects are not among these calls. *)
Theorem PixelHistory_calls_in_order pixelHistory imginfo events x y sub :
  ∃ history log,
    VulkanReplay.PixelHistory U env imginfo events x y sub pixelHistory = Some (history, log) ∧
    in_order log 0 false false = true ∧
    (log = [] ∨ (2 ≤ replays log ≤ 5)%nat).
Proof.
  unfold VulkanReplay.PixelHistory.
  destruct pixelHistory; [|exists [], []; auto]. simpl negb. cbv iota.
  case_bool_decide as Hevents; [exists [], []; auto|].
  destruct (format imginfo =? VK_FORMAT_UNDEFINED); [exists [], []; auto|].
  set (base := VulkanReplay.build_history U env
                 (VulkanReplay.tfCb U env imginfo events x y sub)
                 (VulkanReplay.drawEvents U env imginfo events x y sub) events).
  destruct (expand_loop_spec env (VulkanReplay.cb U env imginfo events x y sub)
              (VulkanReplay.eventsInfo U env imginfo events x y sub)
              (format imginfo) base (length base) [] ∅) as [ewf Hloop]; [lia|].
  simpl in Hloop. cbv zeta. rewrite Hloop. clear Hloop.
  set (expanded := flat_map _ base). clearbody expanded. clear base.
  assert (Hfrag : ∃ history log',
    (if (0 <? size ewf)%nat
     then VulkanReplay.per_fragment env
            (VulkanReplay.callbackInfo imginfo x y sub) (format imginfo) expanded ewf
     else (expanded, [])) = (history, log') ∧
    (log' = [] ∨ ∃ e, log' = [ReplayLog e] ∨
                     ∃ n, log' = [ReplayLog e; CreateOcclusionPool n; ReplayLog e;
                                  DestroyQueryPool])).
  { destruct (0 <? size ewf)%nat; [|eauto].
    unfold VulkanReplay.per_fragment.
    destruct (per_fragment_pass env _ ewf _) as [perFragmentCB bp].
    destruct (fold_left _ _ (expanded, ∅, 0)) as [[h1 d1] n1].
    destruct (0 <? n1).
    - destruct (fold_left _ _ (_, 0)) as [h2 o2]. eexists _, _. split; [reflexivity|].
      right. eexists. right. eexists. reflexivity.
    - destruct (fold_left _ _ (_, 0)) as [h2 o2]. eexists _, _. split; [reflexivity|].
      right. eexists. left. reflexivity. }
  destruct Hfrag as (history & log' & -> & Hlog').
  eexists _, _. split; [reflexivity|].
  destruct (VulkanReplay.multisampled imginfo);
    destruct (0 <? length (VulkanReplay.drawEvents U env imginfo events x y sub))%nat;
    destruct Hlog' as [->|[e [->|[n ->]]]]; split; try reflexivity;
    right; vm_compute; lia.
Qed.

End PassesProofs.

(** ** The discarded-fragments pass *)

Section DiscardedProofs.
Import DiscardedFragmentsReplay.

Lemma primitives_recorded_size st :
  primitives_recorded st ->
  size (VulkanPixelHistoryDiscardedFragmentsCallback.m_OcclusionIndices (callback st)) =
  length (cmd st).
Proof.
  intros (Hnd & _ & Hmap). rewrite Hmap.
  rewrite map_size_list_to_map.
  - rewrite !length_map. reflexivity.
  - change (fmap fst (map ?f ?l)) with (map fst (map f l)). rewrite map_map. exact Hnd.
Qed.

Lemma query_primitive_recorded eid st primId :
  primitives_recorded st ->
  (eid, u32 primId) ∉ map query_key (cmd st) ->
  Z.of_nat (length (cmd st)) < 2 ^ 32 ->
  primitives_recorded (query_primitive eid st primId) ∧
  cmd (query_primitive eid st primId) =
    cmd st ++ [ {| q_event := eid; q_primId := u32 primId;
                   q_index := Z.of_nat (length (cmd st)) |} ] ∧
  m_Events (query_primitive eid st primId) = m_Events st.
Proof.
  intros Hrec Hfresh Hfit.
  pose proof (primitives_recorded_size st Hrec) as Hsize.
  destruct Hrec as (Hnd & Hidx & Hmap).
  assert (Hcmd : cmd (query_primitive eid st primId) =
                 cmd st ++ [ {| q_event := eid; q_primId := u32 primId;
                                q_index := Z.of_nat (length (cmd st)) |} ]).
  { unfold query_primitive. cbn [cmd]. rewrite Hsize, (u32_id (Z.of_nat (length (cmd st)))) by lia. reflexivity. }
  split; [|split; [exact Hcmd|reflexivity]].
  unfold primitives_recorded. rewrite Hcmd. split; [|split].
  - rewrite map_app. apply NoDup_app. split; [exact Hnd|]. split.
    + intros k Hk Hin. simpl in Hin. apply list_elem_of_singleton in Hin. subst k.
      apply Hfresh. exact Hk.
    + simpl. apply NoDup_singleton.
  - rewrite map_app, length_app, seq_app, map_app, Hidx. reflexivity.
  - unfold query_primitive. cbn [callback
      VulkanPixelHistoryDiscardedFragmentsCallback.m_OcclusionIndices].
    rewrite Hsize, (u32_id (Z.of_nat (length (cmd st)))) by lia. rewrite map_app. simpl.
    change (map ?f ?l) with (fmap (M := list) f l).
    rewrite list_to_map_snoc.
    + rewrite Hmap. reflexivity.
    + change (fmap fst (fmap ?f ?l)) with (map fst (map f l)). rewrite map_map. exact Hfresh.
Qed.

Lemma query_primitives_recorded eid primIds : ∀ st,
  primitives_recorded st ->
  NoDup (map u32 primIds) ->
  (∀ primId, primId ∈ primIds -> (eid, u32 primId) ∉ map query_key (cmd st)) ->
  Z.of_nat (length (cmd st) + length primIds) < 2 ^ 32 ->
  let st' := fold_left (query_primitive eid) primIds st in
  primitives_recorded st' ∧
  map query_key (cmd st') = map query_key (cmd st) ++ map (fun p => (eid, u32 p)) primIds ∧
  m_Events st' = m_Events st.
Proof.
  induction primIds as [|primId primIds IH]; intros st Hrec Hnd Hfresh Hfit.
  - simpl. rewrite app_nil_r. auto.
  - cbn [fold_left]. simpl in Hnd. apply NoDup_cons in Hnd as [Hp Hnd].
    destruct (query_primitive_recorded eid st primId Hrec) as (Hrec1 & Hcmd1 & Hev1).
    { apply Hfresh. apply list_elem_of_here. }
    { simpl in Hfit. lia. }
    destruct (IH (query_primitive eid st primId) Hrec1 Hnd) as (Hrec2 & Hkeys & Hev2).
    + intros p Hin. rewrite Hcmd1, map_app. simpl. intros Hk.
      apply elem_of_app in Hk as [Hk|Hk].
      * apply (Hfresh p); [apply list_elem_of_further; exact Hin|exact Hk].
      * apply list_elem_of_singleton in Hk. unfold query_key in Hk. simpl in Hk.
        injection Hk as Hk. apply Hp. rewrite <- Hk. apply list_elem_of_fmap. eauto.
    + rewrite Hcmd1, length_app. simpl in *. lia.
    + cbv zeta. split; [exact Hrec2|]. split; [|congruence].
      rewrite Hkeys, Hcmd1, map_app. simpl. rewrite <- app_assoc. reflexivity.
Qed.

Lemma discarded_replay_snoc frame d st :
  replay (frame ++ [d]) st = PreDraw (draw_eid d) (replay frame st).
Proof. unfold replay. rewrite fold_left_app. reflexivity. Qed.

Lemma primitives_of_snoc events frame d :
  primitives_of events (frame ++ [d]) =
  primitives_of events frame ++
  map (fun primId => (draw_eid d, u32 primId)) (default [] (events !! draw_eid d)).
Proof. unfold primitives_of. rewrite flat_map_app. simpl. rewrite app_nil_r. reflexivity. Qed.

Lemma primitives_of_events events frame k :
  k ∈ primitives_of events frame -> k.1 ∈ map draw_eid frame.
Proof.
  unfold primitives_of. intros Hin.
  apply list_elem_of_In, in_flat_map in Hin as (d & Hd & Hk).
  apply list_elem_of_In in Hd. apply list_elem_of_In in Hk.
  apply list_elem_of_fmap in Hk as (p & -> & _).
  simpl. apply list_elem_of_fmap. eauto.
Qed.

(** What the replay of a frame leaves in the callback. *)
Lemma discarded_replay_spec events frame :
  NoDup (map draw_eid frame) ->
  (∀ eid primIds, events !! eid = Some primIds -> NoDup (map u32 primIds)) ->
  Z.of_nat (length (primitives_of events frame)) < 2 ^ 32 ->
  let st := replay frame (create events) in
  primitives_recorded st ∧
  map query_key (cmd st) = primitives_of events frame ∧
  m_Events st = events.
Proof.
  intros Hnd Hprims.
  induction frame as [|d frame IH] using rev_ind; intros Hfit.
  - cbv zeta. unfold primitives_recorded. simpl. repeat split; constructor.
  - rewrite map_app in Hnd. apply NoDup_app in Hnd as (Hnd & Hfresh & _).
    rewrite primitives_of_snoc, length_app in Hfit.
    rewrite length_map in Hfit.
    destruct (IH Hnd) as (Hrec & Hkeys & Hev); [lia|].
    cbv zeta. rewrite discarded_replay_snoc, primitives_of_snoc.
    set (st := replay frame (create events)) in *.
    unfold PreDraw. rewrite Hev.
    destruct (events !! draw_eid d) as [primIds|] eqn:Hd; cbn [from_option id] in *.
    + destruct (query_primitives_recorded (draw_eid d) primIds st Hrec (Hprims _ _ Hd))
        as (Hrec' & Hkeys' & Hev').
      * intros p _ Hk. rewrite Hkeys in Hk. apply primitives_of_events in Hk. simpl in Hk.
        apply (Hfresh (draw_eid d)); [exact Hk|simpl; apply list_elem_of_here].
      * assert (Hlen : length (cmd st) = length (primitives_of events frame)).
        { rewrite <- Hkeys, length_map. reflexivity. }
        rewrite Hlen. lia.
      * split; [exact Hrec'|]. split; [rewrite Hkeys', Hkeys; reflexivity|congruence].
    + simpl. rewrite app_nil_r. auto.
Qed.

Lemma sum_list_perm (l l' : list nat) : l ≡ₚ l' -> sum_list l = sum_list l'.
Proof. induction 1; simpl; lia. Qed.

Lemma total_primitives_delete (events : gmap Z (list Z)) eid primIds :
  events !! eid = Some primIds ->
  total_primitives events = (length primIds + total_primitives (delete eid events))%nat.
Proof.
  intros Hd. unfold total_primitives.
  change (map ?f ?l) with (fmap (M := list) f l).
  pose proof (map_to_list_delete events eid primIds Hd) as Hperm.
  apply (fmap_Permutation (fun kv : Z * list Z => length kv.2)) in Hperm.
  apply sum_list_perm in Hperm. rewrite <- Hperm. reflexivity.
Qed.

Lemma total_primitives_insert (events : gmap Z (list Z)) eid primIds :
  total_primitives (<[eid := primIds]> events) =
  (length primIds + total_primitives (delete eid events))%nat.
Proof.
  rewrite (total_primitives_delete (<[eid := primIds]> events) eid primIds)
    by apply lookup_insert_eq.
  rewrite delete_insert_eq. reflexivity.
Qed.

Lemma primitives_of_delete events eid frame :
  eid ∉ map draw_eid frame ->
  primitives_of (delete eid events) frame = primitives_of events frame.
Proof.
  induction frame as [|d frame IH]; intros Hout; [reflexivity|].
  unfold primitives_of in *. cbn [flat_map]. simpl in Hout.
  apply not_elem_of_cons in Hout as [Hne Hout].
  rewrite IH by exact Hout. rewrite lookup_delete_ne by congruence. reflexivity.
Qed.

(** With every draw replayed once, the primitives of the frame are among
    the primitives of the events. *)
Lemma primitives_of_total frame : ∀ events,
  NoDup (map draw_eid frame) ->
  (length (primitives_of events frame) ≤ total_primitives events)%nat.
Proof.
  induction frame as [|d frame IH]; intros events Hnd; [simpl; lia|].
  simpl in Hnd. apply NoDup_cons in Hnd as [Hd Hnd].
  change (primitives_of events (d :: frame))
    with (map (fun primId => (draw_eid d, u32 primId)) (default [] (events !! draw_eid d)) ++
          primitives_of events frame).
  rewrite length_app, length_map.
  destruct (events !! draw_eid d) as [primIds|] eqn:Hlook; cbn [from_option id].
  - rewrite (total_primitives_delete events (draw_eid d) primIds Hlook).
    rewrite <- (primitives_of_delete events (draw_eid d) frame Hd).
    specialize (IH (delete (draw_eid d) events) Hnd). lia.
  - simpl. apply IH. exact Hnd.
Qed.

(** With every draw of the frame replayed once and no primitive listed
    twice for an event, the pass records one query for every primitive of
    every listed draw, in the order of the frame and of the lists, numbered
    0, 1, 2, ..., no more than the events have primitives; afterwards
    [PrimitiveDiscarded] tells for a primitive with a query whether the
    device counted no sample for that query, and gives false for any other
    primitive. *)
Theorem discarded_result_is_own_query events frame gpu u :
  NoDup (map draw_eid frame) ->
  (∀ eid primIds, events !! eid = Some primIds -> NoDup (map u32 primIds)) ->
  Z.of_nat (total_primitives events) < 2 ^ 32 ->
  let st := run frame gpu events in
  map query_key (cmd st) = primitives_of events frame ∧
  map q_index (cmd st) = map Z.of_nat (seq 0%nat (length (cmd st))) ∧
  (length (cmd st) ≤ total_primitives events)%nat ∧
  (∀ q, q ∈ cmd st ->
     VulkanPixelHistoryDiscardedFragmentsCallback.PrimitiveDiscarded u (callback st)
       (q_event q) (q_primId q) = (gpu (q_index q) =? 0)) ∧
  (∀ eid primId, (eid, primId) ∉ primitives_of events frame ->
     VulkanPixelHistoryDiscardedFragmentsCallback.PrimitiveDiscarded u (callback st)
       eid primId = false).
Proof.
  intros Hnd Hprims Hfit st.
  pose proof (primitives_of_total frame events Hnd) as Htotal.
  destruct (discarded_replay_spec events frame Hnd Hprims) as (Hrec & Hkeys & _); [lia|].
  pose proof (primitives_recorded_size _ Hrec) as Hsize.
  destruct Hrec as (Hkeysnd & Hidx & Hmap).
  set (st0 := replay frame (create events)) in *.
  assert (Hcmd : cmd st = cmd st0) by reflexivity.
  assert (Hind : VulkanPixelHistoryDiscardedFragmentsCallback.m_OcclusionIndices (callback st) =
                 VulkanPixelHistoryDiscardedFragmentsCallback.m_OcclusionIndices (callback st0))
    by reflexivity.
  assert (Hres : VulkanPixelHistoryDiscardedFragmentsCallback.m_OcclusionResults (callback st) =
                 map (fun i => gpu (Z.of_nat i)) (seq 0%nat (length (cmd st0)))).
  { subst st. unfold run, FetchOcclusionResults. fold st0. cbn. rewrite Hsize. reflexivity. }
  rewrite Hcmd. split; [exact Hkeys|]. split; [exact Hidx|]. split.
  { rewrite <- (length_map query_key), Hkeys. exact Htotal. }
  split.
  - intros q Hq. unfold VulkanPixelHistoryDiscardedFragmentsCallback.PrimitiveDiscarded.
    rewrite Hind, Hmap.
    rewrite (elem_of_list_to_map_1 _ (query_key q) (q_index q)).
    + rewrite Hres, read_at_fetched; [reflexivity|].
      assert (Hin : q_index q ∈ map q_index (cmd st0)) by (apply list_elem_of_fmap; eauto).
      rewrite Hidx in Hin. apply list_elem_of_fmap in Hin as (i & -> & Hi).
      apply elem_of_seq in Hi. lia.
    + change (fmap fst (map ?f ?l)) with (map fst (map f l)). rewrite map_map. exact Hkeysnd.
    + apply list_elem_of_fmap. exists q. auto.
  - intros eid primId Hout.
    unfold VulkanPixelHistoryDiscardedFragmentsCallback.PrimitiveDiscarded.
    rewrite Hind, Hmap. rewrite not_elem_of_list_to_map_1; [reflexivity|].
    change (fmap fst (map ?f ?l)) with (map fst (map f l)). rewrite map_map.
    change (map (fun x => (query_key x, q_index x).1) (cmd st0)) with (map query_key (cmd st0)).
    rewrite Hkeys. exact Hout.
Qed.

(** Without the lists being free of repetitions: the indices stay below the
    number of queries recorded. *)
Lemma query_primitives_bounded eid primIds : ∀ st,
  (size (VulkanPixelHistoryDiscardedFragmentsCallback.m_OcclusionIndices (callback st)) ≤
   length (cmd st))%nat ->
  Forall (fun q => 0 <= q_index q < Z.of_nat (length (cmd st))) (cmd st) ->
  Z.of_nat (length (cmd st) + length primIds) < 2 ^ 32 ->
  let st' := fold_left (query_primitive eid) primIds st in
  (size (VulkanPixelHistoryDiscardedFragmentsCallback.m_OcclusionIndices (callback st')) ≤
   length (cmd st'))%nat ∧
  Forall (fun q => 0 <= q_index q < Z.of_nat (length (cmd st'))) (cmd st') ∧
  length (cmd st') = (length (cmd st) + length primIds)%nat ∧
  m_Events st' = m_Events st.
Proof.
  induction primIds as [|primId primIds IH]; intros st Hsize Hall Hfit.
  - simpl. rewrite Nat.add_0_r. auto.
  - cbn [fold_left]. simpl length in Hfit.
    destruct (IH (query_primitive eid st primId)) as (Hsize' & Hall' & Hlen' & Hev').
    + unfold query_primitive.
      cbn [callback cmd VulkanPixelHistoryDiscardedFragmentsCallback.m_OcclusionIndices].
      rewrite length_app. simpl.
      rewrite map_size_insert. destruct (_ !! (eid, u32 primId)); simpl; lia.
    + unfold query_primitive. cbn [cmd]. rewrite length_app. simpl.
      apply Forall_app. split.
      * eapply Forall_impl; [exact Hall|]. simpl. intros q Hq. lia.
      * constructor; [|constructor]. simpl. rewrite u32_id by lia. lia.
    + unfold query_primitive. cbn [cmd]. rewrite length_app. simpl. lia.
    + cbv zeta. split; [exact Hsize'|]. split; [exact Hall'|]. split; [|exact Hev'].
      rewrite Hlen'. unfold query_primitive. cbn [cmd]. rewrite length_app. simpl. lia.
Qed.

Lemma discarded_replay_bounded events frame :
  Z.of_nat (length (primitives_of events frame)) < 2 ^ 32 ->
  let st := replay frame (create events) in
  (size (VulkanPixelHistoryDiscardedFragmentsCallback.m_OcclusionIndices (callback st)) ≤
   length (cmd st))%nat ∧
  Forall (fun q => 0 <= q_index q < Z.of_nat (length (cmd st))) (cmd st) ∧
  length (cmd st) = length (primitives_of events frame) ∧
  m_Events st = events.
Proof.
  induction frame as [|d frame IH] using rev_ind; intros Hfit.
  - cbv zeta. simpl. rewrite map_size_empty. repeat split; auto.
  - rewrite primitives_of_snoc, length_app, length_map in Hfit.
    destruct IH as (Hsize & Hall & Hlen & Hev); [lia|].
    cbv zeta. rewrite discarded_replay_snoc, primitives_of_snoc, length_app, length_map.
    set (st := replay frame (create events)) in *.
    unfold PreDraw. rewrite Hev.
    destruct (events !! draw_eid d) as [primIds|] eqn:Hd; cbn [from_option id] in *.
    + destruct (query_primitives_bounded (draw_eid d) primIds st Hsize Hall)
        as (Hsize' & Hall' & Hlen' & Hev'); [lia|].
      split; [exact Hsize'|]. split; [exact Hall'|]. split; [lia|congruence].
    + simpl. rewrite Nat.add_0_r. auto.
Qed.

End DiscardedProofs.

Section PrimitivesProofs.
Variable env : Replays.

Lemma total_primitives_push (events : gmap Z (list Z)) eid primId :
  total_primitives (<[eid := default [] (events !! eid) ++ [primId]]> events) =
  S (total_primitives events).
Proof.
  rewrite total_primitives_insert.
  destruct (events !! eid) as [primIds|] eqn:Hd; cbn [from_option id].
  - rewrite (total_primitives_delete events eid primIds Hd), length_app. simpl. lia.
  - rewrite delete_id by exact Hd. simpl. reflexivity.
Qed.

Lemma primitive_step_counted perFragmentCB bp eventsWithFrags st h :
  st.2 = u32 (Z.of_nat (total_primitives st.1.2)) ->
  let st' := VulkanReplay.primitive_step env perFragmentCB bp eventsWithFrags st h in
  st'.2 = u32 (Z.of_nat (total_primitives st'.1.2)) ∧
  (total_primitives st'.1.2 ≤ S (total_primitives st.1.2))%nat.
Proof.
  destruct st as [[history d] n]. cbn [fst snd]. intros Hn.
  unfold VulkanReplay.primitive_step.
  destruct (history !! h) as [pm|]; [|cbn [fst snd]; split; [exact Hn|lia]].
  destruct (eventsWithFrags !! eventId pm); [|cbn [fst snd]; split; [exact Hn|lia]].
  destruct (primitiveID pm =? 1); cbn [fst snd]; [|split; [exact Hn|lia]].
  rewrite total_primitives_push. split; [|lia].
  rewrite Hn. unfold u32. rewrite Zplus_mod_idemp_l. f_equal. lia.
Qed.

Lemma primitive_steps_counted perFragmentCB bp eventsWithFrags steps : ∀ st,
  st.2 = u32 (Z.of_nat (total_primitives st.1.2)) ->
  let out := fold_left (VulkanReplay.primitive_step env perFragmentCB bp eventsWithFrags)
               steps st in
  out.2 = u32 (Z.of_nat (total_primitives out.1.2)) ∧
  (total_primitives out.1.2 ≤ total_primitives st.1.2 + length steps)%nat.
Proof.
  induction steps as [|h steps IH]; intros st Hn.
  - cbn [fold_left length]. split; [exact Hn|lia].
  - cbn [fold_left length].
    destruct (primitive_step_counted perFragmentCB bp eventsWithFrags st h Hn) as [Hn1 Hle1].
    destruct (IH _ Hn1) as [Hn2 Hle2]. cbv zeta. split; [exact Hn2|lia].
Qed.

(** The size of the pool of the discarded-fragments pass is the number of
    primitives the loop over the history hands to the pass; it is enough for
    the pass: with every draw of the frame replayed once, every query the
    pass records has an index below it. *)
Theorem discarded_queries_fit_pool perFragmentCB bp eventsWithFrags history frame gpu :
  NoDup (map draw_eid frame) ->
  Z.of_nat (length history) < 2 ^ 32 ->
  let out := fold_left (VulkanReplay.primitive_step env perFragmentCB bp eventsWithFrags)
               (seq 0%nat (length history)) (history, ∅, 0) in
  let discardedPrimsEvents := out.1.2 in
  let primitivesToCheck := out.2 in
  primitivesToCheck = Z.of_nat (total_primitives discardedPrimsEvents) ∧
  Forall (fun q => 0 <= DiscardedFragmentsReplay.q_index q < primitivesToCheck)
    (DiscardedFragmentsReplay.cmd
       (DiscardedFragmentsReplay.run frame gpu discardedPrimsEvents)).
Proof.
  intros Hnd Hfit out discardedPrimsEvents primitivesToCheck.
  destruct (primitive_steps_counted perFragmentCB bp eventsWithFrags
              (seq 0%nat (length history)) (history, ∅, 0)) as [Hn Hle].
  { reflexivity. }
  cbn [fst snd] in Hle.
  fold out in Hn, Hle. fold discardedPrimsEvents in Hn, Hle. fold primitivesToCheck in Hn.
  rewrite length_seq in Hle. change (total_primitives ∅) with 0%nat in Hle.
  rewrite u32_id in Hn by lia. split; [exact Hn|].
  pose proof (primitives_of_total frame discardedPrimsEvents Hnd) as Htotal.
  destruct (discarded_replay_bounded discardedPrimsEvents frame) as (_ & Hall & Hlen & _);
    [lia|].
  change (DiscardedFragmentsReplay.cmd
            (DiscardedFragmentsReplay.run frame gpu discardedPrimsEvents))
    with (DiscardedFragmentsReplay.cmd
            (DiscardedFragmentsReplay.replay frame
               (DiscardedFragmentsReplay.create discardedPrimsEvents))).
  eapply Forall_impl; [exact Hall|]. simpl. intros q Hq. rewrite Hn. lia.
Qed.

End PrimitivesProofs.

(** ** The per-fragment pass *)

Section PerFragmentProofs.
Import PixelCopy PerFragmentReplay.

Lemma fragments_of_snoc eventFragments frame d :
  fragments_of eventFragments (frame ++ [d]) =
  fragments_of eventFragments frame + default 0 (eventFragments !! draw_eid d).
Proof.
  unfold fragments_of. induction frame as [|d' frame IH]; simpl; [lia|].
  rewrite IH. lia.
Qed.

Lemma fragments_of_nonneg eventFragments frame :
  (∀ eid n, eventFragments !! eid = Some n -> 0 < n) ->
  0 <= fragments_of eventFragments frame.
Proof.
  intros Hpos. induction frame as [|d frame IH]; simpl; [lia|].
  destruct (eventFragments !! draw_eid d) as [n|] eqn:Hd; simpl; [|lia].
  specialize (Hpos _ _ Hd). lia.
Qed.

Lemma per_fragment_replay_snoc info depthOut frame d st :
  replay info depthOut (frame ++ [d]) st =
  PreDraw info depthOut d (replay info depthOut frame st).
Proof. unfold replay. rewrite fold_left_app. reflexivity. Qed.

(** The copies of one fragment are in the fields of its record. *)
Lemma fragment_copies_fields depthEnabled eid fragsProcessed f :
  0 <= fragsProcessed + f -> (fragsProcessed + f + 1) * 96 < 2 ^ 32 ->
  Forall (fun c => c_event c = eid ∧ c_fragment c = f ∧
                   c_offset c ∈ fragment_fields (fragsProcessed + f))
    (fragment_copies depthEnabled eid fragsProcessed f).
Proof.
  intros Hpos Hfit. unfold fragment_copies, fragment_fields, sizeof_PerFragmentInfo,
    offsetof_shaderOut, offsetof_depth, offsetof_postMod, u64.
  rewrite (u32_id (fragsProcessed + f)) by lia.
  rewrite (u32_id ((fragsProcessed + f) * 96)) by lia.
  rewrite (u32_id ((fragsProcessed + f) * 96 + 16)) by lia.
  rewrite (Z.mod_small ((fragsProcessed + f) * 96 + 16 + 32)) by lia.
  destruct depthEnabled; repeat constructor; simpl;
    rewrite ?elem_of_cons; auto 10.
Qed.

Lemma postmod_copies_fields info depthFormat eid fragsProcessed f :
  0 <= fragsProcessed + f -> (fragsProcessed + f + 1) * 96 < 2 ^ 32 ->
  Forall (fun c => c_event c = eid ∧ c_fragment c = f ∧
                   c_offset c ∈ fragment_fields (fragsProcessed + f))
    (postmod_copies info depthFormat eid fragsProcessed f).
Proof.
  intros Hpos Hfit. unfold postmod_copies, fragment_fields, sizeof_PerFragmentInfo,
    offsetof_shaderOut, offsetof_depth, offsetof_postMod, u64.
  rewrite (u32_id (fragsProcessed + f)) by lia.
  rewrite (Z.mod_small ((fragsProcessed + f) * 96 + 56)) by lia.
  rewrite (Z.mod_small ((fragsProcessed + f) * 96 + 56 + 32)) by lia.
  destruct depthFormat; repeat constructor; simpl;
    rewrite ?elem_of_cons; auto 10.
Qed.

Lemma Forall_flat_map_seq {A} (P : A -> Prop) (f : nat -> list A) (n : nat) :
  (∀ i, (i < n)%nat -> Forall P (f i)) -> Forall P (flat_map f (seq 0%nat n)).
Proof.
  intros Hall. apply Forall_forall. intros x Hx.
  apply list_elem_of_In, in_flat_map in Hx as (i & Hi & Hx).
  apply in_seq in Hi. specialize (Hall i ltac:(lia)).
  rewrite Forall_forall in Hall. apply Hall, list_elem_of_In, Hx.
Qed.

Lemma fragments_recorded_step info depthOut eventFragments done d st :
  (∀ eid n, eventFragments !! eid = Some n -> 0 < n) ->
  draw_eid d ∉ map draw_eid done ->
  fragments_of eventFragments (done ++ [d]) * 96 < 2 ^ 32 ->
  fragments_recorded eventFragments done st ->
  fragments_recorded eventFragments (done ++ [d]) (PreDraw info depthOut d st).
Proof.
  intros Hpos Hfresh Hfit (Hev & Hcount & Hdom & Hrange & Hapart & Hcopies).
  pose proof (fragments_of_nonneg eventFragments done Hpos) as Hnonneg.
  rewrite fragments_of_snoc in Hfit.
  unfold PreDraw. rewrite Hev.
  destruct (eventFragments !! draw_eid d) as [n|] eqn:Hd; cbn [from_option id] in Hfit.
  - specialize (Hpos _ _ Hd) as Hn.
    assert (Hnone : VulkanPixelHistoryPerFragmentCallback.m_EventIndices (callback st)
                      !! draw_eid d = None).
    { destruct (VulkanPixelHistoryPerFragmentCallback.m_EventIndices (callback st)
                  !! draw_eid d) eqn:Hlook; [|reflexivity].
      exfalso. apply Hfresh. apply (Hdom (draw_eid d)). congruence. }
    unfold fragments_recorded.
    cbn [m_EventFragments fragsProcessed callback copies
         VulkanPixelHistoryPerFragmentCallback.m_EventIndices].
    rewrite fragments_of_snoc, Hd. cbn [from_option id].
    rewrite (u32_id (fragsProcessed st + n)) by lia.
    split; [reflexivity|]. split; [lia|]. split; [|split; [|split]].
    + intros eid. rewrite map_app, elem_of_app. simpl. rewrite list_elem_of_singleton.
      destruct (decide (eid = draw_eid d)) as [->|Hne].
      * rewrite lookup_insert_eq, Hd. split; [intros _; split; [auto|congruence]|congruence].
      * rewrite lookup_insert_ne by congruence. rewrite Hdom. tauto.
    + intros eid base n' Hlook Hfr.
      destruct (decide (eid = draw_eid d)) as [->|Hne].
      * rewrite lookup_insert_eq in Hlook. injection Hlook as <-.
        rewrite Hd in Hfr. injection Hfr as <-. lia.
      * rewrite lookup_insert_ne in Hlook by congruence.
        specialize (Hrange eid base n' Hlook Hfr). lia.
    + intros eid eid' base base' n1 n2 Hne H1 F1 H2 F2.
      destruct (decide (eid = draw_eid d)) as [->|Hne1];
        destruct (decide (eid' = draw_eid d)) as [->|Hne2]; try congruence.
      * rewrite lookup_insert_eq in H1. injection H1 as <-.
        rewrite lookup_insert_ne in H2 by congruence.
        specialize (Hrange eid' base' n2 H2 F2). lia.
      * rewrite lookup_insert_eq in H2. injection H2 as <-.
        rewrite lookup_insert_ne in H1 by congruence.
        specialize (Hrange eid base n1 H1 F1). lia.
      * rewrite lookup_insert_ne in H1, H2 by congruence. eauto.
    + rewrite !Forall_app. split; [|split].
      * eapply Forall_impl; [exact Hcopies|]. simpl.
        intros c (base & n' & Hlook & Hfr & Hf & Hoff).
        exists base, n'. rewrite lookup_insert_ne; [auto|].
        intros Heq. rewrite <- Heq, Hnone in Hlook. discriminate.
      * apply Forall_flat_map_seq. intros i Hi.
        eapply Forall_impl;
          [apply (fragment_copies_fields _ (draw_eid d) (fragsProcessed st) (Z.of_nat i));
           nia|].
        simpl. intros c (-> & -> & Hoff). exists (fragsProcessed st), n.
        rewrite lookup_insert_eq. repeat split; auto; lia.
      * apply Forall_flat_map_seq. intros i Hi.
        rewrite u32_id in Hi by lia.
        eapply Forall_impl;
          [apply (postmod_copies_fields info (depthOut (draw_eid d)) (draw_eid d)
                    (fragsProcessed st) (Z.of_nat i)); nia|].
        simpl. intros c (-> & -> & Hoff). exists (fragsProcessed st), n.
        rewrite lookup_insert_eq. repeat split; auto; lia.
  - rewrite Z.add_0_r in Hfit.
    unfold fragments_recorded. rewrite fragments_of_snoc, Hd. cbn [from_option id].
    rewrite Z.add_0_r. split; [exact Hev|]. split; [exact Hcount|].
    split; [|split; [exact Hrange|split; [exact Hapart|exact Hcopies]]].
    intros eid. rewrite Hdom, map_app, elem_of_app. simpl. rewrite list_elem_of_singleton.
    split; [tauto|]. intros [[Hin| ->] Hsome]; [tauto|congruence].
Qed.

Lemma fragments_recorded_replay info depthOut eventFragments frame :
  (∀ eid n, eventFragments !! eid = Some n -> 0 < n) ->
  NoDup (map draw_eid frame) ->
  fragments_of eventFragments frame * 96 < 2 ^ 32 ->
  fragments_recorded eventFragments frame
    (replay info depthOut frame (create eventFragments)).
Proof.
  intros Hpos. induction frame as [|d frame IH] using rev_ind; intros Hnd Hfit.
  - unfold fragments_recorded. simpl. split; [reflexivity|]. split; [reflexivity|].
    split; [|split; [|split; [|constructor]]].
    + intros eid. rewrite lookup_empty, elem_of_nil. tauto.
    + intros eid base n Hlook. rewrite lookup_empty in Hlook. discriminate.
    + intros eid eid' base base' n n' _ Hlook. rewrite lookup_empty in Hlook. discriminate.
  - rewrite map_app in Hnd. apply NoDup_app in Hnd as (Hnd & Hfresh & _).
    rewrite per_fragment_replay_snoc. apply fragments_recorded_step; auto.
    + intros Hin. apply (Hfresh _ Hin). simpl. apply list_elem_of_here.
    + apply IH; [exact Hnd|]. rewrite fragments_of_snoc in Hfit.
      destruct (eventFragments !! draw_eid d) as [n|] eqn:Hd; simpl in Hfit; [|lia].
      specialize (Hpos _ _ Hd). lia.
Qed.

(** With every draw of the frame replayed once and the buffer offsets
    within 32 bits, every copy of the pass is made for a fragment of a listed
    event, at a field of the record that [GetEventOffset] of the event plus
    the fragment index names, the record [PixelHistory] reads for that
    fragment; the records of an event lie between its offset and the number
    of all fragments, and the records of two events are apart. *)
Theorem per_fragment_copies_in_own_record info depthOut eventFragments frame u :
  (∀ eid n, eventFragments !! eid = Some n -> 0 < n) ->
  NoDup (map draw_eid frame) ->
  fragments_of eventFragments frame * 96 < 2 ^ 32 ->
  let st := replay info depthOut frame (create eventFragments) in
  let offset := VulkanPixelHistoryPerFragmentCallback.GetEventOffset u (callback st) in
  (∀ c, c ∈ copies st ->
     ∃ n, eventFragments !! c_event c = Some n ∧
          0 <= c_fragment c < n ∧
          c_offset c ∈ fragment_fields (offset (c_event c) + c_fragment c)) ∧
  (∀ d n, d ∈ frame -> eventFragments !! draw_eid d = Some n ->
          0 <= offset (draw_eid d) ∧
          offset (draw_eid d) + n <= fragments_of eventFragments frame) ∧
  (∀ d d' n n', d ∈ frame -> d' ∈ frame -> draw_eid d ≠ draw_eid d' ->
                eventFragments !! draw_eid d = Some n ->
                eventFragments !! draw_eid d' = Some n' ->
                offset (draw_eid d) + n <= offset (draw_eid d') ∨
                offset (draw_eid d') + n' <= offset (draw_eid d)).
Proof.
  intros Hpos Hnd Hfit st offset.
  destruct (fragments_recorded_replay info depthOut eventFragments frame Hpos Hnd Hfit)
    as (_ & Hcount & Hdom & Hrange & Hapart & Hcopies).
  fold st in Hcount, Hdom, Hrange, Hapart, Hcopies.
  assert (Hoff : ∀ eid base,
            VulkanPixelHistoryPerFragmentCallback.m_EventIndices (callback st) !! eid = Some base ->
            offset eid = base).
  { intros eid base Hlook. unfold offset, VulkanPixelHistoryPerFragmentCallback.GetEventOffset,
      find_second. rewrite Hlook. reflexivity. }
  assert (Hhit : ∀ d n, d ∈ frame -> eventFragments !! draw_eid d = Some n ->
            VulkanPixelHistoryPerFragmentCallback.m_EventIndices (callback st) !! draw_eid d =
            Some (offset (draw_eid d))).
  { intros d n Hd Hn.
    destruct (VulkanPixelHistoryPerFragmentCallback.m_EventIndices (callback st) !! draw_eid d)
      as [base|] eqn:Hlook.
    - rewrite (Hoff _ _ Hlook). reflexivity.
    - exfalso. apply (proj2 (Hdom (draw_eid d))); [|exact Hlook].
      split; [apply list_elem_of_fmap; eauto|congruence]. }
  split; [|split].
  - intros c Hc. rewrite Forall_forall in Hcopies.
    destruct (Hcopies c Hc) as (base & n & Hlook & Hn & Hf & Hfield).
    exists n. rewrite (Hoff _ _ Hlook). auto.
  - intros d n Hd Hn. pose proof (Hrange _ _ _ (Hhit d n Hd Hn) Hn) as Hr.
    rewrite Hcount in Hr. exact Hr.
  - intros d d' n n' Hd Hd' Hne Hn Hn'.
    exact (Hapart _ _ _ _ _ _ Hne (Hhit d n Hd Hn) Hn (Hhit d' n' Hd' Hn') Hn').
Qed.

End PerFragmentProofs.

(** ** The colour and stencil pass *)

Section ColourProofs.
Import PixelCopy ColorAndStencilReplay.

Lemma insert_index_spec eid st :
  m_Events (insert_index eid st) = m_Events st ∧
  copies (insert_index eid st) = copies st ∧
  ((indices st !! eid ≠ None ∧ indices (insert_index eid st) = indices st) ∨
   (indices st !! eid = None ∧
    indices (insert_index eid st) = <[eid := Z.of_nat (size (indices st))]> (indices st))).
Proof.
  unfold insert_index. destruct (indices st !! eid) eqn:Hlook.
  - repeat split. left. split; [congruence|reflexivity].
  - repeat split. right. split; reflexivity.
Qed.

Lemma first_in_range_elem secondaryFirst secondaryLast events :
  first_in_range secondaryFirst secondaryLast events ≠ 0 ->
  first_in_range secondaryFirst secondaryLast events ∈ events.
Proof.
  unfold first_in_range.
  destruct (List.find _ events) as [eid|] eqn:Hfind; simpl; [|congruence].
  intros _. apply find_some in Hfind as [Hin _]. apply list_elem_of_In. exact Hin.
Qed.

(** What a call does to the indices: nothing, or it gives an event of the
    callback that has no index the next one. *)
Lemma call_indices info depthOut st c :
  let st' := call info depthOut st c in
  m_Events st' = m_Events st ∧
  (indices st' = indices st ∨
   ∃ eid, eid ∈ m_Events st ∧ indices st !! eid = None ∧
          indices st' = <[eid := Z.of_nat (size (indices st))]> (indices st)).
Proof.
  assert (Hins : ∀ eid new,
    eid ∈ m_Events st ->
    m_Events (insert_index eid (add_copies new st)) = m_Events st ∧
    (indices (insert_index eid (add_copies new st)) = indices st ∨
     ∃ eid', eid' ∈ m_Events st ∧ indices st !! eid' = None ∧
             indices (insert_index eid (add_copies new st)) =
               <[eid' := Z.of_nat (size (indices st))]> (indices st))).
  { intros eid new Hin.
    destruct (insert_index_spec eid (add_copies new st)) as (Hev & _ & [[_ Hsame]|[Hnone Hnew]]).
    - split; [exact Hev|]. left. exact Hsame.
    - split; [exact Hev|]. right. exists eid. auto. }
  destruct c as [eid primary|eid primary|eid|eid|eid|eid|first last|first last];
    cbn [call]; cbv zeta.
  - unfold PreDraw. destruct (_ || _); auto.
  - unfold PostDraw, contains. case_bool_decide as Hin; simpl; [|auto].
    destruct primary; simpl; [|auto]. apply Hins. exact Hin.
  - unfold PreDispatch. destruct (negb _); auto.
  - unfold PostDispatch, contains. case_bool_decide as Hin; simpl; [|auto].
    apply Hins. exact Hin.
  - unfold PreMisc, PreDispatch. destruct (negb _); auto.
  - unfold PostMisc, PostDispatch, contains. case_bool_decide as Hin; simpl; [|auto].
    apply Hins. exact Hin.
  - unfold PreCmdExecute. destruct (_ =? _)%nat; [auto|].
    destruct (Z.eqb_spec (first_in_range first last (m_Events st)) 0) as [|Hne]; [auto|].
    apply Hins. apply first_in_range_elem. exact Hne.
  - unfold PostCmdExecute. destruct (_ =? _)%nat; [auto|].
    destruct (Z.eqb_spec (first_in_range first last (rev (m_Events st))) 0) as [|Hne]; [auto|].
    apply first_in_range_elem in Hne. apply list_elem_of_In in Hne.
    apply <- in_rev in Hne. apply list_elem_of_In in Hne.
    destruct (indices st !! first_in_range first last (rev (m_Events st))) eqn:Hlook; [auto|].
    destruct (insert_index_spec (first_in_range first last (rev (m_Events st))) st)
      as (Hev & _ & [[Hsome _]|[_ Hnew]]); [congruence|].
    split; [exact Hev|]. right. eexists. split; [exact Hne|]. split; [exact Hlook|exact Hnew].
Qed.

Lemma indices_dense_call info depthOut st c :
  indices_dense st -> indices_dense (call info depthOut st c).
Proof.
  intros [Hkeys Hinj].
  destruct (call_indices info depthOut st c) as [Hev [Hsame|(eid & Hin & Hnone & Hnew)]];
    cbv zeta in *; unfold indices_dense; rewrite Hev.
  - rewrite Hsame. auto.
  - rewrite Hnew. rewrite map_size_insert_None by exact Hnone. split.
    + intros e k. destruct (decide (e = eid)) as [->|Hne].
      * rewrite lookup_insert_eq. intros [= <-]. split; [exact Hin|lia].
      * rewrite lookup_insert_ne by congruence. intros Hk.
        destruct (Hkeys e k Hk). split; [auto|lia].
    + intros e e' k. destruct (decide (e = eid)) as [->|Hne];
        destruct (decide (e' = eid)) as [->|Hne']; auto.
      * rewrite lookup_insert_eq, lookup_insert_ne by congruence.
        intros [= <-] Hk. destruct (Hkeys e' _ Hk). lia.
      * rewrite lookup_insert_eq, lookup_insert_ne by congruence.
        intros Hk [= <-]. destruct (Hkeys e _ Hk). lia.
      * rewrite !lookup_insert_ne by congruence. apply Hinj.
Qed.

Lemma colour_replay_snoc info depthOut calls c st :
  replay info depthOut (calls ++ [c]) st = call info depthOut (replay info depthOut calls st) c.
Proof. unfold replay. rewrite fold_left_app. reflexivity. Qed.

Lemma replay_events info depthOut calls st :
  m_Events (replay info depthOut calls st) = m_Events st.
Proof.
  induction calls as [|c calls IH] using rev_ind; [reflexivity|].
  rewrite colour_replay_snoc.
  destruct (call_indices info depthOut (replay info depthOut calls st) c) as [Hev _].
  cbv zeta in Hev. congruence.
Qed.

Lemma indices_dense_replay info depthOut calls events :
  indices_dense (replay info depthOut calls (create events)).
Proof.
  induction calls as [|c calls IH] using rev_ind.
  - split; intros ? ?; [|intros ?]; unfold indices; simpl; rewrite lookup_empty; discriminate.
  - rewrite colour_replay_snoc. apply indices_dense_call. exact IH.
Qed.

(** The number of keys of a map whose keys are in a list. *)
Lemma size_keys_in_list (m : gmap Z Z) (l : list Z) :
  (∀ k v, m !! k = Some v -> k ∈ l) -> (size m ≤ length l)%nat.
Proof.
  intros Hkeys. rewrite <- length_map_to_list, <- (length_fmap fst).
  apply submseteq_length, NoDup_submseteq; [apply NoDup_fst_map_to_list|].
  intros k Hk. apply list_elem_of_fmap in Hk as ([k' v] & -> & Hkv).
  apply elem_of_map_to_list in Hkv. eauto.
Qed.

(** Whatever calls the driver makes, the indices of the events number
    records of the buffer: no two events have the same index, an index
    belongs to an event of the pass and is below the number of its events,
    and [GetEventIndex] gives such an index, or -1 for an event without
    one. *)
Theorem event_indices_number_records info depthOut calls events :
  Z.of_nat (length events) < 2 ^ 31 ->
  let st := replay info depthOut calls (create events) in
  (∀ eid,
     let eventIndex := VulkanColorAndStencilCallback.GetEventIndex (callback st) eid in
     (eventIndex = -1 ∧ indices st !! eid = None) ∨
     (eid ∈ events ∧ 0 <= eventIndex < Z.of_nat (length events) ∧
      indices st !! eid = Some eventIndex)) ∧
  (∀ eid eid',
     VulkanColorAndStencilCallback.GetEventIndex (callback st) eid ≠ -1 ->
     VulkanColorAndStencilCallback.GetEventIndex (callback st) eid =
       VulkanColorAndStencilCallback.GetEventIndex (callback st) eid' ->
     eid = eid').
Proof.
  intros Hfit st.
  destruct (indices_dense_replay info depthOut calls events) as [Hkeys Hinj].
  fold st in Hkeys, Hinj.
  assert (Hev : m_Events st = events) by apply replay_events.
  rewrite Hev in Hkeys.
  assert (Hsize : (size (indices st) ≤ length events)%nat).
  { apply size_keys_in_list. intros k v Hk. apply (Hkeys k v Hk). }
  assert (Hget : ∀ eid,
    (VulkanColorAndStencilCallback.GetEventIndex (callback st) eid = -1 ∧
     indices st !! eid = None) ∨
    (eid ∈ events ∧
     0 <= VulkanColorAndStencilCallback.GetEventIndex (callback st) eid
       < Z.of_nat (length events) ∧
     indices st !! eid = Some (VulkanColorAndStencilCallback.GetEventIndex (callback st) eid))).
  { intros eid. unfold VulkanColorAndStencilCallback.GetEventIndex.
    fold (indices st). destruct (indices st !! eid) as [k|] eqn:Hk; [right|left; auto].
    destruct (Hkeys eid k Hk) as [Hin Hrange].
    rewrite i32_small by lia. split; [exact Hin|]. split; [lia|reflexivity]. }
  split; [exact Hget|].
  intros eid eid' Hsome Heq.
  destruct (Hget eid) as [[Hnone _]|(_ & _ & Hk)]; [contradiction|].
  destruct (Hget eid') as [[Hnone' _]|(_ & _ & Hk')]; [congruence|].
  rewrite <- Heq in Hk'. exact (Hinj _ _ _ Hk Hk').
Qed.

Lemma listed_snoc events frame a :
  listed events (frame ++ [a]) =
  listed events frame ++ (if decide (action_eid a ∈ events) then [a] else []).
Proof. unfold listed. rewrite filter_app, filter_cons, filter_nil. reflexivity. Qed.

Lemma numbered_events events frame :
  map fst (numbered events frame) = map action_eid (listed events frame).
Proof.
  unfold numbered. change (map ?f ?l) with (fmap (M := list) f l).
  rewrite fmap_imap. simpl.
  induction (listed events frame) as [|a l IH] using rev_ind; [reflexivity|].
  rewrite imap_app, fmap_app, IH. reflexivity.
Qed.

Lemma numbered_fresh events frame eid :
  eid ∉ map action_eid frame -> eid ∉ map fst (numbered events frame).
Proof.
  intros Hout Hin. apply Hout. rewrite numbered_events in Hin.
  apply list_elem_of_fmap in Hin as (a & -> & Ha).
  unfold listed in Ha. rewrite list_elem_of_filter in Ha.
  apply list_elem_of_fmap. exists a. tauto.
Qed.

Lemma numbered_NoDup events frame :
  NoDup (map action_eid frame) -> NoDup (map fst (numbered events frame)).
Proof.
  intros Hnd. rewrite numbered_events. unfold listed.
  induction frame as [|a frame IH]; [constructor|].
  simpl in Hnd. apply NoDup_cons in Hnd as [Ha Hnd].
  rewrite filter_cons. destruct (decide (action_eid a ∈ events)); [|auto].
  simpl. apply NoDup_cons. split; [|auto].
  intros Hin. apply Ha. apply list_elem_of_fmap in Hin as (a' & -> & Ha').
  rewrite list_elem_of_filter in Ha'. apply list_elem_of_fmap. exists a'. tauto.
Qed.

Ltac in_record_cases :=
  repeat match goal with
         | |- Forall _ (_ ++ _) => apply Forall_app; split
         | |- Forall _ (_ :: _) => apply Forall_cons; split
         | |- Forall _ [] => exact (List.Forall_nil _)
         end;
  (split; [reflexivity|]); cbn;
  first [ solve [left; repeat split; auto]
        | solve [right; left; repeat split; auto]
        | solve [right; right; repeat split; auto] ].

Lemma CopyPixel_fields info depthFormat eid slot offset :
  0 <= slot -> slot * 96 + 96 < 2 ^ 64 ->
  offset = slot * 96 ∨ offset = slot * 96 + 40 ->
  Forall (fun c => c_event c = eid ∧ in_record slot c)
    (CopyPixel info depthFormat eid offset).
Proof.
  intros Hpos Hfit Hoff. unfold CopyPixel, in_record, sizeof_EventInfo, offsetof_depth,
    offsetof_postmod, offsetof_dsWithoutShaderDiscard, offsetof_dsWithShaderDiscard, u64,
    colour_of, depth_of.
  destruct Hoff as [-> | ->];
    rewrite ?(Z.mod_small (slot * 96 + 32)), ?(Z.mod_small (slot * 96 + 40 + 32)) by lia;
    destruct depthFormat; in_record_cases.
Qed.

Lemma in_record_field k c : in_record k c -> c_offset c ∈ event_fields k.
Proof.
  unfold in_record, event_fields. cbv zeta.
  intros [(_ & [-> | ->])|[(_ & _ & [-> | ->])|(_ & _ & [-> | ->])]];
    rewrite !elem_of_cons; auto 10.
Qed.

(** The regions of a copy made for a record carry each aspect to a field
    that holds it. *)
Lemma in_record_regions F info k c :
  0 <= k -> k * 96 + 96 < 2 ^ 64 ->
  in_record k c ->
  Forall (fun r => (bufferOffset r, aspectMask r) ∈ event_layout k)
    (CopyImagePixel F info (c_params c) (c_offset c)).
Proof.
  intros Hpos Hfit. unfold in_record, CopyImagePixel, event_layout. cbv zeta.
  unfold sizeof_EventInfo, offsetof_depth, offsetof_postmod, offsetof_stencil,
    offsetof_dsWithoutShaderDiscard, offsetof_dsWithShaderDiscard, u64.
  intros [(-> & Hoff)|[(-> & -> & Hoff)|(-> & -> & Hoff)]];
    destruct Hoff as [-> | ->];
    destruct (negb (samples info =? VK_SAMPLE_COUNT_1_BIT)); cbn [andb negb];
    repeat match goal with
           | |- context [if ?c then _ else _] => destruct c
           end;
    rewrite ?Z.mod_small by lia; cbn [app];
    repeat match goal with
           | |- Forall _ (_ :: _) => apply Forall_cons; split
           | |- Forall _ [] => exact (List.Forall_nil _)
           end;
    cbn [bufferOffset aspectMask]; rewrite !elem_of_cons;
    repeat first [ solve [left; f_equal; first [lia | reflexivity]] | right ].
Qed.

Lemma add_copies_twice new1 new2 st :
  add_copies new2 (add_copies new1 st) = add_copies (new1 ++ new2) st.
Proof. unfold add_copies. cbn [m_Events callback copies]. rewrite app_assoc. reflexivity. Qed.

(** One action of the primary command buffer whose event has no index
    yet. *)
Lemma action_step info depthOut st a :
  indices st !! action_eid a = None ->
  Z.of_nat (length (m_Events st)) < 2 ^ 31 ->
  (size (indices st) ≤ length (m_Events st))%nat ->
  let st' := replay info depthOut (calls_of a) st in
  m_Events st' = m_Events st ∧
  if decide (action_eid a ∈ m_Events st) then
    indices st' = <[action_eid a := Z.of_nat (size (indices st))]> (indices st) ∧
    ∃ new, copies st' = copies st ++ new ∧
           Forall (fun c => c_event c = action_eid a ∧
                            in_record (Z.of_nat (size (indices st))) c) new
  else st' = st.
Proof.
  intros Hnone Hfit Hsize.
  assert (Hnext : next_offset st = Z.of_nat (size (indices st)) * 96).
  { unfold next_offset, u64, sizeof_EventInfo. apply Z.mod_small. lia. }
  assert (Hpost : u64 (Z.of_nat (size (indices st)) * 96 + offsetof_postmod) =
                  Z.of_nat (size (indices st)) * 96 + 40).
  { unfold u64, offsetof_postmod. apply Z.mod_small. lia. }
  assert (Hins : ∀ new, insert_index (action_eid a) (add_copies new st) =
    {| m_Events := m_Events st;
       callback := {| VulkanColorAndStencilCallback.m_EventIndices :=
                        <[action_eid a := Z.of_nat (size (indices st))]> (indices st) |};
       copies := copies st ++ new |}).
  { intros new. unfold insert_index.
    change (indices (add_copies new st)) with (indices st). rewrite Hnone. reflexivity. }
  destruct (decide (action_eid a ∈ m_Events st)) as [Hin|Hout].
  - assert (Hcontains : contains (m_Events st) (action_eid a) = true)
      by (apply bool_decide_eq_true_2; exact Hin).
    destruct a as [eid|eid|eid]; cbn [action_eid] in *; cbv zeta;
      unfold replay; cbn [calls_of fold_left call].
    + unfold PreDraw. rewrite Hcontains. cbn [negb orb].
      unfold PostDraw. cbn [m_Events add_copies]. rewrite Hcontains. cbn [negb orb].
      change (next_offset (add_copies ?n st)) with (next_offset st).
      rewrite Hnext, Hpost.
      rewrite add_copies_twice, Hins. cbn [m_Events indices callback copies
        VulkanColorAndStencilCallback.m_EventIndices].
      split; [reflexivity|]. split; [reflexivity|].
      eexists. split; [reflexivity|]. rewrite !Forall_app. split; [split|].
      * apply CopyPixel_fields; [lia|lia|auto].
      * unfold in_record, sizeof_EventInfo, offsetof_depth, offsetof_postmod,
          offsetof_dsWithoutShaderDiscard, offsetof_dsWithShaderDiscard, u64.
        rewrite !Z.mod_small by lia.
        unfold stencil_count. in_record_cases.
      * apply CopyPixel_fields; [lia|lia|auto].
    + unfold PreDispatch. rewrite Hcontains. cbn [negb].
      unfold PostDispatch. cbn [m_Events add_copies]. rewrite Hcontains. cbn [negb].
      change (next_offset (add_copies ?n st)) with (next_offset st).
      rewrite Hnext, Hpost.
      rewrite add_copies_twice, Hins. cbn [m_Events indices callback copies
        VulkanColorAndStencilCallback.m_EventIndices].
      split; [reflexivity|]. split; [reflexivity|].
      eexists. split; [reflexivity|]. rewrite !Forall_app. split.
      * apply CopyPixel_fields; [lia|lia|auto].
      * apply CopyPixel_fields; [lia|lia|auto].
    + unfold PreMisc, PreDispatch. rewrite Hcontains. cbn [negb].
      unfold PostMisc, PostDispatch. cbn [m_Events add_copies]. rewrite Hcontains. cbn [negb].
      change (next_offset (add_copies ?n st)) with (next_offset st).
      rewrite Hnext, Hpost.
      rewrite add_copies_twice, Hins. cbn [m_Events indices callback copies
        VulkanColorAndStencilCallback.m_EventIndices].
      split; [reflexivity|]. split; [reflexivity|].
      eexists. split; [reflexivity|]. rewrite !Forall_app. split.
      * apply CopyPixel_fields; [lia|lia|auto].
      * apply CopyPixel_fields; [lia|lia|auto].
  - assert (Hcontains : contains (m_Events st) (action_eid a) = false)
      by (apply bool_decide_eq_false_2; exact Hout).
    destruct a as [eid|eid|eid]; cbn [action_eid] in *; cbv zeta;
      unfold replay; cbn [calls_of fold_left call];
      unfold PreMisc, PostMisc, PreDraw, PostDraw, PreDispatch, PostDispatch;
      rewrite ?Hcontains; cbn [negb orb]; rewrite ?Hcontains; cbn [negb orb]; auto.
Qed.

Lemma replay_app info depthOut calls1 calls2 st :
  replay info depthOut (calls1 ++ calls2) st =
  replay info depthOut calls2 (replay info depthOut calls1 st).
Proof. unfold replay. apply fold_left_app. Qed.

(** What the replay of the actions [done] leaves in the callback. *)
Lemma actions_replay_spec info depthOut events frame :
  NoDup (map action_eid frame) ->
  Z.of_nat (length events) < 2 ^ 31 ->
  let st := replay info depthOut (flat_map calls_of frame) (create events) in
  m_Events st = events ∧
  indices st = list_to_map (numbered events frame) ∧
  size (indices st) = length (listed events frame) ∧
  copies_in_records st.
Proof.
  intros Hnd Hfit. induction frame as [|a frame IH] using rev_ind.
  - cbv zeta. unfold copies_in_records, indices. simpl. rewrite map_size_empty.
    repeat split; constructor.
  - rewrite map_app in Hnd. apply NoDup_app in Hnd as (Hnd & Hfresh & _).
    destruct (IH Hnd) as (Hev & Hind & Hsize & Hcopies). clear IH.
    cbv zeta. rewrite flat_map_app, replay_app. simpl flat_map. rewrite app_nil_r.
    set (st := replay info depthOut (flat_map calls_of frame) (create events)) in *.
    assert (Hout : action_eid a ∉ map action_eid frame).
    { intros Hin. apply (Hfresh _ Hin). simpl. apply list_elem_of_here. }
    assert (Hnone : indices st !! action_eid a = None).
    { rewrite Hind. apply not_elem_of_list_to_map_1.
      change (fmap fst ?l) with (map fst l). apply numbered_fresh. exact Hout. }
    assert (Hle : (size (indices st) ≤ length (m_Events st))%nat).
    { rewrite Hev. apply size_keys_in_list. intros k v Hk. rewrite Hind in Hk.
      apply elem_of_list_to_map_2 in Hk.
      assert (Hfst : k ∈ map fst (numbered events frame)).
      { apply list_elem_of_fmap. exists (k, v). auto. }
      rewrite numbered_events in Hfst. apply list_elem_of_fmap in Hfst as (a' & -> & Ha').
      unfold listed in Ha'. rewrite list_elem_of_filter in Ha'. tauto. }
    destruct (action_step info depthOut st a Hnone) as [Hev' Hstep];
      [rewrite Hev; exact Hfit|exact Hle|].
    cbv zeta in Hev', Hstep. rewrite Hev in Hstep.
    unfold numbered. rewrite listed_snoc.
    split; [congruence|].
    destruct (decide (action_eid a ∈ events)) as [Hin|Hnot].
    + destruct Hstep as (Hind' & new & Hcopies' & Hnew).
      rewrite imap_app. simpl. rewrite Nat.add_0_r, length_app. simpl.
      split; [|split].
      * rewrite Hind', Hsize. rewrite list_to_map_snoc.
        -- rewrite Hind. reflexivity.
        -- apply (numbered_fresh events frame). exact Hout.
      * rewrite Hind', map_size_insert_None by exact Hnone. lia.
      * unfold copies_in_records. rewrite Hcopies', Forall_app. split.
        -- eapply Forall_impl; [exact Hcopies|]. simpl. intros c (k & Hk & Hoff).
           exists k. rewrite Hind', lookup_insert_ne; [auto|]. congruence.
        -- eapply Forall_impl; [exact Hnew|]. simpl. intros c (-> & Hoff).
           eexists. rewrite Hind', lookup_insert_eq. split; [reflexivity|exact Hoff].
    + rewrite Hstep, !app_nil_r. auto.
Qed.

(** In a replay of actions of the primary command buffer, each event met
    once, the k-th action whose event is listed gets the index k, and every
    copy made for an event is made at a field of the record with the index
    [GetEventIndex] gives for that event, each aspect at a field that holds
    it: the values read for an event were written for it. *)
Theorem colour_copies_in_own_record F info depthOut events frame :
  NoDup (map action_eid frame) ->
  Z.of_nat (length events) < 2 ^ 31 ->
  let st := replay info depthOut (flat_map calls_of frame) (create events) in
  map (fun a => VulkanColorAndStencilCallback.GetEventIndex (callback st) (action_eid a))
    (listed events frame) = map Z.of_nat (seq 0%nat (length (listed events frame))) ∧
  (∀ c, c ∈ copies st ->
     let eventIndex :=
       VulkanColorAndStencilCallback.GetEventIndex (callback st) (c_event c) in
     c_event c ∈ events ∧
     0 <= eventIndex < Z.of_nat (length events) ∧
     c_offset c ∈ event_fields eventIndex ∧
     Forall (fun r => (bufferOffset r, aspectMask r) ∈ event_layout eventIndex)
       (CopyImagePixel F info (c_params c) (c_offset c))).
Proof.
  intros Hnd Hfit st.
  destruct (actions_replay_spec info depthOut events frame Hnd Hfit)
    as (Hev & Hind & Hsize & Hcopies).
  fold st in Hev, Hind, Hsize, Hcopies.
  assert (Hle : (length (listed events frame) ≤ length events)%nat).
  { rewrite <- Hsize. apply size_keys_in_list. intros k v Hk. rewrite Hind in Hk.
    apply elem_of_list_to_map_2 in Hk.
    assert (Hfst : k ∈ map fst (numbered events frame)).
    { apply list_elem_of_fmap. exists (k, v). auto. }
    rewrite numbered_events in Hfst. apply list_elem_of_fmap in Hfst as (a' & -> & Ha').
    unfold listed in Ha'. rewrite list_elem_of_filter in Ha'. tauto. }
  assert (Hget : ∀ eid k, indices st !! eid = Some k -> 0 <= k < Z.of_nat (length events) ->
            VulkanColorAndStencilCallback.GetEventIndex (callback st) eid = k).
  { intros eid k Hk Hrange. unfold VulkanColorAndStencilCallback.GetEventIndex.
    fold (indices st). rewrite Hk. apply i32_small. lia. }
  assert (Hnum : ∀ i a, listed events frame !! i = Some a ->
            indices st !! action_eid a = Some (Z.of_nat i)).
  { intros i a Hi. rewrite Hind. apply elem_of_list_to_map_1.
    - change (fmap fst ?l) with (map fst l). apply numbered_NoDup. exact Hnd.
    - unfold numbered. apply elem_of_lookup_imap. eauto. }
  split.
  - apply list_eq. intros i.
    change (map ?f ?l) with (fmap (M := list) f l).
    rewrite !list_lookup_fmap.
    destruct (listed events frame !! i) as [a|] eqn:Hi; simpl.
    + pose proof (lookup_lt_Some _ _ _ Hi) as Hlt.
      rewrite lookup_seq_lt by exact Hlt. simpl. f_equal.
      apply Hget; [apply Hnum; exact Hi|lia].
    + apply lookup_ge_None in Hi. rewrite lookup_seq_ge by exact Hi. reflexivity.
  - intros c Hc. unfold copies_in_records in Hcopies. rewrite Forall_forall in Hcopies.
    destruct (Hcopies c Hc) as (k & Hk & Hoff).
    assert (Hin : (c_event c, k) ∈ numbered events frame).
    { rewrite Hind in Hk. apply elem_of_list_to_map_2 in Hk. exact Hk. }
    unfold numbered in Hin. apply elem_of_lookup_imap_1 in Hin as (i & a & Heq & Hi).
    injection Heq as He ->.
    assert (Ha : a ∈ listed events frame) by (apply list_elem_of_lookup; eauto).
    unfold listed in Ha. rewrite list_elem_of_filter in Ha. destruct Ha as [Ha _].
    pose proof (lookup_lt_Some _ _ _ Hi) as Hlt.
    cbv zeta. rewrite (Hget (c_event c) (Z.of_nat i) Hk) by lia.
    split; [rewrite He; exact Ha|].
    split; [lia|].
    split; [apply in_record_field; exact Hoff|].
    apply in_record_regions; [lia|lia|exact Hoff].
Qed.

End ColourProofs.

(** ** The scenes *)

(** *** The history of the frame *)

(** C10 at the scene: no event, no history and no device object. *)
Lemma PixelHistory_returns_early_no_events :
  (@nil EventUsage.t = [] ∨ format Scene.image = VK_FORMAT_UNDEFINED) ∧
  VulkanReplay.PixelHistory Scene.usages Scene.replays Scene.image [] 100 200
    Scene.first_sample true = Some ([], []).
Proof.
  split; [left; reflexivity|].
  apply (PixelHistory_returns_early Scene.usages Scene.replays true Scene.image [] 100 200
           Scene.first_sample).
  left. reflexivity.
Defined.

(** C1 at the scene: the clear (5) and the copy (14) have entries, the draw
    beside the pixel (12) has none. *)
Lemma clears_and_direct_writes_kept_scene :
  format Scene.image ≠ VK_FORMAT_UNDEFINED ∧
  ∃ history log,
    VulkanReplay.PixelHistory Scene.usages Scene.replays Scene.image Scene.events 100 200
      Scene.first_sample true = Some (history, log) ∧
    (∀ ev, ev ∈ Scene.events ->
       EventUsage.usage ev = Clear Scene.usages ∨
       isDirectWrite Scene.usages (EventUsage.usage ev) = true ->
       ∃ pm, pm ∈ history ∧ eventId pm = EventUsage.eventId ev) ∧
    (∀ eid,
       (∀ ev, ev ∈ Scene.events -> EventUsage.eventId ev = eid ->
              EventUsage.usage ev ≠ Clear Scene.usages ∧
              isDirectWrite Scene.usages (EventUsage.usage ev) = false) ->
       VulkanOcclusionCallback.GetOcclusionResult (undefined Scene.replays)
         (VulkanReplay.occlCb Scene.replays Scene.image Scene.events 100 200
            Scene.first_sample) eid = 0 ->
       ∀ pm, pm ∈ history -> eventId pm ≠ eid).
Proof.
  split; [vm_compute; discriminate|].
  apply (clears_and_direct_writes_kept Scene.usages Scene.replays Scene.image Scene.events
           100 200 Scene.first_sample).
  vm_compute. discriminate.
Defined.

(** The entries of the scene, by event id and fragment index. *)
Lemma scene_history_places :
  ∃ history log,
    VulkanReplay.PixelHistory Scene.usages Scene.replays Scene.image Scene.events 100 200
      Scene.first_sample true = Some (history, log) ∧
    map place history = [(5, 0); (10, 0); (10, 1); (14, 0)] ∧
    VulkanOcclusionCallback.GetOcclusionResult (undefined Scene.replays)
      (VulkanReplay.occlCb Scene.replays Scene.image Scene.events 100 200
         Scene.first_sample) 12 = 0.
Proof. eexists _, _. split; [vm_compute; reflexivity|]. split; reflexivity. Qed.

(** The fragments of the scene, event by event. *)
Lemma history_lists_fragments_per_event_scene :
  Scene.events ≠ [] ∧ format Scene.image ≠ VK_FORMAT_UNDEFINED ∧
  ∃ history log,
    VulkanReplay.PixelHistory Scene.usages Scene.replays Scene.image Scene.events 100 200
      Scene.first_sample true = Some (history, log) ∧
    map place history =
      flat_map
        (fun ev =>
           event_places
             (VulkanReplay.cb Scene.usages Scene.replays Scene.image Scene.events 100 200
                Scene.first_sample)
             (VulkanReplay.eventsInfo Scene.usages Scene.replays Scene.image Scene.events
                100 200 Scene.first_sample) (EventUsage.eventId ev))
        (kept_events Scene.usages Scene.replays Scene.image Scene.events 100 200
           Scene.first_sample).
Proof.
  assert (Hevents : Scene.events ≠ []) by discriminate.
  assert (Hformat : format Scene.image ≠ VK_FORMAT_UNDEFINED) by (vm_compute; discriminate).
  split; [exact Hevents|]. split; [exact Hformat|].
  apply (history_lists_fragments_per_event Scene.usages Scene.replays Scene.image Scene.events
           100 200 Scene.first_sample Hevents Hformat).
Defined.

(** C7 at the scene: the events are listed by ascending id, each once. *)
Lemma history_keeps_event_order_scene :
  Sorted Z.le (map EventUsage.eventId Scene.events) ∧
  NoDup (map EventUsage.eventId Scene.events) ∧
  ∃ history log,
    VulkanReplay.PixelHistory Scene.usages Scene.replays Scene.image Scene.events 100 200
      Scene.first_sample true = Some (history, log) ∧
    Sorted Z.le (map eventId history) ∧
    (∀ h pm, history !! h = Some pm ->
       fragIndex pm = 0 ∨
       ∃ before, (0 < h)%nat ∧ history !! (h - 1)%nat = Some before ∧
                 eventId before = eventId pm ∧ fragIndex pm = fragIndex before + 1) ∧
    (NoDup (map EventUsage.eventId Scene.events) ->
     ∀ eid,
       map fragIndex (filter (fun pm => eventId pm = eid) history) =
       map Z.of_nat (seq 0%nat (length (filter (fun pm => eventId pm = eid) history)))).
Proof.
  assert (Hsorted : Sorted Z.le (map EventUsage.eventId Scene.events)).
  { simpl. repeat (constructor; try lia). }
  assert (Hnd : NoDup (map EventUsage.eventId Scene.events)).
  { apply (bool_decide_unpack (NoDup (map EventUsage.eventId Scene.events))).
    vm_compute. exact I. }
  split; [exact Hsorted|]. split; [exact Hnd|].
  apply (history_keeps_event_order Scene.usages Scene.replays true Scene.image Scene.events
           100 200 Scene.first_sample Hsorted).
Defined.

(** An event listed twice in a sorted list has its entries twice: the
    fragment indices of event 10 run 0, 1, 0, 1. *)
Lemma history_repeats_event_listed_twice :
  Sorted Z.le (map EventUsage.eventId Scene.repeated_events) ∧
  ∃ history log,
    VulkanReplay.PixelHistory Scene.usages Scene.repeated_replays Scene.image
      Scene.repeated_events 100 200 Scene.first_sample true = Some (history, log) ∧
    map place history = [(10, 0); (10, 1); (10, 0); (10, 1)].
Proof.
  split; [simpl; repeat (constructor; try lia)|].
  eexists _, _. split; [vm_compute; reflexivity|]. reflexivity.
Qed.

(** C7 fails on a list that is not sorted: the history has the events in
    the order of the list. *)
Lemma history_follows_unsorted_events :
  ∃ history log,
    VulkanReplay.PixelHistory Scene.usages Scene.unsorted_replays Scene.image
      Scene.unsorted_events 100 200 Scene.first_sample true = Some (history, log) ∧
    map eventId history = [14; 5] ∧
    ¬ Sorted Z.le (map eventId history).
Proof.
  eexists _, _. split; [vm_compute; reflexivity|]. split; [reflexivity|].
  simpl. intros Hsorted. apply Sorted_inv in Hsorted as [_ Hhd].
  apply HdRel_inv in Hhd. lia.
Qed.

(** C2 fails at the scene: the first fragment of the draw leaves the pixel
    red, and the second fragment is still given the grey the event began
    with as its pre-modification value. *)
Lemma second_fragment_keeps_event_premod :
  ∃ history log first second,
    VulkanReplay.PixelHistory Scene.usages Scene.replays Scene.image Scene.events 100 200
      Scene.first_sample true = Some (history, log) ∧
    history !! 1%nat = Some first ∧ history !! 2%nat = Some second ∧
    place first = (10, 0) ∧ place second = (10, 1) ∧
    shaderDiscarded first = false ∧ shaderDiscarded second = false ∧
    col (postMod first) = [255; 0; 0; 255] ∧
    col (preMod second) = [128; 128; 128; 255] ∧
    postMod first ≠ preMod second.
Proof.
  eexists _, _, _, _. split; [vm_compute; reflexivity|].
  repeat (split; [reflexivity|]). discriminate.
Qed.

(** *** The test-failure pass *)

(** C8 at the scene: two draws, a pool of twelve queries. *)
Lemma tests_failed_queries_fit_pool_scene :
  NoDup (map draw_eid Scene.frame) ∧
  6 * Z.of_nat (length Scene.pass_events) < 2 ^ 32 ∧
  (∀ eid,
     (length (filter (fun r => TestsFailedCallback.rd_event r = eid)
                (TestsFailedCallback.cmd
                   (TestsFailedCallback.replay Scene.features Scene.info Scene.frame
                      (TestsFailedCallback.create Scene.pass_events)))) ≤ 6)%nat) ∧
  Forall (fun r =>
            TestsFailedCallback.rd_test r ≠ TestEnabled_Scissor ∧
            0 <= TestsFailedCallback.rd_index r < tests_failed_pool_size Scene.pass_events)
         (TestsFailedCallback.cmd
            (TestsFailedCallback.replay Scene.features Scene.info Scene.frame
               (TestsFailedCallback.create Scene.pass_events))).
Proof.
  assert (Hnd : NoDup (map draw_eid Scene.frame)).
  { apply (bool_decide_unpack (NoDup (map draw_eid Scene.frame))). vm_compute. exact I. }
  assert (Hfit : 6 * Z.of_nat (length Scene.pass_events) < 2 ^ 32) by (simpl; lia).
  split; [exact Hnd|]. split; [exact Hfit|].
  apply (tests_failed_queries_fit_pool Scene.features Scene.info Scene.frame Scene.pass_events Hnd Hfit).
Defined.

(** C4 at the scene: the draw with the depth bounds test. *)
Lemma shader_discard_read_in_default_order_scene :
  10 ∈ [10] ∧ 10 ∈ map draw_eid Scene.depth_bounds_frame ∧
  TestsFailedCallback.m_HasEarlyFragments (Scene.depth_bounds_pass Scene.all_pass) !! 10
    = Some false ∧
  (map TestsFailedCallback.rd_test
     (redraws_since (TestsFailedCallback.create [10])
        (TestsFailedCallback.ReplayDrawWithTests 10
           (TestsFailedCallback.GetEventFlags Scene.zeroes
              (Scene.depth_bounds_pass Scene.all_pass) 10)
           (TestsFailedCallback.create [10])))
     `sublist_of` redraw_order) ∧
  (snd (UpdateTestsFailed Scene.zeroes (Scene.depth_bounds_pass Scene.all_pass) 10
          (TestsFailedCallback.GetEventFlags Scene.zeroes
             (Scene.depth_bounds_pass Scene.all_pass) 10) erased)
     `sublist_of` default_read_order).
Proof.
  assert (Hin1 : 10 ∈ [10]) by apply list_elem_of_here.
  assert (Hin2 : 10 ∈ map draw_eid Scene.depth_bounds_frame) by apply list_elem_of_here.
  split; [exact Hin1|]. split; [exact Hin2|].
  apply (shader_discard_read_in_default_order Scene.features Scene.info
           Scene.depth_bounds_frame Scene.all_pass [10] Scene.zeroes 10 _ erased
           (TestsFailedCallback.create [10]) Hin1 Hin2).
Defined.

Ltac refute_sublist H :=
  repeat first
    [ apply sublist_nil_r in H; discriminate H
    | apply sublist_cons_r in H; destruct H as [H|(? & ? & H)]; [|simplify_eq] ].

(** C4 fails at the scene: the redraws are issued with the shader discard
    last, but the outcome of the shader discard is read before the outcome of
    the depth bounds test; when both queries count no sample the fragment is
    reported as discarded by the shader and the depth bounds test is not
    looked at. *)
Lemma shader_discard_read_before_depth_bounds :
  map TestsFailedCallback.rd_test (TestsFailedCallback.cmd (Scene.depth_bounds_pass Scene.all_pass))
    = [TestEnabled_SampleMask; TestEnabled_DepthBounds; TestEnabled_FragmentDiscard] ∧
  snd (UpdateTestsFailed Scene.zeroes (Scene.depth_bounds_pass Scene.all_pass) 10
         (TestsFailedCallback.GetEventFlags Scene.zeroes
            (Scene.depth_bounds_pass Scene.all_pass) 10) erased)
    = [TestEnabled_SampleMask; TestEnabled_FragmentDiscard; TestEnabled_DepthBounds] ∧
  ¬ ([TestEnabled_SampleMask; TestEnabled_FragmentDiscard; TestEnabled_DepthBounds]
       `sublist_of` redraw_order) ∧
  TestsFailedCallback.GetOcclusionResult Scene.zeroes
    (Scene.depth_bounds_pass Scene.bounds_and_discard_fail) 10 TestEnabled_DepthBounds = 0 ∧
  UpdateTestsFailed Scene.zeroes (Scene.depth_bounds_pass Scene.bounds_and_discard_fail) 10
    (TestsFailedCallback.GetEventFlags Scene.zeroes
       (Scene.depth_bounds_pass Scene.bounds_and_discard_fail) 10) erased
    = (set_shaderDiscarded true erased, [TestEnabled_SampleMask; TestEnabled_FragmentDiscard]).
Proof.
  split; [reflexivity|]. split; [reflexivity|]. split; [|split; reflexivity].
  vm_compute. intros Hsub. refute_sublist Hsub.
Qed.

(** C3 at a draw whose stencil test can only fail: the flags of the event
    have [TestMustFail_StencilTesting], the pass redraws the sample mask test
    alone, and the entry of the event comes back with [stencilTestFailed]
    (and every other failure flag) off. *)
Theorem stencil_must_fail_entry_not_flagged :
  ∃ history log entry,
    VulkanReplay.PixelHistory Scene.usages Scene.stencil_never_replays Scene.image
      Scene.draw_events 100 200 Scene.first_sample true = Some (history, log) ∧
    history = [entry] ∧ eventId entry = 10 ∧
    VulkanReplay.tfCb Scene.usages Scene.stencil_never_replays Scene.image Scene.draw_events
      100 200 Scene.first_sample = Some Scene.stencil_never_pass ∧
    has_flag (TestsFailedCallback.GetEventFlags Scene.zeroes Scene.stencil_never_pass 10)
      TestMustFail_StencilTesting = true ∧
    map TestsFailedCallback.rd_test (TestsFailedCallback.cmd Scene.stencil_never_pass)
      = [TestEnabled_SampleMask] ∧
    stencilTestFailed entry = false ∧
    (sampleMasked entry, backfaceCulled entry, depthClipped entry, scissorClipped entry,
     shaderDiscarded entry, depthTestFailed entry) = (false, false, false, false, false, false).
Proof.
  eexists _, _, _. split; [vm_compute; reflexivity|].
  repeat (split; [reflexivity|]). reflexivity.
Qed.

(** The stencil flag at the scene. *)
Lemma must_fail_stencil_not_reported_scene :
  has_flag (TestsFailedCallback.GetEventFlags (undefined Scene.stencil_never_replays)
              Scene.stencil_never_pass 10) TestMustFail_StencilTesting = true ∧
  (∀ st,
     let redrawn :=
       map TestsFailedCallback.rd_test
         (redraws_since st
            (TestsFailedCallback.ReplayDrawWithTests 10
               (TestsFailedCallback.GetEventFlags (undefined Scene.stencil_never_replays)
                  Scene.stencil_never_pass 10) st)) in
     (TestEnabled_StencilTesting ∉ redrawn) ∧
     (TestEnabled_DepthTesting ∉ redrawn) ∧
     (TestEnabled_FragmentDiscard ∉ redrawn)) ∧
  stencilTestFailed
    (VulkanReplay.apply_tests Scene.stencil_never_replays (Some Scene.stencil_never_pass) 10
       erased) = stencilTestFailed erased.
Proof.
  assert (Hflag : has_flag (TestsFailedCallback.GetEventFlags
                              (undefined Scene.stencil_never_replays)
                              Scene.stencil_never_pass 10) TestMustFail_StencilTesting = true)
    by reflexivity.
  split; [exact Hflag|].
  apply (must_fail_stencil_not_reported Scene.stencil_never_replays Scene.stencil_never_pass
           10 erased Hflag).
Defined.

(** *** The shader cache *)

(** C5 at the scene: the writing shader is not in the cache yet. *)
Lemma shader_without_side_effects_cached_scene :
  PixelHistoryShaderCache.m_ShaderReplacements Scene.cache !! (1, "main"%string) = None ∧
  PixelHistoryShaderCache.device_ok (PixelHistoryShaderCache.m_pDriver Scene.cache) = true ∧
  ∃ handle st',
    PixelHistoryShaderCache.GetShaderWithoutSideEffects Scene.cache 1 "main"
      = Some (handle, st') ∧
    (handle ≠ VK_NULL_HANDLE ↔
     instructions_removed
       (PixelHistoryShaderCache.GetShaderInfo (PixelHistoryShaderCache.m_pDriver Scene.cache) 1)
       "main") ∧
    (handle ≠ VK_NULL_HANDLE ->
     (handle ∉ PixelHistoryShaderCache.created
                 (PixelHistoryShaderCache.m_pDriver Scene.cache)) ∧
     PixelHistoryShaderCache.created (PixelHistoryShaderCache.m_pDriver st') =
     PixelHistoryShaderCache.created (PixelHistoryShaderCache.m_pDriver Scene.cache)
       ++ [handle]) ∧
    (handle = VK_NULL_HANDLE ->
     PixelHistoryShaderCache.created (PixelHistoryShaderCache.m_pDriver st') =
     PixelHistoryShaderCache.created (PixelHistoryShaderCache.m_pDriver Scene.cache)) ∧
    PixelHistoryShaderCache.GetShaderWithoutSideEffects st' 1 "main" = Some (handle, st').
Proof.
  split; [reflexivity|]. split; [reflexivity|].
  apply (shader_without_side_effects_cached Scene.cache 1 "main"); reflexivity.
Defined.

(** The two shaders of the scene: stripping takes the store and the image
    write out of the writing one, which comes back as module 1, and leaves
    the quiet one alone, which comes back as the null handle; either is
    stripped once. *)
Lemma shader_cache_scene :
  ∃ stripped st1 st2,
    PixelHistoryShaderCache.StripShaderSideEffects Scene.writing_shader 4
      = Some (true, stripped) ∧
    map rdcspv.body (rdcspv.functions stripped)
      = [ [rdcspv.OpOther 61; rdcspv.OpFunctionCall 9; rdcspv.OpNop];
          [rdcspv.OpNop; rdcspv.OpOther 253] ] ∧
    PixelHistoryShaderCache.StripShaderSideEffects Scene.quiet_shader 4
      = Some (false, Scene.quiet_shader) ∧
    PixelHistoryShaderCache.GetShaderWithoutSideEffects Scene.cache 1 "main" = Some (1, st1) ∧
    PixelHistoryShaderCache.GetShaderWithoutSideEffects st1 2 "main"
      = Some (VK_NULL_HANDLE, st2) ∧
    PixelHistoryShaderCache.GetShaderWithoutSideEffects st2 1 "main" = Some (1, st2) ∧
    PixelHistoryShaderCache.GetShaderWithoutSideEffects st2 2 "main"
      = Some (VK_NULL_HANDLE, st2) ∧
    PixelHistoryShaderCache.created (PixelHistoryShaderCache.m_pDriver st2) = [1] ∧
    PixelHistoryShaderCache.stripped st2 = 2%nat.
Proof.
  eexists _, _, _. split; [vm_compute; reflexivity|]. split; [reflexivity|].
  split; [vm_compute; reflexivity|]. split; [vm_compute; reflexivity|].
  split; [vm_compute; reflexivity|]. repeat split; reflexivity.
Qed.

(** *** The scissor *)

(** C6 at the scene: the pixel (100, 200) in the viewport of the target. *)
Lemma ScissorToPixel_narrows_scene :
  0 <= cb_x Scene.info < 2 ^ 24 ∧ 0 <= cb_y Scene.info < 2 ^ 24 ∧
  exact_viewport Scene.viewport ∧
  (VulkanPixelHistoryCallback.ScissorToPixel Scene.info Scene.viewport Scene.whole_target =
     VulkanPixelHistoryCallback.empty_scissor ↔
   pixel_outside_viewport (cb_x Scene.info) (cb_y Scene.info) Scene.viewport) ∧
  (¬ pixel_outside_viewport (cb_x Scene.info) (cb_y Scene.info) Scene.viewport ->
   VulkanPixelHistoryCallback.ScissorToPixel Scene.info Scene.viewport Scene.whole_target =
     {| offset := {| off_x := cb_x Scene.info; off_y := cb_y Scene.info |};
        extent := {| ext_width := 1; ext_height := 1 |} |}).
Proof.
  assert (Hx : 0 <= cb_x Scene.info < 2 ^ 24) by (simpl; lia).
  assert (Hy : 0 <= cb_y Scene.info < 2 ^ 24) by (simpl; lia).
  assert (Hview : exact_viewport Scene.viewport)
    by (repeat split; vm_compute; reflexivity).
  split; [exact Hx|]. split; [exact Hy|]. split; [exact Hview|].
  apply (ScissorToPixel_narrows Scene.info Scene.viewport Scene.whole_target Hx Hy Hview).
Defined.

(** C6 fails for a pixel that binary32 cannot hold: the pixel 16777219 is
    inside a viewport that is 16777220 wide, whose numbers are all exact,
    and still gets the empty scissor, because the conversion to float rounds
    its X coordinate to 16777220. *)
Lemma ScissorToPixel_rounds_far_pixel :
  0 <= cb_x Scene.far_pixel < 2 ^ 31 ∧ 0 <= cb_y Scene.far_pixel < 2 ^ 31 ∧
  exact_viewport Scene.wide_viewport ∧
  ¬ pixel_outside_viewport (cb_x Scene.far_pixel) (cb_y Scene.far_pixel) Scene.wide_viewport ∧
  VulkanPixelHistoryCallback.ScissorToPixel Scene.far_pixel Scene.wide_viewport
    Scene.whole_target = VulkanPixelHistoryCallback.empty_scissor.
Proof.
  split; [simpl; lia|]. split; [simpl; lia|].
  split; [repeat split; vm_compute; reflexivity|].
  split; [|vm_compute; reflexivity].
  intros Hout. vm_compute in Hout.
  destruct Hout as [H|[H|[H|H]]]; try discriminate; apply H; reflexivity.
Qed.

(** The scissor of the scene: one pixel at (100, 200) for the viewport of
    the target and for the flipped one, nothing for a pixel at the right
    edge of either. *)
Lemma scissor_scene :
  VulkanPixelHistoryCallback.ScissorToPixel Scene.info Scene.viewport Scene.whole_target =
    {| offset := {| off_x := 100; off_y := 200 |};
       extent := {| ext_width := 1; ext_height := 1 |} |} ∧
  VulkanPixelHistoryCallback.ScissorToPixel Scene.info Scene.flipped_viewport Scene.whole_target =
    {| offset := {| off_x := 100; off_y := 200 |};
       extent := {| ext_width := 1; ext_height := 1 |} |} ∧
  VulkanPixelHistoryCallback.ScissorToPixel Scene.at_right_edge Scene.viewport
    Scene.whole_target = VulkanPixelHistoryCallback.empty_scissor ∧
  VulkanPixelHistoryCallback.ScissorToPixel Scene.at_right_edge Scene.flipped_viewport
    Scene.whole_target = VulkanPixelHistoryCallback.empty_scissor.
Proof. repeat split; vm_compute; reflexivity. Qed.

(** The rectangles of the scene in exact arithmetic: the pixel (100, 200) is
    inside the viewport of the target and inside the flipped one, whose Y
    range is 1080 - 1080 .. 1080; a pixel at the right edge, x = 1920, is
    outside both. *)
Lemma rectangle_scene :
  exact_viewport Scene.viewport ∧ exact_viewport Scene.flipped_viewport ∧
  ¬ pixel_outside_viewport 100 200 Scene.viewport ∧
  ¬ pixel_outside_viewport 100 200 Scene.flipped_viewport ∧
  pixel_outside_viewport 1920 200 Scene.viewport ∧
  pixel_outside_viewport 1920 200 Scene.flipped_viewport.
Proof.
  split; [repeat split; vm_compute; reflexivity|].
  split; [repeat split; vm_compute; reflexivity|].
  split; [intros H; vm_compute in H;
          destruct H as [H|[H|[H|H]]]; try discriminate; apply H; reflexivity|].
  split; [intros H; vm_compute in H;
          destruct H as [H|[H|[H|H]]]; try discriminate; apply H; reflexivity|].
  split; right; left; vm_compute; discriminate.
Qed.

(** *** The passes over the frame *)

(** The occlusion pass over the frame: the draws 10 and 12 get the queries
    0 and 1 of a pool of four. *)
Lemma occlusion_queries_fit_pool_scene :
  NoDup (map draw_eid Scene.frame) ∧
  Z.of_nat (length Scene.events) < 2 ^ 32 ∧
  VulkanOcclusionCallback.cmd
    (VulkanOcclusionCallback.replay Scene.frame
       (VulkanOcclusionCallback.create Scene.events)) =
    occlusion_queries (map EventUsage.eventId Scene.events) Scene.frame ∧
  Forall (fun q => q.1 ∈ map EventUsage.eventId Scene.events ∧
                   0 <= q.2 < u32 (Z.of_nat (length Scene.events)))
         (VulkanOcclusionCallback.cmd
            (VulkanOcclusionCallback.replay Scene.frame
               (VulkanOcclusionCallback.create Scene.events))) ∧
  NoDup (map snd
           (VulkanOcclusionCallback.cmd
              (VulkanOcclusionCallback.replay Scene.frame
                 (VulkanOcclusionCallback.create Scene.events)))).
Proof.
  assert (Hnd : NoDup (map draw_eid Scene.frame)).
  { apply (bool_decide_unpack (NoDup (map draw_eid Scene.frame))). vm_compute. exact I. }
  assert (Hfit : Z.of_nat (length Scene.events) < 2 ^ 32) by (simpl; lia).
  split; [exact Hnd|]. split; [exact Hfit|].
  apply (occlusion_queries_fit_pool Scene.frame Scene.events Hnd Hfit).
Defined.

(** The results of the occlusion pass over the frame are those of the
    queries of the draws 10 and 12. *)
Lemma occlusion_result_is_own_query_scene :
  NoDup (map draw_eid Scene.frame) ∧
  Z.of_nat (length Scene.events) < 2 ^ 32 ∧
  (∀ eid idx,
     (eid, idx) ∈ VulkanOcclusionCallback.cmd
                    (VulkanOcclusionCallback.run Scene.frame Scene.occlusion Scene.events) ->
     VulkanOcclusionCallback.GetOcclusionResult Scene.zeroes
       (VulkanOcclusionCallback.run Scene.frame Scene.occlusion Scene.events) eid =
     Scene.occlusion idx) ∧
  (∀ eid,
     eid ∈ map fst (VulkanOcclusionCallback.cmd
                      (VulkanOcclusionCallback.run Scene.frame Scene.occlusion Scene.events)) ↔
     eid ∈ map EventUsage.eventId Scene.events ∧ eid ∈ map draw_eid Scene.frame) ∧
  (∀ eid,
     eid ∉ map fst (VulkanOcclusionCallback.cmd
                      (VulkanOcclusionCallback.run Scene.frame Scene.occlusion Scene.events)) ->
     VulkanOcclusionCallback.GetOcclusionResult Scene.zeroes
       (VulkanOcclusionCallback.run Scene.frame Scene.occlusion Scene.events) eid = 0).
Proof.
  assert (Hnd : NoDup (map draw_eid Scene.frame)).
  { apply (bool_decide_unpack (NoDup (map draw_eid Scene.frame))). vm_compute. exact I. }
  assert (Hfit : Z.of_nat (length Scene.events) < 2 ^ 32) by (simpl; lia).
  split; [exact Hnd|]. split; [exact Hfit|].
  apply (occlusion_result_is_own_query Scene.frame Scene.occlusion Scene.events Scene.zeroes
           Hnd Hfit).
Defined.

(** The test-failure pass over the frame: the flags and the redraws of its
    draws, and the results read back. *)
Lemma tests_failed_result_is_own_query_scene :
  NoDup (map draw_eid Scene.frame) ∧
  6 * Z.of_nat (length Scene.pass_events) < 2 ^ 32 ∧
  (∀ d, d ∈ Scene.frame -> draw_eid d ∈ Scene.pass_events ->
     TestsFailedCallback.GetEventFlags Scene.zeroes
       (TestsFailedCallback.run Scene.features Scene.info Scene.frame Scene.all_pass
          Scene.pass_events) (draw_eid d) =
     TestsFailedCallback.CalculateEventFlags Scene.features Scene.info (draw_pipeline d)
       (draw_state d) ∧
     map TestsFailedCallback.rd_test
       (redraws_of (draw_eid d)
          (TestsFailedCallback.run Scene.features Scene.info Scene.frame Scene.all_pass
             Scene.pass_events)) =
     tests_issued
       (TestsFailedCallback.CalculateEventFlags Scene.features Scene.info (draw_pipeline d)
          (draw_state d))) ∧
  (∀ r,
     r ∈ TestsFailedCallback.cmd
           (TestsFailedCallback.run Scene.features Scene.info Scene.frame Scene.all_pass
              Scene.pass_events) ->
     TestsFailedCallback.GetOcclusionResult Scene.zeroes
       (TestsFailedCallback.run Scene.features Scene.info Scene.frame Scene.all_pass
          Scene.pass_events)
       (TestsFailedCallback.rd_event r) (TestsFailedCallback.rd_test r) =
     Scene.all_pass (TestsFailedCallback.rd_index r)) ∧
  map TestsFailedCallback.rd_index
    (TestsFailedCallback.cmd
       (TestsFailedCallback.run Scene.features Scene.info Scene.frame Scene.all_pass
          Scene.pass_events)) =
  map Z.of_nat
    (seq 0%nat
       (length
          (TestsFailedCallback.cmd
             (TestsFailedCallback.run Scene.features Scene.info Scene.frame Scene.all_pass
                Scene.pass_events)))).
Proof.
  assert (Hnd : NoDup (map draw_eid Scene.frame)).
  { apply (bool_decide_unpack (NoDup (map draw_eid Scene.frame))). vm_compute. exact I. }
  assert (Hfit : 6 * Z.of_nat (length Scene.pass_events) < 2 ^ 32) by (simpl; lia).
  split; [exact Hnd|]. split; [exact Hfit|].
  apply (tests_failed_result_is_own_query Scene.features Scene.info Scene.frame Scene.all_pass
           Scene.pass_events Scene.zeroes Hnd Hfit).
Defined.

(** Draw 10 of the frame in the test-failure pass: every result that
    [UpdateTestsFailed] reads for it is the result of a redraw of the
    draw. *)
Lemma tests_failed_reads_are_issued_scene :
  NoDup (map draw_eid Scene.frame) ∧
  6 * Z.of_nat (length Scene.pass_events) < 2 ^ 32 ∧
  Scene.draw 10 Scene.plain ∈ Scene.frame ∧
  draw_eid (Scene.draw 10 Scene.plain) ∈ Scene.pass_events ∧
  has_flag
    (TestsFailedCallback.GetEventFlags (undefined Scene.replays)
       (TestsFailedCallback.run Scene.features Scene.info Scene.frame Scene.all_pass
          Scene.pass_events) 10) TestMustFail_StencilTesting = false ∧
  has_flag
    (TestsFailedCallback.GetEventFlags (undefined Scene.replays)
       (TestsFailedCallback.run Scene.features Scene.info Scene.frame Scene.all_pass
          Scene.pass_events) 10) TestMustFail_DepthTesting = false ∧
  (let tfCb := TestsFailedCallback.run Scene.features Scene.info Scene.frame Scene.all_pass
                 Scene.pass_events in
   let flags := TestsFailedCallback.GetEventFlags (undefined Scene.replays) tfCb 10 in
   VulkanReplay.apply_tests Scene.replays (Some tfCb) 10 erased =
     fst (UpdateTestsFailed (undefined Scene.replays) tfCb 10 flags
            (copy_must_fail flags erased)) ∧
   (TestEnabled_FragmentDiscard ∈
      snd (UpdateTestsFailed (undefined Scene.replays) tfCb 10 flags
             (copy_must_fail flags erased)) ->
    ∃ r, r ∈ TestsFailedCallback.cmd tfCb ∧
         TestsFailedCallback.rd_event r = 10 ∧
         TestsFailedCallback.rd_test r = TestEnabled_FragmentDiscard ∧
         TestsFailedCallback.GetOcclusionResult (undefined Scene.replays) tfCb 10
           TestEnabled_FragmentDiscard =
         Scene.all_pass (TestsFailedCallback.rd_index r))).
Proof.
  assert (Hnd : NoDup (map draw_eid Scene.frame)).
  { apply (bool_decide_unpack (NoDup (map draw_eid Scene.frame))). vm_compute. exact I. }
  assert (Hfit : 6 * Z.of_nat (length Scene.pass_events) < 2 ^ 32) by (simpl; lia).
  assert (Hd : Scene.draw 10 Scene.plain ∈ Scene.frame) by apply list_elem_of_here.
  assert (He : draw_eid (Scene.draw 10 Scene.plain) ∈ Scene.pass_events)
    by apply list_elem_of_here.
  assert (Hs : has_flag
                 (TestsFailedCallback.GetEventFlags (undefined Scene.replays)
                    (TestsFailedCallback.run Scene.features Scene.info Scene.frame
                       Scene.all_pass Scene.pass_events)
                    (draw_eid (Scene.draw 10 Scene.plain)))
                 TestMustFail_StencilTesting = false) by (vm_compute; reflexivity).
  assert (Hz : has_flag
                 (TestsFailedCallback.GetEventFlags (undefined Scene.replays)
                    (TestsFailedCallback.run Scene.features Scene.info Scene.frame
                       Scene.all_pass Scene.pass_events)
                    (draw_eid (Scene.draw 10 Scene.plain)))
                 TestMustFail_DepthTesting = false) by (vm_compute; reflexivity).
  split; [exact Hnd|]. split; [exact Hfit|]. split; [exact Hd|]. split; [exact He|].
  split; [exact Hs|]. split; [exact Hz|].
  apply (tests_failed_reads_are_issued Scene.features Scene.info Scene.frame Scene.all_pass
           Scene.pass_events Scene.replays (Scene.draw 10 Scene.plain) erased
           TestEnabled_FragmentDiscard Hnd Hfit Hd He Hs Hz).
Defined.

(** The sample looked at in the scene is sample 0: a pipeline whose sample
    mask has bit 0 set does not mask the pixel. *)
Lemma sample_mask_must_fail_scene :
  (if u32 (img_samples Scene.image) <? u32 (sample Scene.first_sample)
   then 0 else u32 (sample Scene.first_sample)) < 32 ∧
  VulkanReplay.sampleMask Scene.image Scene.first_sample = 2 ^ 0 ∧
  has_flag
    (TestsFailedCallback.CalculateEventFlags Scene.features
       (VulkanReplay.callbackInfo Scene.image 100 200 Scene.first_sample) Scene.plain
       {| state_scissors := [] |})
    TestMustFail_SampleMask = negb (Z.testbit (sampleMask Scene.plain) 0).
Proof.
  assert (Hlt : (if u32 (img_samples Scene.image) <? u32 (sample Scene.first_sample)
                 then 0 else u32 (sample Scene.first_sample)) < 32) by reflexivity.
  split; [exact Hlt|].
  apply (sample_mask_must_fail Scene.features Scene.image 100 200 Scene.first_sample
           Scene.plain {| state_scissors := [] |} Hlt).
Defined.

(** *** The pipelines of the test-failure pass *)

(** The pixel of the scene lies in the whole target: intersecting with it
    leaves the scissor of the pixel. *)
Lemma IntersectScissors_keeps_pixel_scene :
  0 <= cb_x Scene.info < 2 ^ 31 ∧ 0 <= cb_y Scene.info < 2 ^ 31 ∧
  0 <= off_x (offset Scene.whole_target) ∧ 0 <= off_y (offset Scene.whole_target) ∧
  0 <= ext_width (extent Scene.whole_target) ∧
  0 <= ext_height (extent Scene.whole_target) ∧
  off_x (offset Scene.whole_target) + ext_width (extent Scene.whole_target) < 2 ^ 32 ∧
  off_y (offset Scene.whole_target) + ext_height (extent Scene.whole_target) < 2 ^ 32 ∧
  TestsFailedCallbackPipelines.IntersectScissors Scene.whole_target
    (VulkanPixelHistoryCallback.ScissorToPixel Scene.info Scene.viewport Scene.whole_target) =
  if TestsFailedCallback.pixel_in_scissor (cb_x Scene.info) (cb_y Scene.info)
       Scene.whole_target
  then VulkanPixelHistoryCallback.ScissorToPixel Scene.info Scene.viewport Scene.whole_target
  else VulkanPixelHistoryCallback.empty_scissor.
Proof.
  assert (H1 : 0 <= cb_x Scene.info < 2 ^ 31) by (simpl; lia).
  assert (H2 : 0 <= cb_y Scene.info < 2 ^ 31) by (simpl; lia).
  assert (H3 : 0 <= off_x (offset Scene.whole_target)) by (simpl; lia).
  assert (H4 : 0 <= off_y (offset Scene.whole_target)) by (simpl; lia).
  assert (H5 : 0 <= ext_width (extent Scene.whole_target)) by (simpl; lia).
  assert (H6 : 0 <= ext_height (extent Scene.whole_target)) by (simpl; lia).
  assert (H7 : off_x (offset Scene.whole_target) + ext_width (extent Scene.whole_target)
               < 2 ^ 32) by (simpl; lia).
  assert (H8 : off_y (offset Scene.whole_target) + ext_height (extent Scene.whole_target)
               < 2 ^ 32) by (simpl; lia).
  repeat (split; [assumption|]).
  apply (IntersectScissors_keeps_pixel Scene.info Scene.viewport Scene.whole_target
           Scene.whole_target H1 H2 H3 H4 H5 H6 H7 H8).
Defined.

(** The pipeline of the scissor redraw on the device of the scene: its
    scissor is the scissor of the pixel. *)
Lemma static_scissor_not_intersected_scene :
  TestsFailedCallbackPipelines.m_PipeCache Scene.no_pipelines !!
    (7, TestsFailedCallback.PipelineCreationFlags_IntersectOriginalScissor) = None ∧
  TestsFailedCallbackPipelines.creates Scene.device = true ∧
  (let base := TestsFailedCallbackPipelines.MakeGraphicsPipelineInfo Scene.device 7 in
   let out :=
     TestsFailedCallbackPipelines.CreatePipeline Scene.device Scene.info 7
       TestsFailedCallback.PipelineCreationFlags_IntersectOriginalScissor false
       Scene.no_replacements 0 Scene.no_pipelines in
   ∃ ci,
     TestsFailedCallbackPipelines.pipelines (snd out) =
       TestsFailedCallbackPipelines.pipelines Scene.no_pipelines ++ [(fst out, ci)] ∧
     (fst out ∉ map fst (TestsFailedCallbackPipelines.pipelines Scene.no_pipelines)) ∧
     TestsFailedCallbackPipelines.vs_pScissors ci =
       scissors_to_pixel Scene.info (TestsFailedCallbackPipelines.vs_pViewports base)
         (TestsFailedCallbackPipelines.vs_pScissors base) ∧
     TestsFailedCallbackPipelines.vs_pViewports ci =
       TestsFailedCallbackPipelines.vs_pViewports base ∧
     TestsFailedCallbackPipelines.ds_depthWriteEnable ci = false ∧
     TestsFailedCallbackPipelines.ms_pSampleMask ci = cb_sampleMask Scene.info).
Proof.
  assert (Hmiss : TestsFailedCallbackPipelines.m_PipeCache Scene.no_pipelines !!
                    (7, TestsFailedCallback.PipelineCreationFlags_IntersectOriginalScissor)
                  = None) by reflexivity.
  assert (Hok : TestsFailedCallbackPipelines.creates Scene.device = true) by reflexivity.
  split; [exact Hmiss|]. split; [exact Hok|].
  apply (static_scissor_not_intersected Scene.device Scene.info 7
           TestsFailedCallback.PipelineCreationFlags_IntersectOriginalScissor
           Scene.no_replacements 0 Scene.no_pipelines Hmiss Hok).
Defined.

(** The pipeline of the depth bounds redraw of a draw with every test on:
    culling and the depth bounds test stay as they are, the stencil and
    depth tests are off. *)
Lemma redraw_pipeline_keeps_test_scene :
  Scene.depth_bounds_redraw ∈
    redraws_since (TestsFailedCallback.create [10])
      (TestsFailedCallback.ReplayDrawWithTests 10 Scene.every_test
         (TestsFailedCallback.create [10])) ∧
  TestsFailedCallbackPipelines.m_PipeCache Scene.no_pipelines !!
    (7, TestsFailedCallback.rd_pipeFlags Scene.depth_bounds_redraw) = None ∧
  TestsFailedCallbackPipelines.creates Scene.device = true ∧
  (let out :=
     TestsFailedCallbackPipelines.CreatePipeline Scene.device Scene.info 7
       (TestsFailedCallback.rd_pipeFlags Scene.depth_bounds_redraw) false
       Scene.no_replacements 0 Scene.no_pipelines in
   ∃ ci,
     TestsFailedCallbackPipelines.pipelines (snd out) =
       TestsFailedCallbackPipelines.pipelines Scene.no_pipelines ++ [(fst out, ci)] ∧
     pipeline_tests ci =
       tests_kept (TestsFailedCallback.rd_test Scene.depth_bounds_redraw)
         (pipeline_tests (TestsFailedCallbackPipelines.MakeGraphicsPipelineInfo Scene.device 7)) ∧
     TestsFailedCallbackPipelines.ds_depthWriteEnable ci = false ∧
     TestsFailedCallbackPipelines.ms_pSampleMask ci = cb_sampleMask Scene.info).
Proof.
  assert (Hin : Scene.depth_bounds_redraw ∈
                  redraws_since (TestsFailedCallback.create [10])
                    (TestsFailedCallback.ReplayDrawWithTests 10 Scene.every_test
                       (TestsFailedCallback.create [10]))).
  { apply list_elem_of_lookup. exists 1%nat. vm_compute. reflexivity. }
  assert (Hmiss : TestsFailedCallbackPipelines.m_PipeCache Scene.no_pipelines !!
                    (7, TestsFailedCallback.rd_pipeFlags Scene.depth_bounds_redraw) = None)
    by reflexivity.
  assert (Hok : TestsFailedCallbackPipelines.creates Scene.device = true) by reflexivity.
  split; [exact Hin|]. split; [exact Hmiss|]. split; [exact Hok|].
  apply (redraw_pipeline_keeps_test Scene.device Scene.info 10 Scene.every_test
           (TestsFailedCallback.create [10]) 7 false Scene.no_replacements 0
           Scene.no_pipelines Scene.depth_bounds_redraw Hin Hmiss Hok).
Defined.

(** *** The discarded-fragments pass *)

(** The primitives 0 and 1 of draw 10 get the queries 0 and 1, and
    [PrimitiveDiscarded] reads their results. *)
Lemma discarded_result_is_own_query_scene :
  NoDup (map draw_eid Scene.frame) ∧
  (∀ eid primIds, Scene.clipped !! eid = Some primIds -> NoDup (map u32 primIds)) ∧
  Z.of_nat (total_primitives Scene.clipped) < 2 ^ 32 ∧
  (let st := DiscardedFragmentsReplay.run Scene.frame Scene.occlusion Scene.clipped in
   map query_key (DiscardedFragmentsReplay.cmd st) = primitives_of Scene.clipped Scene.frame ∧
   map DiscardedFragmentsReplay.q_index (DiscardedFragmentsReplay.cmd st) =
     map Z.of_nat (seq 0%nat (length (DiscardedFragmentsReplay.cmd st))) ∧
   (length (DiscardedFragmentsReplay.cmd st) ≤ total_primitives Scene.clipped)%nat ∧
   (∀ q, q ∈ DiscardedFragmentsReplay.cmd st ->
      VulkanPixelHistoryDiscardedFragmentsCallback.PrimitiveDiscarded Scene.zeroes
        (DiscardedFragmentsReplay.callback st)
        (DiscardedFragmentsReplay.q_event q) (DiscardedFragmentsReplay.q_primId q) =
      (Scene.occlusion (DiscardedFragmentsReplay.q_index q) =? 0)) ∧
   (∀ eid primId, (eid, primId) ∉ primitives_of Scene.clipped Scene.frame ->
      VulkanPixelHistoryDiscardedFragmentsCallback.PrimitiveDiscarded Scene.zeroes
        (DiscardedFragmentsReplay.callback st) eid primId = false)).
Proof.
  assert (Hnd : NoDup (map draw_eid Scene.frame)).
  { apply (bool_decide_unpack (NoDup (map draw_eid Scene.frame))). vm_compute. exact I. }
  assert (Hprims : ∀ eid primIds, Scene.clipped !! eid = Some primIds ->
                                  NoDup (map u32 primIds)).
  { intros eid primIds Hl. unfold Scene.clipped in Hl.
    apply lookup_singleton_Some in Hl as [_ <-].
    apply (bool_decide_unpack (NoDup (map u32 [0; 1]))). vm_compute. exact I. }
  assert (Hfit : Z.of_nat (total_primitives Scene.clipped) < 2 ^ 32)
    by (vm_compute; reflexivity).
  split; [exact Hnd|]. split; [exact Hprims|]. split; [exact Hfit|].
  apply (discarded_result_is_own_query Scene.clipped Scene.frame Scene.occlusion Scene.zeroes
           Hnd Hprims Hfit).
Defined.

(** Two entries of draw 10 marked as possibly clipped: the pool of the
    discarded-fragments pass has room for the queries of their
    primitives. *)
Lemma discarded_queries_fit_pool_scene :
  NoDup (map draw_eid Scene.frame) ∧
  Z.of_nat (length Scene.clipped_history) < 2 ^ 32 ∧
  (let out :=
     fold_left
       (VulkanReplay.primitive_step Scene.replays Scene.fragment_offsets Scene.frags
          Scene.fragments)
       (seq 0%nat (length Scene.clipped_history)) (Scene.clipped_history, ∅, 0) in
   let discardedPrimsEvents := out.1.2 in
   let primitivesToCheck := out.2 in
   primitivesToCheck = Z.of_nat (total_primitives discardedPrimsEvents) ∧
   Forall (fun q => 0 <= DiscardedFragmentsReplay.q_index q < primitivesToCheck)
     (DiscardedFragmentsReplay.cmd
        (DiscardedFragmentsReplay.run Scene.frame Scene.occlusion discardedPrimsEvents))).
Proof.
  assert (Hnd : NoDup (map draw_eid Scene.frame)).
  { apply (bool_decide_unpack (NoDup (map draw_eid Scene.frame))). vm_compute. exact I. }
  assert (Hfit : Z.of_nat (length Scene.clipped_history) < 2 ^ 32) by (simpl; lia).
  split; [exact Hnd|]. split; [exact Hfit|].
  apply (discarded_queries_fit_pool Scene.replays Scene.fragment_offsets Scene.frags
           Scene.fragments Scene.clipped_history Scene.frame Scene.occlusion Hnd Hfit).
Defined.

(** *** The records of the colour pass and of the per-fragment pass *)

(** The draws of the scene inside a secondary command buffer: the events
    5, 10 and 14 get an index below three, each its own. *)
Lemma event_indices_number_records_scene :
  Z.of_nat (length Scene.mod_events) < 2 ^ 31 ∧
  (let st :=
     ColorAndStencilReplay.replay Scene.info Scene.depth_outputs Scene.secondary_calls
       (ColorAndStencilReplay.create Scene.mod_events) in
   (∀ eid,
      let eventIndex :=
        VulkanColorAndStencilCallback.GetEventIndex (ColorAndStencilReplay.callback st) eid in
      (eventIndex = -1 ∧ ColorAndStencilReplay.indices st !! eid = None) ∨
      (eid ∈ Scene.mod_events ∧ 0 <= eventIndex < Z.of_nat (length Scene.mod_events) ∧
       ColorAndStencilReplay.indices st !! eid = Some eventIndex)) ∧
   (∀ eid eid',
      VulkanColorAndStencilCallback.GetEventIndex (ColorAndStencilReplay.callback st) eid ≠ -1 ->
      VulkanColorAndStencilCallback.GetEventIndex (ColorAndStencilReplay.callback st) eid =
        VulkanColorAndStencilCallback.GetEventIndex (ColorAndStencilReplay.callback st) eid' ->
      eid = eid')).
Proof.
  assert (Hfit : Z.of_nat (length Scene.mod_events) < 2 ^ 31) by (simpl; lia).
  split; [exact Hfit|].
  apply (event_indices_number_records Scene.info Scene.depth_outputs Scene.secondary_calls
           Scene.mod_events Hfit).
Defined.

(** The actions of the scene in a primary command buffer: the events 5, 10
    and 14 get the records 0, 1 and 2, and every copy goes to the record of
    its event. *)
Lemma colour_copies_in_own_record_scene :
  NoDup (map ColorAndStencilReplay.action_eid Scene.actions) ∧
  Z.of_nat (length Scene.mod_events) < 2 ^ 31 ∧
  (let st :=
     ColorAndStencilReplay.replay Scene.info Scene.depth_outputs
       (flat_map ColorAndStencilReplay.calls_of Scene.actions)
       (ColorAndStencilReplay.create Scene.mod_events) in
   map (fun a =>
          VulkanColorAndStencilCallback.GetEventIndex (ColorAndStencilReplay.callback st)
            (ColorAndStencilReplay.action_eid a))
     (listed Scene.mod_events Scene.actions) =
     map Z.of_nat (seq 0%nat (length (listed Scene.mod_events Scene.actions))) ∧
   (∀ c, c ∈ ColorAndStencilReplay.copies st ->
      let eventIndex :=
        VulkanColorAndStencilCallback.GetEventIndex (ColorAndStencilReplay.callback st)
          (ColorAndStencilReplay.c_event c) in
      ColorAndStencilReplay.c_event c ∈ Scene.mod_events ∧
      0 <= eventIndex < Z.of_nat (length Scene.mod_events) ∧
      ColorAndStencilReplay.c_offset c ∈ event_fields eventIndex ∧
      Forall (fun r => (PixelCopy.bufferOffset r, PixelCopy.aspectMask r) ∈
                         event_layout eventIndex)
        (PixelCopy.CopyImagePixel Scene.formats Scene.info
           (ColorAndStencilReplay.c_params c) (ColorAndStencilReplay.c_offset c)))).
Proof.
  assert (Hnd : NoDup (map ColorAndStencilReplay.action_eid Scene.actions)).
  { apply (bool_decide_unpack (NoDup (map ColorAndStencilReplay.action_eid Scene.actions))).
    vm_compute. exact I. }
  assert (Hfit : Z.of_nat (length Scene.mod_events) < 2 ^ 31) by (simpl; lia).
  split; [exact Hnd|]. split; [exact Hfit|].
  apply (colour_copies_in_own_record Scene.formats Scene.info Scene.depth_outputs
           Scene.mod_events Scene.actions Hnd Hfit).
Defined.

(** The two fragments of draw 10 get the records 0 and 1 of the
    per-fragment pass. *)
Lemma per_fragment_copies_in_own_record_scene :
  (∀ eid n, Scene.fragments !! eid = Some n -> 0 < n) ∧
  NoDup (map draw_eid Scene.frame) ∧
  fragments_of Scene.fragments Scene.frame * 96 < 2 ^ 32 ∧
  (let st :=
     PerFragmentReplay.replay Scene.info Scene.depth_outputs Scene.frame
       (PerFragmentReplay.create Scene.fragments) in
   let offset :=
     VulkanPixelHistoryPerFragmentCallback.GetEventOffset Scene.zeroes
       (PerFragmentReplay.callback st) in
   (∀ c, c ∈ PerFragmentReplay.copies st ->
      ∃ n, Scene.fragments !! PerFragmentReplay.c_event c = Some n ∧
           0 <= PerFragmentReplay.c_fragment c < n ∧
           PerFragmentReplay.c_offset c ∈
             fragment_fields (offset (PerFragmentReplay.c_event c) +
                              PerFragmentReplay.c_fragment c)) ∧
   (∀ d n, d ∈ Scene.frame -> Scene.fragments !! draw_eid d = Some n ->
           0 <= offset (draw_eid d) ∧
           offset (draw_eid d) + n <= fragments_of Scene.fragments Scene.frame) ∧
   (∀ d d' n n', d ∈ Scene.frame -> d' ∈ Scene.frame -> draw_eid d ≠ draw_eid d' ->
                 Scene.fragments !! draw_eid d = Some n ->
                 Scene.fragments !! draw_eid d' = Some n' ->
                 offset (draw_eid d) + n <= offset (draw_eid d') ∨
                 offset (draw_eid d') + n' <= offset (draw_eid d))).
Proof.
  assert (Hpos : ∀ eid n, Scene.fragments !! eid = Some n -> 0 < n).
  { intros eid n Hl. unfold Scene.fragments in Hl.
    apply lookup_singleton_Some in Hl as [_ <-]. lia. }
  assert (Hnd : NoDup (map draw_eid Scene.frame)).
  { apply (bool_decide_unpack (NoDup (map draw_eid Scene.frame))). vm_compute. exact I. }
  assert (Hfit : fragments_of Scene.fragments Scene.frame * 96 < 2 ^ 32)
    by (vm_compute; reflexivity).
  split; [exact Hpos|]. split; [exact Hnd|]. split; [exact Hfit|].
  apply (per_fragment_copies_in_own_record Scene.info Scene.depth_outputs Scene.fragments
           Scene.frame Scene.zeroes Hpos Hnd Hfit).
Defined.

(** *** The failure reported *)

(** An entry without a failure, updated from a pass in which the depth
    bounds and the shader discard queries counted no sample: one failure is
    reported, that of the last test read. *)
Lemma UpdateTestsFailed_stops_at_first_failure_scene :
  failures erased = repeat false 7 ∧
  (let out :=
     UpdateTestsFailed Scene.zeroes (Scene.depth_bounds_pass Scene.bounds_and_discard_fail) 10
       (TestsFailedCallback.GetEventFlags Scene.zeroes
          (Scene.depth_bounds_pass Scene.bounds_and_discard_fail) 10) erased in
   let occl :=
     TestsFailedCallback.GetOcclusionResult Scene.zeroes
       (Scene.depth_bounds_pass Scene.bounds_and_discard_fail) 10 in
   (length (filter (fun b => b = true) (failures out.1)) ≤ 1)%nat ∧
   (∀ test, reported test out.1 = true ↔ last out.2 = Some test ∧ occl test = 0) ∧
   (∀ test, test ∈ removelast out.2 -> occl test ≠ 0)).
Proof.
  assert (Hnone : failures erased = repeat false 7) by reflexivity.
  split; [exact Hnone|].
  apply (UpdateTestsFailed_stops_at_first_failure Scene.zeroes
           (Scene.depth_bounds_pass Scene.bounds_and_discard_fail) 10
           (TestsFailedCallback.GetEventFlags Scene.zeroes
              (Scene.depth_bounds_pass Scene.bounds_and_discard_fail) 10) erased Hnone).
Defined.
